(* ===== verification/_CoqProject ===== *)
-Q . S2P
Prelude.v
GoStrings.v
GoFloat.v
Units.v
Messages.v
Errors.v
GoIO.v
Reader.v
Frames.v
MediaType.v
Http.v
Codec.v
ReferenceCodec.v
Service.v
StreamWriter.v
StreamAlone.v
StreamSafety.v
StreamServer.v
StreamReader.v
TimedBody.v
StreamClient.v
Client.v
ClientSpec.v
Retry.v
RetrySpec.v
RetryClient.v
Pagination.v
DemoService.v
Mandelbrot.v
DemoHandler.v
DemoServe.v
DemoClient.v
DemoSpec.v
GoNet.v
Scanner.v
Log.v
LogSpec.v
Wait.v
Tls.v
TlsLocal.v
TlsSpec.v
TlsChain.v
GoTime.v
GoFlag.v
DuhCmd.v
DuhSpec.v
DemoMain.v
