(* ===== verification/Prelude.v ===== *)
(** * duh.go: a verification library

    The program is a Go library for RPC over HTTP with a demo service and two
    commands.  A service reads requests and writes replies (service.go) or
    streams of frames (streaming.go over stream/stream.go); a client sends
    requests and classifies what comes back (client.go); errors carry a code,
    a message and details through both (errors.go); retries (retry/retry.go,
    policies.go) and pagination (pagination.go) call the client in loops; a
    reader limits bodies (reader.go); tls.go sets up certificates, wait.go and
    log.go help to run a server; demo/ is a service with its client; cmd/duh
    sends the documents of a file.

    The model is a shallow embedding: Go functions are functions on the state
    they change, panics are the [outcome] monad of this file, errors are values
    of [goerror], byte streams are classes, and where goroutines share state
    the code is a tree or a relation of atomic actions that a step relation
    interleaves.

    ** Files

    The Go standard library, as far as the code uses it: GoStrings (strings,
    strconv), GoFloat (float64 arithmetic on [SpecFloat], [math.Pow],
    [ParseFloat], formatting), GoIO (io.Reader and io.Writer as classes,
    [ReadFull], [Copy], closable bodies, the concrete [source]), GoNet (IP
    addresses, PEM), GoTime ([ParseDuration]), GoFlag ([flag.Parse]),
    Scanner ([bufio.Scanner]), Http (headers, requests, the ResponseWriter), MediaType.

    The library under src/:
    - Units, Reader: reader.go.  [bytesToSI]; [LimitReader] with its int64
      counter over any reader.
    - Messages, Codec, ReferenceCodec: the fields of the generated structs; the
      encodings as an interface with laws; an instance of it.
    - Errors: errors.go.  Go errors with method sets and [Unwrap] chains,
      [errors.As], [serviceError], [ClientError], the codes.
    - Frames: stream/stream.go.  [WriteFrame], [ReadFrame], the wire format.
    - Service: service.go.  [ReadRequest], [ReadContent], [Reply] with its
      recursion, [ReplyError], [WriteContent], [HandleBytes].
    - StreamWriter: streaming.go, the server.  [handle_stream] is the handler's
      goroutine, [heartbeat_tick] the ticker's; both are trees of actions
      ([proc]) on the shared [streamWriter]; [step] interleaves them.
      StreamAlone runs the handler alone, StreamSafety has the invariant,
      StreamServer the theorems.
    - StreamReader, TimedBody: streaming.go, the client.  [Recv] and [Close]
      over any body; bodies with a clock.  StreamClient has the theorems.
    - Client, ClientSpec: client.go.  [Do], [DoStream], [DoBytes], [DoContent],
      [handleErrorResponse], the two ends joined.
    - Retry, RetrySpec: retry/retry.go, policies.go.  Intervals, policies,
      [rateLimitDuration], the loop [On].
      RetryClient: [On] over [Client.Do] against a service.
    - Pagination: pagination.go.  [Iterator] with [Next] and [Err].
    - DemoService, DemoHandler, DemoClient: demo/.  Mandelbrot has the
      reference of RenderPixel, DemoServe every call of the handler from its
      beginning to its end, DemoSpec the client and the service together.
    - Tls, TlsLocal, TlsSpec, TlsChain: tls.go, in a monad of the world, the
      TLSConfig and the log; a computable host; weakest preconditions and the
      theorems.
    - Log, LogSpec: log.go.  The [HttpLogAdaptor] as clients, a pipe and a
      goroutine.
    - Wait: wait.go.
    - DuhCmd, DuhSpec: cmd/duh/main.go.  DemoMain: cmd/demo/main.go, its two
      goroutines as a step relation.

    ** What the theorems show

    Frames survive any fragmentation of reads ([Frames.frame_roundtrip]).
    Under every interleaving with the heartbeats HandleStream has no data race,
    joins its goroutine and terminates, and on a connection that takes every
    write it refines its contract and never tears a frame (StreamServer).  [Recv] implements the contract of the reader,
    with its timeouts, and what a handler sends arrives in order
    (StreamClient).  Replies and errors cross the wire from service to client
    (ClientSpec).  Replies always have a status, the service headers and a body
    (Service); every call of the demo handler ends with a complete answer or
    whole frames, or panics on a negative count (DemoServe); bodies are limited, decoded and closed (Reader,
    Service, ClientSpec).  [On] makes the attempts of its policy and no more
    and terminates (RetrySpec), and over a client and a service gives the
    caller the reply or the last error (RetryClient); an iterator collects all
    pages (Pagination).  The demo works end to end (DemoSpec), and RenderPixel
    follows the orbit of z^2 + c (Mandelbrot).  SetupTLS never panics, yields a
    well-formed configuration and a chain that verifies (TlsSpec, TlsChain).
    The log adaptor logs exactly the lines it took and always finishes, when no
    write is empty (LogSpec).  WaitForConnect ends at most a sleep and the
    latency of the environment after its deadline (Wait).  The duh command
    processes the documents of its file in order (DuhSpec); the exit status of
    the demo command says whether listening and shutting down went well, up to
    the race that [DemoMain.demo_race] exhibits (DemoMain).

    ** Bounds and fuel

    Loops over a reader take [io_left] rounds, the measure of [FiniteReader]:
    every read without error decreases it, and [Copy_total], [ReadFull_total]
    and [Scan_spec] show that this is enough.  [Recv] is given the bytes its
    body can still deliver; every frame consumes some
    ([StreamClient.Recv_returns_then_EOF]).  [On] has one unit for each
    attempt ([RetrySpec.On_terminates]); WaitForConnect one for each dial, and
    its deadline bounds them.  String functions take the length of their
    argument.  Integers whose width matters are [Z] wrapped by [int64],
    [int32] and [uint32]; lengths of slices are natural numbers.

    ** Parameters

    Third-party code and the environment are classes: [Codec] (protojson and
    proto; laws in [CodecLaws] and [CodecErrors]), the [http_Do] of a client, [StreamBody]
    (response bodies and their timers), [RetryEnv], [TLSWorld] with
    [CertificateLaws] (files, clock, keys, x509, network), [SetDefault] (the
    set package of tackle), [WaitEnv] (with [WaitClock] and [WaitTimely]), [Yaml], [Network].  Left open of the
    standard library are the case tables of Unicode ([UnicodeTables]), the
    capitalisation of x/text ([TitleCase]), net/url ([URLParser]), hexadecimal
    float literals ([FloatParse]), conversions of floats out of range, which
    the Go specification leaves to the platform ([FloatConv]), formats with
    other verbs ([FmtFallback]), the growth of buffers ([BufferGrowth]) and
    the text of IPv6 addresses ([IPv6Text]).  The witnesses instantiate all of
    them.

    ** Not modelled

    The transports of client.go, lines 62-99 (fields of net/http structs);
    generated code but for its fields; internal/test (fixtures of the functional tests); the values carried by
    contexts; what the flag package prints. *)
From Stdlib Require Import ZArith Lia Strings.Byte.
From stdpp Require Import base gmap strings list relations.

Declare Scope go_scope.
Delimit Scope go_scope with go.

(** ** Go panics

    A Go function either returns a value or panics.  [outcome] is the small
    error monad used where the source can panic (an explicit [panic], a failed
    type assertion, an index out of range, a nil dereference). *)
Inductive outcome (A : Type) :=
| Ret (a : A)
| Panic (why : string).
Arguments Ret {A} a.
Arguments Panic {A} why.

Definition obind {A B} (m : outcome A) (k : A -> outcome B) : outcome B :=
  match m with Ret a => k a | Panic w => Panic w end.

Definition omap_ret {A B} (f : A -> B) (m : outcome A) : outcome B :=
  obind m (fun a => Ret (f a)).

Notation "'let!' x := m 'in' k" := (obind m (fun x => k))
  (at level 10, x pattern, m at level 100, k at level 200) : go_scope.
Local Open Scope Z_scope.
#[global] Open Scope go_scope.

(** ** Fixed-width integers (two's complement) *)
Definition int64 (z : Z) : Z := (z + 2 ^ 63) `mod` 2 ^ 64 - 2 ^ 63.
Definition int32 (z : Z) : Z := (z + 2 ^ 31) `mod` 2 ^ 32 - 2 ^ 31.
Definition uint32 (z : Z) : Z := z `mod` 2 ^ 32.
Definition max_int64 : Z := 2 ^ 63 - 1.
Definition min_int64 : Z := - 2 ^ 63.

(** ** Bytes *)
Abbreviation byte := Byte.byte.
Abbreviation bytes := (list Byte.byte).

Definition byte_Z (b : byte) : Z := Z.of_N (Byte.to_N b).
Definition Z_byte (z : Z) : byte :=
  match Byte.of_N (Z.to_N (z `mod` 256)) with Some b => b | None => Byte.x00 end.

#[export] Instance byte_eq_dec : EqDecision byte := Byte.byte_eq_dec.

(** [string(b)] and [[]byte(s)]: Go strings are byte strings. *)
Definition to_string (b : bytes) : string := String.string_of_list_byte b.
Definition of_string (s : string) : bytes := String.list_byte_of_string s.

(** *** Lemmas on widths *)
Lemma int64_id z : min_int64 <= z <= max_int64 -> int64 z = z.
Proof.
  unfold int64, min_int64, max_int64. intros H.
  rewrite Z.mod_small by lia. lia.
Qed.

Lemma int64_range z : min_int64 <= int64 z <= max_int64.
Proof.
  unfold int64, min_int64, max_int64.
  pose proof (Z.mod_pos_bound (z + 2 ^ 63) (2 ^ 64) ltac:(lia)). lia.
Qed.

Lemma uint32_id z : 0 <= z < 2 ^ 32 -> uint32 z = z.
Proof. apply Z.mod_small. Qed.

Lemma uint32_range z : 0 <= uint32 z < 2 ^ 32.
Proof. apply Z.mod_pos_bound. lia. Qed.

Lemma lor_mul_pow2_add a b k :
  0 <= k -> 0 <= a < 2 ^ k -> Z.lor a (b * 2 ^ k) = a + b * 2 ^ k.
Proof.
  intros Hk Ha. rewrite <-Z.shiftl_mul_pow2 by lia.
  rewrite <-Z.add_lor_land. assert (Z.land a (Z.shiftl b k) = 0) as ->; [|lia].
  apply Z.bits_inj'. intros i Hi. rewrite Z.land_spec, Z.shiftl_spec, Z.bits_0 by lia.
  destruct (Z.lt_ge_cases i k).
  - rewrite (Z.testbit_neg_r b) by lia. apply andb_false_r.
  - rewrite <-(Z.mod_small a (2 ^ k)), Z.mod_pow2_bits_high by lia. done.
Qed.

(** *** Lemmas on bytes *)
Lemma byte_Z_range b : 0 <= byte_Z b < 256.
Proof. unfold byte_Z. pose proof (Byte.to_N_bounded b). lia. Qed.

Lemma byte_Z_of_Z z : byte_Z (Z_byte z) = z `mod` 256.
Proof.
  unfold byte_Z, Z_byte.
  pose proof (Z.mod_pos_bound z 256 ltac:(lia)) as Hb.
  destruct (Byte.of_N (Z.to_N (z `mod` 256))) as [b|] eqn:E.
  - apply Byte.to_of_N in E. rewrite E. lia.
  - apply Byte.of_N_None_iff in E. lia.
Qed.

Lemma Z_byte_of_byte b : Z_byte (byte_Z b) = b.
Proof.
  unfold Z_byte, byte_Z. pose proof (Byte.to_N_bounded b).
  rewrite Z.mod_small by lia. rewrite N2Z.id, Byte.of_to_N. done.
Qed.

Lemma Z_byte_eq z b : z `mod` 256 = byte_Z b -> Z_byte z = b.
Proof.
  intros Hz. rewrite <-(Z_byte_of_byte b). unfold Z_byte at 1. rewrite Hz.
  unfold Z_byte. rewrite (Z.mod_small (byte_Z b)); [done|apply byte_Z_range].
Qed.

Lemma byte_Z_inj b c : byte_Z b = byte_Z c -> b = c.
Proof. intros E. by rewrite <-(Z_byte_of_byte b), E, Z_byte_of_byte. Qed.

Lemma to_string_of_string s : to_string (of_string s) = s.
Proof. apply String.string_of_list_byte_of_string. Qed.

Lemma of_string_to_string b : of_string (to_string b) = b.
Proof. apply String.list_byte_of_string_of_list_byte. Qed.

Lemma of_string_app s t : of_string (s +:+ t) = of_string s ++ of_string t.
Proof.
  unfold of_string. induction s as [|c s IH]; simpl; [done|].
  unfold String.list_byte_of_string in *. simpl. by f_equal.
Qed.

(** ** Lists *)
Lemma take_app_exact {A} (l k : list A) : take (length l) (l ++ k) = l.
Proof. by rewrite take_app_length. Qed.

Lemma drop_app_exact {A} (l k : list A) : drop (length l) (l ++ k) = k.
Proof. by rewrite drop_app_length. Qed.

Lemma app_prefix_split {A} (l1 l2 k1 k2 : list A) :
  l1 ++ l2 = k1 ++ k2 -> length l1 = length k1 -> l1 = k1 /\ l2 = k2.
Proof. intros. by apply app_inj_1. Qed.

Lemma take_drop_split {A} (n : nat) (bs : list A) data rest :
  bs = data ++ rest -> (length data <= n)%nat ->
  take n bs = data ++ take (n - length data)%nat rest /\
  drop n bs = drop (n - length data)%nat rest.
Proof.
  intros -> Hn. rewrite take_app_ge, drop_app_ge by done. done.
Qed.

(** ** Tactics and hints *)

(** Case analysis on every [match]/[if] of the goal, closing trivial ends. *)
Ltac crush_match :=
  repeat (case_match; simplify_eq/=); try done; try lia.

(** Destruct the scrutinee of a let-pair. *)
Ltac destr_let :=
  match goal with
  | |- context [let '(_, _) := ?e in _] => destruct e eqn:?
  | H : context [let '(_, _) := ?e in _] |- _ => destruct e eqn:?
  end.

Create HintDb go.
Create Rewrite HintDb go.
#[export] Hint Rewrite byte_Z_of_Z Z_byte_of_byte to_string_of_string
  of_string_to_string @take_app_exact @drop_app_exact @length_app : go.
#[export] Hint Resolve byte_Z_range uint32_range int64_range : go.
