(* ===== verification/GoStrings.v ===== *)
(** * GoStrings: the string functions of the Go standard library the code uses

    [strconv.Itoa], [strings.IndexAny], [strings.ToLower],
    [strings.TrimSpace], [strings.Join] and the header key canonicalisation of
    [net/textproto], on Go strings seen as byte strings.  Only the Unicode
    case table (runes above ASCII) is left as a parameter. *)
From Stdlib Require Import ZArith Lia.
From stdpp Require Import base gmap strings list pretty.
From S2P Require Import Prelude.
Local Open Scope Z_scope.

(** ** Decimal printing *)
Definition Itoa (z : Z) : string := pretty z.

(** ["\n"] *)
Definition newline : string := to_string [Byte.x0a].

(** ** Byte classes *)
Definition is_upper (b : byte) : bool := (65 <=? byte_Z b) && (byte_Z b <=? 90).
Definition is_lower (b : byte) : bool := (97 <=? byte_Z b) && (byte_Z b <=? 122).
Definition is_digit (b : byte) : bool := (48 <=? byte_Z b) && (byte_Z b <=? 57).
Definition is_ascii (b : byte) : bool := byte_Z b <? 128.
Definition lower_byte (b : byte) : byte := if is_upper b then Z_byte (byte_Z b + 32) else b.
Definition upper_byte (b : byte) : byte := if is_lower b then Z_byte (byte_Z b - 32) else b.

(** ** UTF-8, as [unicode/utf8] decodes and encodes it *)
Definition rune_error : Z := 65533.

Definition in_range (lo hi : Z) (b : byte) : bool := (lo <=? byte_Z b) && (byte_Z b <=? hi).

(** The rune at the head of a byte string and its width; an invalid sequence
    decodes as U+FFFD of width 1. *)
Definition decode_rune (bs : bytes) : Z * nat :=
  match bs with
  | [] => (rune_error, 0%nat)
  | b0 :: t =>
    let c0 := byte_Z b0 in
    if c0 <? 128 then (c0, 1%nat)
    else if (194 <=? c0) && (c0 <=? 223) then
      match t with
      | b1 :: _ =>
        if in_range 128 191 b1
        then (Z.lor (Z.shiftl (Z.land c0 31) 6) (Z.land (byte_Z b1) 63), 2%nat)
        else (rune_error, 1%nat)
      | _ => (rune_error, 1%nat)
      end
    else if (224 <=? c0) && (c0 <=? 239) then
      let lo := if c0 =? 224 then 160 else 128 in
      let hi := if c0 =? 237 then 159 else 191 in
      match t with
      | b1 :: b2 :: _ =>
        if in_range lo hi b1 && in_range 128 191 b2
        then (Z.lor (Z.lor (Z.shiftl (Z.land c0 15) 12) (Z.shiftl (Z.land (byte_Z b1) 63) 6))
                (Z.land (byte_Z b2) 63), 3%nat)
        else (rune_error, 1%nat)
      | _ => (rune_error, 1%nat)
      end
    else if (240 <=? c0) && (c0 <=? 244) then
      let lo := if c0 =? 240 then 144 else 128 in
      let hi := if c0 =? 244 then 143 else 191 in
      match t with
      | b1 :: b2 :: b3 :: _ =>
        if in_range lo hi b1 && in_range 128 191 b2 && in_range 128 191 b3
        then (Z.lor (Z.lor (Z.lor (Z.shiftl (Z.land c0 7) 18) (Z.shiftl (Z.land (byte_Z b1) 63) 12))
                (Z.shiftl (Z.land (byte_Z b2) 63) 6)) (Z.land (byte_Z b3) 63), 4%nat)
        else (rune_error, 1%nat)
      | _ => (rune_error, 1%nat)
      end
    else (rune_error, 1%nat)
  end.

Fixpoint decode_runes (fuel : nat) (bs : bytes) : list Z :=
  match fuel, bs with
  | S f, _ :: _ => let '(r, w) := decode_rune bs in r :: decode_runes f (drop w bs)
  | _, _ => []
  end.

Definition encode_rune (r : Z) : bytes :=
  if (0 <=? r) && (r <? 128) then [Z_byte r]
  else if (128 <=? r) && (r <? 2048) then
    [Z_byte (Z.lor 192 (Z.shiftr r 6)); Z_byte (Z.lor 128 (Z.land r 63))]
  else if ((55296 <=? r) && (r <=? 57343)) || (r <? 0) || (1114111 <? r) then
    [Z_byte 239; Z_byte 191; Z_byte 189]
  else if r <? 65536 then
    [Z_byte (Z.lor 224 (Z.shiftr r 12)); Z_byte (Z.lor 128 (Z.land (Z.shiftr r 6) 63));
     Z_byte (Z.lor 128 (Z.land r 63))]
  else
    [Z_byte (Z.lor 240 (Z.shiftr r 18)); Z_byte (Z.lor 128 (Z.land (Z.shiftr r 12) 63));
     Z_byte (Z.lor 128 (Z.land (Z.shiftr r 6) 63)); Z_byte (Z.lor 128 (Z.land r 63))].

(** ** [strings.ToLower]

    The case table of [unicode] for runes at or above 128 is data of the Go
    release; it is a parameter. *)
Class UnicodeTables := { unicode_lower : Z -> Z }.

Definition rune_ToLower `{UnicodeTables} (r : Z) : Z :=
  if r <? 128 then (if (65 <=? r) && (r <=? 90) then r + 32 else r) else unicode_lower r.

Definition ToLower `{UnicodeTables} (s : string) : string :=
  let bs := of_string s in
  if forallb is_ascii bs then to_string (lower_byte <$> bs)
  else to_string (decode_runes (length bs) bs ≫= fun r => encode_rune (rune_ToLower r)).

(** ** [strings.TrimSpace]

    [space_len] is the width of the white-space rune at the head of the
    string, if there is one ([unicode.IsSpace], in UTF-8). *)
Definition space_len (bs : bytes) : option nat :=
  match byte_Z <$> take 3 bs with
  | c0 :: t =>
    if (c0 =? 32) || ((9 <=? c0) && (c0 <=? 13)) then Some 1%nat
    else match c0, t with
    | 194, c1 :: _ => if (c1 =? 133) || (c1 =? 160) then Some 2%nat else None
    | 225, [154; 128] => Some 3%nat
    | 226, [128; c2] =>
      if ((128 <=? c2) && (c2 <=? 138)) || (c2 =? 168) || (c2 =? 169) || (c2 =? 175)
      then Some 3%nat else None
    | 226, [129; 159] => Some 3%nat
    | 227, [128; 128] => Some 3%nat
    | _, _ => None
    end
  | [] => None
  end.

Fixpoint trim_left (fuel : nat) (bs : bytes) : bytes :=
  match fuel with
  | O => bs
  | S f => match space_len bs with Some w => trim_left f (drop w bs) | None => bs end
  end.

(** The width of the white-space rune that ends the string. *)
Definition space_len_end (bs : bytes) : option nat :=
  let n := length bs in
  if decide (space_len (drop (n - 1)%nat bs) = Some 1%nat) then Some 1%nat
  else if decide (space_len (drop (n - 2)%nat bs) = Some 2%nat) then Some 2%nat
  else if decide (space_len (drop (n - 3)%nat bs) = Some 3%nat) then Some 3%nat
  else None.

Fixpoint trim_right (fuel : nat) (bs : bytes) : bytes :=
  match fuel with
  | O => bs
  | S f =>
    match space_len_end bs with
    | Some w => trim_right f (take (length bs - w)%nat bs)
    | None => bs
    end
  end.

Definition TrimSpace (s : string) : string :=
  let bs := of_string s in
  let l := trim_left (length bs) bs in
  to_string (trim_right (length l) l).

(** ** [strings.IndexAny] for a set of ASCII characters *)
Fixpoint index_any (bs chars : bytes) : option nat :=
  match bs with
  | [] => None
  | b :: t => if bool_decide (b ∈ chars) then Some 0%nat else S <$> index_any t chars
  end.

Definition IndexAny (s chars : string) : option nat := index_any (of_string s) (of_string chars).

(** ** [strings.Join] *)
Definition Join (l : list string) (sep : string) : string :=
  match l with
  | [] => ""
  | s :: t => foldl (fun acc x => acc +:+ sep +:+ x) s t
  end.

(** ** [textproto.CanonicalMIMEHeaderKey] *)
Definition valid_header_byte (b : byte) : bool :=
  is_upper b || is_lower b || is_digit b ||
  bool_decide (b ∈ of_string "!#$%&'*+-.^_`|~").

Fixpoint canon_bytes (upper : bool) (bs : bytes) : bytes :=
  match bs with
  | [] => []
  | b :: t =>
    let b' := if upper then upper_byte b else lower_byte b in
    b' :: canon_bytes (byte_Z b =? 45) t
  end.

Definition CanonicalHeaderKey (s : string) : string :=
  let bs := of_string s in
  if forallb valid_header_byte bs then to_string (canon_bytes true bs) else s.

(** ** Lemmas *)
Lemma Itoa_inj : forall x y, Itoa x = Itoa y -> x = y.
Proof. intros x y H. by apply (inj pretty) in H. Qed.

Lemma lower_byte_not_upper b : is_upper (lower_byte b) = false.
Proof.
  unfold lower_byte. destruct (is_upper b) eqn:E; [|done].
  unfold is_upper in *. rewrite byte_Z_of_Z.
  apply andb_true_iff in E as [E1%Z.leb_le E2%Z.leb_le].
  rewrite Z.mod_small by lia. lia.
Qed.

Lemma lower_byte_idem b : lower_byte (lower_byte b) = lower_byte b.
Proof. unfold lower_byte at 1. by rewrite lower_byte_not_upper. Qed.

Lemma lower_byte_ascii b : is_ascii (lower_byte b) = is_ascii b.
Proof.
  unfold lower_byte. destruct (is_upper b) eqn:E; [|done].
  unfold is_upper, is_ascii in *. rewrite byte_Z_of_Z.
  apply andb_true_iff in E as [E1%Z.leb_le E2%Z.leb_le].
  rewrite Z.mod_small by lia. lia.
Qed.

Lemma index_any_None bs chars : index_any bs chars = None <-> Forall (fun b => b ∉ chars) bs.
Proof.
  induction bs as [|b t IH]; simpl; [by split|].
  rewrite Forall_cons, <-IH. case_bool_decide.
  - split; [done|]. by intros [? _].
  - destruct (index_any t chars) as [i|]; simpl; split; try done.
    by intros [_ ?].
Qed.

Lemma index_any_app_l bs chars b rest :
  Forall (fun b => b ∉ chars) bs -> b ∈ chars ->
  index_any (bs ++ b :: rest) chars = Some (length bs).
Proof.
  intros H Hb. induction H as [|x l Hx Hl IH]; simpl.
  - by rewrite bool_decide_eq_true_2.
  - rewrite bool_decide_eq_false_2 by done. by rewrite IH.
Qed.

Lemma index_any_take bs chars i :
  index_any bs chars = Some i -> Forall (fun b => b ∉ chars) (take i bs).
Proof.
  revert i. induction bs as [|b t IH]; intros i; simpl; [done|].
  case_bool_decide; [by intros [= <-]; constructor|].
  destruct (index_any t chars) as [j|]; simpl; [|done].
  intros [= <-]. simpl. constructor; eauto.
Qed.
