(* ===== verification/GoFloat.v ===== *)
(** * GoFloat: the float64 arithmetic the code uses

    IEEE 754 binary64 through the Standard Library's executable [SpecFloat]
    (round to nearest, ties to even): the conversions between [int64] and
    [float64], [math.Pow] at an integral exponent, [strconv.ParseFloat] on
    decimal input and the [%.1f] verb of [fmt].

    Two parameters: the value Go leaves to the implementation when a float
    outside the range of int64 is converted, and the floating-point literals
    with a base prefix or with underscores. *)
From Stdlib Require Import ZArith Lia SpecFloat.
From stdpp Require Import base gmap strings list.
From S2P Require Import Prelude GoStrings.
Local Open Scope Z_scope.

Abbreviation float64 := spec_float.

Definition fadd : float64 -> float64 -> float64 := SFadd 53 1024.
Definition fsub : float64 -> float64 -> float64 := SFsub 53 1024.
Definition fmul : float64 -> float64 -> float64 := SFmul 53 1024.
Definition fdiv : float64 -> float64 -> float64 := SFdiv 53 1024.
Definition fltb : float64 -> float64 -> bool := SFltb.
Definition fleb : float64 -> float64 -> bool := SFleb.
Definition feqb : float64 -> float64 -> bool := SFeqb.

(** [float64(z)]: correctly rounded. *)
Definition float_of_Z (z : Z) : float64 := binary_normalize 53 1024 z 0 false.

(** The rational [num/den], correctly rounded. *)
Definition float_of_ratio (num den : positive) : float64 :=
  let '(q, e, l) := SFdiv_core_binary 53 1024 (Zpos num) 0 (Zpos den) 0 in
  binary_round_aux 53 1024 false q e l.

(** The integral part, truncated towards zero; [None] for NaN and infinities. *)
Definition trunc (f : float64) : option Z :=
  match f with
  | S754_zero _ => Some 0
  | S754_finite s m e =>
    let a := if 0 <=? e then Zpos m * 2 ^ e else Zpos m / 2 ^ (- e) in
    Some (if s then - a else a)
  | _ => None
  end.

(** [int64(f)].  The Go specification: "if the value cannot be represented by
    the type the behavior is implementation-dependent". *)
Class FloatConv := {
  f2i_oob : float64 -> Z;
  f2i_oob_range : forall f, min_int64 <= f2i_oob f <= max_int64
}.

Definition float_to_int64 `{FloatConv} (f : float64) : Z :=
  match trunc f with
  | Some z => if (min_int64 <=? z) && (z <=? max_int64) then z else f2i_oob f
  | None => f2i_oob f
  end.

(** The two choices of the gc compiler: amd64 gives the "integer indefinite"
    value, arm64 saturates. *)
Definition amd64_oob (f : float64) : Z := min_int64.
Definition arm64_oob (f : float64) : Z :=
  match f with
  | S754_nan => 0
  | S754_infinity s | S754_finite s _ _ => if s then min_int64 else max_int64
  | S754_zero _ => 0
  end.

(** ** [math.Pow(x, y)] for an integral [y] (the only use is
    [math.Pow(Factor, float64(attempts))]) *)
Definition is_nan (f : float64) : bool := match f with S754_nan => true | _ => false end.
Definition signbit (f : float64) : bool :=
  match f with S754_zero s | S754_infinity s | S754_finite s _ _ => s | S754_nan => false end.

(** The loop over the bits of the exponent: [ans = a1 * 2**ae]. *)
Fixpoint pow_loop (fuel : nat) (i : Z) (x1 : float64) (xe : Z) (a1 : float64) (ae : Z)
    : float64 * Z :=
  match fuel with
  | O => (a1, ae)
  | S fuel' =>
    if i =? 0 then (a1, ae)
    else if (xe <? - 2 ^ 12) || (2 ^ 12 <? xe) then (a1, ae + xe)
    else
      let '(a1, ae) := if Z.odd i then (fmul a1 x1, ae + xe) else (a1, ae) in
      let x1 := fmul x1 x1 in
      let xe := 2 * xe in
      let '(x1, xe) :=
        if fltb x1 (float_of_ratio 1 2) then (SFadd 53 1024 x1 x1, xe - 1) else (x1, xe) in
      pow_loop fuel' (Z.shiftr i 1) x1 xe a1 ae
  end.

Definition Pow (x : float64) (y : Z) : float64 :=
  let one := float_of_Z 1 in
  if (y =? 0) || feqb x one then one
  else if y =? 1 then x
  else match x with
  | S754_nan => S754_nan
  | S754_zero s =>
    if y <? 0 then S754_infinity (s && Z.odd y) else S754_zero (s && Z.odd y)
  | S754_infinity s =>
    if y <? 0 then S754_zero (s && Z.odd y) else S754_infinity (s && Z.odd y)
  | S754_finite _ _ _ =>
    let yi := Z.abs y in
    if 2 ^ 63 <=? yi then
      if feqb x (float_of_Z (-1)) then one
      else if Bool.eqb (fltb (SFabs x) one) (0 <? y) then S754_zero false
      else S754_infinity false
    else
      let '(x1, xe) := SFfrexp 53 1024 x in
      let '(a1, ae) := pow_loop 64 yi x1 xe one 0 in
      let '(a1, ae) := if y <? 0 then (fdiv one a1, - ae) else (a1, ae) in
      SFldexp 53 1024 a1 ae
  end.

(** ** [strconv.ParseFloat(s, 64)]

    [None] is a non-nil error (syntax error or out of range). *)
Class FloatParse := { parse_extended : string -> option float64 }.

Definition lower_string (s : string) : string := to_string (lower_byte <$> of_string s).

Definition parse_special (s : string) : option float64 :=
  let l := lower_string s in
  if bool_decide (l ∈ ["inf"; "+inf"; "infinity"; "+infinity"]) then Some (S754_infinity false)
  else if bool_decide (l ∈ ["-inf"; "-infinity"]) then Some (S754_infinity true)
  else if bool_decide (l = "nan") then Some S754_nan
  else None.

(** Digits and at most one dot: the mantissa, the number of digits after the
    dot, whether a digit was seen, and the rest of the input. *)
Fixpoint read_mantissa (bs : bytes) (mant : Z) (frac : Z) (sawdot sawdigits : bool)
    : Z * Z * bool * bytes :=
  match bs with
  | [] => (mant, frac, sawdigits, [])
  | b :: t =>
    if is_digit b then
      read_mantissa t (mant * 10 + (byte_Z b - 48)) (if sawdot then frac + 1 else frac) sawdot true
    else if (byte_Z b =? 46) && negb sawdot then read_mantissa t mant frac true sawdigits
    else (mant, frac, sawdigits, bs)
  end.

Fixpoint read_exp_digits (bs : bytes) (e : Z) : option Z :=
  match bs with
  | [] => Some e
  | b :: t =>
    if is_digit b then read_exp_digits t (if e <? 10000 then e * 10 + (byte_Z b - 48) else e)
    else None
  end.

(** The optional exponent; the whole input has to be consumed. *)
Definition read_exponent (bs : bytes) : option Z :=
  match bs with
  | [] => Some 0
  | b :: t =>
    if byte_Z (lower_byte b) =? 101 then
      match t with
      | c :: d :: u =>
        if byte_Z c =? 43 then read_exp_digits (d :: u) 0
        else if byte_Z c =? 45 then Z.opp <$> read_exp_digits (d :: u) 0
        else read_exp_digits t 0
      | [c] => if is_digit c then read_exp_digits t 0 else None
      | [] => None
      end
    else None
  end.

Definition split_sign (bs : bytes) : bool * bytes :=
  match bs with
  | b :: t => if byte_Z b =? 43 then (false, t) else if byte_Z b =? 45 then (true, t) else (false, bs)
  | [] => (false, bs)
  end.

(** [m * 10^e] correctly rounded; infinite when out of range. *)
Definition float_of_decimal (m e : Z) : float64 :=
  match m with
  | Zpos p =>
    if 0 <=? e then float_of_Z (m * 10 ^ e) else float_of_ratio p (Z.to_pos (10 ^ (- e)))
  | _ => S754_zero false
  end.

Definition parse_decimal (s : string) : option float64 :=
  let '(neg, bs) := split_sign (of_string s) in
  let '(mant, frac, sawdigits, rest) := read_mantissa bs 0 0 false false in
  if sawdigits then
    match read_exponent rest with
    | Some e =>
      match float_of_decimal mant (e - frac) with
      | S754_infinity _ => None
      | f => Some (if neg then SFopp f else f)
      end
    | None => None
    end
  else None.

(** Literals outside the decimal syntax: a [0x] prefix or an underscore. *)
Definition extended_literal (s : string) : bool :=
  bool_decide (Byte.x5f ∈ of_string s) ||
  match snd (split_sign (of_string s)) with
  | z :: x :: _ => (byte_Z z =? 48) && (byte_Z (lower_byte x) =? 120)
  | _ => false
  end.

Definition ParseFloat `{FloatParse} (s : string) : option float64 :=
  match parse_special s with
  | Some f => Some f
  | None => if extended_literal s then parse_extended s else parse_decimal s
  end.

(** ** [fmt.Sprintf("%.1f", f)] *)
Definition format_1f (f : float64) : string :=
  match f with
  | S754_nan => "NaN"
  | S754_infinity s => if s then "-Inf" else "+Inf"
  | S754_zero s => if s then "-0.0" else "0.0"
  | S754_finite s m e =>
    let q :=
      if 0 <=? e then Zpos m * 2 ^ e * 10
      else
        let den := 2 ^ (- e) in
        let num := Zpos m * 10 in
        let q := num / den in
        let r := num mod den in
        if (den <? 2 * r) || ((2 * r =? den) && Z.odd q) then q + 1 else q in
    (if s then "-" else "") +:+ Itoa (q / 10) +:+ "." +:+ Itoa (q mod 10)
  end.

(** ** Lemmas *)
Lemma float_to_int64_range `{FloatConv} f : min_int64 <= float_to_int64 f <= max_int64.
Proof.
  unfold float_to_int64. destruct (trunc f) as [z|]; [|apply f2i_oob_range].
  destruct (_ && _) eqn:E; [|apply f2i_oob_range].
  apply andb_true_iff in E as [?%Z.leb_le ?%Z.leb_le]. done.
Qed.
#[export] Hint Resolve float_to_int64_range : go.

Definition amd64_conv : FloatConv.
Proof. exists amd64_oob. intros f. unfold amd64_oob, min_int64, max_int64. lia. Defined.

Definition arm64_conv : FloatConv.
Proof.
  exists arm64_oob. intros f. unfold arm64_oob, min_int64, max_int64.
  destruct f as [|[]| |[]]; lia.
Defined.
