(* ===== verification/Units.v ===== *)
(** * Units: the byte units and [bytesToSI] of reader.go *)
From Stdlib Require Import ZArith Lia.
From stdpp Require Import base strings list.
From S2P Require Import Prelude GoStrings GoFloat.
Local Open Scope Z_scope.

Definition Bytes : Z := 1.
Definition Kibibyte : Z := 1024.
Definition Kilobyte : Z := 1000.
Definition MegaByte : Z := Kilobyte * 1000.
Definition Mebibyte : Z := Kibibyte * 1024.
Definition Gibibyte : Z := Mebibyte * 1024.
Definition Gigabyte : Z := MegaByte * 1000.

(** [for n := b / unit; n >= unit; n /= unit { div *= unit; exp++ }] *)
Fixpoint si_loop (fuel : nat) (unit n div exp : Z) : Z * Z :=
  match fuel with
  | O => (div, exp)
  | S fuel' =>
    if unit <=? n then si_loop fuel' unit (n `quot` unit) (int64 (div * unit)) (exp + 1)
    else (div, exp)
  end.

(** The unit chosen for [b], and the divisor and prefix index of the loop.
    An int64 is below [1000^7], so 7 rounds are enough. *)
Definition si_unit (b : Z) : Z := if b `rem` Kibibyte =? 0 then Kibibyte else Kilobyte.
Definition si_scale (b : Z) : Z * Z := si_loop 7 (si_unit b) (b `quot` si_unit b) (si_unit b) 0.

(** Indexing a string constant panics out of range. *)
Definition index_string (s : string) (i : Z) : outcome string :=
  if i <? 0 then Panic "index out of range"
  else match of_string s !! Z.to_nat i with
       | Some c => Ret (to_string [c])
       | None => Panic "index out of range"
       end.

Definition bytesToSI (b : Z) : outcome string :=
  let unit := si_unit b in
  if b <? unit then Ret (Itoa b +:+ "B")
  else
    let '(div, exp) := si_scale b in
    let q := format_1f (fdiv (float_of_Z b) (float_of_Z div)) in
    if unit =? Kibibyte then
      let! c := index_string "KMGTPE" exp in Ret (q +:+ c +:+ "iB")
    else
      let! c := index_string "kMGTPE" exp in Ret (q +:+ c +:+ "B").

(** ** Lemmas *)
Lemma si_unit_cases b : si_unit b = 1024 \/ si_unit b = 1000.
Proof. unfold si_unit. destruct (_ =? _); auto. Qed.

(** The loop invariant: [div = unit^(exp+1)] and [n = b / div]. *)
Lemma si_loop_spec fuel unit b div exp :
  2 <= unit -> 0 <= exp -> 0 < b <= max_int64 ->
  div = unit ^ (exp + 1) -> div <= b ->
  b < div * unit ^ (Z.of_nat fuel) * unit ->
  let '(d, x) := si_loop fuel unit (b `quot` div) div exp in
  d = unit ^ (x + 1) /\ d <= b < d * unit /\ exp <= x <= exp + Z.of_nat fuel.
Proof.
  revert div exp. induction fuel as [|f IH]; intros div exp Hu He Hb Hdiv Hle Hlt; simpl.
  { rewrite Z.pow_0_r in Hlt. lia. }
  assert (0 < div) by lia.
  rewrite Z.quot_div_nonneg by lia.
  destruct (unit <=? b / div) eqn:E.
  - apply Z.leb_le in E.
    assert (div * unit <= b) by (pose proof (Z.mul_div_le b div ltac:(lia)); nia).
    rewrite int64_id by (unfold min_int64; lia).
    rewrite Z.quot_div_nonneg, Z.div_div by lia.
    rewrite <-Z.quot_div_nonneg by lia.
    specialize (IH (div * unit) (exp + 1)).
    destruct (si_loop f unit (b `quot` (div * unit)) (div * unit) (exp + 1)) as [d x].
    rewrite Nat2Z.inj_succ, Z.pow_succ_r in Hlt by lia.
    destruct IH as (? & ? & ?); try lia.
    replace (exp + 1 + 1) with (Z.succ (exp + 1)) by lia.
    rewrite Z.pow_succ_r by lia. lia.
  - apply Z.leb_gt in E. repeat split; try lia.
    pose proof (Z.mul_succ_div_gt b div ltac:(lia)). nia.
Qed.

(** The prefix index never leaves "KMGTPE", for every int64. *)
Lemma si_scale_spec b :
  si_unit b <= b <= max_int64 ->
  let '(d, x) := si_scale b in
  d = si_unit b ^ (x + 1) /\ d <= b < d * si_unit b /\ 0 <= x <= 5.
Proof.
  intros Hb. unfold si_scale.
  pose proof (si_unit_cases b) as Hu.
  pose proof (si_loop_spec 7 (si_unit b) b (si_unit b) 0) as H.
  destruct (si_loop 7 (si_unit b) (b `quot` si_unit b) (si_unit b) 0) as [d x].
  destruct H as (Hd & Hbd & Hx); try lia.
  - unfold max_int64 in *. destruct Hu as [-> | ->]; simpl; lia.
  - repeat split; try lia.
    assert (d < 2 ^ 63) by (unfold max_int64 in *; lia).
    destruct (Z.le_gt_cases x 5) as [?|Hgt]; [lia|exfalso].
    assert (si_unit b ^ 7 <= si_unit b ^ (x + 1)) by (apply Z.pow_le_mono_r; lia).
    destruct Hu as [Hu|Hu]; rewrite Hu in *; lia.
Qed.

Lemma index_si_prefix s x :
  length (of_string s) = 6%nat -> 0 <= x <= 5 -> exists c, index_string s x = Ret c.
Proof.
  intros Hl Hx. unfold index_string.
  replace (x <? 0) with false by lia.
  destruct (lookup_lt_is_Some_2 (of_string s) (Z.to_nat x)) as [c ->]; [lia|]. eauto.
Qed.

Lemma bytesToSI_total b : b <= max_int64 -> exists s, bytesToSI b = Ret s.
Proof.
  intros Hb. unfold bytesToSI.
  destruct (b <? si_unit b) eqn:E; [eauto|]. apply Z.ltb_ge in E.
  pose proof (si_scale_spec b ltac:(lia)) as H.
  destruct (si_scale b) as [d x]. destruct H as (_ & _ & Hx).
  destruct (index_si_prefix "KMGTPE" x) as [c1 E1]; [done..|].
  destruct (index_si_prefix "kMGTPE" x) as [c2 E2]; [done..|].
  rewrite E1, E2. simpl. destruct (_ =? _); eauto.
Qed.

Example bytesToSI_20 : bytesToSI 20 = Ret "20B".
Proof. vm_compute. reflexivity. Qed.

Example bytesToSI_3KiB : bytesToSI (Kibibyte * 3) = Ret "3.0KiB".
Proof. vm_compute. reflexivity. Qed.

Example bytesToSI_GB : bytesToSI Gigabyte = Ret "1.0GB".
Proof. vm_compute. reflexivity. Qed.
