(* ===== verification/Messages.v ===== *)
(** * Messages: the protobuf messages of the repository

    The generated Go structs carry the fields of the .proto files; a
    [proto.Message] is one of them or a message type of the application. *)
From Stdlib Require Import ZArith.
From stdpp Require Import base gmap strings list.
From S2P Require Import Prelude GoFloat.
Local Open Scope Z_scope.

(** A Go [map[string]string]; [None] is the nil map. *)
Abbreviation details_map := (option (gmap string string)).

(** Indexing a map: the zero value when the key (or the map) is missing. *)
Definition map_get (d : details_map) (k : string) : string :=
  match d with Some m => default "" (m !! k) | None => "" end.

(** [v, ok := d[k]] *)
Definition map_get_ok (d : details_map) (k : string) : option string := d ≫= (fun m => m !! k).

(** proto/v1/reply.proto *)
Record Reply := mkReply {
  Reply_Code : string;
  Reply_Message : string;
  Reply_Details : details_map
}.

Definition Reply_zero : Reply := mkReply "" "" None.

Inductive message :=
| MReply (r : Reply)
| MSayHelloRequest (name : string)
| MSayHelloResponse (msg : string)
| MRenderPixelRequest (complexity : float64) (height width i j : Z)
| MRenderPixelResponse (gray : Z)
| MListEventsRequest (count : Z)
| MEvent (sequence : Z) (msg : string)
| MContentDownloadRequest (path : string)
| MErrorsRequest (case : string)
| MStreamRequest (count : Z) (error_at : string) (close_with_payload : bool)
| MStreamItem (sequence : Z) (data : string)
| MApp (type_name : string) (data : bytes).

(** A nil map and an empty map are the same on the wire. *)
Definition norm_details (d : details_map) : details_map :=
  match d with Some m => if decide (m = ∅) then None else Some m | None => None end.
Definition norm_reply (r : Reply) : Reply :=
  mkReply (Reply_Code r) (Reply_Message r) (norm_details (Reply_Details r)).

Lemma map_get_norm d k : map_get (norm_details d) k = map_get d k.
Proof.
  destruct d as [m|]; simpl; [|done]. case_decide; [|done]. subst. by rewrite lookup_empty.
Qed.

Lemma norm_reply_code r : Reply_Code (norm_reply r) = Reply_Code r.
Proof. done. Qed.
Lemma norm_reply_message r : Reply_Message (norm_reply r) = Reply_Message r.
Proof. done. Qed.

Lemma norm_details_idem d : norm_details (norm_details d) = norm_details d.
Proof. destruct d as [m|]; simpl; [|done]. case_decide; simpl; [done|]. by case_decide. Qed.
#[export] Hint Rewrite map_get_norm norm_reply_code norm_reply_message norm_details_idem : go.
