(* ===== verification/Errors.v ===== *)
(** * Errors: errors.go

    Go errors with their dynamic type, method set and [Unwrap] chain;
    [errors.As]; [fmt.Errorf] on one operand; the status codes; the
    [serviceError] and [ClientError] types with every method of the [Error]
    interface; [ErrDataLimitExceeded] (reader.go). *)
From Stdlib Require Import ZArith Lia.
From stdpp Require Import base gmap strings list.
From S2P Require Import Prelude GoStrings Units Messages.
Local Open Scope Z_scope.

(** ** Status codes *)
Definition CodeOK : Z := 200.
Definition CodeBadRequest : Z := 400.
Definition CodeUnauthorized : Z := 401.
Definition CodeForbidden : Z := 403.
Definition CodeNotFound : Z := 404.
Definition CodeConflict : Z := 409.
Definition CodeTooManyRequests : Z := 429.
Definition CodeClientError : Z := 452.
Definition CodeRequestFailed : Z := 453.
Definition CodeRetryRequest : Z := 454.
Definition CodeClientContentError : Z := 455.
Definition CodeInternalError : Z := 500.
Definition CodeNotImplemented : Z := 501.

(** [net/http.StatusText] *)
Definition StatusText (code : Z) : string :=
  match code with
  | 100 => "Continue" | 101 => "Switching Protocols" | 102 => "Processing"
  | 103 => "Early Hints" | 200 => "OK" | 201 => "Created" | 202 => "Accepted"
  | 203 => "Non-Authoritative Information" | 204 => "No Content"
  | 205 => "Reset Content" | 206 => "Partial Content" | 207 => "Multi-Status"
  | 208 => "Already Reported" | 226 => "IM Used" | 300 => "Multiple Choices"
  | 301 => "Moved Permanently" | 302 => "Found" | 303 => "See Other"
  | 304 => "Not Modified" | 305 => "Use Proxy" | 307 => "Temporary Redirect"
  | 308 => "Permanent Redirect" | 400 => "Bad Request" | 401 => "Unauthorized"
  | 402 => "Payment Required" | 403 => "Forbidden" | 404 => "Not Found"
  | 405 => "Method Not Allowed" | 406 => "Not Acceptable"
  | 407 => "Proxy Authentication Required" | 408 => "Request Timeout"
  | 409 => "Conflict" | 410 => "Gone" | 411 => "Length Required"
  | 412 => "Precondition Failed" | 413 => "Request Entity Too Large"
  | 414 => "Request URI Too Long" | 415 => "Unsupported Media Type"
  | 416 => "Requested Range Not Satisfiable" | 417 => "Expectation Failed"
  | 418 => "I'm a teapot" | 421 => "Misdirected Request"
  | 422 => "Unprocessable Entity" | 423 => "Locked" | 424 => "Failed Dependency"
  | 425 => "Too Early" | 426 => "Upgrade Required" | 428 => "Precondition Required"
  | 429 => "Too Many Requests" | 431 => "Request Header Fields Too Large"
  | 451 => "Unavailable For Legal Reasons" | 500 => "Internal Server Error"
  | 501 => "Not Implemented" | 502 => "Bad Gateway" | 503 => "Service Unavailable"
  | 504 => "Gateway Timeout" | 505 => "HTTP Version Not Supported"
  | 506 => "Variant Also Negotiates" | 507 => "Insufficient Storage"
  | 508 => "Loop Detected" | 510 => "Not Extended"
  | 511 => "Network Authentication Required"
  | _ => ""
  end.

Definition CodeText (code : Z) : string :=
  if code =? CodeOK then "OK"
  else if code =? CodeBadRequest then "Bad Request"
  else if code =? CodeUnauthorized then "Unauthorized"
  else if code =? CodeRequestFailed then "Request Failed"
  else if code =? CodeRetryRequest then "Retry Request"
  else if code =? CodeForbidden then "Forbidden"
  else if code =? CodeNotFound then "Not Found"
  else if code =? CodeConflict then "Conflict"
  else if code =? CodeClientError then "Client Error"
  else if code =? CodeTooManyRequests then "Too Many Requests"
  else if code =? CodeInternalError then "Internal Service Error"
  else if code =? CodeNotImplemented then "Not Implemented"
  else if code =? CodeClientContentError then "Client Content Error"
  else StatusText code.

(** ** Errors *)

(** Package-level error values, compared by identity. *)
Inductive sentinel :=
| EOF | UnexpectedEOF | ErrStreamClosed | ErrHeartbeatTimeout
| Canceled | DeadlineExceeded | ErrBodyNotAllowed | ErrShortWrite | ErrServerClosed.

#[export] Instance sentinel_eq_dec : EqDecision sentinel.
Proof. solve_decision. Defined.

(** The methods an error value has beside [Error() string]; [None] when its
    type has no such method.  [ProtoMessage] may return a nil message. *)
Record methods := mkMethods {
  m_ProtoMessage : option (option message);
  m_Code : option string;
  m_HTTPCode : option Z;
  m_Details : option details_map;
  m_Message : option string;
  m_IsInfraError : option bool
}.

Definition no_methods : methods := mkMethods None None None None None None.

(** [type serviceError struct] and [type ClientError struct] *)
Record serviceError_of (E : Type) := mkServiceError {
  se_details : details_map;
  se_err : option E;
  se_code : string;
  se_httpCode : Z
}.
Arguments mkServiceError {E}. Arguments se_details {E}. Arguments se_err {E}.
Arguments se_code {E}. Arguments se_httpCode {E}.

Record ClientError_of (E : Type) := mkClientError {
  ce_details : details_map;
  ce_msg : string;
  ce_err : option E;
  ce_isInfraError : bool;
  ce_code : string;
  ce_httpCode : Z
}.
Arguments mkClientError {E}. Arguments ce_details {E}. Arguments ce_msg {E}.
Arguments ce_err {E}. Arguments ce_isInfraError {E}. Arguments ce_code {E}.
Arguments ce_httpCode {E}.

(** A non-nil [error]; an [error] variable is an [option goerror]. *)
Inductive goerror :=
| ErrString (text : string)                     (* errors.New *)
| ErrSentinel (s : sentinel)
| ErrWrap (text : string) (inner : goerror)     (* fmt.Errorf with a %w verb *)
| ErrService (e : serviceError_of goerror)      (* *duh.serviceError *)
| ErrClient (e : ClientError_of goerror)        (* *duh.ClientError *)
| ErrDataLimit (Max : Z)                        (* *duh.ErrDataLimitExceeded *)
| ErrForeign (text : string) (m : methods) (unwrap : list goerror).

Abbreviation serviceError := (serviceError_of goerror).
Abbreviation ClientError := (ClientError_of goerror).

Definition sentinel_text (s : sentinel) : string :=
  match s with
  | EOF => "EOF"
  | UnexpectedEOF => "unexpected EOF"
  | ErrStreamClosed => "stream is closed"
  | ErrHeartbeatTimeout => "stream heartbeat timeout: no frames received within deadline"
  | Canceled => "context canceled"
  | DeadlineExceeded => "context deadline exceeded"
  | ErrBodyNotAllowed => "http: request method or response status code does not allow body"
  | ErrShortWrite => "short write"
  | ErrServerClosed => "http: Server closed"
  end.

(** *** ErrDataLimitExceeded (reader.go).  [Max] is an int64, so that
    [bytesToSI] returns ([Units.bytesToSI_total]). *)
Definition DataLimit_Message (Max : Z) : string :=
  match bytesToSI Max with Ret s => "exceeds " +:+ s +:+ " limit" | Panic _ => "" end.
Definition DataLimit_Code : string := Itoa CodeBadRequest.
Definition DataLimit_HTTPCode : Z := CodeBadRequest.
Definition DataLimit_Details : details_map := None.
Definition DataLimit_ProtoMessage (Max : Z) : Reply :=
  mkReply (Itoa CodeBadRequest) (DataLimit_Message Max) None.

Definition DetailsHttpCode : string := "http.code".
Definition DetailsHttpUrl : string := "http.url".
Definition DetailsHttpMethod : string := "http.method".
Definition DetailsHttpStatus : string := "http.status".
Definition DetailsHttpBody : string := "http.body".
Definition DetailsCodeText : string := "duh.code-text".
Definition DetailsHttpRetryAfter : string := "http.retry-after".

(** *** [Error() string] of every error type *)
Definition service_Error (httpCode : Z) (inner : option string) : string :=
  match inner with
  | Some t => CodeText httpCode +:+ ": " +:+ t
  | None => CodeText httpCode
  end.

Definition client_Error (details : details_map) (msg : string) (inner : option string)
    (isInfraError : bool) (httpCode : Z) : string :=
  match inner with
  | Some t => CodeText httpCode +:+ ": " +:+ t
  | None =>
    if isInfraError then
      map_get details DetailsHttpMethod +:+ " " +:+ map_get details DetailsHttpUrl
        +:+ " returned infrastructure error " +:+ Itoa httpCode +:+ " with body: " +:+ msg
    else
      map_get details DetailsHttpMethod +:+ " " +:+ map_get details DetailsHttpUrl
        +:+ " returned '" +:+ CodeText httpCode +:+ "' with message: " +:+ msg
  end.

Fixpoint error_text (e : goerror) : string :=
  match e with
  | ErrString t => t
  | ErrSentinel s => sentinel_text s
  | ErrWrap t _ => t
  | ErrService (mkServiceError _ err _ httpCode) =>
    service_Error httpCode (match err with Some i => Some (error_text i) | None => None end)
  | ErrClient (mkClientError details msg err infra _ httpCode) =>
    client_Error details msg (match err with Some i => Some (error_text i) | None => None end)
      infra httpCode
  | ErrDataLimit Max => DataLimit_Message Max
  | ErrForeign t _ _ => t
  end.

(** *** Methods of serviceError *)
Definition se_Message (e : serviceError) : string :=
  match se_err e with Some i => error_text i | None => "" end.
Definition se_ProtoMessage (e : serviceError) : Reply :=
  mkReply (se_code e) (match se_err e with Some i => error_text i | None => "" end) (se_details e).
Definition se_Code (e : serviceError) : string := se_code e.
Definition se_HTTPCode (e : serviceError) : Z := se_httpCode e.
Definition se_Details (e : serviceError) : details_map := se_details e.
Definition se_Error (e : serviceError) : string := error_text (ErrService e).

(** *** Methods of ClientError *)
Definition ce_ProtoMessage (e : ClientError) : Reply :=
  let msg := match ce_err e with
             | Some i => if decide (ce_msg e = "") then error_text i else ce_msg e
             | None => ce_msg e
             end in
  mkReply (ce_code e) msg (ce_details e).
Definition ce_Code (e : ClientError) : string := ce_code e.
Definition ce_HTTPCode (e : ClientError) : Z := ce_httpCode e.
Definition ce_IsInfraError (e : ClientError) : bool := ce_isInfraError e.
Definition ce_Message (e : ClientError) : string := ce_msg e.
Definition ce_Details (e : ClientError) : details_map := ce_details e.
Definition ce_Error (e : ClientError) : string := error_text (ErrClient e).

(** *** Method sets *)
Definition method_set (e : goerror) : methods :=
  match e with
  | ErrService s =>
    mkMethods (Some (Some (MReply (se_ProtoMessage s)))) (Some (se_Code s)) (Some (se_HTTPCode s))
      (Some (se_Details s)) (Some (se_Message s)) None
  | ErrClient c =>
    mkMethods (Some (Some (MReply (ce_ProtoMessage c)))) (Some (ce_Code c)) (Some (ce_HTTPCode c))
      (Some (ce_Details c)) (Some (ce_Message c)) (Some (ce_IsInfraError c))
  | ErrDataLimit Max =>
    mkMethods (Some (Some (MReply (DataLimit_ProtoMessage Max)))) (Some DataLimit_Code)
      (Some DataLimit_HTTPCode) (Some DataLimit_Details) (Some (DataLimit_Message Max)) None
  | ErrForeign _ m _ => m
  | _ => no_methods
  end.

(** A value of the interface [Error]: the results of its methods. *)
Record duhError := mkDuhError {
  ProtoMessage : option message;
  Code : string;
  HTTPCode : Z;
  Details : details_map;
  Message : string
}.

(** Whether the dynamic type implements [Error], [httpCoder], [infraChecker],
    [detailer] (the last three of retry/retry.go). *)
Definition implements_Error (e : goerror) : option duhError :=
  let m := method_set e in
  match m_ProtoMessage m, m_Code m, m_HTTPCode m, m_Details m, m_Message m with
  | Some p, Some c, Some h, Some d, Some t => Some (mkDuhError p c h d t)
  | _, _, _, _, _ => None
  end.
Definition implements_httpCoder (e : goerror) : option Z := m_HTTPCode (method_set e).
Definition implements_infraChecker (e : goerror) : option bool := m_IsInfraError (method_set e).
Definition implements_detailer (e : goerror) : option details_map := m_Details (method_set e).

(** [errors.As]: the first error of the tree, in pre-order, that satisfies the
    target; serviceError and ClientError have no [Unwrap] method. *)
Fixpoint errors_As {T} (target : goerror -> option T) (e : goerror) : option T :=
  match target e with
  | Some t => Some t
  | None =>
    match e with
    | ErrWrap _ inner => errors_As target inner
    | ErrForeign _ _ l =>
      (fix any (l : list goerror) : option T :=
        match l with
        | [] => None
        | x :: r => match errors_As target x with Some t => Some t | None => any r end
        end) l
    | _ => None
    end
  end.

(** ** [fmt.Errorf(format, err)] with one operand

    Formats built from text, [%%] and the verbs [%v], [%s], [%w] are
    interpreted; what fmt prints for the other verbs, flags or an operand that
    no verb consumes is a parameter. *)
Class FmtFallback := { Errorf_other : string -> goerror -> goerror }.

(** The text, whether the operand was used and whether a [%w] wrapped it. *)
Fixpoint format1 (bs : bytes) (arg : bytes) (used wraps : bool) : option (bytes * bool * bool) :=
  match bs with
  | [] => Some ([], used, wraps)
  | b :: t =>
    if byte_Z b =? 37 then
      match t with
      | v :: u =>
        if byte_Z v =? 37 then
          match format1 u arg used wraps with
          | Some (r, us, w) => Some (v :: r, us, w)
          | None => None
          end
        else if negb used && ((byte_Z v =? 118) || (byte_Z v =? 115) || (byte_Z v =? 119)) then
          match format1 u arg true (wraps || (byte_Z v =? 119)) with
          | Some (r, us, w) => Some (arg ++ r, us, w)
          | None => None
          end
        else None
      | [] => None
      end
    else
      match format1 t arg used wraps with
      | Some (r, us, w) => Some (b :: r, us, w)
      | None => None
      end
  end.

Definition Errorf `{FmtFallback} (format : string) (e : goerror) : goerror :=
  match format1 (of_string format) (of_string (error_text e)) false false with
  | Some (text, true, true) => ErrWrap (to_string text) e
  | Some (text, true, false) => ErrString (to_string text)
  | _ => Errorf_other format e
  end.

(** ** Constructors *)
Definition NewServiceErrorWithCode `{FmtFallback} (httpCode : Z) (code msg : string)
    (err : option goerror) (details : details_map) : goerror :=
  let err :=
    if decide (msg = "") then err
    else match err with
         | Some e => Some (Errorf msg e)
         | None => Some (ErrString msg)
         end in
  ErrService (mkServiceError details err code httpCode).

Definition NewServiceError `{FmtFallback} (httpCode : Z) (msg : string)
    (err : option goerror) (details : details_map) : goerror :=
  NewServiceErrorWithCode httpCode (Itoa httpCode) msg err details.

Definition NewClientError `{FmtFallback} (msg : string) (err : option goerror)
    (details : details_map) : goerror :=
  let err :=
    if decide (msg = "") then err
    else match err with
         | Some e => Some (Errorf msg e)
         | None => Some (ErrString msg)
         end in
  ErrClient (mkClientError details "" err false (Itoa CodeClientError) CodeClientError).

(** ** Lemmas *)
Definition as_Error : goerror -> option duhError := errors_As implements_Error.
Definition as_httpCoder : goerror -> option Z := errors_As implements_httpCoder.
Definition as_infraChecker : goerror -> option bool := errors_As implements_infraChecker.
Definition as_detailer : goerror -> option details_map := errors_As implements_detailer.

(** An error wrapped by a chain of [fmt.Errorf("...%w...", err)]. *)
Definition wrapped (texts : list string) (e : goerror) : goerror := foldr ErrWrap e texts.

Lemma errors_As_wrapped {T} (target : goerror -> option T) texts e :
  (forall t i, target (ErrWrap t i) = None) ->
  errors_As target (wrapped texts e) = errors_As target e.
Proof. intros H. induction texts as [|t l IH]; simpl; [done|]. by rewrite H. Qed.

Lemma as_Error_wrapped texts e : as_Error (wrapped texts e) = as_Error e.
Proof. by apply errors_As_wrapped. Qed.
Lemma as_httpCoder_wrapped texts e : as_httpCoder (wrapped texts e) = as_httpCoder e.
Proof. by apply errors_As_wrapped. Qed.
Lemma as_infraChecker_wrapped texts e : as_infraChecker (wrapped texts e) = as_infraChecker e.
Proof. by apply errors_As_wrapped. Qed.
Lemma as_detailer_wrapped texts e : as_detailer (wrapped texts e) = as_detailer e.
Proof. by apply errors_As_wrapped. Qed.

Lemma as_Error_service s :
  as_Error (ErrService s) =
    Some (mkDuhError (Some (MReply (se_ProtoMessage s))) (se_code s) (se_httpCode s)
            (se_details s) (se_Message s)).
Proof. done. Qed.
Lemma as_Error_client c :
  as_Error (ErrClient c) =
    Some (mkDuhError (Some (MReply (ce_ProtoMessage c))) (ce_code c) (ce_httpCode c)
            (ce_details c) (ce_msg c)).
Proof. done. Qed.
Lemma as_Error_limit Max :
  as_Error (ErrDataLimit Max) =
    Some (mkDuhError (Some (MReply (DataLimit_ProtoMessage Max))) "400" CodeBadRequest None
            (DataLimit_Message Max)).
Proof. done. Qed.
Lemma as_Error_string t : as_Error (ErrString t) = None.
Proof. done. Qed.
Lemma as_Error_sentinel s : as_Error (ErrSentinel s) = None.
Proof. done. Qed.
#[export] Hint Rewrite as_Error_wrapped as_Error_service as_Error_client as_Error_limit
  as_Error_string as_Error_sentinel as_httpCoder_wrapped as_infraChecker_wrapped
  as_detailer_wrapped : go.

(** The message kept by the constructors: the text of the wrapped error when
    one was given. *)
Definition built_message `{FmtFallback} (msg : string) (err : option goerror) : string :=
  if decide (msg = "") then match err with Some e => error_text e | None => "" end
  else match err with Some e => error_text (Errorf msg e) | None => msg end.

Lemma NewServiceErrorWithCode_Error `{FmtFallback} httpCode code msg err details :
  as_Error (NewServiceErrorWithCode httpCode code msg err details) =
    Some (mkDuhError (Some (MReply (mkReply code (built_message msg err) details)))
            code httpCode details (built_message msg err)).
Proof.
  unfold NewServiceErrorWithCode, built_message. rewrite as_Error_service.
  unfold se_ProtoMessage, se_Message. simpl. case_decide; destruct err; done.
Qed.
#[export] Hint Rewrite @NewServiceErrorWithCode_Error : go.

(** A service error is found by [errors.As] under any chain of wrapping
    and answers with the status, code, message and details it was built with,
    and the Reply it produces carries the same code, message and details. *)
Theorem NewServiceError_roundtrip `{FmtFallback} texts httpCode msg err details :
  as_Error (wrapped texts (NewServiceError httpCode msg err details)) =
    Some (mkDuhError (Some (MReply (mkReply (Itoa httpCode) (built_message msg err) details)))
            (Itoa httpCode) httpCode details (built_message msg err)).
Proof. unfold NewServiceError. by autorewrite with go. Qed.
