(* ===== verification/GoIO.v ===== *)
(** * GoIO: io.Reader, io.Writer and the functions of [io] the code uses

    A reader is a state type with a [Read] operation.  [FiniteReader] gives
    the measure that makes the loops terminate; [ReaderSpec] is the contract
    of a byte source: what it delivers does not depend on the sizes of the
    reads.  [source] is the concrete byte source: chunks as they arrive from
    the network, each possibly delivered together with an error. *)
From Stdlib Require Import ZArith Lia.
From stdpp Require Import base strings list.
From S2P Require Import Prelude Errors.
Local Open Scope nat_scope.

(** ** Interfaces *)

(** [Read(p)] with [len(p) = n]: the bytes read and the error. *)
Class IOReader (R : Type) := io_Read : R -> nat -> R * (bytes * option goerror).

(** Every non-empty read that returns no error makes progress ([io_left]); the
    bytes a reader can still deliver are bounded ([io_pending]). *)
Class FiniteReader (R : Type) `{IOReader R} := {
  io_left : R -> nat;
  io_pending : R -> nat;
  io_read_length : forall r n r' bs e, io_Read r n = (r', (bs, e)) -> length bs <= n;
  io_read_left : forall r n r' bs,
    0 < n -> io_Read r n = (r', (bs, None)) -> io_left r' < io_left r;
  io_read_pending : forall r n r' bs e,
    io_Read r n = (r', (bs, e)) -> io_pending r' + length bs <= io_pending r
}.

(** What a byte source delivers: [rd_bytes], then the error [rd_end]. *)
Class ReaderSpec (R : Type) `{FiniteReader R} := {
  rd_bytes : R -> bytes;
  rd_end : R -> goerror;
  rd_read : forall r n r' bs e,
    0 < n -> io_Read r n = (r', (bs, e)) ->
    rd_bytes r = bs ++ rd_bytes r' /\ rd_end r' = rd_end r /\
    (forall x, e = Some x -> x = rd_end r /\ rd_bytes r' = [])
}.

(** A class of states closed under reads in which data and an error never come
    in the same call. *)
Definition separates_end {R} `{IOReader R} (P : R -> Prop) : Prop :=
  forall r n r' bs e,
    P r -> 0 < n -> io_Read r n = (r', (bs, e)) -> P r' /\ (e <> None -> bs = []).

(** [Write(p)]: the number of bytes written and the error; a short write has a
    non-nil error (the contract of [io.Writer]). *)
Class IOWriter (W : Type) := io_Write : W -> bytes -> W * (nat * option goerror).

(** What a writer has accepted so far. *)
Class WriterSpec (W : Type) `{IOWriter W} := {
  wr_bytes : W -> bytes;
  wr_write : forall w p w' n e,
    io_Write w p = (w', (n, e)) ->
    wr_bytes w' = wr_bytes w ++ take n p /\ n <= length p /\ (e = None -> n = length p)
}.

(** ** io.ReadFull *)

Definition is_EOF (e : goerror) : bool :=
  match e with ErrSentinel EOF => true | _ => false end.

(** The loop of [io.ReadAtLeast]: read until [want] bytes or an error. *)
Fixpoint read_full_loop {R} `{IOReader R} (fuel : nat) (r : R) (want : nat) (acc : bytes)
    : option (R * (bytes * option goerror)) :=
  match fuel with
  | O => None
  | S fuel' =>
    if decide (want = 0) then Some (r, (acc, None))
    else
      let '(r', (bs, e)) := io_Read r want in
      match e with
      | Some _ => Some (r', (acc ++ bs, e))
      | None => read_full_loop fuel' r' (want - length bs) (acc ++ bs)
      end
  end.

Definition read_full_error (n got : nat) (e : option goerror) : option goerror :=
  if decide (n <= got) then None
  else match e with
       | Some x => if is_EOF x && (0 <? got) then Some (ErrSentinel UnexpectedEOF) else Some x
       | None => None
       end.

Definition ReadFull {R} `{FiniteReader R} (r : R) (n : nat) : option (R * (bytes * option goerror)) :=
  match read_full_loop (S (io_left r)) r n [] with
  | Some (r', (bs, e)) => Some (r', (bs, read_full_error n (length bs) e))
  | None => None
  end.

(** ** io.Copy into a bytes.Buffer

    [io.Copy] uses [Buffer.ReadFrom], which offers the free space of the
    buffer, at least [bytes.MinRead] = 512 bytes; how much exactly is up to
    the allocator. *)
Class BufferGrowth := {
  buf_free : nat -> nat;
  buf_free_min : forall n, 512 <= buf_free n
}.

Fixpoint read_from_loop {R} `{IOReader R, BufferGrowth} (fuel : nat) (r : R) (buf : bytes)
    : option (R * (bytes * option goerror)) :=
  match fuel with
  | O => None
  | S fuel' =>
    let '(r', (bs, e)) := io_Read r (buf_free (length buf)) in
    match e with
    | Some x => Some (r', (buf ++ bs, if is_EOF x then None else Some x))
    | None => read_from_loop fuel' r' (buf ++ bs)
    end
  end.

(** The final buffer and the error of [io.Copy]. *)
Definition Copy {R} `{FiniteReader R, BufferGrowth} (buf : bytes) (r : R)
    : option (R * (bytes * option goerror)) :=
  read_from_loop (S (io_left r)) r buf.

(** [io.Copy] as a total function: [Copy] never runs out of fuel
    ([Copy_total]). *)
Definition io_Copy {R} `{FiniteReader R, BufferGrowth} (buf : bytes) (r : R)
    : R * (bytes * option goerror) :=
  default (r, (buf, None)) (Copy buf r).

(** ** Closable bodies ([io.ReadCloser]) *)
Record Body (R : Type) := mkBody { b_r : R; b_closed : bool }.
Arguments mkBody {R}. Arguments b_r {R}. Arguments b_closed {R}.

Definition Body_Close {R} (b : Body R) : Body R := mkBody (b_r b) true.

Definition ErrBodyReadAfterClose : goerror := ErrString "http: invalid Read on closed Body".

Definition Body_Read {R} `{IOReader R} (b : Body R) (n : nat) : Body R * (bytes * option goerror) :=
  if b_closed b then (b, ([], Some ErrBodyReadAfterClose))
  else let '(r, res) := io_Read (b_r b) n in (mkBody r false, res).

#[export] Instance body_reader {R} `{IOReader R} : IOReader (Body R) := Body_Read.

(** ** Byte sources *)
Inductive chunk :=
| Chunk (bs : bytes)                    (* delivered with a nil error *)
| ChunkEnd (bs : bytes) (e : goerror).  (* the last bytes, delivered with [e] *)

Definition source : Type := list chunk.

(** After the last chunk a source is at EOF; an error is sticky. *)
Definition source_Read (s : source) (n : nat) : source * (bytes * option goerror) :=
  match s with
  | [] => ([], ([], Some (ErrSentinel EOF)))
  | Chunk bs :: t =>
    if decide (length bs <= n) then (t, (bs, None)) else (Chunk (drop n bs) :: t, (take n bs, None))
  | ChunkEnd bs e :: t =>
    if decide (length bs <= n) then ([ChunkEnd [] e], (bs, Some e))
    else (ChunkEnd (drop n bs) e :: t, (take n bs, None))
  end.

#[export] Instance source_reader : IOReader source := source_Read.

Fixpoint source_bytes (s : source) : bytes :=
  match s with
  | [] => []
  | Chunk bs :: t => bs ++ source_bytes t
  | ChunkEnd bs _ :: _ => bs
  end.

Fixpoint source_end (s : source) : goerror :=
  match s with
  | [] => ErrSentinel EOF
  | Chunk _ :: t => source_end t
  | ChunkEnd _ e :: _ => e
  end.

Definition chunk_size (c : chunk) : nat :=
  match c with Chunk bs => S (length bs) | ChunkEnd bs _ => S (length bs) end.

Definition source_left (s : source) : nat := sum_list_with chunk_size s.

(** No bytes travel with an error. *)
Definition chunk_separate (c : chunk) : Prop :=
  match c with Chunk _ => True | ChunkEnd bs _ => bs = [] end.

(** ** Lemmas: totality of io.Copy *)
Lemma read_from_loop_total {R} `{FiniteReader R, BufferGrowth} fuel (r : R) buf :
  io_left r < fuel -> is_Some (read_from_loop fuel r buf).
Proof.
  revert r buf. induction fuel as [|f IH]; intros r buf Hf; [lia|]. simpl.
  pose proof (buf_free_min (length buf)).
  destruct (io_Read r _) as [r1 [bs [x|]]] eqn:Hr; [eauto|].
  apply io_read_left in Hr; [|lia]. apply IH. lia.
Qed.

Lemma Copy_total {R} `{FiniteReader R, BufferGrowth} buf (r : R) :
  Copy buf r = Some (io_Copy buf r).
Proof.
  unfold io_Copy. destruct (read_from_loop_total (S (io_left r)) r buf) as [x E]; [lia|].
  unfold Copy. by rewrite E.
Qed.

(** ** Lemmas: bodies *)
Lemma body_io_Read {R} `{IOReader R} (b : Body R) n : io_Read b n = Body_Read b n.
Proof. done. Qed.

#[export] Instance body_finite {R} `{FiniteReader R} : FiniteReader (Body R).
Proof.
  refine {| io_left b := io_left (b_r b); io_pending b := io_pending (b_r b) |};
    intros [r []] n; rewrite ?body_io_Read; unfold Body_Read; simpl;
    intros *; rewrite ?body_io_Read; unfold Body_Read; simpl;
    try (destruct (io_Read r n) as [r1 [bs1 e1]] eqn:Hr); intros; simplify_eq/=; try lia.
  - by apply io_read_length in Hr.
  - by apply io_read_left in Hr.
  - by apply io_read_pending in Hr.
Defined.

#[export] Instance body_spec {R} `{ReaderSpec R} : ReaderSpec (Body R).
Proof.
  refine {| rd_bytes b := if b_closed b then [] else rd_bytes (b_r b);
            rd_end b := if b_closed b then ErrBodyReadAfterClose else rd_end (b_r b) |}.
  intros [r []] n r' bs e Hn; rewrite body_io_Read; unfold Body_Read; simpl.
  - intros [= <- <- <-]. simpl. split; [done|]. split; [done|]. naive_solver.
  - destruct (io_Read r n) as [r1 [bs1 e1]] eqn:Hr. intros [= <- <- <-]. simpl.
    by apply (rd_read r n).
Defined.

(** ** Lemmas: sources *)
Lemma source_io_Read (s : source) n : io_Read s n = source_Read s n.
Proof. done. Qed.

#[export] Instance source_finite : FiniteReader source.
Proof.
  refine {| io_left := source_left; io_pending s := length (source_bytes s) |};
    intros [|[bs|bs x] t] n; rewrite ?source_io_Read; simpl;
    intros *; rewrite ?source_io_Read; unfold source_Read; intros; repeat case_decide; simplify_eq/=;
    rewrite ?length_app, ?length_drop, ?length_take; lia.
Defined.

#[export] Instance source_spec : ReaderSpec source.
Proof.
  refine {| rd_bytes := source_bytes; rd_end := source_end |}.
  intros [|[bs|bs x] t] n; rewrite ?source_io_Read; simpl;
    intros *; rewrite ?source_io_Read; unfold source_Read; intros; repeat case_decide; simplify_eq/=;
    rewrite ?app_nil_r, ?app_assoc, ?take_drop; naive_solver.
Defined.

Lemma source_separates : separates_end (Forall chunk_separate : source -> Prop).
Proof.
  intros [|[cs|cs x] t] n s' bs e Hs Hn Hr; rewrite source_io_Read in Hr; simpl in Hr;
    repeat case_decide; simplify_eq/=; inv Hs; simpl in *; subst; simpl in *;
    (split; [repeat constructor; try done; lia | try done]); lia.
Qed.

(** ** Lemmas: what a read takes from the reader *)
Lemma read_full_loop_pending {R} `{FiniteReader R} fuel (r : R) want acc r' bs e :
  read_full_loop fuel r want acc = Some (r', (bs, e)) ->
  io_pending r' + length bs <= io_pending r + length acc /\ (e = None -> length bs = length acc + want).
Proof.
  revert r want acc. induction fuel as [|f IH]; intros r want acc; [done|]. simpl.
  case_decide as Hw; [intros; simplify_eq; lia|].
  destruct (io_Read r want) as [r1 [bs1 [x|]]] eqn:Hr.
  - intros; simplify_eq. apply io_read_pending in Hr. rewrite length_app. split; [lia|done].
  - intros E. apply IH in E. pose proof (io_read_length _ _ _ _ _ Hr).
    apply io_read_pending in Hr. rewrite length_app in E. destruct E as [E1 E2].
    split; [lia|]. intros E3. specialize (E2 E3). lia.
Qed.

Lemma read_full_loop_total {R} `{FiniteReader R} fuel (r : R) want acc :
  io_left r < fuel -> is_Some (read_full_loop fuel r want acc).
Proof.
  revert r want acc. induction fuel as [|f IH]; intros r want acc Hf; [lia|]. simpl.
  case_decide; [eauto|]. destruct (io_Read r want) as [r1 [bs [x|]]] eqn:Hr; [eauto|].
  apply io_read_left in Hr; [|lia]. apply IH. lia.
Qed.

Lemma ReadFull_total {R} `{FiniteReader R} (r : R) n : exists r' bs e, ReadFull r n = Some (r', (bs, e)).
Proof.
  unfold ReadFull. destruct (read_full_loop_total (S (io_left r)) r n []) as [[r' [bs e]] ->]; [lia|].
  eauto.
Qed.

Lemma ReadFull_pending {R} `{FiniteReader R} (r : R) n r' bs e :
  ReadFull r n = Some (r', (bs, e)) ->
  io_pending r' + length bs <= io_pending r /\ (e = None -> n <= length bs).
Proof.
  unfold ReadFull. destruct (read_full_loop _ r n []) as [[r1 [bs1 e1]]|] eqn:E; [|done].
  intros; simplify_eq. apply read_full_loop_pending in E as [E1 E2]. simpl in *.
  split; [lia|]. unfold read_full_error. case_decide; [lia|].
  destruct e1 as [x|]; [by destruct (_ && _)|]. intros _. rewrite (E2 eq_refl) in *. lia.
Qed.

(** ** Lemmas: ReadFull over any byte source *)
Section ReadFullSpec.
Context {R : Type} `{ReaderSpec R}.

Lemma read_full_loop_spec fuel (r : R) want acc :
  io_left r < fuel ->
  exists r' e,
    read_full_loop fuel r want acc = Some (r', (acc ++ take want (rd_bytes r), e)) /\
    rd_bytes r' = drop want (rd_bytes r) /\ rd_end r' = rd_end r /\
    (length (rd_bytes r) < want -> e = Some (rd_end r)).
Proof.
  revert r want acc. induction fuel as [|f IH]; intros r want acc Hf; [lia|]. simpl.
  case_decide as Hw.
  { subst. exists r, None. rewrite app_nil_r. repeat split; lia. }
  destruct (io_Read r want) as [r1 [bs e]] eqn:Hr.
  pose proof (io_read_length _ _ _ _ _ Hr) as Hlen.
  destruct (rd_read r want r1 bs e ltac:(lia) Hr) as (Hb & Hend & He).
  destruct (take_drop_split want _ _ _ Hb Hlen) as [-> ->].
  destruct e as [x|].
  - destruct (He x eq_refl) as [-> Hnil]. exists r1, (Some (rd_end r)).
    rewrite Hnil, take_nil, drop_nil, app_nil_r. repeat split; done.
  - pose proof (io_read_left r want r1 bs ltac:(lia) Hr).
    destruct (IH r1 (want - length bs) (acc ++ bs) ltac:(lia)) as (r' & e' & -> & E1 & E2 & E3).
    exists r', e'. rewrite <-app_assoc. repeat split; try done; [congruence|].
    intros Hlt. rewrite Hb, length_app in Hlt. rewrite <-Hend. apply E3. lia.
Qed.

Lemma ReadFull_ok (r : R) n :
  n <= length (rd_bytes r) ->
  exists r', ReadFull r n = Some (r', (take n (rd_bytes r), None)) /\
    rd_bytes r' = drop n (rd_bytes r) /\ rd_end r' = rd_end r.
Proof.
  intros Hn. unfold ReadFull.
  destruct (read_full_loop_spec (S (io_left r)) r n [] ltac:(lia)) as (r' & e & -> & E1 & E2 & _).
  exists r'. simpl. unfold read_full_error. rewrite length_take.
  rewrite decide_True by lia. done.
Qed.

(** A source that ends early: EOF at once if nothing was read, otherwise
    ErrUnexpectedEOF in place of EOF. *)
Lemma ReadFull_short (r : R) n :
  length (rd_bytes r) < n ->
  exists r', ReadFull r n =
      Some (r', (rd_bytes r,
                 Some (if is_EOF (rd_end r) && (0 <? length (rd_bytes r))
                       then ErrSentinel UnexpectedEOF else rd_end r))) /\
    rd_bytes r' = [] /\ rd_end r' = rd_end r.
Proof.
  intros Hn. unfold ReadFull.
  destruct (read_full_loop_spec (S (io_left r)) r n [] ltac:(lia)) as (r' & e & -> & E1 & E2 & E3).
  rewrite (E3 Hn). exists r'. simpl. unfold read_full_error.
  rewrite take_ge, drop_ge in * by lia. rewrite decide_False by lia.
  split; [|done]. by destruct (_ && _).
Qed.
End ReadFullSpec.

(** ** Lemmas: Copy over any byte source *)
Section CopySpec.
Context {R : Type} `{ReaderSpec R, BufferGrowth}.

Lemma read_from_loop_spec fuel (r : R) buf :
  io_left r < fuel ->
  exists r', read_from_loop fuel r buf =
      Some (r', (buf ++ rd_bytes r, if is_EOF (rd_end r) then None else Some (rd_end r))) /\
    rd_bytes r' = [] /\ rd_end r' = rd_end r.
Proof.
  revert r buf. induction fuel as [|f IH]; intros r buf Hf; [lia|]. simpl.
  pose proof (buf_free_min (length buf)).
  destruct (io_Read r (buf_free (length buf))) as [r1 [bs e]] eqn:Hr.
  destruct (rd_read r (buf_free (length buf)) r1 bs e ltac:(lia) Hr) as (Hb & Hend & He).
  destruct e as [x|].
  - destruct (He x eq_refl) as [-> Hnil]. exists r1. by rewrite Hb, Hnil, app_nil_r.
  - pose proof (io_read_left r (buf_free (length buf)) r1 bs ltac:(lia) Hr).
    destruct (IH r1 (buf ++ bs) ltac:(lia)) as (r' & -> & ? & ?).
    exists r'. rewrite Hb, <-app_assoc, Hend in *. repeat split; congruence.
Qed.

(** [io.Copy] terminates, appends everything the source delivers and reports
    its terminal error unless that is EOF. *)
Lemma Copy_spec (r : R) buf :
  exists r', Copy buf r =
      Some (r', (buf ++ rd_bytes r, if is_EOF (rd_end r) then None else Some (rd_end r))) /\
    rd_bytes r' = [] /\ rd_end r' = rd_end r.
Proof. apply read_from_loop_spec. lia. Qed.

Lemma io_Copy_spec (r : R) buf :
  exists r', io_Copy buf r =
      (r', (buf ++ rd_bytes r, if is_EOF (rd_end r) then None else Some (rd_end r))) /\
    rd_bytes r' = [] /\ rd_end r' = rd_end r.
Proof.
  destruct (Copy_spec r buf) as (r' & E & ?). rewrite Copy_total in E. injection E as E. eauto.
Qed.
End CopySpec.
