(* ===== verification/Reader.v ===== *)
(** * Reader: the LimitReader of reader.go

    [LimitReader] turns any reader into one that fails with
    [ErrDataLimitExceeded] once more than [max] bytes were read. *)
From Stdlib Require Import ZArith Lia.
From stdpp Require Import base strings list.
From S2P Require Import Prelude Errors GoIO.
Local Open Scope Z_scope.

(** [type LimitReader struct] *)
Record LimitReader (R : Type) := mkLimitReader {
  lr_r : R;
  lr_remain : Z;
  lr_max : Z
}.
Arguments mkLimitReader {R}. Arguments lr_r {R}. Arguments lr_remain {R}. Arguments lr_max {R}.

(** [NewLimitReader(r, n)]; [n + 1] is computed on int64. *)
Definition NewLimitReader {R} (r : R) (n : Z) : LimitReader R := mkLimitReader r (int64 (n + 1)) n.

Definition LimitReader_Read {R} `{IOReader R} (l : LimitReader R) (p : nat)
    : LimitReader R * (bytes * option goerror) :=
  if lr_remain l <=? 0 then (l, ([], Some (ErrDataLimit (lr_max l))))
  else
    let p := if lr_remain l <? Z.of_nat p then Z.to_nat (lr_remain l) else p in
    let '(r', (bs, err)) := io_Read (lr_r l) p in
    (mkLimitReader r' (int64 (lr_remain l - Z.of_nat (length bs))) (lr_max l), (bs, err)).

(** [Close] closes the wrapped body. *)
Definition LimitReader_Close {R} (l : LimitReader (Body R)) : LimitReader (Body R) :=
  mkLimitReader (Body_Close (lr_r l)) (lr_remain l) (lr_max l).

#[export] Instance limit_reader_io {R} `{IOReader R} : IOReader (LimitReader R) := LimitReader_Read.

#[export] Instance limit_reader_finite {R} `{FiniteReader R} : FiniteReader (LimitReader R).
Proof.
  refine {| io_left l := io_left (lr_r l); io_pending l := io_pending (lr_r l) |};
    intros l n; unfold io_Read, limit_reader_io, LimitReader_Read;
    destruct (lr_remain l <=? 0) eqn:E; intros; simplify_eq/=; try lia;
    destruct (io_Read _ _) as [r1 [bs1 e1]] eqn:Hr; simplify_eq/=; apply Z.leb_gt in E.
  - apply io_read_length in Hr. destruct (_ <? _) eqn:?; lia.
  - apply io_read_left in Hr; [lia|]. destruct (_ <? _) eqn:?; lia.
  - by apply io_read_pending in Hr.
Defined.

(** ** Lemmas *)
Lemma limit_io_Read {R} `{IOReader R} (l : LimitReader R) p : io_Read l p = LimitReader_Read l p.
Proof. done. Qed.

Section Limit.
Context {R : Type} `{ReaderSpec R, BufferGrowth}.

(** What [io.Copy] takes through a limit of [k] remaining bytes. *)
Lemma limit_loop_spec fuel (r : R) (k max : Z) buf :
  (io_left r < fuel)%nat -> 0 <= k <= max_int64 ->
  exists l' e,
    read_from_loop fuel (mkLimitReader r k max) buf =
      Some (l', (buf ++ take (Z.to_nat k) (rd_bytes r), e)) /\
    (Z.of_nat (length (rd_bytes r)) < k ->
       e = if is_EOF (rd_end r) then None else Some (rd_end r)) /\
    (k < Z.of_nat (length (rd_bytes r)) -> e = Some (ErrDataLimit max)) /\
    (forall P, separates_end P -> P r -> k <= Z.of_nat (length (rd_bytes r)) ->
       e = Some (ErrDataLimit max)).
Proof.
  revert r k buf. induction fuel as [|f IH]; intros r k buf Hf Hk; [lia|].
  cbn [read_from_loop]. rewrite limit_io_Read. unfold LimitReader_Read.
  cbn [lr_remain lr_r lr_max].
  destruct (k <=? 0) eqn:Ek.
  { replace (Z.to_nat k) with 0%nat by lia.
    eexists _, _. rewrite take_0, !app_nil_r. split; [done|].
    repeat split; intros; (done || lia). }
  pose proof (buf_free_min (length buf)) as Hmin.
  set (p := if k <? _ then _ else _).
  assert (0 < p <= Z.to_nat k)%nat as Hp by (unfold p; destruct (_ <? _) eqn:?; lia).
  clearbody p. destruct (io_Read r p) as [r1 [bs e]] eqn:Hr.
  pose proof (io_read_length r p r1 bs e Hr) as Hlen.
  destruct (rd_read r p r1 bs e ltac:(lia) Hr) as (Hb & Hend & He).
  rewrite Hb, length_app. destruct e as [x|].
  - destruct (He x eq_refl) as [-> Hnil].
    rewrite Hnil, app_nil_r, take_ge, Nat.add_0_r by lia. eexists _, _. split; [done|].
    split; [done|]. split; [lia|]. intros P HP HPr Hle.
    destruct (HP r p r1 bs (Some (rd_end r))) as [_ Hnb]; [done|lia|done|].
    rewrite Hnb in * by done. simpl in *. lia.
  - pose proof (io_read_left r p r1 bs ltac:(lia) Hr).
    rewrite int64_id by (unfold min_int64; lia).
    destruct (IH r1 (k - Z.of_nat (length bs)) (buf ++ bs)) as (l' & e' & E0 & E1 & E2 & E3);
      [lia|unfold max_int64 in *; lia|].
    exists l', e'. rewrite E0, <-app_assoc, take_app_ge by lia.
    replace (Z.to_nat k - length bs)%nat with (Z.to_nat (k - Z.of_nat (length bs))) by lia.
    rewrite Hend in E1. split; [done|]. split; [intros; apply E1; lia|].
    split; [intros; apply E2; lia|]. intros P HP HPr Hle.
    apply (E3 P HP); [|lia]. by eapply (HP r p r1 bs None); [|lia|].
Qed.
End Limit.

(** A body delivered as one piece whose last bytes come with io.EOF. *)
Lemma limit_loop_joined `{BufferGrowth} fuel bs k max buf :
  (length bs < fuel)%nat -> 0 < k <= max_int64 -> k = Z.of_nat (length bs) ->
  exists l', read_from_loop fuel (mkLimitReader ([ChunkEnd bs (ErrSentinel EOF)] : source) k max) buf =
    Some (l', (buf ++ bs, None)).
Proof.
  revert bs k buf. induction fuel as [|f IH]; intros bs k buf Hf Hk Hlen; [lia|].
  cbn [read_from_loop]. rewrite limit_io_Read. unfold LimitReader_Read.
  cbn [lr_remain lr_r lr_max]. replace (k <=? 0) with false by lia.
  pose proof (buf_free_min (length buf)) as Hmin.
  set (p := if k <? _ then _ else _).
  assert (0 < p <= Z.to_nat k)%nat as Hp by (unfold p; destruct (_ <? _) eqn:?; lia).
  clearbody p. rewrite source_io_Read. simpl. case_decide as Hd; [by eexists|].
  rewrite length_take, int64_id by (unfold min_int64, max_int64 in *; lia).
  destruct (IH (drop p bs) (k - Z.of_nat (p `min` length bs)) (buf ++ take p bs)) as [l' ->];
    [rewrite length_drop; lia|unfold max_int64 in *; lia|rewrite length_drop; lia|].
  exists l'. by rewrite <-app_assoc, take_drop.
Qed.

Lemma NewLimitReader_remain {R} (r : R) n :
  0 < n < max_int64 -> NewLimitReader r n = mkLimitReader r (n + 1) n.
Proof. intros Hn. unfold NewLimitReader. rewrite int64_id; [done|unfold min_int64; lia]. Qed.

(** Copying through the limit, in one statement. *)
Lemma limit_copy_spec {R} `{ReaderSpec R, BufferGrowth} (r : R) n :
  0 < n < max_int64 ->
  exists l' e, Copy [] (NewLimitReader r n) = Some (l', (take (Z.to_nat (n + 1)) (rd_bytes r), e)) /\
    (Z.of_nat (length (rd_bytes r)) <= n -> e = if is_EOF (rd_end r) then None else Some (rd_end r)) /\
    (n + 1 < Z.of_nat (length (rd_bytes r)) -> e = Some (ErrDataLimit n)).
Proof.
  intros Hn. unfold Copy. rewrite NewLimitReader_remain by done.
  destruct (limit_loop_spec (S (io_left r)) r (n + 1) n [])
    as (l' & e & E0 & E1 & E2 & _); [lia|unfold max_int64 in *; lia|].
  exists l', e. split; [done|]. split; intros; [apply E1|apply E2]; lia.
Qed.

(** The errors a copy through the limit can end with. *)
Lemma limit_loop_errors {R} `{ReaderSpec R, BufferGrowth} fuel (r : R) k max buf l' b x :
  min_int64 <= k <= max_int64 ->
  read_from_loop fuel (mkLimitReader r k max) buf = Some (l', (b, Some x)) ->
  x = rd_end r \/ x = ErrDataLimit max.
Proof.
  revert r k buf. induction fuel as [|f IH]; intros r k buf Hk; [done|].
  cbn [read_from_loop]. rewrite limit_io_Read. unfold LimitReader_Read. cbn [lr_remain lr_r lr_max].
  destruct (k <=? 0) eqn:Ek; [intros [= _ _ <-]; auto|].
  pose proof (buf_free_min (length buf)) as Hmin.
  set (p := if k <? _ then _ else _).
  assert (0 < p <= Z.to_nat k)%nat as Hp by (unfold p; destruct (_ <? _) eqn:?; lia). clearbody p.
  destruct (io_Read r p) as [r' [bs e]] eqn:Er.
  pose proof (io_read_length _ _ _ _ _ Er) as Hlen.
  destruct (rd_read r p r' bs e ltac:(lia) Er) as (_ & He & Hx).
  destruct e as [y|].
  - destruct (Hx y eq_refl) as [-> _]. destruct (is_EOF _); [done|]. intros [= _ _ <-]. auto.
  - rewrite <-He. apply IH. apply int64_range.
Qed.

(** ** Properties *)

(** C13: copying a body through [NewLimitReader(body, n)] (how ReadRequest and
    ReadContent read it) terminates; a body of at most n bytes is read as it
    is, with its own terminal error; a body of more than n+1 bytes fails with
    ErrDataLimitExceeded after exactly n+1 bytes were taken; n+1 bytes are
    never exceeded. *)
Theorem limit_reader_copy {R} `{ReaderSpec R, BufferGrowth} (r : R) n :
  0 < n < max_int64 ->
  exists l' e, Copy [] (NewLimitReader r n) = Some (l', (take (Z.to_nat (n + 1)) (rd_bytes r), e)) /\
    (Z.of_nat (length (rd_bytes r)) <= n -> e = if is_EOF (rd_end r) then None else Some (rd_end r)) /\
    (n + 1 < Z.of_nat (length (rd_bytes r)) -> e = Some (ErrDataLimit n)).
Proof. apply limit_copy_spec. Qed.

(** Over a source that never returns data together with an error, the
    limit is exact: a body of more than n bytes is refused. *)
Theorem limit_reader_exact {R} `{ReaderSpec R, BufferGrowth} (P : R -> Prop) (r : R) n :
  separates_end P -> P r -> 0 < n < max_int64 ->
  exists l' e, Copy [] (NewLimitReader r n) = Some (l', (take (Z.to_nat (n + 1)) (rd_bytes r), e)) /\
    (e = Some (ErrDataLimit n) <->
       n < Z.of_nat (length (rd_bytes r)) \/ rd_end r = ErrDataLimit n).
Proof.
  intros HP HPr Hn. unfold Copy. rewrite NewLimitReader_remain by done.
  destruct (limit_loop_spec (S (io_left r)) r (n + 1) n [])
    as (l' & e & E0 & E1 & _ & E3); [lia|unfold max_int64 in *; lia|].
  exists l', e. split; [done|].
  destruct (Z.le_gt_cases (Z.of_nat (length (rd_bytes r))) n).
  - rewrite E1 by lia. split; [|by intros [?| ->]; [lia|]].
    destruct (is_EOF (rd_end r)); intros; simplify_eq; auto.
  - rewrite (E3 P HP HPr) by lia. split; [intros _; left; lia|done].
Qed.

(** The limit is off by one on a reader that returns its last bytes
    together with io.EOF (as net/http bodies with a Content-Length do): a body
    of n+1 bytes passes a limit of n without an error. *)
Theorem limit_reader_off_by_one `{BufferGrowth} bs n :
  0 < n < max_int64 -> Z.of_nat (length bs) = n + 1 ->
  exists l', Copy [] (NewLimitReader ([ChunkEnd bs (ErrSentinel EOF)] : source) n) =
    Some (l', (bs, None)).
Proof.
  intros Hn Hlen. unfold Copy. rewrite NewLimitReader_remain by done.
  destruct (limit_loop_joined (S (io_left ([ChunkEnd bs (ErrSentinel EOF)] : source)))
    bs (n + 1) n []) as [l' E]; [simpl; lia|unfold max_int64 in *; lia|lia|].
  exists l'. exact E.
Qed.

(** [n + 1] wraps at the largest limit, and the reader then refuses every
    read, of an empty body too. *)
Theorem limit_reader_overflow {R} `{IOReader R} (r : R) p :
  io_Read (NewLimitReader r max_int64) p = (NewLimitReader r max_int64, ([], Some (ErrDataLimit max_int64))).
Proof. rewrite limit_io_Read. reflexivity. Qed.

Definition growth_512 : BufferGrowth.
Proof. exists (fun _ => 512%nat). intros _. done. Defined.
#[local] Existing Instance growth_512.

Lemma limit_reader_copy_witness :
  0 < 3 < max_int64 /\
  exists l' e, Copy [] (NewLimitReader ([Chunk (of_string "ab")] : source) 3) =
    Some (l', (of_string "ab", e)) /\ e = None.
Proof.
  split; [done|].
  destruct (limit_reader_copy ([Chunk (of_string "ab")] : source) 3 ltac:(done)) as (l' & e & E & E1 & _).
  exists l', e. split; [exact E|]. apply E1. vm_compute. done.
Defined.

Lemma limit_reader_exact_witness :
  exists l' e, Copy [] (NewLimitReader ([Chunk (of_string "abcd")] : source) 3) =
    Some (l', (of_string "abcd", e)) /\ e = Some (ErrDataLimit 3).
Proof.
  destruct (limit_reader_exact (Forall chunk_separate) ([Chunk (of_string "abcd")] : source) 3
    source_separates ltac:(repeat constructor) ltac:(done)) as (l' & e & E & E1).
  exists l', e. split; [exact E|]. apply E1. left. done.
Defined.

Lemma limit_reader_off_by_one_witness :
  exists l', Copy [] (NewLimitReader ([ChunkEnd (of_string "abcd") (ErrSentinel EOF)] : source) 3) =
    Some (l', (of_string "abcd", None)).
Proof. apply (limit_reader_off_by_one (of_string "abcd") 3); done. Defined.
