(* ===== verification/Frames.v ===== *)
(** * Frames: the frame codec of stream/stream.go

    [WriteFrame] and [ReadFrame] over any [io.Writer] and [io.Reader], and the
    abstract wire format they implement: a sequence of frames
    [flag, 32-bit big-endian length, payload]. *)
From Stdlib Require Import ZArith Lia.
From stdpp Require Import base strings list.
From S2P Require Import Prelude GoStrings Errors GoIO.
Local Open Scope Z_scope.

Definition FlagData : byte := Byte.x00.
Definition FlagFinal : byte := Byte.x01.
Definition FlagError : byte := Byte.x02.
Definition FlagHeartbeat : byte := Byte.x03.

Definition headerSize : nat := 5.

(** ** encoding/binary.BigEndian *)
Definition PutUint32 (v : Z) : bytes :=
  [Z_byte (Z.shiftr v 24); Z_byte (Z.shiftr v 16); Z_byte (Z.shiftr v 8); Z_byte v].

Definition Uint32 (b : bytes) : Z :=
  match b with
  | [b0; b1; b2; b3] =>
    Z.lor (byte_Z b3) (Z.lor (Z.shiftl (byte_Z b2) 8)
      (Z.lor (Z.shiftl (byte_Z b1) 16) (Z.shiftl (byte_Z b0) 24)))
  | _ => 0
  end.

(** ** Writer *)
Definition frame_header (flag : byte) (len : Z) : bytes := flag :: PutUint32 (uint32 len).

Definition WriteFrame {W} `{IOWriter W} (w : W) (flag : byte) (payload : bytes) : W * option goerror :=
  let header := frame_header flag (Z.of_nat (length payload)) in
  let '(w, (_, err)) := io_Write w header in
  match err with
  | Some e => (w, Some e)
  | None =>
    if (0 <? length payload)%nat then
      let '(w, (_, err)) := io_Write w payload in
      match err with
      | Some e => (w, Some e)
      | None => (w, None)
      end
    else (w, None)
  end.

(** ** Reader *)
Record Reader (R : Type) := mkReader { fr_r : R; fr_maxPayloadSize : Z }.
Arguments mkReader {R}. Arguments fr_r {R}. Arguments fr_maxPayloadSize {R}.

Definition NewReader {R} (r : R) (maxPayloadSize : Z) : Reader R := mkReader r maxPayloadSize.

Definition frame_limit_error (length limit : Z) : goerror :=
  ErrString ("frame payload size " +:+ Itoa length +:+ " exceeds limit " +:+ Itoa limit).

(** The flag, the payload (nil as the empty list) and the error. *)
Definition ReadFrame {R} `{FiniteReader R} (rd : Reader R)
    : option (Reader R * (byte * bytes * option goerror)) :=
  let zero := Byte.x00 in
  match ReadFull (fr_r rd) headerSize with
  | None => None
  | Some (r, (header, err)) =>
    let rd := mkReader r (fr_maxPayloadSize rd) in
    match err with
    | Some e =>
      if is_EOF e then Some (rd, (zero, [], Some (ErrSentinel EOF)))
      else Some (rd, (zero, [], Some (ErrSentinel UnexpectedEOF)))
    | None =>
      let flag := default zero (head header) in
      let len := Uint32 (tail header) in
      if (0 <? fr_maxPayloadSize rd) && (fr_maxPayloadSize rd <? len) then
        Some (rd, (zero, [], Some (frame_limit_error len (fr_maxPayloadSize rd))))
      else if len =? 0 then Some (rd, (flag, [], None))
      else
        match ReadFull (fr_r rd) (Z.to_nat len) with
        | None => None
        | Some (r, (payload, err)) =>
          let rd := mkReader r (fr_maxPayloadSize rd) in
          match err with
          | Some _ => Some (rd, (zero, [], Some (ErrSentinel UnexpectedEOF)))
          | None => Some (rd, (flag, payload, None))
          end
        end
    end
  end.

(** ** The wire format *)
Record frame := mkFrame { f_flag : byte; f_payload : bytes }.

#[export] Instance frame_eq_dec : EqDecision frame.
Proof. solve_decision. Defined.

Definition encode_frame (f : frame) : bytes :=
  frame_header (f_flag f) (Z.of_nat (length (f_payload f))) ++ f_payload f.

Definition encode_frames (fs : list frame) : bytes := fs ≫= encode_frame.

(** A frame the codec carries: its length fits the header. *)
Definition frame_ok (f : frame) : Prop := Z.of_nat (length (f_payload f)) < 2 ^ 32.

Definition fits_limit (max : Z) (f : frame) : Prop :=
  max <= 0 \/ Z.of_nat (length (f_payload f)) <= max.

(** ** Lemmas: the header *)
Lemma Uint32_sum b0 b1 b2 b3 :
  Uint32 [b0; b1; b2; b3] =
    byte_Z b3 + byte_Z b2 * 2 ^ 8 + byte_Z b1 * 2 ^ 16 + byte_Z b0 * 2 ^ 24.
Proof.
  pose proof (byte_Z_range b1). pose proof (byte_Z_range b2). pose proof (byte_Z_range b3).
  unfold Uint32. rewrite !Z.shiftl_mul_pow2 by lia.
  rewrite lor_mul_pow2_add by lia.
  replace (byte_Z b1 * 2 ^ 16 + byte_Z b0 * 2 ^ 24)
    with ((byte_Z b1 + byte_Z b0 * 2 ^ 8) * 2 ^ 16) by lia.
  rewrite lor_mul_pow2_add by lia.
  replace (byte_Z b2 * 2 ^ 8 + (byte_Z b1 + byte_Z b0 * 2 ^ 8) * 2 ^ 16)
    with ((byte_Z b2 + (byte_Z b1 + byte_Z b0 * 2 ^ 8) * 2 ^ 8) * 2 ^ 8) by lia.
  rewrite lor_mul_pow2_add by lia. lia.
Qed.

Lemma Uint32_PutUint32 v : 0 <= v < 2 ^ 32 -> Uint32 (PutUint32 v) = v.
Proof.
  intros Hv. unfold PutUint32. rewrite Uint32_sum, !byte_Z_of_Z, !Z.shiftr_div_pow2 by lia.
  change (2 ^ 8) with 256. change (2 ^ 16) with 65536. change (2 ^ 24) with 16777216 in *.
  change (2 ^ 32) with 4294967296 in Hv.
  assert (v / 65536 = v / 256 / 256) as -> by (by rewrite Z.div_div).
  assert (v / 16777216 = v / 256 / 256 / 256) as -> by (by rewrite !Z.div_div).
  pose proof (Z.div_mod v 256). pose proof (Z.div_mod (v / 256) 256).
  pose proof (Z.div_mod (v / 256 / 256) 256).
  rewrite (Z.mod_small (v / 256 / 256 / 256) 256); [lia|].
  rewrite !Z.div_div by lia. split; [apply Z.div_pos|apply Z.div_lt_upper_bound]; lia.
Qed.

Lemma digit256 lo b hi d x :
  0 <= lo < d -> 0 <= b < 256 -> x = lo + b * d + hi * (d * 256) -> (x / d) `mod` 256 = b.
Proof.
  intros Hlo Hb ->. replace (lo + b * d + hi * (d * 256)) with (lo + (b + hi * 256) * d) by lia.
  rewrite Z.div_add, Z.div_small, Z.add_0_l, Z.mod_add by lia. by apply Z.mod_small.
Qed.

Lemma PutUint32_Uint32 b : length b = 4%nat -> PutUint32 (Uint32 b) = b /\ 0 <= Uint32 b < 2 ^ 32.
Proof.
  destruct b as [|b0 [|b1 [|b2 [|b3 []]]]]; try done. intros _.
  rewrite Uint32_sum. unfold PutUint32. rewrite !Z.shiftr_div_pow2 by lia.
  pose proof (byte_Z_range b0). pose proof (byte_Z_range b1).
  pose proof (byte_Z_range b2). pose proof (byte_Z_range b3).
  change (2 ^ 8) with 256. change (2 ^ 16) with 65536. change (2 ^ 24) with 16777216.
  change (2 ^ 32) with 4294967296.
  split; [|lia]. repeat f_equal; apply Z_byte_eq.
  - apply (digit256 (byte_Z b3 + byte_Z b2 * 256 + byte_Z b1 * 65536) _ 0); lia.
  - apply (digit256 (byte_Z b3 + byte_Z b2 * 256) _ (byte_Z b0)); lia.
  - apply (digit256 (byte_Z b3) _ (byte_Z b1 + byte_Z b0 * 256)); lia.
  - rewrite <-(Z.div_1_r (_ + _)).
    apply (digit256 0 _ (byte_Z b2 + byte_Z b1 * 256 + byte_Z b0 * 65536)); lia.
Qed.

Lemma length_frame_header flag len : length (frame_header flag len) = headerSize.
Proof. done. Qed.

Lemma length_encode_frame f : length (encode_frame f) = (headerSize + length (f_payload f))%nat.
Proof. unfold encode_frame. by rewrite length_app. Qed.

Lemma encode_frames_cons f fs : encode_frames (f :: fs) = encode_frame f ++ encode_frames fs.
Proof. done. Qed.

Lemma encode_frames_app fs gs : encode_frames (fs ++ gs) = encode_frames fs ++ encode_frames gs.
Proof. unfold encode_frames. by rewrite bind_app. Qed.
#[export] Hint Rewrite length_frame_header length_encode_frame encode_frames_cons
  encode_frames_app : go.

Lemma Uint32_header flag len : 0 <= len < 2 ^ 32 -> Uint32 (tail (frame_header flag len)) = len.
Proof. intros H. unfold frame_header. simpl tail. by rewrite uint32_id, Uint32_PutUint32. Qed.

(** ** Lemmas: ReadFrame over any byte source *)
Section ReadFrameSpec.
Context {R : Type} `{ReaderSpec R}.

(** ReadFrame in terms of the bytes the source still delivers. *)
Lemma ReadFrame_header (r : R) max header rest :
  length header = headerSize -> rd_bytes r = header ++ rest ->
  exists r', rd_bytes r' = rest /\ rd_end r' = rd_end r /\
    ReadFrame (mkReader r max) =
      let len := Uint32 (tail header) in
      if (0 <? max) && (max <? len) then
        Some (mkReader r' max, (Byte.x00, [], Some (frame_limit_error len max)))
      else if len =? 0 then Some (mkReader r' max, (default Byte.x00 (head header), [], None))
      else
        match ReadFull r' (Z.to_nat len) with
        | None => None
        | Some (r'', (payload, err)) =>
          match err with
          | Some _ => Some (mkReader r'' max, (Byte.x00, [], Some (ErrSentinel UnexpectedEOF)))
          | None => Some (mkReader r'' max, (default Byte.x00 (head header), payload, None))
          end
        end.
Proof.
  intros Hh Hb. destruct (ReadFull_ok r headerSize) as (r' & E & E1 & E2).
  { rewrite Hb, length_app. lia. }
  exists r'. rewrite E1, Hb, <-Hh, drop_app_exact. split; [done|]. split; [done|].
  unfold ReadFrame. simpl. rewrite E, Hb, <-Hh, take_app_exact. done.
Qed.

(** Fewer bytes than a header: io.EOF at a frame boundary, otherwise
    io.ErrUnexpectedEOF (whatever the source's own error is). *)
Lemma ReadFrame_end (r : R) max :
  (length (rd_bytes r) < headerSize)%nat ->
  exists r', rd_bytes r' = [] /\ rd_end r' = rd_end r /\
    ReadFrame (mkReader r max) =
      Some (mkReader r' max, (Byte.x00, [],
        Some (ErrSentinel (if is_EOF (rd_end r) && (length (rd_bytes r) =? 0)%nat
                           then EOF else UnexpectedEOF)))).
Proof.
  intros Hl. destruct (ReadFull_short r headerSize Hl) as (r' & E & E1 & E2).
  exists r'. split; [done|]. split; [done|]. unfold ReadFrame. simpl. rewrite E.
  destruct (length (rd_bytes r)) as [|n]; simpl; destruct (is_EOF (rd_end r)) eqn:EE; simpl;
    rewrite ?EE; done.
Qed.

(** The frames of the wire format are read back. *)
Lemma ReadFrame_encoded (r : R) max f rest :
  frame_ok f -> fits_limit max f -> rd_bytes r = encode_frame f ++ rest ->
  exists r', rd_bytes r' = rest /\ rd_end r' = rd_end r /\
    ReadFrame (mkReader r max) = Some (mkReader r' max, (f_flag f, f_payload f, None)).
Proof.
  intros Hok Hfit Hb. unfold encode_frame in Hb. rewrite <-app_assoc in Hb.
  destruct (ReadFrame_header r max _ _ (length_frame_header _ _) Hb) as (r1 & E1 & E2 & ->).
  unfold frame_ok, fits_limit in *. rewrite Uint32_header by lia. cbv zeta.
  replace ((0 <? max) && (max <? Z.of_nat (length (f_payload f)))) with false by lia.
  destruct (f_payload f) as [|b t] eqn:Ep.
  { exists r1. done. }
  rewrite <-Ep in *. replace (Z.of_nat (length (f_payload f)) =? 0) with false
    by (rewrite Ep; simpl; lia).
  rewrite Nat2Z.id.
  destruct (ReadFull_ok r1 (length (f_payload f))) as (r2 & -> & E3 & E4).
  { rewrite E1, length_app. lia. }
  exists r2. rewrite E3, E1, drop_app_exact, take_app_exact, E4. done.
Qed.

(** Conversely ReadFrame only succeeds on the encoding of what it returns. *)
Lemma ReadFrame_sound (r : R) max rd' flag payload :
  ReadFrame (mkReader r max) = Some (rd', (flag, payload, None)) ->
  frame_ok (mkFrame flag payload) /\ fits_limit max (mkFrame flag payload) /\
  fr_maxPayloadSize rd' = max /\ rd_end (fr_r rd') = rd_end r /\
  rd_bytes r = encode_frame (mkFrame flag payload) ++ rd_bytes (fr_r rd').
Proof.
  intros Hr. destruct (le_lt_dec headerSize (length (rd_bytes r))) as [Hl|Hl].
  2:{ destruct (ReadFrame_end r max Hl) as (? & _ & _ & E). simplify_eq. }
  destruct (ReadFrame_header r max (take headerSize (rd_bytes r)) (drop headerSize (rd_bytes r)))
    as (r1 & E1 & E2 & E); [rewrite length_take; lia|by rewrite take_drop|].
  rewrite Hr in E. clear Hr.
  assert (length (take headerSize (rd_bytes r)) = headerSize) as Ht by (rewrite length_take; lia).
  destruct (take headerSize (rd_bytes r)) as [|fl lenb] eqn:Et; [done|].
  assert (length lenb = 4%nat) as Hlb by (unfold headerSize in Ht; simpl in Ht; lia).
  destruct (PutUint32_Uint32 lenb Hlb) as [Hput Hrange].
  assert (Henc : forall p, Z.of_nat (length p) = Uint32 lenb ->
            encode_frame (mkFrame fl p) = (fl :: lenb) ++ p).
  { intros p Hp. unfold encode_frame, frame_header. cbn [f_flag f_payload].
    by rewrite Hp, uint32_id, Hput. }
  assert (Hsplit : rd_bytes r = (fl :: lenb) ++ rd_bytes r1)
    by (rewrite E1, <-Et; by rewrite take_drop).
  cbv zeta in E. cbn [head tail default] in E.
  destruct ((0 <? max) && _) eqn:Elim; [simplify_eq|].
  unfold frame_ok, fits_limit.
  destruct (Uint32 lenb =? 0) eqn:E0; simplify_eq.
  - cbn [f_payload fr_r fr_maxPayloadSize]. rewrite Henc by (simpl; lia). rewrite app_nil_r. cbn [length]. repeat split; try done; lia.
  - destruct (le_lt_dec (Z.to_nat (Uint32 lenb)) (length (rd_bytes r1))) as [Hle|Hlt].
    2:{ destruct (ReadFull_short r1 _ Hlt) as (? & Es & _). rewrite Es in E. simplify_eq. }
    destruct (ReadFull_ok r1 _ Hle) as (r2 & Es & E3 & E4). rewrite Es in E. simplify_eq.
    cbn [f_payload fr_r fr_maxPayloadSize].
    assert (Z.of_nat (length (take (Z.to_nat (Uint32 lenb)) (rd_bytes r1))) = Uint32 lenb) as Hlen
      by (rewrite length_take; lia).
    rewrite Henc, E3, <-app_assoc, take_drop, E4 by done. repeat split; try done; lia.
Qed.

End ReadFrameSpec.

(** ReadFrame always returns. *)
Lemma ReadFrame_total {R} `{FiniteReader R} (rd : Reader R) :
  exists rd' flag payload e, ReadFrame rd = Some (rd', (flag, payload, e)).
Proof.
  unfold ReadFrame. destruct (ReadFull_total (fr_r rd) headerSize) as (r1 & h & e1 & ->).
  destruct e1 as [x|]; [destruct (is_EOF x); eauto|]. cbv zeta.
  destruct (_ && _); [eauto|]. destruct (_ =? _); [eauto|]. cbn [fr_r].
  destruct (ReadFull_total r1 (Z.to_nat (Uint32 (tail h)))) as (r2 & p & e2 & ->).
  destruct e2; eauto.
Qed.

(** ** Lemmas: WriteFrame over any writer *)
Lemma WriteFrame_spec {W} `{WriterSpec W} (w w' : W) flag payload e :
  WriteFrame w flag payload = (w', e) ->
  exists n, wr_bytes w' = wr_bytes w ++ take n (encode_frame (mkFrame flag payload)) /\
    (n <= length (encode_frame (mkFrame flag payload)))%nat /\
    (e = None -> n = length (encode_frame (mkFrame flag payload))).
Proof.
  unfold WriteFrame. rewrite length_encode_frame. cbn [f_payload].
  destruct (io_Write w _) as [w1 [n1 e1]] eqn:H1.
  destruct (wr_write _ _ _ _ _ H1) as (E1 & L1 & F1). rewrite length_frame_header in *.
  unfold encode_frame. cbn [f_flag f_payload].
  destruct e1 as [x|].
  { intros [= <- <-]. exists n1. rewrite take_app_le by done. split; [done|]. split; [lia|done]. }
  rewrite (F1 eq_refl) in *. clear F1 L1.
  rewrite take_ge in E1 by (rewrite length_frame_header; lia).
  destruct (0 <? length payload)%nat eqn:Hp.
  - destruct (io_Write w1 payload) as [w2 [n2 e2]] eqn:H2.
    destruct (wr_write _ _ _ _ _ H2) as (E2 & L2 & F2).
    intros Heq. assert (w2 = w' /\ e2 = e) as [-> ->] by (destruct e2; by simplify_eq).
    exists (headerSize + n2)%nat. rewrite E2, E1, <-app_assoc.
    rewrite take_app_ge by (rewrite length_frame_header; lia).
    rewrite length_frame_header. replace (headerSize + n2 - headerSize)%nat with n2 by lia.
    split; [done|]. split; [lia|]. intros He. specialize (F2 He). lia.
  - apply Nat.ltb_ge in Hp. destruct payload; [|simpl in Hp; lia].
    intros [= <- <-]. exists headerSize. rewrite app_nil_r, take_ge by done.
    cbn [length]. rewrite Nat.add_0_r. done.
Qed.

Lemma WriteFrame_ok {W} `{WriterSpec W} (w w' : W) flag payload :
  WriteFrame w flag payload = (w', None) ->
  wr_bytes w' = wr_bytes w ++ encode_frame (mkFrame flag payload).
Proof.
  intros Hw. destruct (WriteFrame_spec _ _ _ _ _ Hw) as (n & -> & _ & Hn).
  by rewrite Hn, take_ge by done.
Qed.

(** The wire format is unambiguous. *)
Lemma encode_frame_inj f g k1 k2 :
  frame_ok f -> frame_ok g -> encode_frame f ++ k1 = encode_frame g ++ k2 -> f = g /\ k1 = k2.
Proof.
  unfold encode_frame, frame_ok. intros Hf Hg. rewrite <-!app_assoc. intros E.
  apply app_inj_1 in E as [Eh E]; [|done]. 
  assert (f_flag f = f_flag g) as Efl by (by injection Eh).
  assert (length (f_payload f) = length (f_payload g)) as El.
  { apply (f_equal (fun h => Uint32 (tail h))) in Eh. rewrite !Uint32_header in Eh by lia. lia. }
  apply app_inj_1 in E as [Ep ->]; [|done]. split; [|done].
  destruct f, g; simpl in *; congruence.
Qed.

(** A frame takes at least its header from the reader. *)
Lemma ReadFrame_pending {R} `{FiniteReader R} (rd rd' : Reader R) flag payload e :
  ReadFrame rd = Some (rd', (flag, payload, e)) ->
  (io_pending (fr_r rd') <= io_pending (fr_r rd))%nat /\
  fr_maxPayloadSize rd' = fr_maxPayloadSize rd /\
  (e = None -> (io_pending (fr_r rd') + headerSize <= io_pending (fr_r rd))%nat).
Proof.
  unfold ReadFrame. destruct (ReadFull (fr_r rd) headerSize) as [[r1 [h e1]]|] eqn:E1; [|done].
  apply ReadFull_pending in E1 as [E1 E1'].
  destruct e1 as [x|]; [destruct (is_EOF x); intros; simplify_eq/=; split_and!; try done; lia|].
  specialize (E1' eq_refl). cbv zeta. cbn [fr_r fr_maxPayloadSize].
  destruct (_ && _); [intros; simplify_eq/=; split_and!; try done; lia|].
  destruct (_ =? 0); [intros; simplify_eq/=; split_and!; try done; lia|].
  destruct (ReadFull r1 _) as [[r2 [p e2]]|] eqn:E2; [|done].
  apply ReadFull_pending in E2 as [E2 _].
  destruct e2; intros; simplify_eq/=; split_and!; try done; lia.
Qed.

(** The first read of a frame fails. *)
Lemma ReadFrame_fails {R} `{FiniteReader R} (r r' : R) max e :
  io_Read r headerSize = (r', ([], Some e)) ->
  ReadFrame (mkReader r max) = Some (mkReader r' max,
    (Byte.x00, [], Some (if is_EOF e then ErrSentinel EOF else ErrSentinel UnexpectedEOF))).
Proof.
  intros E. unfold ReadFrame, ReadFull. cbn [fr_r fr_maxPayloadSize read_full_loop].
  rewrite decide_False by done. rewrite E. cbn [app]. unfold read_full_error.
  rewrite decide_False by (unfold headerSize; simpl; lia). rewrite andb_false_r.
  by destruct (is_EOF e).
Qed.

(** A source that ends at a frame boundary. *)
Lemma ReadFrame_at_end {R} `{ReaderSpec R} (r : R) max :
  rd_bytes r = [] -> rd_end r = ErrSentinel EOF ->
  exists r', ReadFrame (mkReader r max) = Some (mkReader r' max, (Byte.x00, [], Some (ErrSentinel EOF))) /\
    rd_bytes r' = [] /\ rd_end r' = ErrSentinel EOF.
Proof.
  intros Hb He. destruct (ReadFrame_end r max) as (r' & E1 & E2 & E); [rewrite Hb; apply Nat.lt_0_succ|].
  exists r'. rewrite E, Hb, He. split; [done|]. split; [done|congruence].
Qed.

(** A source that ends inside a frame. *)
Lemma ReadFrame_truncated {R} `{ReaderSpec R} (r : R) max f n :
  frame_ok f -> fits_limit max f -> (0 < n < length (encode_frame f))%nat ->
  rd_bytes r = take n (encode_frame f) ->
  exists r', ReadFrame (mkReader r max) =
    Some (mkReader r' max, (Byte.x00, [], Some (ErrSentinel UnexpectedEOF))) /\
    rd_end r' = rd_end r.
Proof.
  intros Hok Hfit Hn Hb. rewrite length_encode_frame in Hn.
  destruct (le_lt_dec headerSize n) as [Hl|Hl].
  - unfold encode_frame in Hb. rewrite take_app_ge, length_frame_header in Hb by done.
    destruct (ReadFrame_header r max _ _ (length_frame_header _ _) Hb) as (r1 & E1 & E2 & E).
    rewrite E. unfold frame_ok, fits_limit in *.
    rewrite Uint32_header by lia. cbv zeta.
    replace ((0 <? max) && (max <? Z.of_nat (length (f_payload f)))) with false by lia.
    replace (Z.of_nat (length (f_payload f)) =? 0) with false by lia.
    destruct (ReadFull_short r1 (Z.to_nat (Z.of_nat (length (f_payload f))))) as (r2 & -> & _ & E3);
      [rewrite E1, length_take; lia|]. exists r2. split; [done|congruence].
  - destruct (ReadFrame_end r max) as (r' & E1 & E2 & E).
    { rewrite Hb, length_take. lia. }
    exists r'. rewrite E, Hb, length_take, length_encode_frame.
    replace (n `min` _ =? 0)%nat with false; [|symmetry; apply Nat.eqb_neq; unfold headerSize; lia].
    rewrite andb_false_r. done.
Qed.

(** A frame over the limit is refused on its header. *)
Lemma ReadFrame_over {R} `{ReaderSpec R} (r : R) max f rest :
  frame_ok f -> 0 < max < Z.of_nat (length (f_payload f)) -> rd_bytes r = encode_frame f ++ rest ->
  exists r', ReadFrame (mkReader r max) =
    Some (mkReader r' max, (Byte.x00, [], Some (frame_limit_error (Z.of_nat (length (f_payload f))) max))) /\
    rd_bytes r' = f_payload f ++ rest.
Proof.
  intros Hok Hmax Hb. unfold encode_frame in Hb. rewrite <-app_assoc in Hb.
  destruct (ReadFrame_header r max _ _ (length_frame_header _ _) Hb) as (r1 & E1 & E2 & E).
  exists r1. rewrite E. unfold frame_ok in *. rewrite Uint32_header by lia.
  cbv zeta. by replace ((0 <? max) && (max <? Z.of_nat (length (f_payload f)))) with true by lia.
Qed.

(** ** Properties *)

(** C1: a frame written by WriteFrame to any writer is what ReadFrame returns
    from any byte source that delivers the written bytes, however they are cut
    into reads, and the source is left at the next frame. *)
Theorem frame_roundtrip {W R} `{WriterSpec W, ReaderSpec R} (w w' : W) (r : R) max flag payload rest :
  frame_ok (mkFrame flag payload) -> fits_limit max (mkFrame flag payload) ->
  WriteFrame w flag payload = (w', None) -> wr_bytes w = [] ->
  rd_bytes r = wr_bytes w' ++ rest ->
  exists r', ReadFrame (NewReader r max) = Some (mkReader r' max, (flag, payload, None)) /\
    rd_bytes r' = rest.
Proof.
  intros Hok Hfit Hw Hnil Hr. apply WriteFrame_ok in Hw. rewrite Hnil in Hw. rewrite Hw in Hr.
  destruct (ReadFrame_encoded r max _ rest Hok Hfit Hr) as (r' & E1 & _ & E). eauto.
Qed.

(** ReadFrame succeeds only on a well-formed frame within the limit: the
    bytes it consumed are exactly the encoding of the flag and payload it
    returns. *)
Theorem frame_read_sound {R} `{ReaderSpec R} (r : R) max rd' flag payload :
  ReadFrame (NewReader r max) = Some (rd', (flag, payload, None)) ->
  frame_ok (mkFrame flag payload) /\ fits_limit max (mkFrame flag payload) /\
  rd_bytes r = encode_frame (mkFrame flag payload) ++ rd_bytes (fr_r rd').
Proof. intros E. apply ReadFrame_sound in E as (? & ? & _ & _ & ?). done. Qed.

(** The errors of ReadFrame.  The end of the source at a frame boundary is
    io.EOF; a source that ends inside a frame, in the header or in the payload,
    gives io.ErrUnexpectedEOF; a frame over the limit is refused on its header
    alone, before any byte of its payload is read. *)
Theorem frame_read_errors {R} `{ReaderSpec R} (r : R) max :
  (rd_bytes r = [] -> rd_end r = ErrSentinel EOF ->
     exists r', ReadFrame (NewReader r max) =
       Some (mkReader r' max, (Byte.x00, [], Some (ErrSentinel EOF)))) /\
  (forall f n, frame_ok f -> fits_limit max f -> (0 < n < length (encode_frame f))%nat ->
     rd_bytes r = take n (encode_frame f) ->
     exists r', ReadFrame (NewReader r max) =
       Some (mkReader r' max, (Byte.x00, [], Some (ErrSentinel UnexpectedEOF)))) /\
  (forall f rest, frame_ok f -> 0 < max < Z.of_nat (length (f_payload f)) ->
     rd_bytes r = encode_frame f ++ rest ->
     exists r', ReadFrame (NewReader r max) =
       Some (mkReader r' max, (Byte.x00, [],
         Some (frame_limit_error (Z.of_nat (length (f_payload f))) max))) /\
     rd_bytes r' = f_payload f ++ rest).
Proof.
  split; [|split].
  - intros Hb He. destruct (ReadFrame_at_end r max Hb He) as (r' & E & _). eauto.
  - intros f n Hok Hfit Hn Hb. destruct (ReadFrame_truncated r max f n Hok Hfit Hn Hb) as (r' & E & _).
    eauto.
  - intros f rest Hok Hmax Hb. apply (ReadFrame_over r max f rest Hok Hmax Hb).
Qed.

(** The length field is 32 bits wide and WriteFrame does not check it: a
    reader gets back the first [len mod 2^32] bytes of the payload and finds
    the others where the next frame should be, so exactly the payloads of less
    than 4 GiB survive. *)
Theorem frame_length_wraps {R} `{ReaderSpec R} (r : R) f rest :
  rd_bytes r = encode_frame f ++ rest ->
  let n := Z.to_nat (uint32 (Z.of_nat (length (f_payload f)))) in
  exists r', ReadFrame (NewReader r 0) =
      Some (mkReader r' 0, (f_flag f, take n (f_payload f), None)) /\
    rd_bytes r' = drop n (f_payload f) ++ rest /\
    (take n (f_payload f) = f_payload f <-> Z.of_nat (length (f_payload f)) < 2 ^ 32).
Proof.
  intros Hb n. set (g := mkFrame (f_flag f) (take n (f_payload f))).
  pose proof (uint32_range (Z.of_nat (length (f_payload f)))) as Hr.
  assert (n <= length (f_payload f))%nat as Hn
    by (unfold n, uint32; pose proof (Z.mod_le (Z.of_nat (length (f_payload f))) (2 ^ 32)); lia).
  assert (encode_frame f ++ rest = encode_frame g ++ drop n (f_payload f) ++ rest) as Hfg.
  { unfold encode_frame, g. cbn [f_flag f_payload]. rewrite length_take, Nat.min_l by done.
    unfold frame_header. rewrite (uint32_id (Z.of_nat n)) by lia.
    replace (Z.of_nat n) with (uint32 (Z.of_nat (length (f_payload f)))) by lia.
    rewrite <-!app_assoc. f_equal. rewrite app_assoc, take_drop. done. }
  rewrite Hfg in Hb. edestruct (ReadFrame_encoded r 0 g) as (r' & E1 & _ & E); [| |exact Hb|].
  - unfold frame_ok, g. cbn [f_payload]. rewrite length_take. lia.
  - left. done.
  - exists r'. split; [done|]. split; [done|]. split.
    + intros Ht. apply (f_equal length) in Ht. rewrite length_take in Ht. lia.
    + intros Hlt. apply take_ge. unfold n. rewrite uint32_id; lia.
Qed.

(** A writer that accepts everything. *)
#[export] Instance buffer_writer : IOWriter bytes := fun w p => (w ++ p, (length p, None)).
#[export] Instance buffer_writer_spec : WriterSpec bytes.
Proof.
  refine {| wr_bytes w := w |}. intros w p w' n e [= <- <- <-].
  rewrite take_ge by done. done.
Defined.

Definition hi_frame : frame := mkFrame FlagData (of_string "hi").

(** The source delivers the frame in two pieces, then one more byte. *)
Definition hi_source : source :=
  [Chunk (take 3 (encode_frame hi_frame)); Chunk (drop 3 (encode_frame hi_frame)); Chunk [Byte.x78]].

Lemma frame_roundtrip_witness :
  exists r', ReadFrame (NewReader hi_source 100) = Some (mkReader r' 100, (FlagData, of_string "hi", None)) /\
    rd_bytes r' = [Byte.x78].
Proof.
  apply (frame_roundtrip ([] : bytes) (encode_frame hi_frame)).
  - vm_compute. done.
  - right. vm_compute. done.
  - reflexivity.
  - reflexivity.
  - reflexivity.
Defined.

Lemma frame_read_sound_witness :
  rd_bytes hi_source = encode_frame hi_frame ++ [Byte.x78].
Proof.
  refine (proj2 (proj2 (frame_read_sound hi_source 100
    (mkReader ([Chunk [Byte.x78]] : source) 100) FlagData (of_string "hi") _))).
  vm_compute. reflexivity.
Defined.

Lemma frame_length_wraps_witness :
  exists r', ReadFrame (NewReader hi_source 0) = Some (mkReader r' 0, (FlagData, of_string "hi", None)) /\
    rd_bytes r' = [Byte.x78].
Proof.
  assert (Hb : rd_bytes hi_source = encode_frame hi_frame ++ [Byte.x78]) by (vm_compute; reflexivity).
  destruct (frame_length_wraps hi_source hi_frame [Byte.x78] Hb) as (r' & E1 & E2 & _).
  exists r'. split; [exact E1|exact E2].
Defined.
