(* ===== verification/MediaType.v ===== *)
(** * MediaType: media types and their normalisation (service.go) *)
From Stdlib Require Import ZArith Lia.
From stdpp Require Import base strings list.
From S2P Require Import Prelude GoStrings.
Local Open Scope Z_scope.

Definition ContentTypeProtoBuf : string := "application/protobuf".
Definition ContentTypeJSON : string := "application/json".
Definition ContentOctetStream : string := "application/octet-stream".
Definition ContentStreamJSON : string := "application/duh-stream+json".
Definition ContentStreamProtoBuf : string := "application/duh-stream+protobuf".

Definition HeaderDUHVersion : string := "X-DUH-Version".
Definition DUHVersion : string := "2.0".

Definition SupportedMimeTypes : list string := [ContentTypeJSON; ContentTypeProtoBuf].

Definition TrimSuffix (s sep : string) : string :=
  match IndexAny s sep with
  | Some i => to_string (take i (of_string s))
  | None => s
  end.

Section Normalize.
Context `{UnicodeTables}.

Definition normalizeMediaType (value : string) : string :=
  TrimSpace (ToLower (TrimSuffix value ";,")).

(** ** Lemmas *)
(** A media type without separators, then anything behind a separator. *)
Definition no_separator (s : string) : Prop :=
  Forall (fun b => b ∉ of_string ";,") (of_string s).

Lemma TrimSuffix_none s : no_separator s -> TrimSuffix s ";," = s.
Proof. intros H1. unfold TrimSuffix, IndexAny. by rewrite (proj2 (index_any_None _ _) H1). Qed.

Lemma TrimSuffix_params s c p :
  no_separator s -> c ∈ of_string ";," -> TrimSuffix (s +:+ to_string (c :: p)) ";," = s.
Proof.
  intros Hs Hc. unfold TrimSuffix, IndexAny.
  rewrite of_string_app, of_string_to_string, index_any_app_l by done.
  by rewrite take_app_exact, to_string_of_string.
Qed.

Lemma TrimSuffix_no_separator s : no_separator (TrimSuffix s ";,").
Proof.
  unfold TrimSuffix, IndexAny, no_separator.
  destruct (index_any (of_string s) (of_string ";,")) as [i|] eqn:E.
  - rewrite of_string_to_string. by eapply index_any_take.
  - by apply index_any_None.
Qed.

(** Parameters after the first ';' or ',' never change the media type. *)
Lemma normalizeMediaType_params s c p :
  no_separator s -> c ∈ of_string ";," ->
  normalizeMediaType (s +:+ to_string (c :: p)) = normalizeMediaType s.
Proof.
  intros Hs Hc. unfold normalizeMediaType.
  by rewrite TrimSuffix_params, TrimSuffix_none by done.
Qed.

(** Letter case never changes the media type of an ASCII value. *)
Lemma forallb_ascii_lower bs : forallb is_ascii (lower_byte <$> bs) = forallb is_ascii bs.
Proof.
  induction bs as [|b t IH]; simpl; [done|].
  change (list_fmap _ _ lower_byte t) with (lower_byte <$> t).
  by rewrite lower_byte_ascii, IH.
Qed.

Lemma ToLower_ascii s :
  forallb is_ascii (of_string s) = true -> ToLower s = to_string (lower_byte <$> of_string s).
Proof. intros Ha. unfold ToLower. by rewrite Ha. Qed.

Lemma ToLower_idem s : forallb is_ascii (of_string s) = true -> ToLower (ToLower s) = ToLower s.
Proof.
  intros Ha. rewrite (ToLower_ascii s) by done. rewrite ToLower_ascii.
  - rewrite of_string_to_string, <-list_fmap_compose. f_equal.
    apply list_fmap_ext. intros. apply lower_byte_idem.
  - by rewrite of_string_to_string, forallb_ascii_lower.
Qed.
End Normalize.
