(* ===== verification/Http.v ===== *)
(** * Http: the parts of net/http the service and the client use

    Header maps with canonical keys, the request as a handler sees it, and
    the ResponseWriter of the server: status committed once, headers
    snapshot at that moment, body bytes, flushes, and write failures. *)
From Stdlib Require Import ZArith Lia.
From stdpp Require Import base gmap strings list.
From S2P Require Import Prelude GoStrings Errors GoIO.
Local Open Scope Z_scope.

(** ** Headers *)
Abbreviation Header := (gmap string (list string)).

Definition Header_Set (h : Header) (k v : string) : Header := <[CanonicalHeaderKey k := [v]]> h.
Definition Header_Get (h : Header) (k : string) : string :=
  match h !! CanonicalHeaderKey k with
  | Some (v :: _) => v
  | _ => ""
  end.

(** ** Requests *)
Record Request (R : Type) := mkRequest {
  Method : string;
  URL_Path : string;
  URL_String : string;
  Req_Header : Header;
  Req_Body : Body R
}.
Arguments mkRequest {R}. Arguments Method {R}. Arguments URL_Path {R}.
Arguments URL_String {R}. Arguments Req_Header {R}. Arguments Req_Body {R}.

Definition with_Header {R} (r : Request R) (h : Header) : Request R :=
  mkRequest (Method r) (URL_Path r) (URL_String r) h (Req_Body r).
Definition with_Body {R} (r : Request R) (b : Body R) : Request R :=
  mkRequest (Method r) (URL_Path r) (URL_String r) (Req_Header r) b.

(** ** ResponseWriter

    [rw_faults] lists what happens to the coming writes: [None] for success,
    [Some (n, e)] when the connection fails after [n] bytes; past its end
    writes succeed. *)
Record ResponseWriter := mkRW {
  rw_header : Header;
  rw_status : option (Z * Header);
  rw_info : list Z;
  rw_body : bytes;
  rw_flushed : nat;
  rw_flusher : bool;
  rw_faults : list (option (nat * goerror))
}.

Definition rw_set_header (w : ResponseWriter) (h : Header) : ResponseWriter :=
  mkRW h (rw_status w) (rw_info w) (rw_body w) (rw_flushed w) (rw_flusher w) (rw_faults w).
Definition rw_commit (w : ResponseWriter) (code : Z) : ResponseWriter :=
  mkRW (rw_header w) (Some (code, rw_header w)) (rw_info w) (rw_body w) (rw_flushed w)
    (rw_flusher w) (rw_faults w).

(** [WriteHeader]: a second call is ignored; codes below 100 or above 999
    panic; 1xx codes (but 101) are sent without committing the response. *)
Definition WriteHeader (w : ResponseWriter) (code : Z) : outcome ResponseWriter :=
  match rw_status w with
  | Some _ => Ret w
  | None =>
    if (code <? 100) || (999 <? code) then Panic "invalid WriteHeader code"
    else if (code <=? 199) && negb (code =? 101) then
      Ret (mkRW (rw_header w) None (rw_info w ++ [code]) (rw_body w) (rw_flushed w)
             (rw_flusher w) (rw_faults w))
    else Ret (rw_commit w code)
  end.

Definition ensure_header (w : ResponseWriter) : ResponseWriter :=
  match rw_status w with Some _ => w | None => rw_commit w CodeOK end.

Definition body_allowed (code : Z) : bool :=
  negb (((100 <=? code) && (code <=? 199)) || (code =? 204) || (code =? 304)).

Definition rw_append (w : ResponseWriter) (p : bytes) (faults : list (option (nat * goerror)))
    : ResponseWriter :=
  mkRW (rw_header w) (rw_status w) (rw_info w) (rw_body w ++ p) (rw_flushed w) (rw_flusher w) faults.

Definition RW_Write (w : ResponseWriter) (p : bytes) : ResponseWriter * (nat * option goerror) :=
  let w := ensure_header w in
  let code := match rw_status w with Some (c, _) => c | None => CodeOK end in
  if (length p =? 0)%nat then (w, (0%nat, None))
  else if negb (body_allowed code) then (w, (0%nat, Some (ErrSentinel ErrBodyNotAllowed)))
  else
    match rw_faults w with
    | Some (n, e) :: t =>
      let n := (n `min` length p)%nat in (rw_append w (take n p) t, (n, Some e))
    | None :: t => (rw_append w p t, (length p, None))
    | [] => (rw_append w p [], (length p, None))
    end.

#[export] Instance rw_writer : IOWriter ResponseWriter := RW_Write.

Definition RW_Flush (w : ResponseWriter) : ResponseWriter :=
  let w := ensure_header w in
  mkRW (rw_header w) (rw_status w) (rw_info w) (rw_body w) (length (rw_body w)) (rw_flusher w)
    (rw_faults w).

(** A response that has not started. *)
Definition fresh_rw (flusher : bool) (faults : list (option (nat * goerror))) : ResponseWriter :=
  mkRW ∅ None [] [] 0 flusher faults.

(** ** Lemmas *)
Lemma rw_io_Write (w : ResponseWriter) p : io_Write w p = RW_Write w p.
Proof. done. Qed.

#[export] Instance rw_writer_spec : WriterSpec ResponseWriter.
Proof.
  refine {| wr_bytes := rw_body |}. intros w p w' n e. rewrite rw_io_Write. unfold RW_Write.
  assert (rw_body (ensure_header w) = rw_body w) as Hb
    by (unfold ensure_header; by destruct (rw_status w)).
  destruct (length p =? 0)%nat eqn:Ep.
  { apply Nat.eqb_eq in Ep. intros [= <- <- <-]. rewrite take_0, app_nil_r. auto with lia. }
  destruct (negb _).
  { intros [= <- <- <-]. rewrite take_0, app_nil_r. split; [done|]. split; [lia|done]. }
  destruct (rw_faults (ensure_header w)) as [|[[m x]|] t]; intros [= <- <- <-]; simpl;
    rewrite Hb; rewrite ?(take_ge p) by lia; auto with lia.
  split; [done|]. split; [lia|done].
Defined.

Lemma Header_Get_Set h k v : Header_Get (Header_Set h k v) k = v.
Proof. unfold Header_Get, Header_Set. by rewrite lookup_insert_eq. Qed.

Lemma Header_Get_Set_ne h k k' v :
  CanonicalHeaderKey k <> CanonicalHeaderKey k' -> Header_Get (Header_Set h k v) k' = Header_Get h k'.
Proof. intros Hne. unfold Header_Get, Header_Set. by rewrite lookup_insert_ne. Qed.

Lemma WriteHeader_ok w code :
  rw_status w = None -> 200 <= code <= 999 -> WriteHeader w code = Ret (rw_commit w code).
Proof.
  intros Hs Hc. unfold WriteHeader. rewrite Hs.
  replace ((code <? 100) || (999 <? code)) with false by lia.
  replace ((code <=? 199) && negb (code =? 101)) with false by lia. done.
Qed.
#[export] Hint Rewrite Header_Get_Set : go.
