(* ===== verification/Codec.v ===== *)
(** * Codec: the message encodings

    [protojson] and [proto] (google.golang.org/protobuf) are third-party code:
    a parameter.  [CodecLaws] states what the service relies on: a Reply read
    back is the Reply written (an empty map comes back nil), and the text of a
    marshalling error can itself be marshalled in a Reply. *)
From Stdlib Require Import ZArith Lia.
From stdpp Require Import base gmap strings list.
From S2P Require Import Prelude GoStrings Messages Errors.
Local Open Scope Z_scope.

Inductive encoding := JSON | ProtoBuf.
#[export] Instance encoding_eq_dec : EqDecision encoding.
Proof. solve_decision. Defined.

(** [Marshal] on a possibly nil message; [Unmarshal] into a message: the new
    contents of the message and the error. *)
Class Codec := {
  marshal : encoding -> option message -> bytes + goerror;
  unmarshal : encoding -> bytes -> message -> message * option goerror
}.

Class CodecLaws `{Codec} := {
  unmarshal_reply : forall enc r b r0,
    marshal enc (Some (MReply r)) = inl b ->
    unmarshal enc b (MReply r0) = (MReply (norm_reply r), None);
  unmarshal_reply_type : forall enc b r0, exists r, fst (unmarshal enc b (MReply r0)) = MReply r;
  marshal_error_reply : forall enc enc' m e,
    marshal enc m = inr e ->
    exists b, marshal enc'
      (Some (MReply (mkReply (Itoa CodeInternalError) (error_text e) None))) = inl b
}.

(** The errors of the encodings are no service errors. *)
Class CodecErrors `{Codec} := {
  marshal_error_plain : forall enc m e, marshal enc m = inr e -> as_Error e = None
}.

(** [p] is the encoding of [m], and decodes to it in place of [m0]. *)
Definition crosses `{Codec} (enc : encoding) (p : bytes) (m m0 : message) : Prop :=
  marshal enc (Some m) = inl p /\ unmarshal enc p m0 = (m, None).
