(* ===== verification/ReferenceCodec.v ===== *)
(** * ReferenceCodec: a concrete instance of the codec interface

    The encodings of the repository are third-party code; this instance shows
    that [CodecLaws] can hold and lets the examples evaluate.  A message is
    written as one tag byte for the encoding, then the bits of an injective
    code of its fields.  Application messages it does not know fail to
    marshal. *)
From Stdlib Require Import ZArith Lia Strings.Byte.
From stdpp Require Import base gmap strings list countable.
From S2P Require Import Prelude GoStrings GoIO Messages Errors Codec.
Local Open Scope Z_scope.

(** The fields of a message: a tag, the strings, the integers, the map. *)
Abbreviation fields := (nat * list string * list Z * gmap string string)%type.

Definition message_fields (m : message) : option fields :=
  match m with
  | MReply r => Some (1%nat, [Reply_Code r; Reply_Message r], [], default ∅ (Reply_Details r))
  | MSayHelloRequest n => Some (2%nat, [n], [], ∅)
  | MSayHelloResponse n => Some (3%nat, [n], [], ∅)
  | MListEventsRequest n => Some (4%nat, [], [n], ∅)
  | MEvent s d => Some (5%nat, [d], [s], ∅)
  | MContentDownloadRequest p => Some (6%nat, [p], [], ∅)
  | MErrorsRequest c => Some (7%nat, [c], [], ∅)
  | MStreamItem s d => Some (8%nat, [d], [s], ∅)
  | _ => None
  end.

Definition fields_message (f : fields) : option message :=
  match f with
  | (1%nat, [c; t], [], d) =>
    Some (MReply (mkReply c t (if decide (d = ∅) then None else Some d)))
  | (2%nat, [n], [], _) => Some (MSayHelloRequest n)
  | (3%nat, [n], [], _) => Some (MSayHelloResponse n)
  | (4%nat, [], [n], _) => Some (MListEventsRequest n)
  | (5%nat, [d], [s], _) => Some (MEvent s d)
  | (6%nat, [p], [], _) => Some (MContentDownloadRequest p)
  | (7%nat, [c], [], _) => Some (MErrorsRequest c)
  | (8%nat, [d], [s], _) => Some (MStreamItem s d)
  | _ => None
  end.

Fixpoint bits_of (p : positive) : bytes :=
  match p with
  | xH => []
  | xO p => Byte.x30 :: bits_of p
  | xI p => Byte.x31 :: bits_of p
  end.

Fixpoint of_bits (b : bytes) : option positive :=
  match b with
  | [] => Some xH
  | c :: t =>
    if decide (c = Byte.x30) then xO <$> of_bits t
    else if decide (c = Byte.x31) then xI <$> of_bits t
    else None
  end.

Definition enc_tag (enc : encoding) : byte := match enc with JSON => Byte.x7b | ProtoBuf => Byte.x0a end.

Definition marshal_error : goerror := ErrString "message type cannot be marshalled".
Definition size_error : goerror := ErrString "message exceeds 2 GiB".
Definition unmarshal_error : goerror := ErrString "syntax error".

(** A protobuf message has less than 2 GiB. *)
Definition bounded (b : bytes) : bytes + goerror :=
  if Z.of_nat (length b) <? 2 ^ 31 then inl b else inr size_error.

Definition ref_marshal (enc : encoding) (m : option message) : bytes + goerror :=
  match m with
  | None => inl []
  | Some m =>
    match message_fields m with
    | Some f => bounded (enc_tag enc :: bits_of (encode f))
    | None => inr marshal_error
    end
  end.

Definition ref_decode (enc : encoding) (b : bytes) : option message :=
  match b with
  | [] => None
  | c :: t =>
    if decide (c = enc_tag enc) then
      of_bits t ≫= fun p => (decode p : option fields) ≫= fields_message
    else None
  end.

Definition same_type (m m' : message) : bool :=
  match message_fields m, message_fields m' with
  | Some (t, _, _, _), Some (t', _, _, _) => Nat.eqb t t'
  | _, _ => false
  end.

Definition ref_unmarshal (enc : encoding) (b : bytes) (m : message) : message * option goerror :=
  match ref_decode enc b with
  | Some m' => if same_type m m' then (m', None) else (m, Some unmarshal_error)
  | None => (m, Some unmarshal_error)
  end.

#[export] Instance ref_codec : Codec := {| marshal := ref_marshal; unmarshal := ref_unmarshal |}.

Lemma of_bits_of p : of_bits (bits_of p) = Some p.
Proof. induction p as [p IH|p IH|]; simpl; rewrite ?IH; done. Qed.

Lemma ref_decode_marshal enc m b :
  ref_marshal enc (Some m) = inl b ->
  ref_decode enc b = message_fields m ≫= fields_message.
Proof.
  unfold ref_marshal, ref_decode. destruct (message_fields m) as [f|]; [|done].
  unfold bounded. destruct (_ <? _); [|done].
  intros [= <-]. rewrite decide_True by done. rewrite of_bits_of. simpl. by rewrite decode_encode.
Qed.

Lemma ref_marshal_small enc m b : ref_marshal enc m = inl b -> Z.of_nat (length b) < 2 ^ 31.
Proof.
  unfold ref_marshal, bounded. destruct m as [m|]; [|by intros [= <-]].
  destruct (message_fields m) as [f|]; [|done].
  destruct (_ <? _) eqn:E; [|done]. intros [= <-]. lia.
Qed.

Lemma ref_marshal_errors enc m e : ref_marshal enc m = inr e -> e = marshal_error \/ e = size_error.
Proof.
  unfold ref_marshal, bounded. destruct m as [m|]; [|done].
  destruct (message_fields m); [|intros [= <-]; auto]. destruct (_ <? _); [done|]. intros [= <-]. auto.
Qed.

#[export] Instance ref_codec_laws : CodecLaws.
Proof.
  split.
  - intros enc r b r0 Hm. cbn [marshal unmarshal ref_codec] in *. unfold ref_unmarshal.
    rewrite (ref_decode_marshal _ _ _ Hm). simpl.
    unfold norm_reply, norm_details. destruct r as [c t [d|]]; simpl; [|done].
    by case_decide.
  - intros enc b r0. simpl. unfold ref_unmarshal.
    destruct (ref_decode enc b) as [m'|]; [|simpl; eauto].
    destruct (same_type (MReply r0) m') eqn:E; [|simpl; eauto].
    destruct m'; try discriminate E. simpl. eauto.
  - intros enc enc' m e Hm. apply ref_marshal_errors in Hm as [-> | ->]; destruct enc';
      eexists; vm_compute; reflexivity.
Qed.

#[export] Instance ref_codec_errors : CodecErrors.
Proof. split. intros enc m e Hm. by apply ref_marshal_errors in Hm as [-> | ->]. Qed.

Example ref_roundtrip :
  ref_unmarshal JSON (match ref_marshal JSON (Some (MReply (mkReply "404" "gone" (Some {["a" := "b"]})))) with
                      | inl b => b | inr _ => [] end) (MReply Reply_zero)
  = (MReply (mkReply "404" "gone" (Some {["a" := "b"]})), None).
Proof. vm_compute. reflexivity. Qed.

(** Concrete choices for the other parameters of the model. *)
#[export] Instance ref_unicode : UnicodeTables := {| unicode_lower r := r |}.
#[export] Instance ref_fmt : FmtFallback := {| Errorf_other format _ := ErrString format |}.
#[export] Instance ref_growth : BufferGrowth.
Proof. exists (fun _ => 512%nat). intros _. done. Defined.
