(* ===== verification/Service.v ===== *)
(** * Service: service.go

    Reading requests ([ReadRequest], [ReadContent]) and replying
    ([Reply], [ReplyWithCode], [ReplyError], [ReplyContentError],
    [WriteContent], [HandleBytes]). *)
From Stdlib Require Import ZArith Lia.
From stdpp Require Import base gmap strings list.
From S2P Require Import Prelude GoStrings Units Messages Errors GoIO Reader MediaType Http Codec.
From S2P Require ReferenceCodec.
Local Open Scope Z_scope.

Section Service.
Context `{UnicodeTables, FmtFallback, BufferGrowth, Codec}.

(** ** Reading *)

(** The error of [ReadRequest] and [ReadContent] when the body cannot be read. *)
Definition body_error (err : goerror) : goerror :=
  match as_Error err with
  | Some e => NewServiceError (HTTPCode e) ("request body " +:+ Message e) None None
  | None => NewServiceError CodeInternalError "" (Some err) None
  end.

(** [io.Copy(&b, body)], with a LimitReader around the body when limit > 0. *)
Definition copy_body {R} `{FiniteReader R} (body : Body R) (limit : Z)
    : Body R * (bytes * option goerror) :=
  if 0 <? limit then
    let '(l, res) := io_Copy [] (NewLimitReader body limit) in (lr_r l, res)
  else io_Copy [] body.

(** The encoding announced by a Content-Type, for structured requests. *)
Definition request_encoding (contentType : string) : option encoding :=
  let t := normalizeMediaType contentType in
  if decide (t = "" \/ t = "*/*" \/ t = "application/*" \/ t = ContentTypeJSON) then Some JSON
  else if decide (t = ContentTypeProtoBuf) then Some ProtoBuf
  else None.

Definition content_type_error (value : string) : goerror :=
  ErrString ("Content-Type header '" +:+ value +:+ "' is invalid format or unrecognized content type").

(** The request (its body read and closed), the message and the error. *)
Definition ReadRequest {R} `{FiniteReader R} (r : Request R) (m : message) (limit : Z)
    : Request R * message * option goerror :=
  let '(body, (b, err)) := copy_body (Req_Body r) limit in
  let r' := with_Body r (Body_Close body) in
  match err with
  | Some e => (r', m, Some (body_error e))
  | None =>
    let contentType := Header_Get (Req_Header r) "Content-Type" in
    match request_encoding contentType with
    | Some enc =>
      let '(m', err) := unmarshal enc b m in
      match err with
      | Some e => (r', m', Some (NewServiceError CodeClientContentError "" (Some e) None))
      | None => (r', m', None)
      end
    | None =>
      (r', m, Some (NewServiceError CodeClientContentError "" (Some (content_type_error contentType)) None))
    end
  end.

Definition ReadContent {R} `{FiniteReader R} (r : Request R) (limit : Z)
    : Request R * (bytes * string * option goerror) :=
  let '(body, (b, err)) := copy_body (Req_Body r) limit in
  let r' := with_Body r (Body_Close body) in
  match err with
  | Some e => (r', ([], "", Some (body_error e)))
  | None => (r', (b, Header_Get (Req_Header r) "Content-Type", None))
  end.

(** ** Replying *)
Definition setServiceHeaders (w : ResponseWriter) : ResponseWriter :=
  rw_set_header w
    (Header_Set (Header_Set (rw_header w) HeaderDUHVersion DUHVersion)
       "X-Content-Type-Options" "nosniff").

Definition set_content_type (w : ResponseWriter) (v : string) : ResponseWriter :=
  rw_set_header w (Header_Set (rw_header w) "Content-Type" v).

(** The encoding and the Content-Type chosen by an Accept header. *)
Definition reply_encoding (mimeType : string) : option (encoding * string) :=
  if decide (mimeType = "" \/ mimeType = "*/*" \/ mimeType = "application/*" \/ mimeType = ContentTypeJSON)
  then Some (JSON, ContentTypeJSON)
  else if decide (mimeType = ContentTypeProtoBuf) then Some (ProtoBuf, ContentTypeProtoBuf)
  else None.

Definition accept_error (mimeType : string) : string :=
  "Accept header '" +:+ mimeType +:+ "' is invalid format " +:+
  "or unrecognized content type, only [" +:+ Join SupportedMimeTypes "," +:+
  "] are supported by this method".

(** [Reply] and [ReplyWithCode] call each other; the recursion is bounded by
    the stack.  The request headers are threaded because [Reply] resets the
    Accept header of the request. *)
Fixpoint reply_rec (stack : nat) (w : ResponseWriter) (rh : Header) (code : Z) (resp : option message)
    : outcome (ResponseWriter * Header) :=
  match stack with
  | O => Panic "stack overflow"
  | S stack =>
    let mimeType := normalizeMediaType (Header_Get rh "Accept") in
    match reply_encoding mimeType with
    | None =>
      reply_rec stack w (Header_Set rh "Accept" ContentTypeJSON) CodeClientContentError
        (Some (MReply (mkReply (Itoa CodeClientContentError) (accept_error mimeType) None)))
    | Some (enc, contentType) =>
      match marshal enc resp with
      | inr err =>
        reply_rec stack w rh CodeInternalError
          (Some (MReply (mkReply (Itoa CodeInternalError) (error_text err) None)))
      | inl b =>
        let w := set_content_type w contentType in
        let w := setServiceHeaders w in
        let! w := WriteHeader w code in
        Ret (fst (io_Write w b), rh)
      end
    end
  end.

Definition stack_depth : nat := 1000.

Definition Reply (w : ResponseWriter) (rh : Header) (code : Z) (resp : option message)
    : outcome (ResponseWriter * Header) := reply_rec stack_depth w rh code resp.

Definition ReplyWithCode (w : ResponseWriter) (rh : Header) (code : Z) (details : details_map)
    (msg : string) : outcome (ResponseWriter * Header) :=
  Reply w rh code (Some (MReply (mkReply (Itoa code) msg details))).

(** [ReplyError(w, r, nil)] dereferences a nil error. *)
Definition ReplyError (w : ResponseWriter) (rh : Header) (err : option goerror)
    : outcome (ResponseWriter * Header) :=
  match err with
  | None => Panic "invalid memory address or nil pointer dereference"
  | Some e =>
    match as_Error e with
    | Some re => Reply w rh (HTTPCode re) (ProtoMessage re)
    | None => ReplyWithCode w rh CodeInternalError None (error_text e)
    end
  end.

Definition ReplyContentError (w : ResponseWriter) (rh : Header) (err : option goerror)
    : outcome (ResponseWriter * Header) := ReplyError w rh err.

Definition WriteContent (w : ResponseWriter) (contentType : string) (body : bytes)
    : outcome ResponseWriter :=
  let w := set_content_type w contentType in
  let w := setServiceHeaders w in
  let! w := WriteHeader w CodeOK in
  Ret (fst (io_Write w body)).

(** ** HandleBytes

    A handler only has the [BytesWriter] interface: it is the tree of the
    calls it makes, each continuing with what the call returned. *)
Inductive bytes_handler :=
| BHReturn (err : option goerror)
| BHSetHeader (k v : string) (next : bytes_handler)
| BHWrite (p : bytes) (next : nat * option goerror -> bytes_handler).

(** [type bytesWriter struct] *)
Record bytesWriter := mkBytesWriter {
  bw_w : ResponseWriter;
  bw_flusher : bool;
  bw_wrote : bool
}.

Definition bytesWriter_SetHeader (b : bytesWriter) (k v : string) : bytesWriter :=
  mkBytesWriter (rw_set_header (bw_w b) (Header_Set (rw_header (bw_w b)) k v)) (bw_flusher b) (bw_wrote b).

Definition bytesWriter_Write (b : bytesWriter) (p : bytes)
    : outcome (bytesWriter * (nat * option goerror)) :=
  let! w := if bw_wrote b then Ret (bw_w b) else WriteHeader (bw_w b) CodeOK in
  let '(w, (n, err)) := io_Write w p in
  let w := match err with None => if bw_flusher b then RW_Flush w else w | Some _ => w end in
  Ret (mkBytesWriter w (bw_flusher b) true, (n, err)).

Fixpoint run_bytes (h : bytes_handler) (b : bytesWriter) : outcome (bytesWriter * option goerror) :=
  match h with
  | BHReturn err => Ret (b, err)
  | BHSetHeader k v next => run_bytes next (bytesWriter_SetHeader b k v)
  | BHWrite p next =>
    let! (b, res) := bytesWriter_Write b p in run_bytes (next res) b
  end.

Definition HandleBytes (w : ResponseWriter) (rh : Header) (handler : bytes_handler)
    : outcome ResponseWriter :=
  let w := set_content_type w ContentOctetStream in
  let w := setServiceHeaders w in
  let! (bw, err) := run_bytes handler (mkBytesWriter w (rw_flusher w) false) in
  match err with
  | Some e =>
    if negb (bw_wrote bw) then omap_ret fst (ReplyError (bw_w bw) rh (Some e)) else Ret (bw_w bw)
  | None => Ret (bw_w bw)
  end.
End Service.

(** ** Lemmas: the response of a reply *)
Lemma RW_Write_committed w p w' res st :
  rw_status w = Some st -> io_Write w p = (w', res) ->
  rw_status w' = Some st /\ rw_header w' = rw_header w /\ rw_flusher w' = rw_flusher w.
Proof.
  intros Hs. rewrite rw_io_Write. unfold RW_Write, ensure_header. rewrite Hs.
  destruct (_ =? _)%nat; [by intros [= <- <-]|]. rewrite ?Hs.
  destruct st as [code sent]. destruct (negb _); [by intros [= <- <-]|].
  destruct (rw_faults w) as [|[[n e]|] t]; by intros [= <- <-].
Qed.

(** The response [w] after the headers of a service reply, the status [code]
    and the body [b] were sent. *)
Definition sent_reply (w : ResponseWriter) (code : Z) (contentType : string) (b : bytes)
    : ResponseWriter :=
  fst (io_Write (rw_commit (setServiceHeaders (set_content_type w contentType)) code) b).

Lemma service_headers_get w ct :
  let h := rw_header (setServiceHeaders (set_content_type w ct)) in
  Header_Get h "Content-Type" = ct /\ Header_Get h HeaderDUHVersion = DUHVersion /\
  Header_Get h "X-Content-Type-Options" = "nosniff".
Proof.
  unfold setServiceHeaders, set_content_type, rw_set_header; simpl.
  repeat split; rewrite ?Header_Get_Set_ne by (vm_compute; discriminate); by rewrite Header_Get_Set.
Qed.

(** The status line and headers on the wire: the status of the reply, its
    Content-Type, the version header and nosniff. *)
Lemma sent_reply_status w code ct b :
  exists h, rw_status (sent_reply w code ct b) = Some (code, h) /\
    Header_Get h "Content-Type" = ct /\ Header_Get h HeaderDUHVersion = DUHVersion /\
    Header_Get h "X-Content-Type-Options" = "nosniff".
Proof.
  unfold sent_reply. destruct (io_Write _ b) as [w' res] eqn:E.
  eapply RW_Write_committed in E as (E & _ & _); [|reflexivity].
  eexists. split; [exact E|]. apply service_headers_get.
Qed.

(** On a healthy connection the whole body is sent. *)
Lemma sent_reply_body w code ct b :
  rw_faults w = [] -> body_allowed code = true -> rw_body (sent_reply w code ct b) = rw_body w ++ b.
Proof.
  intros Hf Hb. unfold sent_reply. rewrite rw_io_Write. unfold RW_Write, ensure_header. simpl.
  destruct (length b =? 0)%nat eqn:E.
  - apply Nat.eqb_eq, nil_length_inv in E. subst. simpl. by rewrite app_nil_r.
  - rewrite Hb, Hf. done.
Qed.

Section ReplyLemmas.
Context `{UnicodeTables, Codec}.

Definition accept_encoding (rh : Header) : option (encoding * string) :=
  reply_encoding (normalizeMediaType (Header_Get rh "Accept")).

Lemma reply_rec_ok n w rh code resp enc ct b :
  rw_status w = None -> 200 <= code <= 999 ->
  accept_encoding rh = Some (enc, ct) -> marshal enc resp = inl b ->
  reply_rec (S n) w rh code resp = Ret (sent_reply w code ct b, rh).
Proof.
  intros Hs Hc Ha Hm. simpl. unfold accept_encoding in Ha. rewrite Ha, Hm. simpl.
  rewrite WriteHeader_ok by done. done.
Qed.

Lemma reply_rec_marshal_error `{!CodecLaws} n w rh code resp enc ct e :
  rw_status w = None -> accept_encoding rh = Some (enc, ct) -> marshal enc resp = inr e ->
  exists b,
    marshal enc (Some (MReply (mkReply (Itoa CodeInternalError) (error_text e) None))) = inl b /\
    reply_rec (S (S n)) w rh code resp = Ret (sent_reply w CodeInternalError ct b, rh).
Proof.
  intros Hs Ha Hm. destruct (marshal_error_reply enc enc resp e Hm) as [b Hb].
  exists b. split; [done|].
  cbn [reply_rec]. unfold accept_encoding in Ha. rewrite Ha, Hm. rewrite <-(reply_rec_ok n w rh _ _ enc ct b Hs) by done.
  cbn [reply_rec]. rewrite Ha. done.
Qed.

Lemma normalize_json : normalizeMediaType ContentTypeJSON = ContentTypeJSON.
Proof. reflexivity. Qed.

Lemma accept_json rh :
  accept_encoding (Header_Set rh "Accept" ContentTypeJSON) = Some (JSON, ContentTypeJSON).
Proof. unfold accept_encoding. rewrite Header_Get_Set, normalize_json. reflexivity. Qed.

(** What a reply sends: the status, the Content-Type and the body. *)
Inductive reply_result (rh : Header) (code : Z) (resp : option message)
  : Z -> string -> bytes -> Prop :=
| reply_sent enc ct b :
    accept_encoding rh = Some (enc, ct) -> marshal enc resp = inl b ->
    reply_result rh code resp code ct b
| reply_unmarshalable enc ct e b :
    accept_encoding rh = Some (enc, ct) -> marshal enc resp = inr e ->
    marshal enc (Some (MReply (mkReply (Itoa CodeInternalError) (error_text e) None))) = inl b ->
    reply_result rh code resp CodeInternalError ct b
| reply_not_acceptable b :
    accept_encoding rh = None ->
    marshal JSON (Some (MReply (mkReply (Itoa CodeClientContentError)
      (accept_error (normalizeMediaType (Header_Get rh "Accept"))) None))) = inl b ->
    reply_result rh code resp CodeClientContentError ContentTypeJSON b
| reply_not_acceptable_unmarshalable e b :
    accept_encoding rh = None ->
    marshal JSON (Some (MReply (mkReply (Itoa CodeClientContentError)
      (accept_error (normalizeMediaType (Header_Get rh "Accept"))) None))) = inr e ->
    marshal JSON (Some (MReply (mkReply (Itoa CodeInternalError) (error_text e) None))) = inl b ->
    reply_result rh code resp CodeInternalError ContentTypeJSON b.

Lemma reply_rec_result `{!CodecLaws} n w rh code resp :
  rw_status w = None -> 200 <= code <= 999 ->
  exists code' ct b rh',
    reply_rec (S (S (S n))) w rh code resp = Ret (sent_reply w code' ct b, rh') /\
    reply_result rh code resp code' ct b.
Proof.
  intros Hs Hc. destruct (accept_encoding rh) as [[enc ct]|] eqn:Ha.
  - destruct (marshal enc resp) as [b|e] eqn:Hm.
    + exists code, ct, b, rh. split; [by eapply reply_rec_ok|by eapply reply_sent].
    + destruct (reply_rec_marshal_error (S n) w rh code resp enc ct e Hs Ha Hm) as (b & Hb & E).
      exists CodeInternalError, ct, b, rh. split; [done|by eapply reply_unmarshalable].
  - set (h := Header_Set rh "Accept" ContentTypeJSON).
    set (m := Some (MReply (mkReply (Itoa CodeClientContentError)
      (accept_error (normalizeMediaType (Header_Get rh "Accept"))) None))).
    assert (reply_rec (S (S (S n))) w rh code resp =
            reply_rec (S (S n)) w h CodeClientContentError m) as ->.
    { cbn [reply_rec]. unfold accept_encoding in Ha. rewrite Ha. done. }
    destruct (marshal JSON m) as [b|e] eqn:Hm.
    + exists CodeClientContentError, ContentTypeJSON, b, h.
      split; [by apply (reply_rec_ok _ _ _ _ _ JSON); [..|apply accept_json|]|by apply reply_not_acceptable].
    + destruct (reply_rec_marshal_error n w h CodeClientContentError m JSON ContentTypeJSON e Hs)
        as (b & Hb & E); [apply accept_json|done|].
      exists CodeInternalError, ContentTypeJSON, b, h.
      split; [done|by eapply reply_not_acceptable_unmarshalable].
Qed.

(** The same for [Reply]. *)
Lemma Reply_ok w rh code resp enc ct b :
  rw_status w = None -> 200 <= code <= 999 ->
  accept_encoding rh = Some (enc, ct) -> marshal enc resp = inl b ->
  Reply w rh code resp = Ret (sent_reply w code ct b, rh).
Proof. apply (reply_rec_ok 999). Qed.

Lemma WriteContent_sent w ct b :
  rw_status w = None -> WriteContent w ct b = Ret (sent_reply w CodeOK ct b).
Proof. intros Hs. unfold WriteContent. by rewrite WriteHeader_ok by done. Qed.

Lemma Reply_result `{!CodecLaws} w rh code resp :
  rw_status w = None -> 200 <= code <= 999 ->
  exists code' ct b rh',
    Reply w rh code resp = Ret (sent_reply w code' ct b, rh') /\
    reply_result rh code resp code' ct b.
Proof. apply (reply_rec_result 997). Qed.
End ReplyLemmas.

(** ** Lemmas: reading a body *)
Section ReadLemmas.
Context `{UnicodeTables, FmtFallback, BufferGrowth, Codec}.
Context {R : Type} `{ReaderSpec R}.

(** The body of a request that fits its limit, or has none. *)
Definition within_limit (limit : Z) (b : bytes) : Prop :=
  limit <= 0 \/ (Z.of_nat (length b) <= limit /\ limit < max_int64).

Lemma copy_body_ok (body : Body R) limit :
  within_limit limit (rd_bytes body) ->
  exists body',
    copy_body body limit =
      (body', (rd_bytes body, if is_EOF (rd_end body) then None else Some (rd_end body))).
Proof.
  intros Hl. unfold copy_body. destruct (0 <? limit) eqn:E.
  - destruct Hl as [?|[Hl1 Hl2]]; [lia|].
    destruct (limit_copy_spec body limit ltac:(lia)) as (l' & e & Hc & He & _).
    rewrite Copy_total in Hc. apply (inj Some) in Hc. rewrite Hc, He by lia.
    rewrite take_ge by lia. eauto.
  - destruct (io_Copy_spec body []) as (body' & -> & _). eauto.
Qed.

Lemma copy_body_over (body : Body R) limit :
  0 < limit < max_int64 -> limit + 1 < Z.of_nat (length (rd_bytes body)) ->
  exists body' b, copy_body body limit = (body', (b, Some (ErrDataLimit limit))).
Proof.
  intros Hl Hb. unfold copy_body. replace (0 <? limit) with true by lia.
  destruct (limit_copy_spec body limit ltac:(lia)) as (l' & e & Hc & _ & He).
  rewrite Copy_total in Hc. apply (inj Some) in Hc. rewrite Hc, He by lia. eauto.
Qed.

Lemma ReadRequest_read (r : Request R) m limit enc :
  rd_end (Req_Body r) = ErrSentinel EOF -> within_limit limit (rd_bytes (Req_Body r)) ->
  request_encoding (Header_Get (Req_Header r) "Content-Type") = Some enc ->
  exists r',
    ReadRequest r m limit =
      (r', fst (unmarshal enc (rd_bytes (Req_Body r)) m),
       match snd (unmarshal enc (rd_bytes (Req_Body r)) m) with
       | Some e => Some (NewServiceError CodeClientContentError "" (Some e) None)
       | None => None
       end) /\
    b_closed (Req_Body r') = true.
Proof.
  intros He Hl Henc. destruct (copy_body_ok (Req_Body r) limit Hl) as (body' & Hc).
  exists (with_Body r (Body_Close body')). split; [|done].
  unfold ReadRequest. rewrite Hc, He. cbn [is_EOF]. rewrite Henc.
  by destruct (unmarshal _ _ _) as [m' [e|]].
Qed.

Lemma ReadContent_read (r : Request R) limit :
  rd_end (Req_Body r) = ErrSentinel EOF -> within_limit limit (rd_bytes (Req_Body r)) ->
  exists r', ReadContent r limit =
    (r', (rd_bytes (Req_Body r), Header_Get (Req_Header r) "Content-Type", None)).
Proof.
  intros He Hl. destruct (copy_body_ok (Req_Body r) limit Hl) as (body' & Hc).
  unfold ReadContent. rewrite Hc, He. eauto.
Qed.

Lemma copy_body_errors (body : Body R) limit x :
  snd (snd (copy_body body limit)) = Some x -> x = rd_end body \/ x = ErrDataLimit limit.
Proof.
  unfold copy_body. destruct (0 <? limit) eqn:E.
  - destruct (io_Copy [] (NewLimitReader body limit)) as [l [b e]] eqn:Ec. cbn [snd]. intros ->.
    assert (Copy [] (NewLimitReader body limit) = Some (l, (b, Some x))) as Hc
      by (rewrite Copy_total; by rewrite Ec).
    unfold Copy, NewLimitReader in Hc. eapply limit_loop_errors; [|exact Hc]. apply int64_range.
  - destruct (io_Copy_spec body []) as (body' & -> & _). cbn [snd].
    destruct (is_EOF _); [done|]. intros [= <-]. auto.
Qed.

(** An error that ReplyError answers with one of the statuses and a Reply. *)
Definition replies_with (codes : list Z) (e : goerror) : Prop :=
  exists d r, as_Error e = Some d /\ ProtoMessage d = Some (MReply r) /\ HTTPCode d ∈ codes.

Lemma NewServiceErrorWithCode_replies codes httpCode code msg err details :
  httpCode ∈ codes -> replies_with codes (NewServiceErrorWithCode httpCode code msg err details).
Proof. intros Hc. do 2 eexists. rewrite NewServiceErrorWithCode_Error. done. Qed.

(** Over a body whose own error is not a service error. *)
Lemma body_error_replies (body : Body R) limit x :
  as_Error (rd_end body) = None -> snd (snd (copy_body body limit)) = Some x ->
  replies_with [CodeBadRequest; CodeInternalError] (body_error x).
Proof.
  intros Hb Hx. unfold body_error, NewServiceError.
  destruct (copy_body_errors _ _ _ Hx) as [-> | ->]; [rewrite Hb|rewrite as_Error_limit];
    apply NewServiceErrorWithCode_replies; [set_solver|cbn [HTTPCode]; set_solver].
Qed.

Lemma ReadRequest_error_replies (r : Request R) m limit r' m' e :
  as_Error (rd_end (Req_Body r)) = None -> ReadRequest r m limit = (r', m', Some e) ->
  replies_with [CodeBadRequest; CodeClientContentError; CodeInternalError] e.
Proof.
  intros Hb. unfold ReadRequest.
  destruct (copy_body (Req_Body r) limit) as [body [b [x|]]] eqn:Ec.
  - intros [= _ _ <-]. destruct (body_error_replies (Req_Body r) limit x Hb) as (d & rp & E & Hp & Hd);
      [by rewrite Ec|]. exists d, rp. split; [done|]. split; [done|]. revert Hd; rewrite !elem_of_cons; tauto.
  - destruct (request_encoding _) as [enc|]; [destruct (unmarshal enc b m) as [m2 [x|]]; [|done]|];
      intros [= _ _ <-]; apply NewServiceErrorWithCode_replies; set_solver.
Qed.

Lemma ReadContent_error_replies (r : Request R) limit r' b ct e :
  as_Error (rd_end (Req_Body r)) = None -> ReadContent r limit = (r', (b, ct, Some e)) ->
  replies_with [CodeBadRequest; CodeInternalError] e.
Proof.
  intros Hb. unfold ReadContent.
  destruct (copy_body (Req_Body r) limit) as [body [b' [x|]]] eqn:Ec; [|done].
  intros [= _ _ _ <-]. apply (body_error_replies (Req_Body r) limit x Hb). by rewrite Ec.
Qed.

Lemma ReadRequest_closes (r : Request R) m limit r' m' e :
  ReadRequest r m limit = (r', m', e) ->
  b_closed (Req_Body r') = true /\ Req_Header r' = Req_Header r /\
  Method r' = Method r /\ URL_Path r' = URL_Path r.
Proof.
  unfold ReadRequest. destruct (copy_body _ _) as [body [b [x|]]]; [by intros [= <- _ _]|].
  destruct (request_encoding _); [|by intros [= <- _ _]].
  destruct (unmarshal _ _ _) as [m2 [x|]]; by intros [= <- _ _].
Qed.
End ReadLemmas.

(** ** Lemmas: HandleBytes on a connection that does not fail *)
Inductive bytes_op := OpSetHeader (k v : string) | OpWrite (p : bytes).

(** The calls a handler makes when its writes succeed, and what it returns. *)
Fixpoint bytes_ops (h : bytes_handler) : list bytes_op * option goerror :=
  match h with
  | BHReturn err => ([], err)
  | BHSetHeader k v next => let '(l, e) := bytes_ops next in (OpSetHeader k v :: l, e)
  | BHWrite p next => let '(l, e) := bytes_ops (next (length p, None)) in (OpWrite p :: l, e)
  end.

Definition ops_body (l : list bytes_op) : bytes :=
  l ≫= fun o => match o with OpWrite p => p | OpSetHeader _ _ => [] end.

(** The headers when the first write commits them; [None] without a write. *)
Fixpoint ops_commit (h : Header) (l : list bytes_op) : option Header :=
  match l with
  | [] => None
  | OpSetHeader k v :: t => ops_commit (Header_Set h k v) t
  | OpWrite _ :: _ => Some h
  end.

Fixpoint ops_headers (h : Header) (l : list bytes_op) : Header :=
  match l with
  | [] => h
  | OpSetHeader k v :: t => ops_headers (Header_Set h k v) t
  | OpWrite _ :: t => ops_headers h t
  end.

Lemma RW_Write_healthy w p sent :
  rw_status w = Some (CodeOK, sent) -> rw_faults w = [] ->
  exists w', io_Write w p = (w', (length p, None)) /\
    rw_status w' = Some (CodeOK, sent) /\ rw_faults w' = [] /\
    rw_header w' = rw_header w /\ rw_body w' = rw_body w ++ p.
Proof.
  intros Hs Hf. rewrite rw_io_Write. unfold RW_Write, ensure_header. rewrite Hs.
  destruct (length p =? 0)%nat eqn:E.
  - apply Nat.eqb_eq, nil_length_inv in E. subst. exists w. rewrite app_nil_r. done.
  - simpl. rewrite Hf, Hs. simpl. by eexists.
Qed.

Lemma bytesWriter_Write_committed b p sent :
  bw_wrote b = true -> rw_status (bw_w b) = Some (CodeOK, sent) -> rw_faults (bw_w b) = [] ->
  exists b', bytesWriter_Write b p = Ret (b', (length p, None)) /\
    bw_wrote b' = true /\ bw_flusher b' = bw_flusher b /\
    rw_status (bw_w b') = Some (CodeOK, sent) /\ rw_faults (bw_w b') = [] /\
    rw_body (bw_w b') = rw_body (bw_w b) ++ p /\
    (bw_flusher b = true -> rw_flushed (bw_w b') = length (rw_body (bw_w b'))).
Proof.
  intros Hw Hs Hf. unfold bytesWriter_Write. rewrite Hw. cbn [obind].
  destruct (RW_Write_healthy _ p _ Hs Hf) as (w' & -> & E1 & E2 & E3 & E4).
  eexists. split; [reflexivity|]. simpl. unfold RW_Flush, ensure_header. rewrite E1.
  destruct (bw_flusher b); simpl; by rewrite ?E1, ?E2, ?E4.
Qed.

Lemma run_bytes_committed h b sent :
  bw_wrote b = true -> rw_status (bw_w b) = Some (CodeOK, sent) -> rw_faults (bw_w b) = [] ->
  exists b', run_bytes h b = Ret (b', snd (bytes_ops h)) /\ bw_wrote b' = true /\
    rw_status (bw_w b') = Some (CodeOK, sent) /\
    rw_body (bw_w b') = rw_body (bw_w b) ++ ops_body (fst (bytes_ops h)) /\
    (bw_flusher b = true -> rw_flushed (bw_w b) = length (rw_body (bw_w b)) ->
       rw_flushed (bw_w b') = length (rw_body (bw_w b'))).
Proof.
  revert b. induction h as [err|k v next IH|p next IH]; intros b Hw Hs Hf; simpl.
  - exists b. by rewrite app_nil_r.
  - destruct (IH (bytesWriter_SetHeader b k v) Hw Hs Hf) as (b' & E & ? & ? & Hb & Hfl).
    exists b'. rewrite E. destruct (bytes_ops next) as [l e]. done.
  - destruct (bytesWriter_Write_committed b p sent Hw Hs Hf)
      as (b1 & E & Hw1 & Hfl & Hs1 & Hf1 & Hb1 & Hflu). rewrite E. cbn [obind].
    destruct (IH (length p, None) b1 Hw1 Hs1 Hf1) as (b' & E' & ? & ? & Hb & Hfl').
    exists b'. rewrite E'. destruct (bytes_ops (next (length p, None))) as [l e]. simpl in *.
    split; [done|]. split; [done|]. split; [done|]. split.
    + rewrite Hb, Hb1, <-app_assoc. done.
    + intros Hf2 _. apply Hfl'; [congruence|]. by apply Hflu.
Qed.

Lemma run_bytes_fresh h b :
  bw_wrote b = false -> rw_status (bw_w b) = None -> rw_faults (bw_w b) = [] ->
  rw_flushed (bw_w b) = length (rw_body (bw_w b)) ->
  exists b', run_bytes h b = Ret (b', snd (bytes_ops h)) /\
    match ops_commit (rw_header (bw_w b)) (fst (bytes_ops h)) with
    | Some sent => bw_wrote b' = true /\ rw_status (bw_w b') = Some (CodeOK, sent) /\
        rw_body (bw_w b') = rw_body (bw_w b) ++ ops_body (fst (bytes_ops h)) /\
        (bw_flusher b = true -> rw_flushed (bw_w b') = length (rw_body (bw_w b')))
    | None => bw_wrote b' = false /\
        bw_w b' = rw_set_header (bw_w b) (ops_headers (rw_header (bw_w b)) (fst (bytes_ops h)))
    end.
Proof.
  revert b. induction h as [err|k v next IH|p next IH]; intros b Hw Hs Hf Hfl; simpl.
  - exists b. destruct b as [[] ? ?]; done.
  - destruct (IH (bytesWriter_SetHeader b k v) Hw Hs Hf Hfl) as (b' & E & HP).
    exists b'. rewrite E. destruct (bytes_ops next) as [l e]. done.
  - set (b1 := mkBytesWriter (rw_commit (bw_w b) CodeOK) (bw_flusher b) true).
    assert (bytesWriter_Write b p = bytesWriter_Write b1 p) as ->.
    { unfold bytesWriter_Write. rewrite Hw, WriteHeader_ok by done. done. }
    destruct (bytesWriter_Write_committed b1 p (rw_header (bw_w b)) eq_refl eq_refl Hf)
      as (b2 & E & Hw2 & Hfl2 & Hs2 & Hf2 & Hb2 & Hflu). rewrite E. cbn [obind].
    destruct (run_bytes_committed (next (length p, None)) b2 _ Hw2 Hs2 Hf2)
      as (b' & E' & ? & ? & Hb & Hfl').
    exists b'. rewrite E'. destruct (bytes_ops (next (length p, None))) as [l e]. simpl in *.
    split; [done|]. split; [done|]. split; [done|]. split.
    + rewrite Hb, Hb2, <-app_assoc. done.
    + intros Hx. apply Hfl'; [congruence|]. by apply Hflu.
Qed.

(** ** Properties *)
Section Properties.
Context `{UnicodeTables, FmtFallback, BufferGrowth, Codec}.

(** C11: a request whose body fits the limit and whose Content-Type is known is
    decoded from exactly the bytes of its body; a body that does not decode is
    a 455 service error, and so is a missing one under JSON (docs/spec.md wants
    an empty message, [empty_body_refused]); the body is always closed. *)
Theorem ReadRequest_decodes {R} `{ReaderSpec R} (r : Request R) m limit enc :
  rd_end (Req_Body r) = ErrSentinel EOF ->
  within_limit limit (rd_bytes (Req_Body r)) ->
  request_encoding (Header_Get (Req_Header r) "Content-Type") = Some enc ->
  exists r',
    ReadRequest r m limit =
      (r', fst (unmarshal enc (rd_bytes (Req_Body r)) m),
       match snd (unmarshal enc (rd_bytes (Req_Body r)) m) with
       | Some e => Some (NewServiceError CodeClientContentError "" (Some e) None)
       | None => None
       end) /\
    b_closed (Req_Body r') = true.
Proof.
  apply ReadRequest_read.
Qed.

(** A body over the limit is answered with a 400 whose message names the
    limit, and the message is left untouched. *)
Theorem ReadRequest_too_large {R} `{ReaderSpec R} (r : Request R) m limit :
  0 < limit < max_int64 -> limit + 1 < Z.of_nat (length (rd_bytes (Req_Body r))) ->
  exists r' e d, ReadRequest r m limit = (r', m, Some e) /\ as_Error e = Some d /\
    HTTPCode d = CodeBadRequest /\ Code d = "400" /\
    Message d = "request body " +:+ DataLimit_Message limit /\ b_closed (Req_Body r') = true.
Proof.
  intros Hl Hb. destruct (copy_body_over (Req_Body r) limit Hl Hb) as (body' & b & Hc).
  eexists _, _, _. split; [unfold ReadRequest; rewrite Hc; reflexivity|].
  unfold body_error, NewServiceError. rewrite as_Error_limit, NewServiceErrorWithCode_Error.
  split; [reflexivity|]. repeat split; try done.
Qed.

(** C14: every error of ReadRequest and of ReadContent is a service error: found
    by errors.As, without details, its code the text of its status; the status
    is 455, 500 or the status of an [Error] the body reader returned (400 for
    the size limit). *)
Theorem Read_errors_are_service_errors {R} `{FiniteReader R} (r : Request R) m limit :
  (forall r' m' e, ReadRequest r m limit = (r', m', Some e) ->
     exists d, as_Error e = Some d /\ Details d = None /\ Code d = Itoa (HTTPCode d) /\
       (HTTPCode d ∈ [CodeClientContentError; CodeInternalError] \/
        exists x y, snd (snd (copy_body (Req_Body r) limit)) = Some x /\
          as_Error x = Some y /\ HTTPCode d = HTTPCode y)) /\
  (forall r' b ct e, ReadContent r limit = (r', (b, ct, Some e)) ->
     exists d, as_Error e = Some d /\ Details d = None /\ Code d = Itoa (HTTPCode d) /\
       b = [] /\ ct = "" /\
       (HTTPCode d = CodeInternalError \/
        exists x y, snd (snd (copy_body (Req_Body r) limit)) = Some x /\
          as_Error x = Some y /\ HTTPCode d = HTTPCode y)).
Proof.
  unfold ReadRequest, ReadContent, body_error.
  destruct (copy_body (Req_Body r) limit) as [body [b [x|]]]; simpl.
  - split; intros; simplify_eq; destruct (as_Error x) as [y|] eqn:Ey;
      unfold NewServiceError; rewrite NewServiceErrorWithCode_Error; eexists;
      (split; [reflexivity|]); simpl; repeat split; try (left; set_solver);
      right; eauto.
  - split; [|by intros; simplify_eq].
    intros r' m' e. destruct (request_encoding _) as [enc|].
    + destruct (unmarshal enc b m) as [m2 [x|]]; [|done]. intros [= <- <- <-].
      unfold NewServiceError. rewrite NewServiceErrorWithCode_Error. eexists.
      split; [reflexivity|]. simpl. repeat split. left. set_solver.
    + intros [= <- <- <-]. unfold NewServiceError. rewrite NewServiceErrorWithCode_Error. eexists.
      split; [reflexivity|]. simpl. repeat split. left. set_solver.
Qed.

(** C12: Reply never fails to answer.  On a response that has not started it
    commits exactly one status - the requested one, 500 when the message
    cannot be marshalled, or 455 when the Accept header is not supported -
    with the negotiated Content-Type, X-DUH-Version 2.0 and nosniff, and the
    body is the marshalled message or the Reply describing the failure. *)
Theorem Reply_answers `{!CodecLaws} w rh code resp :
  rw_status w = None -> 200 <= code <= 999 ->
  exists w' rh' code' ct b h,
    Reply w rh code resp = Ret (w', rh') /\ reply_result rh code resp code' ct b /\
    rw_status w' = Some (code', h) /\ Header_Get h "Content-Type" = ct /\
    Header_Get h HeaderDUHVersion = DUHVersion /\
    Header_Get h "X-Content-Type-Options" = "nosniff" /\
    (rw_faults w = [] -> body_allowed code' = true -> rw_body w' = rw_body w ++ b).
Proof.
  intros Hs Hc. destruct (Reply_result w rh code resp Hs Hc) as (code' & ct & b & rh' & E & Hr).
  destruct (sent_reply_status w code' ct b) as (h & H1' & H2' & H3' & H4').
  exists (sent_reply w code' ct b), rh', code', ct, b, h. repeat split; try done.
  by apply sent_reply_body.
Qed.

(** ReplyError sends the status and the Reply of the first [Error] of the
    chain, whatever wraps it, and a plain error as a 500 with its text; on a
    nil error it panics. *)
Theorem ReplyError_status w rh texts e :
  ReplyError w rh (Some (wrapped texts e)) =
    (match as_Error e with
     | Some d => Reply w rh (HTTPCode d) (ProtoMessage d)
     | None => Reply w rh CodeInternalError
         (Some (MReply (mkReply "500" (error_text (wrapped texts e)) None)))
     end) /\
  ReplyError w rh None = Panic "invalid memory address or nil pointer dereference".
Proof. split; [|done]. unfold ReplyError. rewrite as_Error_wrapped. by destruct (as_Error e). Qed.

(** HandleBytes on a connection that does not fail.  If the handler wrote,
    the response is 200 with the headers as they were at the first write
    (Content-Type octet-stream unless the handler replaced it), the body is
    what was written, flushed when the writer can flush, and the handler's
    error is dropped; if it did not write, its error is sent as an error
    reply and without an error nothing is committed. *)
Theorem HandleBytes_spec flusher rh handler :
  let w0 := fresh_rw flusher [] in
  let h0 := rw_header (setServiceHeaders (set_content_type w0 ContentOctetStream)) in
  let '(ops, err) := bytes_ops handler in
  match ops_commit h0 ops, err with
  | Some sent, _ => exists w, HandleBytes w0 rh handler = Ret w /\
      rw_status w = Some (CodeOK, sent) /\ rw_body w = ops_body ops /\
      (flusher = true -> rw_flushed w = length (rw_body w))
  | None, Some e => HandleBytes w0 rh handler =
      omap_ret fst (ReplyError (rw_set_header w0 (ops_headers h0 ops)) rh (Some e))
  | None, None => HandleBytes w0 rh handler = Ret (rw_set_header w0 (ops_headers h0 ops))
  end.
Proof.
  intros w0 h0. unfold HandleBytes.
  set (b0 := mkBytesWriter (setServiceHeaders (set_content_type w0 ContentOctetStream)) flusher false).
  destruct (run_bytes_fresh handler b0 eq_refl eq_refl eq_refl eq_refl) as (b' & E & HP).
  change (rw_flusher _) with flusher. fold b0. rewrite E. clear E.
  destruct (bytes_ops handler) as [ops err]. cbn [fst snd obind] in *.
  change (rw_header (bw_w b0)) with h0 in HP.
  destruct (ops_commit h0 ops) as [sent|].
  - destruct HP as (Hw & Hs & Hb & Hf). exists (bw_w b'). rewrite Hw. simpl.
    by destruct err.
  - destruct HP as (Hw & Hb). rewrite Hw, Hb. simpl. by destruct err.
Qed.
End Properties.

(** ** Witnesses *)
Import ReferenceCodec.

(** A JSON request whose body arrives in two pieces. *)
Definition hello_body : bytes :=
  match ref_marshal JSON (Some (MSayHelloRequest "gopher")) with inl b => b | inr _ => [] end.
Definition hello_request : Request source :=
  mkRequest "POST" "/v1/say.hello" "/v1/say.hello"
    (Header_Set ∅ "Content-Type" "application/json; charset=utf-8")
    (mkBody [Chunk (take 5 hello_body); Chunk (drop 5 hello_body)] false).

Lemma ReadRequest_decodes_witness :
  exists r', ReadRequest hello_request (MSayHelloRequest "") 1000 = (r', MSayHelloRequest "gopher", None) /\
    b_closed (Req_Body r') = true.
Proof.
  destruct (ReadRequest_decodes hello_request (MSayHelloRequest "") 1000 JSON) as (r' & E & Ec).
  - reflexivity.
  - right. vm_compute. split; [intros ?|]; done.
  - vm_compute. reflexivity.
  - exists r'. split; [|exact Ec]. rewrite E. vm_compute. reflexivity.
Defined.

(** A request without a body. *)
Definition bodyless (ctype : string) : Request source :=
  mkRequest "POST" "/v1/say.hello" "/v1/say.hello" (Header_Set ∅ "Content-Type" ctype) (mkBody [] false).

(** An encoding that does not decode the empty string, as JSON: a missing body
    is a 455, not an empty message. *)
Lemma empty_body_refused :
  exists r' e d, ReadRequest (bodyless ContentTypeJSON) (MSayHelloRequest "") 1000 = (r', MSayHelloRequest "", Some e) /\
    as_Error e = Some d /\ HTTPCode d = CodeClientContentError.
Proof. do 3 eexists. split; [vm_compute; reflexivity|]. split; vm_compute; reflexivity. Qed.

Lemma ReadRequest_too_large_witness :
  exists r' e d, ReadRequest hello_request (MSayHelloRequest "") 8 = (r', MSayHelloRequest "", Some e) /\
    as_Error e = Some d /\ HTTPCode d = CodeBadRequest.
Proof.
  destruct (ReadRequest_too_large hello_request (MSayHelloRequest "") 8)
    as (r' & e & d & E1 & E2 & E3 & _).
  - vm_compute. done.
  - vm_compute. done.
  - exists r', e, d. done.
Defined.

Lemma Read_errors_are_service_errors_witness :
  exists d, as_Error (NewServiceError CodeClientContentError "" (Some unmarshal_error) None) = Some d /\
    Details d = None /\ Code d = Itoa (HTTPCode d).
Proof.
  destruct (ReadRequest hello_request (MEvent 0 "") 1000) as [[r' m'] [e|]] eqn:E;
    [|vm_compute in E; discriminate E].
  destruct (proj1 (Read_errors_are_service_errors hello_request (MEvent 0 "") 1000) r' m' e E)
    as (d & E1 & E2 & E3 & _).
  exists d. assert (e = NewServiceError CodeClientContentError "" (Some unmarshal_error) None) as <-.
  { vm_compute in E. injection E as _ _ <-. reflexivity. }
  exact (conj E1 (conj E2 E3)).
Defined.

Lemma Reply_answers_witness :
  exists w' rh' code' ct b h,
    Reply (fresh_rw true []) ∅ 200 (Some (MSayHelloResponse "hi")) = Ret (w', rh') /\
    reply_result ∅ 200 (Some (MSayHelloResponse "hi")) code' ct b /\ rw_status w' = Some (code', h).
Proof.
  destruct (Reply_answers (fresh_rw true []) ∅ 200 (Some (MSayHelloResponse "hi")) eq_refl
    ltac:(done)) as (w' & rh' & code' & ct & b & h & E1 & E2 & E3 & _).
  exists w', rh', code', ct, b, h. exact (conj E1 (conj E2 E3)).
Defined.
