(* ===== verification/StreamWriter.v ===== *)
(** * StreamWriter: the server side of streaming.go

    [streamWriter] with [Send], [Close], [stopHeartbeat]; [HandleStream] with
    its heartbeat goroutine; [buildErrorReply].  The code of both goroutines is
    written once, as a tree of atomic actions on the shared state ([proc]); it
    is run by itself ([run], the behaviour without heartbeats) and interleaved
    with the heartbeat goroutine ([step], one atomic action at a time). *)
From Stdlib Require Import ZArith Lia.
From stdpp Require Import base gmap strings list relations.
From S2P Require Import Prelude GoStrings Messages Errors GoIO Frames MediaType Http Codec Service.
Local Open Scope Z_scope.

(** ** The shared state *)
Inductive thread := Main | Heartbeat.
#[export] Instance thread_eq_dec : EqDecision thread.
Proof. solve_decision. Defined.

(** [type streamWriter struct], with the writer it shares; [sw_ctx] are the
    answers the request context will give to the coming [ctx.Err()] calls
    (past the end: not cancelled). *)
Record streamWriter := mkStreamWriter {
  sw_w : ResponseWriter;
  sw_mu : option thread;    (* the goroutine that holds the mutex *)
  sw_closed : bool;
  sw_stop : bool;           (* the channel [stop] is closed *)
  sw_stopped : bool;        (* the channel [stopped] is closed *)
  sw_once : bool;           (* [stopOnce] has run *)
  sw_ctx : list (option goerror)
}.

Definition with_w (s : streamWriter) (w : ResponseWriter) : streamWriter :=
  mkStreamWriter w (sw_mu s) (sw_closed s) (sw_stop s) (sw_stopped s) (sw_once s) (sw_ctx s).
Definition with_mu (s : streamWriter) (mu : option thread) : streamWriter :=
  mkStreamWriter (sw_w s) mu (sw_closed s) (sw_stop s) (sw_stopped s) (sw_once s) (sw_ctx s).
Definition with_closed (s : streamWriter) : streamWriter :=
  mkStreamWriter (sw_w s) (sw_mu s) true (sw_stop s) (sw_stopped s) (sw_once s) (sw_ctx s).
Definition with_stop (s : streamWriter) : streamWriter :=
  mkStreamWriter (sw_w s) (sw_mu s) (sw_closed s) true (sw_stopped s) (sw_once s) (sw_ctx s).
Definition with_stopped (s : streamWriter) : streamWriter :=
  mkStreamWriter (sw_w s) (sw_mu s) (sw_closed s) (sw_stop s) true (sw_once s) (sw_ctx s).
Definition with_once (s : streamWriter) : streamWriter :=
  mkStreamWriter (sw_w s) (sw_mu s) (sw_closed s) (sw_stop s) (sw_stopped s) true (sw_ctx s).
Definition with_ctx (s : streamWriter) (l : list (option goerror)) : streamWriter :=
  mkStreamWriter (sw_w s) (sw_mu s) (sw_closed s) (sw_stop s) (sw_stopped s) (sw_once s) l.

(** ** Code as a tree of atomic actions *)
Inductive proc (A : Type) :=
| Return (a : A)
| Crash (why : string)                                     (* a panic that unwinds the goroutine *)
| Lock (k : proc A)
| Unlock (k : proc A)
| GetClosed (k : bool -> proc A)
| SetClosed (k : proc A)
| WWrite (p : bytes) (k : option goerror -> proc A)        (* w.Write *)
| WFlush (k : proc A)
| OnceDone (k : bool -> proc A)
| SetOnce (k : proc A)
| CloseStop (k : proc A)
| WaitStopped (k : proc A)
| CtxErr (k : option goerror -> proc A).
Arguments Return {A}. Arguments Crash {A}. Arguments Lock {A}. Arguments Unlock {A}.
Arguments GetClosed {A}. Arguments SetClosed {A}. Arguments WWrite {A}. Arguments WFlush {A}.
Arguments OnceDone {A}. Arguments SetOnce {A}. Arguments CloseStop {A}.
Arguments WaitStopped {A}. Arguments CtxErr {A}.

(** The next atomic action of goroutine [t]; [None] when it has ended or is
    blocked. *)
Definition pstep {A} (t : thread) (s : streamWriter) (p : proc A) : option (streamWriter * proc A) :=
  match p with
  | Return _ | Crash _ => None
  | Lock k => match sw_mu s with None => Some (with_mu s (Some t), k) | Some _ => None end
  | Unlock k =>
    match sw_mu s with
    | Some _ => Some (with_mu s None, k)
    | None => Some (s, Crash "sync: unlock of unlocked mutex")
    end
  | GetClosed k => Some (s, k (sw_closed s))
  | SetClosed k => Some (with_closed s, k)
  | WWrite b k => let '(w, (_, e)) := io_Write (sw_w s) b in Some (with_w s w, k e)
  | WFlush k => Some (with_w s (RW_Flush (sw_w s)), k)
  | OnceDone k => Some (s, k (sw_once s))
  | SetOnce k => Some (with_once s, k)
  | CloseStop k =>
    if sw_stop s then Some (s, Crash "close of closed channel") else Some (with_stop s, k)
  | WaitStopped k => if sw_stopped s then Some (s, k) else None
  | CtxErr k => match sw_ctx s with [] => Some (s, k None) | e :: l => Some (with_ctx s l, k e) end
  end.

(** ** The operations *)
Section Code.
Context `{Codec} (enc : encoding).

(** [stream.Writer.WriteFrame] on the shared writer: two writes. *)
Definition WriteFrame_p {A} (flag : byte) (payload : bytes) (k : option goerror -> proc A) : proc A :=
  WWrite (frame_header flag (Z.of_nat (length payload))) (fun err =>
    match err with
    | Some e => k (Some e)
    | None =>
      if (0 <? length payload)%nat then
        WWrite payload (fun err => match err with Some e => k (Some e) | None => k None end)
      else k None
    end).

Definition stopHeartbeat {A} (k : proc A) : proc A :=
  OnceDone (fun done => if done then k else CloseStop (WaitStopped (SetOnce k))).

Definition Send {A} (msg : option message) (k : option goerror -> proc A) : proc A :=
  Lock (GetClosed (fun closed =>
    if closed then Unlock (k (Some (ErrSentinel ErrStreamClosed)))
    else
      match marshal enc msg with
      | inr err =>
        Unlock (k (Some (ErrWrap ("while marshalling stream message: " +:+ error_text err) err)))
      | inl payload =>
        WriteFrame_p FlagData payload (fun err =>
          match err with
          | Some e => Unlock (k (Some e))
          | None => WFlush (Unlock (k None))
          end)
      end)).

Definition Close {A} (msg : option message) (k : option goerror -> proc A) : proc A :=
  stopHeartbeat (Lock (GetClosed (fun closed =>
    if closed then Unlock (k (Some (ErrSentinel ErrStreamClosed)))
    else SetClosed
      match match msg with Some _ => marshal enc msg | None => inl [] end with
      | inr err =>
        Unlock (k (Some (ErrWrap ("while marshalling final stream message: " +:+ error_text err) err)))
      | inl payload =>
        WriteFrame_p FlagFinal payload (fun err =>
          match err with
          | Some e => Unlock (k (Some e))
          | None => WFlush (Unlock (k None))
          end)
      end))).

(** One tick of the heartbeat goroutine; whether its loop goes on. *)
Definition heartbeat_tick : proc bool :=
  Lock (GetClosed (fun closed =>
    if closed then Unlock (Return false)
    else WriteFrame_p FlagHeartbeat [] (fun _ => WFlush (Unlock (Return true))))).

Definition buildErrorReply (err : goerror) : outcome Messages.Reply :=
  match as_Error err with
  | Some e =>
    match ProtoMessage e with
    | Some (MReply r) => Ret r
    | _ => Panic "interface conversion: proto.Message is not *v1.Reply"
    end
  | None => Ret (mkReply (Itoa CodeInternalError) (error_text err) None)
  end.

(** A handler only has the [StreamWriter] interface: the tree of the calls it
    makes, each continuing with what the call returned.  It may panic. *)
Inductive stream_handler :=
| SHReturn (err : option goerror)
| SHPanic (why : string)
| SHSend (m : option message) (next : option goerror -> stream_handler)
| SHClose (m : option message) (next : option goerror -> stream_handler)
| SHCtxErr (next : option goerror -> stream_handler).

Fixpoint call_handler {A} (h : stream_handler) (k : option goerror -> proc A) : proc A :=
  match h with
  | SHReturn err => k err
  | SHPanic w => Crash w
  | SHSend m next => Send m (fun r => call_handler (next r) k)
  | SHClose m next => Close m (fun r => call_handler (next r) k)
  | SHCtxErr next => CtxErr (fun r => call_handler (next r) k)
  end.

(** The end of [HandleStream], after the handler returned [err]. *)
Definition finish_stream (err : option goerror) : proc unit :=
  stopHeartbeat
    match err with
    | None => Return tt
    | Some e =>
      GetClosed (fun closed =>
        if closed then Return tt
        else Lock
          match buildErrorReply e with
          | Panic w => Unlock (Crash w)
          | Ret reply =>
            match marshal enc (Some (MReply reply)) with
            | inr _ => Unlock (Return tt)
            | inl payload =>
              WriteFrame_p FlagError payload (fun writeErr =>
                match writeErr with
                | Some _ => Unlock (Return tt)
                | None => WFlush (Unlock (Return tt))
                end)
            end
          end)
    end.

(** [HandleStream] from the call of the handler on. *)
Definition handle_stream (h : stream_handler) : proc unit := call_handler h finish_stream.
End Code.

(** ** The start of HandleStream *)
Definition DefaultHeartbeatInterval : Z := 30 * 10 ^ 9.

(** [StreamConfig.HeartbeatInterval]; [None] is a nil config. *)
Definition heartbeat_interval (conf : option Z) : Z :=
  match conf with
  | Some i => if i =? 0 then DefaultHeartbeatInterval else i
  | None => DefaultHeartbeatInterval
  end.

Definition stream_encoding (accept : string) : option encoding :=
  if decide (accept = ContentStreamJSON) then Some JSON
  else if decide (accept = ContentStreamProtoBuf) then Some ProtoBuf
  else None.

Definition stream_accept_error (accept : string) : string :=
  "Accept header '" +:+ accept +:+ "' is not a supported streaming content type; " +:+
  "expected '" +:+ ContentStreamJSON +:+ "' or '" +:+ ContentStreamProtoBuf +:+ "'".

(** Either the request is answered with an error reply, or the stream starts:
    the writer with its headers, the encoding and whether the heartbeat
    goroutine runs. *)
Inductive stream_start :=
| Rejected (reply : outcome (ResponseWriter * Header))
| Started (w : ResponseWriter) (enc : encoding) (heartbeats : bool).

Definition HandleStream_start `{UnicodeTables, Codec} (w : ResponseWriter) (rh : Header) (conf : option Z)
    : stream_start :=
  if negb (rw_flusher w) then
    Rejected (ReplyWithCode w rh CodeInternalError None "response writer does not support streaming")
  else
    let accept := normalizeMediaType (Header_Get rh "Accept") in
    match stream_encoding accept with
    | None =>
      Rejected (ReplyWithCode w rh CodeBadRequest None (stream_accept_error (Header_Get rh "Accept")))
    | Some enc =>
      Started (setServiceHeaders (set_content_type w accept)) enc (0 <? heartbeat_interval conf)
    end.

(** The streamWriter as HandleStream builds it: without heartbeats [stopped]
    is closed at once. *)
Definition new_streamWriter (w : ResponseWriter) (heartbeats : bool) (ctx : list (option goerror))
    : streamWriter := mkStreamWriter w None false false (negb heartbeats) false ctx.

(** ** Running alone *)

(** The run of a goroutine by itself; [None] when it would block for ever. *)
Fixpoint run {A} (t : thread) (p : proc A) (s : streamWriter) : option (streamWriter * outcome A) :=
  match p with
  | Return a => Some (s, Ret a)
  | Crash w => Some (s, Panic w)
  | Lock k => match sw_mu s with None => run t k (with_mu s (Some t)) | Some _ => None end
  | Unlock k =>
    match sw_mu s with
    | Some _ => run t k (with_mu s None)
    | None => Some (s, Panic "sync: unlock of unlocked mutex")
    end
  | GetClosed k => run t (k (sw_closed s)) s
  | SetClosed k => run t k (with_closed s)
  | WWrite b k => let '(w, (_, e)) := io_Write (sw_w s) b in run t (k e) (with_w s w)
  | WFlush k => run t k (with_w s (RW_Flush (sw_w s)))
  | OnceDone k => run t (k (sw_once s)) s
  | SetOnce k => run t k (with_once s)
  | CloseStop k =>
    if sw_stop s then Some (s, Panic "close of closed channel") else run t k (with_stop s)
  | WaitStopped k => if sw_stopped s then run t k s else None
  | CtxErr k => match sw_ctx s with [] => run t (k None) s | e :: l => run t (k e) (with_ctx s l) end
  end.

(** ** Interleaving *)

(** The heartbeat goroutine: in its [select], in a tick, or ended. *)
Inductive hb_state := HSelect | HTick (p : proc bool) | HDone.

Record config := mkConfig { c_sw : streamWriter; c_main : proc unit; c_hb : hb_state }.

(** One atomic action of either goroutine.  The ticker may fire at any time;
    when it has fired and [stop] is closed as well, select takes either. *)
Inductive step : config -> config -> Prop :=
| step_main s p h s' p' :
    pstep Main s p = Some (s', p') -> step (mkConfig s p h) (mkConfig s' p' h)
| step_select_stop s p :
    sw_stop s = true -> step (mkConfig s p HSelect) (mkConfig (with_stopped s) p HDone)
| step_select_tick s p :
    step (mkConfig s p HSelect) (mkConfig s p (HTick heartbeat_tick))
| step_tick s p q s' q' :
    pstep Heartbeat s q = Some (s', q') -> step (mkConfig s p (HTick q)) (mkConfig s' p (HTick q'))
| step_tick_continue s p :
    step (mkConfig s p (HTick (Return true))) (mkConfig s p HSelect)
| step_tick_return s p :
    step (mkConfig s p (HTick (Return false))) (mkConfig (with_stopped s) p HDone).

(** The configuration when [HandleStream] calls the handler. *)
Definition stream_config `{Codec} (w : ResponseWriter) (enc : encoding) (heartbeats : bool)
    (ctx : list (option goerror)) (h : stream_handler) : config :=
  mkConfig (new_streamWriter w heartbeats ctx) (handle_stream enc h)
    (if heartbeats then HSelect else HDone).

Definition reachable (c0 c : config) : Prop := rtc step c0 c.

(** The goroutine of the handler has ended: it returned or panicked. *)
Definition ended (p : proc unit) : option (outcome unit) :=
  match p with Return a => Some (Ret a) | Crash w => Some (Panic w) | _ => None end.

(** ** The contract: the frames a handler produces

    What each call answers and the frame it sends, on a connection that does
    not fail. *)
Section Spec.
Context `{Codec} (enc : encoding).

Definition send_result (closed : bool) (m : option message) : list frame * option goerror :=
  if closed then ([], Some (ErrSentinel ErrStreamClosed))
  else match marshal enc m with
       | inl b => ([mkFrame FlagData b], None)
       | inr e => ([], Some (ErrWrap ("while marshalling stream message: " +:+ error_text e) e))
       end.

Definition close_result (closed : bool) (m : option message) : list frame * option goerror :=
  if closed then ([], Some (ErrSentinel ErrStreamClosed))
  else match match m with Some _ => marshal enc m | None => inl [] end with
       | inl b => ([mkFrame FlagFinal b], None)
       | inr e => ([], Some (ErrWrap ("while marshalling final stream message: " +:+ error_text e) e))
       end.

(** The frames, whether the stream was closed, and how the handler ended. *)
Fixpoint handler_frames (closed : bool) (ctx : list (option goerror)) (h : stream_handler)
    : list frame * bool * outcome (option goerror) :=
  match h with
  | SHReturn err => ([], closed, Ret err)
  | SHPanic w => ([], closed, Panic w)
  | SHSend m next =>
    let '(fs, r) := send_result closed m in
    let '(l, c, o) := handler_frames closed ctx (next r) in (fs ++ l, c, o)
  | SHClose m next =>
    let '(fs, r) := close_result closed m in
    let '(l, c, o) := handler_frames true ctx (next r) in (fs ++ l, c, o)
  | SHCtxErr next =>
    match ctx with
    | [] => handler_frames closed [] (next None)
    | e :: l => handler_frames closed l (next e)
    end
  end.

(** The error frame of a handler that failed before closing. *)
Definition error_frames (e : goerror) : list frame * outcome unit :=
  match buildErrorReply e with
  | Panic w => ([], Panic w)
  | Ret reply =>
    match marshal enc (Some (MReply reply)) with
    | inl b => ([mkFrame FlagError b], Ret tt)
    | inr _ => ([], Ret tt)
    end
  end.

(** The frames of a stream, heartbeats apart, and how HandleStream ends. *)
Definition stream_frames (ctx : list (option goerror)) (h : stream_handler) : list frame * outcome unit :=
  let '(fs, closed, o) := handler_frames false ctx h in
  match o with
  | Panic w => (fs, Panic w)
  | Ret (Some e) =>
    if closed then (fs, Ret tt) else let '(l, r) := error_frames e in (fs ++ l, r)
  | Ret None => (fs, Ret tt)
  end.
End Spec.
