(* ===== verification/StreamAlone.v ===== *)
(** * StreamAlone: a stream without its heartbeats

    The run of the handler's goroutine by itself on a connection that does not
    fail implements the contract [stream_frames] of StreamWriter.v: each call
    answers and sends what the contract says. *)
From Stdlib Require Import ZArith Lia.
From stdpp Require Import base gmap strings list.
From S2P Require Import Prelude GoStrings Messages Errors GoIO Frames MediaType Http Codec Service StreamWriter.
Local Open Scope Z_scope.

Lemma encode_frames_snoc fs f : encode_frames (fs ++ [f]) = encode_frames fs ++ encode_frame f.
Proof. rewrite encode_frames_app, encode_frames_cons. unfold encode_frames at 2. simpl. by rewrite app_nil_r. Qed.

(** Running alone agrees with the atomic actions. *)
Lemma run_pstep {A} t (p p' : proc A) s s' : pstep t s p = Some (s', p') -> run t p s = run t p' s'.
Proof.
  destruct p; cbn [pstep run]; repeat case_match; intros; by simplify_eq.
Qed.

Section Alone.
Context (body0 : bytes) (h0 : Header).

(** The response as the stream left it: nothing sent yet, or committed with
    200 and the headers set by HandleStream. *)
Definition healthy (w : ResponseWriter) : Prop :=
  rw_faults w = [] /\ rw_header w = h0 /\
  ((rw_status w = None /\ rw_body w = body0) \/ rw_status w = Some (CodeOK, h0)).

Lemma healthy_write w b :
  healthy w -> exists w', io_Write w b = (w', (length b, None)) /\ healthy w' /\
    rw_body w' = rw_body w ++ b.
Proof.
  intros (Hf & Hh & Hs).
  assert (exists w1, ensure_header w = w1 /\ rw_status w1 = Some (CodeOK, h0) /\ rw_faults w1 = [] /\
    rw_header w1 = h0 /\ rw_body w1 = rw_body w /\ rw_flushed w1 = rw_flushed w) as (w1 & E & H1 & H2 & H3 & H4 & H5).
  { eexists. split; [reflexivity|]. unfold ensure_header.
    destruct Hs as [[-> _]| Hs]; [simpl; by rewrite Hh|rewrite Hs; auto]. }
  rewrite rw_io_Write. unfold RW_Write. rewrite E, H1, H2.
  destruct (length b =? 0)%nat eqn:Eb.
  - apply Nat.eqb_eq, nil_length_inv in Eb. subst b. exists w1. rewrite app_nil_r. unfold healthy. auto 10.
  - cbn. eexists. split; [reflexivity|]. unfold healthy. cbn. rewrite H4. repeat split; auto.
Qed.

Lemma healthy_flush w :
  healthy w -> healthy (RW_Flush w) /\ rw_body (RW_Flush w) = rw_body w /\
    rw_flushed (RW_Flush w) = length (rw_body (RW_Flush w)).
Proof.
  intros (Hf & Hh & Hs). unfold healthy, RW_Flush, ensure_header.
  destruct Hs as [[E _]|E]; rewrite E; cbn; rewrite ?Hh; repeat split; auto.
Qed.

(** Between two calls: what the goroutine alone has sent and knows. *)
Record seq (joined closed : bool) (ctx : list (option goerror)) (fs : list frame) (s : streamWriter)
  : Prop := mkSeq {
  sq_healthy : healthy (sw_w s);
  sq_body : rw_body (sw_w s) = body0 ++ encode_frames fs;
  sq_flushed : rw_flushed (sw_w s) = length (rw_body (sw_w s));
  sq_mu : sw_mu s = None;
  sq_closed : sw_closed s = closed;
  sq_ctx : sw_ctx s = ctx;
  sq_stop : sw_stop s = joined;
  sq_once : sw_once s = joined;
  sq_stopped : sw_stopped s = true
}.

(** A frame written to a healthy connection, flushed, and the mutex released. *)
Lemma run_write_frame {A} joined closed ctx fs s flag payload (k : option goerror -> proc A) :
  seq joined closed ctx fs s ->
  exists s', seq joined closed ctx (fs ++ [mkFrame flag payload]) s' /\
    run Main (WriteFrame_p flag payload (fun err =>
      match err with Some e => Unlock (k (Some e)) | None => WFlush (Unlock (k None)) end))
      (with_mu s (Some Main)) = run Main (k None) s'.
Proof.
  intros []. unfold WriteFrame_p. cbn [run sw_w with_mu].
  destruct (healthy_write _ (frame_header flag (Z.of_nat (length payload))) sq_healthy0)
    as (w1 & -> & Hw1 & Hb1).
  assert (exists w2, healthy w2 /\ rw_body w2 = rw_body w1 ++ payload /\
    forall k', run Main (if (0 <? length payload)%nat then
        WWrite payload (fun err => match err with Some e => k' (Some e) | None => k' None end)
      else k' None) (with_w (with_mu s (Some Main)) w1) =
    @run A Main (k' None) (with_w (with_mu s (Some Main)) w2)) as (w2 & Hw2 & Hb2 & E).
  { destruct (Nat.ltb_spec 0 (length payload)) as [Hlt|Hge].
    - destruct (healthy_write _ payload Hw1) as (w2 & E2 & Hw2 & Hb2).
      exists w2. split; [done|]. split; [done|]. intros k'. cbn [run sw_w with_w]. by rewrite E2.
    - exists w1. assert (payload = []) as -> by (apply nil_length_inv; lia). by rewrite app_nil_r. }
  rewrite (E (fun err => match err with Some e => Unlock (k (Some e)) | None => WFlush (Unlock (k None)) end)).
  destruct (healthy_flush _ Hw2) as (Hw3 & Hb3 & Hf3).
  eexists. split; [|cbn [run sw_w with_w with_mu sw_mu]; reflexivity].
  constructor; try done. cbn [sw_w with_w with_mu].
  rewrite Hb3, Hb2, Hb1, sq_body0, encode_frames_snoc, <-!app_assoc. done.
Qed.

Lemma seq_closed joined closed ctx fs s : seq joined closed ctx fs s -> seq joined true ctx fs (with_closed s).
Proof. by intros []. Qed.

Lemma run_stopHeartbeat joined closed ctx fs s :
  seq joined closed ctx fs s ->
  exists s', seq true closed ctx fs s' /\
    forall A (k : proc A), run Main (stopHeartbeat k) s = run Main k s'.
Proof.
  intros []. unfold stopHeartbeat. cbn [run]. destruct joined.
  - exists s. split; [done|]. intros A k. by rewrite sq_once0.
  - exists (with_once (with_stop s)). split; [by constructor|]. intros A k.
    rewrite sq_once0. cbn [run]. rewrite sq_stop0. cbn [sw_stopped with_stop]. by rewrite sq_stopped0.
Qed.

Section Calls.
Context `{Codec} (enc : encoding).

Lemma run_Send {A} joined closed ctx fs s m (k : option goerror -> proc A) :
  seq joined closed ctx fs s ->
  exists s', seq joined closed ctx (fs ++ fst (send_result enc closed m)) s' /\
    run Main (Send enc m k) s = run Main (k (snd (send_result enc closed m))) s'.
Proof.
  intros Hs. unfold Send, send_result. cbn [run]. rewrite (sq_mu _ _ _ _ _ Hs).
  cbn [sw_closed with_mu]. rewrite (sq_closed _ _ _ _ _ Hs).
  destruct closed; [|destruct (marshal enc m) as [b|e]; [by apply run_write_frame|]];
    cbn [run with_mu sw_mu fst snd]; rewrite app_nil_r; (eexists; split; [|reflexivity]); by destruct Hs.
Qed.

Lemma run_Close {A} joined closed ctx fs s m (k : option goerror -> proc A) :
  seq joined closed ctx fs s ->
  exists s', seq true true ctx (fs ++ fst (close_result enc closed m)) s' /\
    run Main (Close enc m k) s = run Main (k (snd (close_result enc closed m))) s'.
Proof.
  intros Hs. unfold Close. destruct (run_stopHeartbeat _ _ _ _ _ Hs) as (s1 & Hs1 & ->).
  unfold close_result. cbn [run]. rewrite (sq_mu _ _ _ _ _ Hs1).
  cbn [sw_closed with_mu]. rewrite (sq_closed _ _ _ _ _ Hs1). destruct closed; cbn [run].
  - cbn [with_mu sw_mu fst snd]. rewrite app_nil_r. eexists. split; [|reflexivity]. by destruct Hs1.
  - destruct (match m with Some _ => _ | None => _ end) as [b|e].
    + apply (run_write_frame true true ctx fs (with_closed s1)). by eapply seq_closed.
    + cbn [run with_mu with_closed sw_mu fst snd]. rewrite app_nil_r.
      eexists. split; [|reflexivity]. by destruct Hs1.
Qed.

(** The handler alone does what the contract says, then returns to its caller. *)
Lemma run_call_handler {A} h joined closed ctx fs s (k : option goerror -> proc A) :
  seq joined closed ctx fs s ->
  let '(l, c, o) := handler_frames enc closed ctx h in
  exists j x s', seq j c x (fs ++ l) s' /\
    run Main (call_handler enc h k) s =
      match o with Ret r => run Main (k r) s' | Panic w => Some (s', Panic w) end.
Proof.
  revert joined closed ctx fs s.
  induction h as [err|w|m next IH|m next IH|next IH]; intros joined closed ctx fs s Hs;
    cbn [call_handler handler_frames].
  - exists joined, ctx, s. by rewrite app_nil_r.
  - exists joined, ctx, s. by rewrite app_nil_r.
  - edestruct (@run_Send A) as (s1 & Hs1 & ->); [exact Hs|].
    destruct (send_result enc closed m) as [l1 r]. cbn [fst snd] in *.
    specialize (IH r _ _ _ _ _ Hs1). destruct (handler_frames _ _ _ _) as [[l c] o].
    by rewrite app_assoc.
  - edestruct (@run_Close A) as (s1 & Hs1 & ->); [exact Hs|].
    destruct (close_result enc closed m) as [l1 r]. cbn [fst snd] in *.
    specialize (IH r _ _ _ _ _ Hs1). destruct (handler_frames _ _ _ _) as [[l c] o].
    by rewrite app_assoc.
  - cbn [run]. rewrite (sq_ctx _ _ _ _ _ Hs). destruct ctx as [|e x]; [by apply (IH None joined)|].
    apply (IH e joined). by destruct Hs.
Qed.

Lemma run_error_frame joined s ctx fs e :
  seq joined false ctx fs s ->
  exists s', seq true false ctx (fs ++ fst (error_frames enc e)) s' /\
    run Main (finish_stream enc (Some e)) s = Some (s', snd (error_frames enc e)).
Proof.
  intros Hs. unfold finish_stream. destruct (run_stopHeartbeat _ _ _ _ _ Hs) as (s1 & Hs1 & ->).
  cbn [run]. rewrite (sq_closed _ _ _ _ _ Hs1). cbn [run]. rewrite (sq_mu _ _ _ _ _ Hs1).
  unfold error_frames. destruct (buildErrorReply e) as [r|w].
  - destruct (marshal _ _) as [b|x].
    + destruct (run_write_frame _ _ _ _ _ FlagError b (fun _ => Return tt) Hs1) as (s2 & Hs2 & E).
      exists s2. split; [exact Hs2|]. rewrite E. done.
    + cbn [run with_mu sw_mu fst snd]. rewrite app_nil_r. eexists. split; [|reflexivity]. by destruct Hs1.
  - cbn [run with_mu sw_mu fst snd]. rewrite app_nil_r. eexists. split; [|reflexivity]. by destruct Hs1.
Qed.

(** HandleStream without heartbeats, from the call of the handler on. *)
Lemma run_handle_stream h ctx s :
  seq false false ctx [] s ->
  exists j c x s', seq j c x (fst (stream_frames enc ctx h)) s' /\
    run Main (handle_stream enc h) s = Some (s', snd (stream_frames enc ctx h)).
Proof.
  intros Hs. unfold handle_stream, stream_frames.
  pose proof (run_call_handler h _ _ _ _ _ (finish_stream enc) Hs) as Hh.
  destruct (handler_frames enc false ctx h) as [[l c] [r|w]];
    destruct Hh as (j & x & s1 & Hs1 & ->); cbn [app] in *; [|by exists j, c, x, s1].
  destruct (run_stopHeartbeat _ _ _ _ _ Hs1) as (s2 & Hs2 & E2).
  destruct r as [e|]; [destruct c|].
  - exists true, true, x, s2. split; [done|]. unfold finish_stream. rewrite E2. cbn [run].
    by rewrite (sq_closed _ _ _ _ _ Hs2).
  - destruct (run_error_frame j s1 x l e Hs1) as (s3 & Hs3 & E3). exists true, false, x, s3.
    by destruct (error_frames enc e) as [l2 o].
  - exists true, c, x, s2. split; [done|]. unfold finish_stream. by rewrite E2.
Qed.
End Calls.
End Alone.
