(* ===== verification/StreamSafety.v ===== *)
(** * StreamSafety: what the two goroutines of a stream do together

    The correctness of HandleStream under every interleaving of the handler's
    goroutine with the heartbeat goroutine (StreamWriter.v): frames are never
    torn, heartbeats come before the terminal frame, the goroutine is joined,
    no deadlock, and without its heartbeats the response is the one the
    handler produces alone. *)
From Stdlib Require Import ZArith Lia.
From stdpp Require Import base gmap strings list relations.
From S2P Require Import Prelude GoStrings Messages Errors GoIO Frames MediaType Http Codec Service StreamWriter StreamAlone.
From S2P Require ReferenceCodec.
Local Open Scope Z_scope.

(** ** Frames by role *)
Definition is_heartbeat (f : frame) : bool := bool_decide (f_flag f = FlagHeartbeat).
Definition is_terminal (f : frame) : bool :=
  bool_decide (f_flag f = FlagFinal \/ f_flag f = FlagError).
Definition heartbeat_frame : frame := mkFrame FlagHeartbeat [].
Definition without_heartbeats (fs : list frame) : list frame :=
  filter (fun f => is_heartbeat f = false) fs.

Lemma without_heartbeats_app fs gs :
  without_heartbeats (fs ++ gs) = without_heartbeats fs ++ without_heartbeats gs.
Proof. apply filter_app. Qed.

Lemma without_heartbeats_id fs :
  Forall (fun f => is_heartbeat f = false) fs -> without_heartbeats fs = fs.
Proof.
  induction 1 as [|f fs Hf _ IH]; [done|]. unfold without_heartbeats in *.
  by rewrite filter_cons_True, IH.
Qed.

(** The frames a stream sends: their payload is empty or, other than in a
    heartbeat, a marshalled message. *)
Definition sent `{Codec} (enc : encoding) (f : frame) : Prop :=
  f_payload f = [] \/ (f_flag f <> FlagHeartbeat /\ exists m, marshal enc m = inl (f_payload f)).

Section Machine.
Context (P : frame -> Prop).   (* what every frame satisfies, [sent] below *)

(** ** Well-bracketed code

    The ghost state of the handler's goroutine: what it wrote since it took
    the mutex and whether that was flushed, and how far it is in stopping the
    heartbeats. *)
Inductive lockst := Free | Held (part : bytes) (flushed : bool) | Broken.
Inductive phase := Running | Stopping | Waited | Joined.

(** The mutex is released only after whole, flushed frames (or after a write
    error), a terminal frame is sent only after the join, and [closed] is
    accessed under the mutex or after the join. *)
Definition unlockable (ph : phase) (lk : lockst) : Prop :=
  match lk with
  | Free => False
  | Held part fl =>
    fl = true /\
    (part = [] \/ exists f, part = encode_frame f /\ P f /\ is_heartbeat f = false /\
                            (is_terminal f = true -> ph = Joined))
  | Broken => True
  end.

Fixpoint wf {A} (ph : phase) (lk : lockst) (p : proc A) : Prop :=
  match p with
  | Return _ => ph = Joined /\ lk = Free
  | Crash _ => lk = Free
  | Lock k => lk = Free /\ wf ph (Held [] true) k
  | Unlock k => unlockable ph lk /\ wf ph Free k
  | GetClosed k => (lk = Free -> ph = Joined) /\ forall b, wf ph lk (k b)
  | SetClosed k => lk <> Free /\ wf ph lk k
  | WWrite b k =>
    (exists part fl, lk = Held part fl /\ wf ph (Held (part ++ b) false) (k None)) /\
    (forall e, wf ph Broken (k (Some e)))
  | WFlush k =>
    match lk with
    | Free => False
    | Held part _ => wf ph (Held part true) k
    | Broken => wf ph Broken k
    end
  | OnceDone k =>
    lk = Free /\ ((ph = Running /\ wf Running Free (k false)) \/ (ph = Joined /\ wf Joined Free (k true)))
  | SetOnce k => lk = Free /\ ph = Waited /\ wf Joined Free k
  | CloseStop k => lk = Free /\ ph = Running /\ wf Stopping Free k
  | WaitStopped k => lk = Free /\ ph = Stopping /\ wf Waited Free k
  | CtxErr k => lk = Free /\ forall e, wf ph lk (k e)
  end.

Definition stable (ph : phase) : Prop := ph = Running \/ ph = Joined.

Lemma wf_stopHeartbeat {A} (k : proc A) ph :
  stable ph -> wf Joined Free k -> wf ph Free (stopHeartbeat k).
Proof. intros [-> | ->] Hk; simpl; split; auto. left. auto 10. Qed.

Section Wf.
Context `{Codec} (enc : encoding) (Hsent : forall f, sent enc f -> P f).

Lemma encode_frame_header flag payload :
  encode_frame (mkFrame flag payload) = frame_header flag (Z.of_nat (length payload)) ++ payload.
Proof. done. Qed.

(** A frame is written, flushed and the mutex released. *)
Lemma wf_write_frame {A} ph flag payload (k : option goerror -> proc A) :
  P (mkFrame flag payload) ->
  is_heartbeat (mkFrame flag payload) = false ->
  (is_terminal (mkFrame flag payload) = true -> ph = Joined) ->
  (forall e, wf ph Free (k e)) ->
  wf ph (Held [] true) (WriteFrame_p flag payload (fun err =>
    match err with Some e => Unlock (k (Some e)) | None => WFlush (Unlock (k None)) end)).
Proof.
  intros HP Hh Ht Hk. unfold WriteFrame_p. cbn [wf]. split; [|intros e; split; [done|apply Hk]].
  exists [], true. split; [done|]. cbn [app].
  destruct (Nat.ltb_spec 0 (length payload)) as [Hlt|Hge].
  - cbn [wf]. split; [|intros e; split; [done|apply Hk]].
    eexists _, _. split; [done|]. split; [|apply Hk]. split; [done|]. right.
    exists (mkFrame flag payload). rewrite encode_frame_header. done.
  - cbn [wf]. split; [|apply Hk]. split; [done|]. right.
    exists (mkFrame flag payload). rewrite encode_frame_header.
    assert (payload = []) as -> by (apply nil_length_inv; lia). by rewrite app_nil_r.
Qed.

Lemma wf_Send {A} ph m (k : option goerror -> proc A) :
  (forall e, wf ph Free (k e)) -> wf ph Free (Send enc m k).
Proof.
  intros Hk. unfold Send. cbn [wf]. split; [done|]. split; [done|]. intros [].
  - split; [split; [done|by left]|apply Hk].
  - destruct (marshal enc m) as [b|e] eqn:Em; [|split; [split; [done|by left]|apply Hk]].
    apply wf_write_frame; try done. apply Hsent. right. eauto.
Qed.

Lemma wf_Close {A} ph m (k : option goerror -> proc A) :
  stable ph -> (forall e, wf Joined Free (k e)) -> wf ph Free (Close enc m k).
Proof.
  intros Hph Hk. apply wf_stopHeartbeat; [done|]. cbn [wf]. split; [done|]. split; [done|]. intros [].
  - split; [split; [done|by left]|apply Hk].
  - cbn [wf]. split; [done|]. destruct (match m with Some _ => _ | None => _ end) as [b|e] eqn:Em.
    + apply wf_write_frame; try done. apply Hsent.
      destruct m; [right; eauto|left]. by injection Em as <-.
    + split; [split; [done|by left]|apply Hk].
Qed.

Lemma wf_call_handler {A} h ph (k : option goerror -> proc A) :
  stable ph -> (forall e ph, stable ph -> wf ph Free (k e)) -> wf ph Free (call_handler enc h k).
Proof.
  revert ph. induction h as [err|w|m next IH|m next IH|next IH]; intros ph Hph Hk; cbn [call_handler].
  - by apply Hk.
  - done.
  - apply wf_Send. intros e. by apply IH.
  - apply wf_Close; [done|]. intros e. apply IH; [by right|done].
  - split; [done|]. intros e. by apply IH.
Qed.

Lemma wf_finish_stream err ph : stable ph -> wf ph Free (finish_stream enc err).
Proof.
  intros Hph. apply wf_stopHeartbeat; [done|]. destruct err as [e|]; [|done].
  cbn [wf]. split; [done|]. intros []; [done|]. split; [done|].
  destruct (buildErrorReply e) as [r|w].
  - destruct (marshal _ _) as [b|x] eqn:Em; [|split; [split; [done|by left]|done]].
    apply (wf_write_frame Joined FlagError b (fun _ => Return tt)); try done.
    apply Hsent. right. eauto.
  - split; [split; [done|by left]|done].
Qed.

(** Whatever the handler does, the code of its goroutine is well bracketed. *)
Lemma wf_handle_stream h : wf Running Free (handle_stream enc h).
Proof. apply wf_call_handler; [by left|]. intros e ph. apply wf_finish_stream. Qed.
End Wf.

(** ** The control invariant *)

(** The places of a heartbeat tick. *)
Definition tick_locked : proc bool := match heartbeat_tick with Lock k => k | p => p end.
Definition tick_write : proc bool :=
  WriteFrame_p FlagHeartbeat [] (fun _ => WFlush (Unlock (Return true))).

Inductive hb_at : proc bool -> Prop :=
| at_lock : hb_at heartbeat_tick
| at_closed : hb_at tick_locked
| at_write : hb_at tick_write
| at_flush : hb_at (WFlush (Unlock (Return true)))
| at_unlock b : hb_at (Unlock (Return b))
| at_end b : hb_at (Return b).

Definition hb_holds (h : hb_state) : bool :=
  match h with
  | HTick (Lock _) | HTick (Return _) => false
  | HTick _ => true
  | HSelect | HDone => false
  end.

Record ctl (ph : phase) (lk : lockst) (c : config) : Prop := mkCtl {
  ctl_wf : wf ph lk (c_main c);
  ctl_hb : match c_hb c with HTick q => hb_at q | _ => True end;
  ctl_mu : sw_mu (c_sw c) =
    if hb_holds (c_hb c) then Some Heartbeat else match lk with Free => None | _ => Some Main end;
  ctl_excl : hb_holds (c_hb c) = true -> lk = Free;
  ctl_stop : sw_stop (c_sw c) = match ph with Running => false | _ => true end;
  ctl_once : sw_once (c_sw c) = match ph with Joined => true | _ => false end;
  ctl_stopped : sw_stopped (c_sw c) = match c_hb c with HDone => true | _ => false end;
  ctl_joined : match ph with Waited | Joined => c_hb c = HDone | _ => True end
}.

(** ** The data invariant, on a connection that does not fail *)
Section Data.
Context (body0 : bytes) (h0 : Header).

Definition lk_part (lk : lockst) : bytes := match lk with Held part _ => part | _ => [] end.

Definition hb_unflushed (h : hb_state) : bool :=
  match h with HTick (WFlush _) => true | _ => false end.

Definition flushed_ok (lk : lockst) (h : hb_state) (w : ResponseWriter) : Prop :=
  match lk with Held _ false => False | _ => hb_unflushed h = false end ->
  rw_flushed w = length (rw_body w).

(** The frames [pre ++ post] are on the wire, then what the handler's
    goroutine is writing. *)
Record wire (lk : lockst) (h : hb_state) (w : ResponseWriter) (pre post : list frame) : Prop := mkWire {
  wire_body : rw_body w = body0 ++ encode_frames (pre ++ post) ++ lk_part lk;
  wire_pre : Forall (fun f => is_terminal f = false) pre;
  wire_sent : Forall P (pre ++ post);
  wire_post : Forall (fun f => is_heartbeat f = false) post;
  wire_live : h <> HDone -> post = [];
  wire_flushed : flushed_ok lk h w
}.

(** The same goroutine running alone, at the same point. *)
Record alone (lk : lockst) (s sq : streamWriter) (fs : list frame) : Prop := mkAlone {
  al_healthy : healthy body0 h0 (sw_w sq);
  al_body : rw_body (sw_w sq) = body0 ++ encode_frames (without_heartbeats fs) ++ lk_part lk;
  al_closed : sw_closed sq = sw_closed s;
  al_ctx : sw_ctx sq = sw_ctx s;
  al_stop : sw_stop sq = sw_stop s;
  al_once : sw_once sq = sw_once s;
  al_stopped : sw_stopped sq = true;
  al_mu : sw_mu sq = match lk with Free => None | _ => Some Main end
}.

Definition data (fin : streamWriter * outcome unit) (lk : lockst) (c : config) : Prop :=
  healthy body0 h0 (sw_w (c_sw c)) /\ lk <> Broken /\
  exists pre post sq,
    wire lk (c_hb c) (sw_w (c_sw c)) pre post /\
    alone lk (c_sw c) sq (pre ++ post) /\
    run Main (c_main c) sq = Some fin.

Lemma without_heartbeats_snoc fs f :
  is_heartbeat f = false -> without_heartbeats (fs ++ [f]) = without_heartbeats fs ++ [f].
Proof. intros Hf. rewrite without_heartbeats_app. by rewrite (without_heartbeats_id [f]) by auto. Qed.

Lemma without_heartbeats_tick fs :
  without_heartbeats (fs ++ [heartbeat_frame]) = without_heartbeats fs.
Proof. rewrite without_heartbeats_app. apply app_nil_r. Qed.
End Data.

(** ** Preservation *)

(** A step that leaves the writer and the scalars the goroutine alone sees. *)
Section Steps.
Context (body0 : bytes) (h0 : Header) (fin : streamWriter * outcome unit) (Phb : P heartbeat_frame).
Abbreviation dat := (data body0 h0 fin).

(** The two invariants together, for one step. *)
Definition preserved (ph : phase) (lk : lockst) (c c' : config) : Prop :=
  exists ph' lk', ctl ph' lk' c' /\ (dat lk c -> dat lk' c').

(** A step of the handler's goroutine that does not touch the writer. *)
Lemma data_quiet lk lk' s s' p p' h :
  sw_w s' = sw_w s -> lk' <> Broken -> lk_part lk' = lk_part lk ->
  (forall w, flushed_ok lk h w -> flushed_ok lk' h w) ->
  (forall sq fs, alone body0 h0 lk s sq fs ->
     exists sq', pstep Main sq p = Some (sq', p') /\ sw_w sq' = sw_w sq /\
       sw_closed sq' = sw_closed s' /\ sw_ctx sq' = sw_ctx s' /\ sw_stop sq' = sw_stop s' /\
       sw_once sq' = sw_once s' /\ sw_stopped sq' = true /\
       sw_mu sq' = match lk' with Free => None | _ => Some Main end) ->
  dat lk (mkConfig s p h) -> dat lk' (mkConfig s' p' h).
Proof.
  intros Hw Hlk Hpart Hfl Hsq (Hh & _ & pre & post & sq & [] & Hal & Hr).
  unfold data. cbn [c_sw c_main c_hb] in *. rewrite Hw. split; [done|]. split; [done|].
  destruct (Hsq sq _ Hal) as (sq' & Hp & Hqw & ? & ? & ? & ? & ? & ?).
  exists pre, post, sq'. destruct Hal. split; [|split].
  - constructor; rewrite ?Hpart; auto.
  - constructor; rewrite ?Hqw, ?Hpart; done.
  - by rewrite <-(run_pstep _ _ _ _ _ Hp).
Qed.

Lemma lock_ne lk : lk <> Free -> lk <> Broken -> exists part fl, lk = Held part fl.
Proof. destruct lk; naive_solver. Qed.

(** Closes the goals of [data_quiet] for the goroutine alone. *)
Ltac solve_alone :=
  intros sq fs [_ _ Ec Ex Es Eo Ed Em]; cbn [pstep];
  rewrite ?Ec, ?Ex, ?Es, ?Eo, ?Ed, ?Em;
  repeat match goal with
  | E : sw_once _ = _ |- _ => rewrite E
  | E : sw_stop _ = _ |- _ => rewrite E
  | E : sw_ctx _ = _ |- _ => rewrite E
  end;
  eexists; split; [reflexivity|]; repeat split; cbn; congruence.

(** Projections of an updated state. *)
Ltac sw_cbn :=
  cbn [with_w sw_w sw_closed sw_ctx sw_stop sw_once sw_stopped sw_mu c_sw c_main c_hb lk_part] in *.

(** A frame is complete: it joins the frames before or after the join. *)
Lemma wire_frame h w f pre post part fl :
  part = encode_frame f -> P f -> is_heartbeat f = false -> (is_terminal f = true -> h = HDone) ->
  fl = true -> wire body0 (Held part fl) h w pre post ->
  exists pre' post', wire body0 Free h w pre' post' /\ pre' ++ post' = (pre ++ post) ++ [f].
Proof.
  intros -> HP Hf Ht -> [Hb Hpre Hs Hpost Hl Hfl].
  assert (Forall P ((pre ++ post) ++ [f])) as Hs' by (apply Forall_app; auto).
  assert (rw_body w = body0 ++ encode_frames ((pre ++ post) ++ [f]) ++ []) as Hb'.
  { by rewrite encode_frames_snoc, app_nil_r. }
  assert ({h = HDone} + {h <> HDone}) as [Hh|Hh] by (destruct h; (by left) || by right).
  - exists pre, (post ++ [f]). rewrite app_assoc. split; [|done]. constructor; try done.
    + by rewrite (app_assoc pre post).
    + by rewrite app_assoc.
    + apply Forall_app. auto.
  - rewrite (Hl Hh) in *. exists (pre ++ [f]), []. rewrite !app_nil_r in *. split; [|done].
    constructor; rewrite ?app_nil_r; try done. apply Forall_app. split; [done|].
    repeat constructor. destruct (is_terminal f); [|done]. by destruct Hh; auto.
Qed.

Lemma data_unlock lk s k h ph :
  unlockable ph lk -> (ph = Joined -> h = HDone) ->
  dat lk (mkConfig s (Unlock k) h) -> dat Free (mkConfig (with_mu s None) k h).
Proof.
  intros Hu Hj Hd. destruct lk as [|part fl|]; [done| |by destruct Hd as (_ & ? & _)].
  destruct Hu as [-> [-> |(f & -> & HP & Hf & Ht)]].
  - revert Hd. apply data_quiet; try done. solve_alone.
  - destruct Hd as (Hh & _ & pre & post & sq & Hwire & [] & Hr). cbn [c_sw c_main c_hb run] in *.
    rewrite al_mu0 in Hr.
    destruct (wire_frame _ _ _ _ _ _ _ eq_refl HP Hf (fun E => Hj (Ht E)) eq_refl Hwire)
      as (pre' & post' & Hw' & Eq).
    split; [done|]. split; [done|]. exists pre', post', (with_mu sq None). split; [done|].
    split; [|done]. constructor; try done. rewrite Eq, without_heartbeats_snoc by done.
    cbn [with_mu sw_w lk_part] in *. by rewrite encode_frames_snoc, app_nil_r.
Qed.

Lemma data_write part fl s b k h :
  dat (Held part fl) (mkConfig s (WWrite b k) h) ->
  exists w, io_Write (sw_w s) b = (w, (length b, None)) /\
    dat (Held (part ++ b) false) (mkConfig (with_w s w) (k None) h).
Proof.
  intros (Hh & _ & pre & post & sq & [] & [] & Hr). cbn [c_sw c_main c_hb run] in *.
  destruct (healthy_write _ _ _ b Hh) as (w & E & Hw & Hb). exists w. split; [done|].
  destruct (healthy_write _ _ _ b al_healthy0) as (wq & Eq & Hwq & Hbq). rewrite Eq in Hr.
  split; [done|]. split; [done|]. exists pre, post, (with_w sq wq).
  split; [|split; [by constructor; sw_cbn; rewrite ?Hbq, ?al_body0, <-?app_assoc|done]].
  constructor; sw_cbn; rewrite ?Hb, ?wire_body0, <-?app_assoc; try done. by intros [].
Qed.

Lemma data_flush part fl s k h :
  dat (Held part fl) (mkConfig s (WFlush k) h) ->
  dat (Held part true) (mkConfig (with_w s (RW_Flush (sw_w s))) k h).
Proof.
  intros (Hh & _ & pre & post & sq & [] & [] & Hr). cbn [c_sw c_main c_hb run] in *.
  destruct (healthy_flush _ _ _ Hh) as (Hw & Hb & Hf).
  destruct (healthy_flush _ _ _ al_healthy0) as (Hwq & Hbq & _).
  split; [done|]. split; [done|]. exists pre, post, (with_w sq (RW_Flush (sw_w sq))).
  split; [|split; [|done]];
    [|by constructor; sw_cbn; rewrite ?Hbq].
  constructor; sw_cbn; rewrite ?Hb; done.
Qed.

(** The control invariant after a step. *)
Ltac solve_ctl :=
  constructor; sw_cbn; cbn [with_mu with_closed with_stop with_once with_ctx sw_mu sw_stop sw_once sw_stopped] in *;
  try done; try congruence; auto;
  repeat match goal with E : hb_holds _ = _ |- _ => rewrite E in * end; try done; auto;
  try match goal with E : ?P -> _ |- ?P -> _ => let F := fresh in intros F; by apply E in F end.

Lemma main_step ph lk s p h s' p' :
  ctl ph lk (mkConfig s p h) -> pstep Main s p = Some (s', p') ->
  preserved ph lk (mkConfig s p h) (mkConfig s' p' h).
Proof.
  intros [Hwf Hhb Hmu Hex Hstop Honce Hstopped Hj] Hp. cbn [c_sw c_main c_hb] in *.
  destruct p as [a|x|k|k|k|k|b k|k|k|k|k|k|k]; cbn [pstep wf] in *; try done.
  - (* Lock *) destruct Hwf as [-> Hwf]. destruct (hb_holds h) eqn:Eh; rewrite Hmu in Hp; [done|].
    injection Hp as <- <-. exists ph, (Held [] true). split.
    { solve_ctl. }
    apply data_quiet; try done. solve_alone.
  - (* Unlock *) destruct Hwf as [Hu Hwf].
    destruct (hb_holds h) eqn:Eh; [by rewrite Hex in Hu|].
    assert (sw_mu s = Some Main) as Hm by (rewrite Hmu; by destruct lk). rewrite Hm in Hp.
    injection Hp as <- <-. exists ph, Free. split; [solve_ctl|].
    apply (data_unlock _ _ _ _ ph); [done|]. intros ->. done.
  - (* GetClosed *) destruct Hwf as [_ Hwf]. injection Hp as <- <-. exists ph, lk. split; [solve_ctl|].
    intros Hd. pose proof Hd as (_ & ? & _). revert Hd. apply data_quiet; try done. solve_alone.
  - (* SetClosed *) destruct Hwf as [_ Hwf]. injection Hp as <- <-. exists ph, lk. split; [solve_ctl|].
    intros Hd. pose proof Hd as (_ & ? & _). revert Hd. apply data_quiet; try done. solve_alone.
  - (* WWrite *) destruct Hwf as [(part & fl & -> & Hk) He].
    destruct (io_Write (sw_w s) b) as [w [n [e|]]] eqn:Ew; injection Hp as <- <-.
    + exists ph, Broken. split; [solve_ctl|].
      intros Hd. destruct (data_write _ _ _ _ _ _ Hd) as (w' & Ew' & _). congruence.
    + exists ph, (Held (part ++ b) false). split; [solve_ctl|].
      intros Hd. destruct (data_write _ _ _ _ _ _ Hd) as (w' & Ew' & Hd'). congruence.
  - (* WFlush *) destruct lk as [|part fl|]; [done| |]; injection Hp as <- <-.
    + exists ph, (Held part true). split; [solve_ctl|apply data_flush].
    + exists ph, Broken. split; [solve_ctl|]. by intros (_ & ? & _).
  - (* OnceDone *) destruct Hwf as [-> [[-> Hwf]|[-> Hwf]]]; rewrite Honce in Hp; injection Hp as <- <-.
    + exists Running, Free. split; [solve_ctl|]. apply data_quiet; try done. solve_alone.
    + exists Joined, Free. split; [solve_ctl|]. apply data_quiet; try done. solve_alone.
  - (* SetOnce *) destruct Hwf as (-> & -> & Hwf). injection Hp as <- <-.
    exists Joined, Free. split; [solve_ctl|]. apply data_quiet; try done. solve_alone.
  - (* CloseStop *) destruct Hwf as (-> & -> & Hwf). rewrite Hstop in Hp. injection Hp as <- <-.
    exists Stopping, Free. split; [solve_ctl|]. apply data_quiet; try done. solve_alone.
  - (* WaitStopped *) destruct Hwf as (-> & -> & Hwf). rewrite Hstopped in Hp.
    destruct h; try done. injection Hp as <- <-.
    exists Waited, Free. split; [solve_ctl|]. apply data_quiet; try done. solve_alone.
  - (* CtxErr *) destruct Hwf as [-> Hwf].
    destruct (sw_ctx s) as [|e l] eqn:El; injection Hp as <- <-;
      exists ph, Free; (split; [solve_ctl|]); apply data_quiet; try done; solve_alone.
Qed.

(** A step of the heartbeat goroutine that does not touch the writer. *)
Lemma data_hb_quiet lk s s' p h h' :
  sw_w s' = sw_w s -> sw_closed s' = sw_closed s -> sw_ctx s' = sw_ctx s ->
  sw_stop s' = sw_stop s -> sw_once s' = sw_once s -> h <> HDone ->
  (flushed_ok lk h (sw_w s) -> flushed_ok lk h' (sw_w s)) ->
  dat lk (mkConfig s p h) -> dat lk (mkConfig s' p h').
Proof.
  intros E1 E2 E3 E4 E5 Hh Hfl (Hw & Hlk & pre & post & sq & [] & [] & Hr).
  sw_cbn. unfold data. sw_cbn. rewrite E1. split; [done|]. split; [done|].
  exists pre, post, sq. split; [|split; [|done]]; constructor; rewrite ?E2, ?E3, ?E4, ?E5; auto.
Qed.

(** The heartbeat frame: one write, between whole frames. *)
Lemma data_hb_write s p :
  dat Free (mkConfig s p (HTick tick_write)) ->
  exists w n e, io_Write (sw_w s) (encode_frame heartbeat_frame) = (w, (n, e)) /\
    dat Free (mkConfig (with_w s w) p (HTick (WFlush (Unlock (Return true))))).
Proof.
  intros (Hw & _ & pre & post & sq & [] & [] & Hr). sw_cbn.
  destruct (healthy_write _ _ _ (encode_frame heartbeat_frame) Hw) as (w & E & Hw' & Hb).
  exists w, (length (encode_frame heartbeat_frame)), None.
  split; [done|]. split; [done|]. split; [done|].
  exists (pre ++ [heartbeat_frame]), [], sq. rewrite (wire_live0 ltac:(done)) in *.
  rewrite !app_nil_r in *. split; [|split; [|done]].
  - constructor; try done.
    + cbn [c_sw with_w sw_w lk_part]. rewrite Hb, wire_body0, !app_nil_r.
      by rewrite encode_frames_snoc, app_assoc.
    + apply Forall_app. split; [done|]. by repeat constructor.
    + rewrite app_nil_r. apply Forall_app. auto.
  - constructor; try done. rewrite without_heartbeats_tick. cbn [lk_part]. by rewrite app_nil_r.
Qed.

Lemma data_hb_flush s p k :
  dat Free (mkConfig s p (HTick (WFlush k))) -> hb_unflushed (HTick k) = false ->
  dat Free (mkConfig (with_w s (RW_Flush (sw_w s))) p (HTick k)).
Proof.
  intros (Hw & _ & pre & post & sq & [] & [] & Hr) Hk. sw_cbn.
  destruct (healthy_flush _ _ _ Hw) as (Hw' & Hb & Hf).
  split; [done|]. split; [done|]. exists pre, post, sq.
  split; [|split; [by constructor|done]]. constructor; sw_cbn; rewrite ?Hb; auto.
  intros _. by rewrite Hf.
Qed.

Ltac solve_hb_quiet := apply data_hb_quiet; try done; auto.

(** The control invariant after a step of a tick. *)
Ltac solve_tick at_ :=
  constructor; sw_cbn; cbn [sw_mu with_mu with_stopped sw_stop sw_once sw_stopped] in *; try done;
  try apply at_; try (match goal with ph : phase |- _ => by destruct ph end); auto.

Lemma tick_write_step s :
  pstep Heartbeat s tick_write =
    let '(w, _) := io_Write (sw_w s) (encode_frame heartbeat_frame) in
    Some (with_w s w, WFlush (Unlock (Return true))).
Proof.
  change (encode_frame heartbeat_frame) with (frame_header FlagHeartbeat (Z.of_nat 0)).
  unfold tick_write, WriteFrame_p. cbn [pstep length].
  by destruct (io_Write (sw_w s) _) as [w [n [e|]]].
Qed.

Lemma tick_step ph lk s p q s' q' :
  ctl ph lk (mkConfig s p (HTick q)) -> pstep Heartbeat s q = Some (s', q') ->
  preserved ph lk (mkConfig s p (HTick q)) (mkConfig s' p (HTick q')).
Proof.
  intros [Hwf Hhb Hmu Hex Hstop Honce Hstopped Hj] Hp. sw_cbn.
  assert (ph = Running \/ ph = Stopping) as Hph by (destruct ph; auto; done).
  exists ph, lk. destruct Hhb as [| | | |b|b]; cbn [pstep heartbeat_tick tick_locked] in Hp; try done.
  - cbn [hb_holds heartbeat_tick] in Hmu. rewrite Hmu in Hp. destruct lk; try done.
    injection Hp as <- <-. split; [|solve_hb_quiet].
    solve_tick at_closed.
  - injection Hp as <- <-. destruct (sw_closed s).
    + split; [|solve_hb_quiet]. solve_tick at_unlock.
    + split; [|solve_hb_quiet]. solve_tick at_write.
  - rewrite tick_write_step in Hp.
    destruct (io_Write (sw_w s) _) as [w [n e]] eqn:Ew. injection Hp as <- <-. split; [solve_tick at_flush|]. rewrite (Hex eq_refl).
    intros Hd. destruct (data_hb_write _ _ Hd) as (w' & n' & e' & Ew' & Hd').
    congruence.
  - injection Hp as <- <-. split; [solve_tick at_unlock|]. rewrite (Hex eq_refl).
    intros Hd. by apply data_hb_flush.
  - cbn [hb_holds] in Hmu. rewrite Hmu in Hp. injection Hp as <- <-. rewrite (Hex eq_refl) in *.
    split; [solve_tick at_end|solve_hb_quiet].
Qed.

Lemma preserved_step ph lk c c' : ctl ph lk c -> step c c' -> preserved ph lk c c'.
Proof.
  intros Hc Hs. destruct Hs as [s p h s' p' Hp|s p Hst|s p|s p q s' q' Hp|s p|s p].
  - by apply main_step.
  - exists ph, lk. destruct Hc as [? ? ? ? Hstop ? ? Hj]. sw_cbn.
    split; [|solve_hb_quiet]. solve_tick at_lock.
  - exists ph, lk. destruct Hc as [? ? ? ? Hstop ? ? Hj]. sw_cbn.
    split; [|solve_hb_quiet]. solve_tick at_lock.
  - by apply tick_step.
  - exists ph, lk. destruct Hc as [? ? ? ? Hstop ? ? Hj]. sw_cbn.
    split; [|solve_hb_quiet]. solve_tick at_lock.
  - exists ph, lk. destruct Hc as [? ? ? ? Hstop ? ? Hj]. sw_cbn.
    split; [|solve_hb_quiet]. solve_tick at_lock.
Qed.

Lemma preserved_reachable ph lk c c' : ctl ph lk c -> rtc step c c' -> preserved ph lk c c'.
Proof.
  intros Hc Hs. revert ph lk Hc. induction Hs as [c|c c1 c2 Hs _ IH]; intros ph lk Hc.
  - exists ph, lk. auto.
  - destruct (preserved_step _ _ _ _ Hc Hs) as (ph1 & lk1 & Hc1 & Hd1).
    destruct (IH _ _ Hc1) as (ph2 & lk2 & Hc2 & Hd2). exists ph2, lk2. auto.
Qed.
End Steps.
End Machine.
