(* ===== verification/StreamServer.v ===== *)
(** * StreamServer: the theorems on HandleStream

    Under every interleaving of the handler's goroutine with the heartbeat
    goroutine. *)
From Stdlib Require Import ZArith Lia.
From stdpp Require Import base gmap strings list relations.
From S2P Require Import Prelude GoStrings Messages Errors GoIO Frames MediaType Http Codec Service.
From S2P Require Import StreamWriter StreamAlone StreamSafety.
From S2P Require ReferenceCodec.
Local Open Scope Z_scope.

(** ** Definitions of the statements *)

(** A response that HandleStream may stream on. *)
Definition fresh (w : ResponseWriter) : Prop :=
  rw_status w = None /\ rw_faults w = [] /\ rw_flushed w = length (rw_body w).

(** Every heartbeat is sent before any terminal frame. *)
Definition heartbeats_first (fs : list frame) : Prop :=
  exists pre post, fs = pre ++ post /\
    Forall (fun f => is_terminal f = false) pre /\ Forall (fun f => is_heartbeat f = false) post.

(** The variables the goroutines share, and how an action uses them. *)
Inductive shared_var := TheWriter | ClosedFlag.
Definition next_access {A} (p : proc A) : option (shared_var * bool) :=
  match p with
  | WWrite _ _ | WFlush _ => Some (TheWriter, true)
  | GetClosed _ => Some (ClosedFlag, false)
  | SetClosed _ => Some (ClosedFlag, true)
  | _ => None
  end.
Definition hb_access (h : hb_state) : option (shared_var * bool) :=
  match h with HTick q => next_access q | _ => None end.

(** The two next actions are a data race: the same variable, one of them a write. *)
Definition conflict (a b : option (shared_var * bool)) : Prop :=
  match a, b with
  | Some (x, wx), Some (y, wy) => x = y /\ (wx || wy = true)
  | _, _ => False
  end.

(** Steps other than the firing of the ticker. *)
Definition ticks (c c' : config) : Prop :=
  exists s p, c = mkConfig s p HSelect /\ c' = mkConfig s p (HTick heartbeat_tick).
Definition quiet_step (c c' : config) : Prop := step c c' /\ ~ ticks c c'.

(** The codec produces no message of 4 GiB or more. *)
Definition small_messages `{Codec} (enc : encoding) : Prop :=
  forall m b, marshal enc m = inl b -> Z.of_nat (length b) < 2 ^ 32.

(** ** Lemmas *)
Section Init.
Context `{Codec} (enc : encoding).
Local Abbreviation ctl_of := (ctl (sent enc)).

Lemma sent_heartbeat : sent enc heartbeat_frame.
Proof. by left. Qed.

Lemma sent_ok f : small_messages enc -> sent enc f -> frame_ok f.
Proof. intros Hs [E|[_ [m E]]]; unfold frame_ok; [by rewrite E|by eapply Hs]. Qed.

Lemma ctl_init w hb ctx h : ctl_of Running Free (stream_config w enc hb ctx h).
Proof.
  constructor; try done; cbn [c_main c_hb stream_config]; try by destruct hb.
  by apply wf_handle_stream.
Qed.

Lemma fresh_healthy w : fresh w -> healthy (rw_body w) (rw_header w) w.
Proof. intros (Hs & Hf & _). split; [done|]. split; [done|]. by left. Qed.

Lemma seq_init w ctx :
  fresh w -> seq (rw_body w) (rw_header w) false false ctx [] (new_streamWriter w false ctx).
Proof.
  intros Hw. constructor; try done; cbn.
  - by apply fresh_healthy.
  - by rewrite app_nil_r.
  - by destruct Hw as (_ & _ & ?).
Qed.

Lemma data_init w hb ctx h :
  fresh w ->
  exists fin, data (sent enc) (rw_body w) (rw_header w) fin Free (stream_config w enc hb ctx h) /\
    snd fin = snd (stream_frames enc ctx h) /\
    rw_body (sw_w (fst fin)) = rw_body w ++ encode_frames (fst (stream_frames enc ctx h)).
Proof.
  intros Hw. pose proof (seq_init w ctx Hw) as Hs.
  destruct (run_handle_stream _ _ enc h ctx _ Hs) as (j & c & x & s' & Hs' & E).
  pose proof (fresh_healthy w Hw) as Hh. destruct Hw as (_ & _ & Hfl).
  exists (s', snd (stream_frames enc ctx h)).
  split; [|split; [done|apply (sq_body _ _ _ _ _ _ _ Hs')]].
  split; [done|]. split; [done|]. exists [], [], (new_streamWriter w false ctx).
  split; [|split; [|exact E]]; constructor; cbn; rewrite ?app_nil_r; try done. by intros _.
Qed.

(** What holds in every configuration of a stream. *)
Lemma reachable_ctl w hb ctx h c :
  reachable (stream_config w enc hb ctx h) c -> exists ph lk, ctl_of ph lk c.
Proof.
  intros Hr. destruct (preserved_reachable _ (rw_body w) (rw_header w)
    (new_streamWriter w hb ctx, Ret tt) sent_heartbeat _ _ _ _ (ctl_init w hb ctx h) Hr)
    as (ph & lk & Hc & _). eauto.
Qed.

Lemma reachable_data w hb ctx h c :
  fresh w -> reachable (stream_config w enc hb ctx h) c ->
  exists ph lk fin, ctl_of ph lk c /\ data (sent enc) (rw_body w) (rw_header w) fin lk c /\
    snd fin = snd (stream_frames enc ctx h) /\
    rw_body (sw_w (fst fin)) = rw_body w ++ encode_frames (fst (stream_frames enc ctx h)).
Proof.
  intros Hw Hr. destruct (data_init w hb ctx h Hw) as (fin & Hd & Ho & Hb).
  destruct (preserved_reachable _ (rw_body w) (rw_header w) fin sent_heartbeat _ _ _ _
    (ctl_init w hb ctx h) Hr) as (ph & lk & Hc & Hp).
  exists ph, lk, fin. auto.
Qed.

(** The frames of the contract. *)
Lemma handler_frames_sent h closed ctx :
  Forall (fun f => sent enc f /\ is_heartbeat f = false) (fst (fst (handler_frames enc closed ctx h))).
Proof.
  revert closed ctx. induction h as [err|w|m next IH|m next IH|next IH]; intros closed ctx; cbn [handler_frames].
  - constructor.
  - constructor.
  - assert (Forall (fun f => sent enc f /\ is_heartbeat f = false) (fst (send_result enc closed m))) as Hs.
    { unfold send_result. destruct closed; [constructor|]. destruct (marshal enc m) eqn:E; [|constructor].
      apply Forall_singleton. split; [right; split; [done|eauto]|done]. }
    destruct (send_result enc closed m) as [l r]. specialize (IH r closed ctx).
    destruct (handler_frames _ _ _ _) as [[l2 c] o]. by apply Forall_app.
  - assert (Forall (fun f => sent enc f /\ is_heartbeat f = false) (fst (close_result enc closed m))) as Hs.
    { unfold close_result. destruct closed; [constructor|].
      destruct (match m with Some _ => _ | None => _ end) eqn:E; [|constructor].
      apply Forall_singleton. split; [|done]. destruct m; [right; split; [done|eauto]|left; by injection E as <-]. }
    destruct (close_result enc closed m) as [l r]. specialize (IH r true ctx).
    destruct (handler_frames _ _ _ _) as [[l2 c] o]. by apply Forall_app.
  - destruct ctx; apply IH.
Qed.

Lemma stream_frames_sent h ctx :
  Forall (fun f => sent enc f /\ is_heartbeat f = false) (fst (stream_frames enc ctx h)).
Proof.
  unfold stream_frames. pose proof (handler_frames_sent h false ctx) as Hh.
  destruct (handler_frames _ _ _ _) as [[l c] [[e|]|w]]; try done. destruct c; [done|].
  unfold error_frames. destruct (buildErrorReply e) as [r|w]; [|simpl; by rewrite app_nil_r].
  destruct (marshal _ _) eqn:E; cbn [fst] in *; [|by rewrite app_nil_r].
  apply Forall_app. split; [done|]. apply Forall_singleton. split; [right; split; [done|eauto]|done].
Qed.
End Init.

(** The bytes of frames determine the frames. *)
Lemma encode_frames_inj fs gs :
  Forall frame_ok fs -> Forall frame_ok gs -> encode_frames fs = encode_frames gs -> fs = gs.
Proof.
  intros Hf. revert gs. induction Hf as [|f fs Hf _ IH]; intros [|g gs] Hg E.
  - done.
  - apply (f_equal length) in E. rewrite encode_frames_cons, length_app, length_encode_frame in E. done.
  - apply (f_equal length) in E. rewrite encode_frames_cons, length_app, length_encode_frame in E. done.
  - rewrite !encode_frames_cons in E. apply Forall_cons in Hg as [Hg1 Hg2].
    apply encode_frame_inj in E as [-> E]; [|done|done]. f_equal. by apply IH.
Qed.

Lemma is_terminal_heartbeat f : is_terminal f = true -> is_heartbeat f = false.
Proof.
  unfold is_terminal, is_heartbeat. rewrite bool_decide_eq_true, bool_decide_eq_false.
  intros [-> | ->]; done.
Qed.

(** ** Progress *)

(** A tick in progress can take its next action, and what is left of it is
    smaller. *)
Lemma hb_can_step s q :
  hb_at q -> hb_holds (HTick q) = true -> sw_mu s = Some Heartbeat ->
  exists s' q', pstep Heartbeat s q = Some (s', q').
Proof.
  intros Hq Hh Hm. destruct Hq as [| | | |b|b]; try done; cbn [pstep tick_locked heartbeat_tick]; eauto.
  - rewrite tick_write_step. destruct (io_Write _ _) as [w r]. eauto.
  - rewrite Hm. eauto.
Qed.

Lemma quiet_main s p h s' p' :
  pstep Main s p = Some (s', p') -> quiet_step (mkConfig s p h) (mkConfig s' p' h).
Proof.
  intros Hp. split; [by apply step_main|]. intros (s1 & p1 & E1 & E2). simplify_eq.
Qed.

Lemma quiet_tick s p q s' q' :
  pstep Heartbeat s q = Some (s', q') ->
  quiet_step (mkConfig s p (HTick q)) (mkConfig s' p (HTick q')).
Proof. intros Hp. split; [by apply step_tick|]. intros (s1 & p1 & E1 & E2). simplify_eq. Qed.

(** No deadlock: until the handler's goroutine has ended, some goroutine can
    act without a new tick. *)
Lemma ctl_progress P ph lk c :
  ctl P ph lk c -> ended (c_main c) = None -> exists c', quiet_step c c'.
Proof.
  destruct c as [s p h]. intros [Hwf Hhb Hmu Hex Hstop Honce Hstopped Hj] He. cbn [c_sw c_main c_hb] in *.
  destruct p as [a|x|k|k|k|k|b k|k|k|k|k|k|k]; cbn [wf ended] in *; try done;
    try (eexists; apply quiet_main; reflexivity).
  - (* Lock *) destruct Hwf as [-> _]. destruct (hb_holds h) eqn:Eh.
    + destruct h as [|q|]; try done. destruct (hb_can_step s q Hhb Eh Hmu) as (s' & q' & E).
      eexists. by apply quiet_tick.
    + eexists. apply quiet_main. cbn [pstep]. rewrite Hmu. reflexivity.
  - (* Unlock *) destruct (sw_mu s) eqn:Em; eexists; apply quiet_main; cbn [pstep]; rewrite Em; reflexivity.
  - (* WWrite *) destruct (io_Write (sw_w s) b) as [w [n e]] eqn:Ew. eexists. apply quiet_main.
    cbn [pstep]. rewrite Ew. reflexivity.
  - (* CloseStop *) destruct Hwf as (_ & -> & _). eexists. apply quiet_main. cbn [pstep].
    rewrite Hstop. reflexivity.
  - (* WaitStopped *) destruct Hwf as (-> & -> & _). destruct h as [|q|].
    + eexists. split; [by apply step_select_stop|]. intros (s1 & p1 & E1 & E2). simplify_eq.
    + destruct (hb_holds (HTick q)) eqn:Eh.
      * destruct (hb_can_step s q Hhb Eh Hmu) as (s' & q' & E). eexists. by apply quiet_tick.
      * destruct Hhb as [| | | |b|[]]; try done.
        -- eexists. apply quiet_tick. unfold heartbeat_tick. cbn [pstep]. rewrite Hmu. reflexivity.
        -- eexists. split; [apply step_tick_continue|]. intros (s1 & p1 & E1 & E2). simplify_eq.
        -- eexists. split; [apply step_tick_return|]. intros (s1 & p1 & E1 & E2). simplify_eq.
    + eexists. apply quiet_main. cbn [pstep]. rewrite Hstopped. reflexivity.
  - (* CtxErr *) destruct (sw_ctx s) eqn:Ec; eexists; apply quiet_main; cbn [pstep]; rewrite Ec; reflexivity.
Qed.

(** ** Termination: without new ticks every execution is finite *)
Definition halts (c : config) : Prop := Acc (fun c' c => quiet_step c c') c.

Lemma halts_intro c : (forall c', quiet_step c c' -> halts c') -> halts c.
Proof. by constructor. Qed.

(** With the handler's goroutine fixed, the heartbeat goroutine runs out of
    steps. *)
Lemma halts_hb p :
  (forall s s' p' h, pstep Main s p = Some (s', p') -> halts (mkConfig s' p' h)) ->
  forall s h, halts (mkConfig s p h).
Proof.
  intros Hp.
  assert (forall s, halts (mkConfig s p HDone)) as Hdone.
  { intros s. apply halts_intro. intros c' [Hs _]. inv Hs. eauto. }
  assert (forall s, halts (mkConfig s p HSelect)) as Hselect.
  { intros s. apply halts_intro. intros c' [Hs Ht]. inv Hs; eauto. destruct Ht. by exists s, p. }
  assert (forall s (b : bool), halts (mkConfig s p (HTick (Return b)))) as Hret.
  { intros s b. apply halts_intro. intros c' [Hs _]. inv Hs; eauto; done. }
  assert (forall s w, halts (mkConfig s p (HTick (Crash w)))) as Hcrash.
  { intros s w. apply halts_intro. intros c' [Hs _]. inv Hs; eauto; done. }
  assert (forall q s, halts (mkConfig s p (HTick q))) as Htick.
  { intros q. induction q; intros s; eauto; apply halts_intro; intros c' [Hs _]; inv Hs; eauto;
      match goal with E : pstep _ _ _ = _ |- _ => cbn [pstep] in E; repeat case_match; simplify_eq end; eauto. }
  intros s [|q|]; eauto.
Qed.

Lemma halts_config p : forall s h, halts (mkConfig s p h).
Proof.
  assert (forall w s h, halts (mkConfig s (Crash w) h)) as Hcrash
    by (intros w; apply halts_hb; done).
  induction p; eauto; apply halts_hb; intros s s' p' h E; cbn [pstep] in E;
    repeat case_match; simplify_eq; eauto.
Qed.

(** ** Properties *)
Section Properties.
Context `{Codec}.

Definition conf_body (c : config) : bytes := rw_body (sw_w (c_sw c)).
Definition conf_status (c : config) : option (Z * Header) := rw_status (sw_w (c_sw c)).

(** The status of the response once something was sent. *)
Lemma healthy_status body0 h0 w bs :
  healthy body0 h0 w -> rw_body w = body0 ++ bs -> bs <> [] -> rw_status w = Some (CodeOK, h0).
Proof.
  intros (_ & _ & [[_ E]|E]) Hb Hne; [|done]. rewrite E in Hb.
  apply (f_equal length) in Hb. rewrite length_app in Hb. destruct bs; [done|]. simpl in Hb. lia.
Qed.

Lemma encode_frames_nil fs : encode_frames fs = [] -> fs = [].
Proof.
  destruct fs as [|f fs]; [done|]. rewrite encode_frames_cons. intros E.
  apply (f_equal length) in E. rewrite length_app, length_encode_frame in E. done.
Qed.

(** The response of a stream that has ended. *)
Lemma contract_on_wire enc w hb ctx h c o :
  fresh w -> reachable (stream_config w enc hb ctx h) c -> ended (c_main c) = Some o ->
  o = snd (stream_frames enc ctx h) /\
  exists fs, conf_body c = rw_body w ++ encode_frames fs /\
    encode_frames (without_heartbeats fs) = encode_frames (fst (stream_frames enc ctx h)) /\
    (small_messages enc -> without_heartbeats fs = fst (stream_frames enc ctx h)) /\
    heartbeats_first fs /\ Forall (sent enc) fs /\
    (fs <> [] -> conf_status c = Some (CodeOK, rw_header w)) /\
    (o = Ret tt -> rw_flushed (sw_w (c_sw c)) = length (conf_body c)).
Proof.
  intros Hw Hr He. destruct (reachable_data enc w hb ctx h c Hw Hr)
    as (ph & lk & fin & Hc & (Hh & _ & pre & post & sq & Hwire & Hal & Hrun) & Ho & Hb).
  assert (lk = Free /\ fin = (sq, o)) as [-> ->].
  { pose proof (ctl_wf _ _ _ _ Hc) as Hwf. destruct (c_main c); try done; cbn [wf run ended] in *.
    - destruct Hwf as [_ ->]. injection Hrun as <-. by injection He as <-.
    - subst lk. injection Hrun as <-. by injection He as <-. }
  cbn [fst snd] in *. rewrite (al_body _ _ _ _ _ _ Hal) in Hb. cbn [lk_part] in Hb.
  rewrite app_nil_r in Hb. apply app_inv_head in Hb.
  split; [done|]. exists (pre ++ post).
  assert (conf_body c = rw_body w ++ encode_frames (pre ++ post)) as Hbody.
  { unfold conf_body. rewrite (wire_body _ _ _ _ _ _ _ Hwire). cbn [lk_part]. by rewrite app_nil_r. }
  split; [done|]. split; [done|]. split; [|split; [|split; [|split]]].
  - intros Hs. apply encode_frames_inj; [| |done].
    + apply Forall_forall. intros f Hf. apply list_elem_of_filter in Hf as [_ Hf].
      pose proof (wire_sent _ _ _ _ _ _ _ Hwire) as Hsent. rewrite Forall_forall in Hsent.
      eapply sent_ok; [done|]. by apply Hsent.
    + eapply Forall_impl; [apply stream_frames_sent|]. intros f [Hf _]. by apply (sent_ok enc).
  - exists pre, post. by destruct Hwire.
  - by destruct Hwire.
  - intros Hne. eapply healthy_status; [done|exact Hbody|]. intros E. by apply encode_frames_nil in E.
  - intros ->. apply (wire_flushed _ _ _ _ _ _ _ Hwire).
    pose proof (ctl_wf _ _ _ _ Hc) as Hwf. pose proof (ctl_joined _ _ _ _ Hc) as Hj.
    destruct (c_main c); try done. destruct Hwf as [-> _]. by rewrite Hj.
Qed.

(** C2: whatever the interleaving with the heartbeats, a stream on a connection
    that does not fail ends the way the handler ends alone, and the response is
    200 with the stream's headers and a sequence of whole frames: without the
    heartbeats, exactly the frames of the contract, in order; no heartbeat
    after the final or error frame; all flushed when HandleStream returns. *)
Theorem stream_refines_contract enc w hb ctx h c o :
  fresh w -> reachable (stream_config w enc hb ctx h) c -> ended (c_main c) = Some o ->
  o = snd (stream_frames enc ctx h) /\
  exists fs, conf_body c = rw_body w ++ encode_frames fs /\
    encode_frames (without_heartbeats fs) = encode_frames (fst (stream_frames enc ctx h)) /\
    (small_messages enc -> without_heartbeats fs = fst (stream_frames enc ctx h)) /\
    heartbeats_first fs /\
    (fs <> [] -> conf_status c = Some (CodeOK, rw_header w)) /\
    (o = Ret tt -> rw_flushed (sw_w (c_sw c)) = length (conf_body c)).
Proof.
  intros Hw Hr He. destruct (contract_on_wire enc w hb ctx h c o Hw Hr He)
    as (Ho & fs & E1 & E2 & E3 & E4 & _ & E5). eauto 10.
Qed.

(** C15: on a connection that takes every write, at every moment the response
    is whole frames followed by at most one frame in the making, which only the
    handler's goroutine writes, holding the mutex; whenever the mutex is free
    every frame is whole and flushed. *)
Theorem stream_frames_never_torn enc w hb ctx h c :
  fresh w -> reachable (stream_config w enc hb ctx h) c ->
  exists fs part, conf_body c = rw_body w ++ encode_frames fs ++ part /\ heartbeats_first fs /\
    (part <> [] -> sw_mu (c_sw c) = Some Main) /\
    (sw_mu (c_sw c) = None -> rw_flushed (sw_w (c_sw c)) = length (conf_body c)).
Proof.
  intros Hw Hr. destruct (reachable_data enc w hb ctx h c Hw Hr)
    as (ph & lk & fin & Hc & (Hh & _ & pre & post & sq & Hwire & Hal & Hrun) & _).
  exists (pre ++ post), (lk_part lk). split; [apply (wire_body _ _ _ _ _ _ _ Hwire)|].
  split; [exists pre, post; by destruct Hwire|].
  pose proof (ctl_mu _ _ _ _ Hc) as Hm. pose proof (ctl_excl _ _ _ _ Hc) as Hx.
  split.
  - intros Hp. destruct (hb_holds (c_hb c)); [by rewrite Hx in Hp|]. by destruct lk.
  - intros Hn. rewrite Hn in Hm. apply (wire_flushed _ _ _ _ _ _ _ Hwire).
    destruct (c_hb c) as [|[]|]; destruct lk; done.
Qed.

(** C16: the two goroutines never race: in no configuration are their next
    actions on the same variable (the writer, or [closed]) with a write among
    them, even when writes fail. *)
Theorem stream_race_free enc w hb ctx h c :
  reachable (stream_config w enc hb ctx h) c ->
  ~ conflict (next_access (c_main c)) (hb_access (c_hb c)).
Proof.
  intros Hr. destruct (reachable_ctl enc w hb ctx h c Hr) as (ph & lk & [Hwf Hhb Hmu Hex _ _ _ Hj]).
  destruct c as [s p hh]. cbn [c_sw c_main c_hb] in *. intros Hc.
  destruct hh as [|q|]; try (by destruct (next_access p) as [[]|]).
  assert (hb_holds (HTick q) = true) as Hh.
  { destruct Hhb; try done; by destruct (next_access p) as [[]|]. }
  specialize (Hex Hh). subst lk.
  destruct p; cbn [next_access wf] in *; try done.
  - destruct Hwf as [Hp _]. by rewrite Hp in Hj by done.
  - by destruct Hwf.
  - destruct Hwf as [(? & ? & ? & _) _]. done.
Qed.

(** C17: once HandleStream has returned, the heartbeat goroutine has ended, the
    mutex is free and nothing ever runs again: nothing is written or flushed
    after the response is handed back to the server, even when writes fail. *)
Theorem stream_joined enc w hb ctx h c :
  reachable (stream_config w enc hb ctx h) c -> ended (c_main c) = Some (Ret tt) ->
  c_hb c = HDone /\ sw_mu (c_sw c) = None /\ forall c', ~ step c c'.
Proof.
  intros Hr He. destruct (reachable_ctl enc w hb ctx h c Hr) as (ph & lk & [Hwf Hhb Hmu Hex _ _ _ Hj]).
  destruct c as [s p hh]. cbn [c_sw c_main c_hb] in *.
  destruct p; try done. destruct Hwf as [-> ->]. subst hh. split; [done|]. split; [done|].
  intros c' Hs. by inv Hs.
Qed.

(** From every configuration the handler's goroutine can come to its end. *)
Lemma stream_ends enc w hb ctx h c :
  reachable (stream_config w enc hb ctx h) c -> exists c' o, rtc step c c' /\ ended (c_main c') = Some o.
Proof.
  intros Hr. assert (halts c) as Ha by (destruct c; apply halts_config).
  induction Ha as [c _ IH]. destruct (ended (c_main c)) as [o|] eqn:He; [by exists c, o|].
  destruct (reachable_ctl enc w hb ctx h c Hr) as (ph & lk & Hc).
  destruct (ctl_progress _ _ _ _ Hc He) as (c1 & Hq). pose proof Hq as [Hs _].
  destruct (IH c1 Hq) as (c' & o & Hc' & Ho); [eapply rtc_r; [exact Hr|exact Hs]|].
  exists c', o. split; [by eapply rtc_l|done].
Qed.

(** C3: HandleStream terminates: until the handler's goroutine has ended some
    goroutine can act without a new tick (no deadlock), and every execution
    without new ticks is finite, so that only a ticker that fires for ever
    could keep it from returning; even when writes fail. *)
Theorem stream_terminates enc w hb ctx h c :
  reachable (stream_config w enc hb ctx h) c ->
  (ended (c_main c) = None -> exists c', quiet_step c c') /\
  Acc (fun c' c => quiet_step c c') c /\
  exists c' o, rtc step c c' /\ ended (c_main c') = Some o.
Proof.
  intros Hr. split; [|split; [destruct c; apply halts_config|by eapply stream_ends]].
  destruct (reachable_ctl enc w hb ctx h c Hr) as (ph & lk & Hc). by apply (ctl_progress _ _ _ _ Hc).
Qed.

Lemma handler_frames_closed enc h ctx : fst (fst (handler_frames enc true ctx h)) = [] /\
  snd (fst (handler_frames enc true ctx h)) = true.
Proof.
  revert ctx. induction h as [err|w|m next IH|m next IH|next IH]; intros ctx; cbn [handler_frames]; try done.
  - unfold send_result. specialize (IH (Some (ErrSentinel ErrStreamClosed)) ctx).
    by destruct (handler_frames _ _ _ _) as [[l c] o].
  - unfold close_result. specialize (IH (Some (ErrSentinel ErrStreamClosed)) ctx).
    by destruct (handler_frames _ _ _ _) as [[l c] o].
  - destruct ctx; apply IH.
Qed.

(** The frames of a handler: data frames, then at most one final frame, which
    only a closed stream has. *)
Lemma handler_frames_shape enc h ctx :
  let '(l, closed, _) := handler_frames enc false ctx h in
  exists datas term, l = datas ++ term /\ Forall (fun f => f_flag f = FlagData) datas /\
    (closed = false -> term = []) /\ (term = [] \/ exists b, term = [mkFrame FlagFinal b]).
Proof.
  revert ctx. induction h as [err|w|m next IH|m next IH|next IH]; intros ctx; cbn [handler_frames].
  - exists [], []. by auto.
  - exists [], []. by auto.
  - unfold send_result. destruct (marshal enc m) as [b|e].
    + specialize (IH None ctx). destruct (handler_frames _ _ _ _) as [[l c] o].
      destruct IH as (datas & term & -> & Hd & Hc & Ht). exists (mkFrame FlagData b :: datas), term.
      split; [done|]. split; [by constructor|done].
    + specialize (IH (Some (ErrWrap ("while marshalling stream message: " +:+ error_text e) e)) ctx).
      by destruct (handler_frames _ _ _ _) as [[l c] o].
  - unfold close_result.
    destruct (match m with Some _ => _ | None => _ end) as [b|e];
      match goal with |- context [next ?r] => destruct (handler_frames_closed enc (next r) ctx) as [El Ec] end;
      destruct (handler_frames _ _ _ _) as [[l c] o]; cbn [fst snd app] in *; subst l c.
    + exists [], [mkFrame FlagFinal b]. split; [done|]. split; [done|]. split; [done|]. right. eauto.
    + exists [], []. by auto.
  - destruct ctx; apply IH.
Qed.

(** The frames of a stream are data frames and then at most one terminal
    frame.  A handler that returns an error before closing sends one error
    frame with the Reply of that error (of the first [Error] of its chain,
    otherwise a 500 with its text); one that closed sends no error frame; one
    that returns nil without closing sends no terminal frame. *)
Theorem stream_contract_shape enc ctx h :
  let '(l, closed, o) := handler_frames enc false ctx h in
  (exists datas term, l = datas ++ term /\ Forall (fun f => f_flag f = FlagData) datas /\
     (closed = false -> term = []) /\ (term = [] \/ exists b, term = [mkFrame FlagFinal b])) /\
  stream_frames enc ctx h =
    match o with
    | Panic w => (l, Panic w)
    | Ret None => (l, Ret tt)
    | Ret (Some e) =>
      if closed then (l, Ret tt)
      else match as_Error e with
           | Some d =>
             match ProtoMessage d with
             | Some (MReply r) =>
               match marshal enc (Some (MReply r)) with
               | inl b => (l ++ [mkFrame FlagError b], Ret tt)
               | inr _ => (l, Ret tt)
               end
             | _ => (l, Panic "interface conversion: proto.Message is not *v1.Reply")
             end
           | None =>
             match marshal enc (Some (MReply (mkReply "500" (error_text e) None))) with
             | inl b => (l ++ [mkFrame FlagError b], Ret tt)
             | inr _ => (l, Ret tt)
             end
           end
    end.
Proof.
  pose proof (handler_frames_shape enc h ctx) as Hshape. unfold stream_frames.
  destruct (handler_frames enc false ctx h) as [[l closed] [[e|]|w]]; (split; [done|]); try done.
  destruct closed; [done|]. unfold error_frames, buildErrorReply.
  destruct (as_Error e) as [d|].
  - destruct (ProtoMessage d) as [[]|]; rewrite ?app_nil_r; try done.
    destruct (marshal _ _); by rewrite ?app_nil_r.
  - change (Itoa CodeInternalError) with "500". destruct (marshal _ _); by rewrite ?app_nil_r.
Qed.

(** Close with a message that does not marshal marks the stream closed
    without a frame: whatever the handler then returns, the stream ends with
    neither a final nor an error frame. *)
Theorem stream_close_failure_silent enc ctx m e next :
  marshal enc (Some m) = inr e ->
  fst (stream_frames enc ctx (SHClose (Some m) next)) = [].
Proof.
  intros Hm. unfold stream_frames. cbn [handler_frames]. unfold close_result. rewrite Hm.
  match goal with |- context [next ?r] => destruct (handler_frames_closed enc (next r) ctx) as [El Ec] end.
  destruct (handler_frames _ _ _ _) as [[l c] [[x|]|w]]; cbn [fst snd app] in *; by subst.
Qed.

(** One heartbeat, while the handler's goroutine stands still. *)
Lemma heartbeat_round body0 h0 s p :
  healthy body0 h0 (sw_w s) -> sw_mu s = None -> sw_closed s = false ->
  exists s', rtc step (mkConfig s p HSelect) (mkConfig s' p HSelect) /\
    healthy body0 h0 (sw_w s') /\ sw_mu s' = None /\ sw_closed s' = false /\
    rw_body (sw_w s') = rw_body (sw_w s) ++ encode_frame heartbeat_frame.
Proof.
  intros Hh Hm Hc. destruct (healthy_write _ _ _ (encode_frame heartbeat_frame) Hh) as (w & E & Hw & Hb).
  destruct (healthy_flush _ _ _ Hw) as (Hw' & Hb' & _).
  eexists. split.
  - eapply rtc_l; [apply step_select_tick|].
    eapply rtc_l; [apply step_tick; unfold heartbeat_tick; cbn [pstep]; rewrite Hm; reflexivity|].
    eapply rtc_l; [apply step_tick; cbn [pstep with_mu sw_closed]; rewrite Hc; reflexivity|].
    eapply rtc_l; [apply step_tick; etrans; [apply tick_write_step|]; cbn [sw_w with_mu]; rewrite E; reflexivity|].
    eapply rtc_l; [apply step_tick; reflexivity|].
    eapply rtc_l; [apply step_tick; reflexivity|].
    eapply rtc_l; [apply step_tick_continue|]. reflexivity.
  - cbn [sw_w with_mu with_w sw_mu sw_closed]. rewrite Hb'. auto.
Qed.

(** When the handler panics the heartbeat goroutine is not joined: after
    the panic has unwound HandleStream it can go on writing heartbeats to the
    response, any number of them. *)
Theorem stream_panic_not_joined enc w ctx why n :
  fresh w ->
  exists c, reachable (stream_config w enc true ctx (SHPanic why)) c /\
    c_main (stream_config w enc true ctx (SHPanic why)) = Crash why /\ c_main c = Crash why /\
    c_hb c = HSelect /\ conf_body c = rw_body w ++ encode_frames (replicate n heartbeat_frame).
Proof.
  intros Hw. unfold reachable.
  assert (exists s, rtc step (stream_config w enc true ctx (SHPanic why)) (mkConfig s (Crash why) HSelect) /\
    healthy (rw_body w) (rw_header w) (sw_w s) /\ sw_mu s = None /\ sw_closed s = false /\
    rw_body (sw_w s) = rw_body w ++ encode_frames (replicate n heartbeat_frame)) as (s & Hr & _ & _ & _ & Hb).
  { induction n as [|n (s & Hr & Hh & Hm & Hc & Hb)].
    - exists (new_streamWriter w true ctx). split; [reflexivity|].
      split; [by apply fresh_healthy|]. cbn. by rewrite app_nil_r.
    - destruct (heartbeat_round _ _ s (Crash why) Hh Hm Hc) as (s' & Hs & Hh' & Hm' & Hc' & Hb').
      exists s'. split; [by etrans|]. split; [done|]. split; [done|]. split; [done|].
      by rewrite Hb', Hb, replicate_S_end, encode_frames_snoc, app_assoc. }
  eexists. split; [exact Hr|]. done.
Qed.
End Properties.

(** ** The start of HandleStream *)
Section Start.
Context `{UnicodeTables, Codec}.

(** C22: what HandleStream answers before it streams: a 500 when the response
    writer cannot flush; for an Accept that is no streaming type an error
    reply (a 400 only when Reply accepts that type, otherwise its 455);
    otherwise it starts streaming in the accepted encoding, with the accepted
    type as Content-Type and the service headers. *)
Theorem HandleStream_negotiates `{!CodecLaws} w rh conf :
  rw_status w = None ->
  let accept := normalizeMediaType (Header_Get rh "Accept") in
  if rw_flusher w then
    match stream_encoding accept with
    | Some enc => exists w', HandleStream_start w rh conf = Started w' enc (0 <? heartbeat_interval conf) /\
        Header_Get (rw_header w') "Content-Type" = accept /\
        Header_Get (rw_header w') HeaderDUHVersion = DUHVersion /\
        Header_Get (rw_header w') "X-Content-Type-Options" = "nosniff" /\
        rw_status w' = None /\ rw_body w' = rw_body w
    | None => exists w' rh' code ct b, HandleStream_start w rh conf = Rejected (Ret (w', rh')) /\
        w' = sent_reply w code ct b /\
        reply_result rh CodeBadRequest (Some (MReply (mkReply "400"
          (stream_accept_error (Header_Get rh "Accept")) None))) code ct b /\
        (accept_encoding rh = None -> code <> CodeBadRequest)
    end
  else exists w' rh' code ct b, HandleStream_start w rh conf = Rejected (Ret (w', rh')) /\
        w' = sent_reply w code ct b /\
        reply_result rh CodeInternalError (Some (MReply (mkReply "500"
          "response writer does not support streaming" None))) code ct b.
Proof.
  intros Hs accept. unfold HandleStream_start, ReplyWithCode. destruct (rw_flusher w); cbn [negb].
  - fold accept. destruct (stream_encoding accept) as [enc|].
    + eexists. split; [reflexivity|].
      destruct (service_headers_get w accept) as (E1 & E2 & E3). by repeat split.
    + destruct (Reply_result w rh CodeBadRequest (Some (MReply (mkReply (Itoa CodeBadRequest)
        (stream_accept_error (Header_Get rh "Accept")) None))) Hs ltac:(done))
        as (code & ct & b & rh' & E & Hr).
      exists (sent_reply w code ct b), rh', code, ct, b. rewrite E.
      split; [done|]. split; [done|]. split; [exact Hr|]. intros Ha. by destruct Hr; simplify_eq.
  - destruct (Reply_result w rh CodeInternalError (Some (MReply (mkReply (Itoa CodeInternalError)
      "response writer does not support streaming" None))) Hs ltac:(done))
      as (code & ct & b & rh' & E & Hr).
    exists (sent_reply w code ct b), rh', code, ct, b. by rewrite E.
Qed.
End Start.

(** ** Executing a schedule *)
Inductive move := MMain | MStop | MTick | MHeartbeat.

Definition exec_move (c : config) (m : move) : option config :=
  let '(mkConfig s p h) := c in
  match m, h with
  | MMain, _ =>
    match pstep Main s p with Some (s', p') => Some (mkConfig s' p' h) | None => None end
  | MStop, HSelect => if sw_stop s then Some (mkConfig (with_stopped s) p HDone) else None
  | MTick, HSelect => Some (mkConfig s p (HTick heartbeat_tick))
  | MHeartbeat, HTick (Return true) => Some (mkConfig s p HSelect)
  | MHeartbeat, HTick (Return false) => Some (mkConfig (with_stopped s) p HDone)
  | MHeartbeat, HTick q =>
    match pstep Heartbeat s q with Some (s', q') => Some (mkConfig s' p (HTick q')) | None => None end
  | _, _ => None
  end.

Lemma exec_move_step c m c' : exec_move c m = Some c' -> step c c'.
Proof.
  destruct c as [s p h], m; cbn [exec_move]; intros E.
  - destruct (pstep Main s p) as [[s' p']|] eqn:Ep; [|done]. injection E as <-. by apply step_main.
  - destruct h; try done. destruct (sw_stop s) eqn:Es; [|done]. injection E as <-. by apply step_select_stop.
  - destruct h; try done. injection E as <-. apply step_select_tick.
  - destruct h as [|q|]; try done. destruct (pstep Heartbeat s q) as [[s' q']|] eqn:Eq.
    + assert (c' = mkConfig s' p (HTick q')) as -> by (destruct q; try done; by simplify_eq).
      by apply step_tick.
    + destruct q as [[]| | | | | | | | | | | |]; try done; injection E as <-;
        [apply step_tick_continue|apply step_tick_return].
Qed.

(** The moves of a schedule, as far as they can be made. *)
Fixpoint exec_prefix (c : config) (l : list move) : config :=
  match l with
  | [] => c
  | m :: t => match exec_move c m with Some c' => exec_prefix c' t | None => c end
  end.

Lemma exec_prefix_reachable l c : reachable c (exec_prefix c l).
Proof.
  revert c. induction l as [|m l IH]; intros c; cbn [exec_prefix]; [apply rtc_refl|].
  destruct (exec_move c m) as [c1|] eqn:Em; [|apply rtc_refl].
  eapply rtc_l; [by eapply exec_move_step|apply IH].
Qed.

(** ** Witnesses *)
Import ReferenceCodec.

(** A handler that sends one item and closes, and a schedule with a heartbeat
    between its two frames. *)
Definition demo_handler : stream_handler :=
  SHSend (Some (MStreamItem 1 "a")) (fun _ => SHClose None (fun _ => SHReturn None)).
Definition demo_w : ResponseWriter := fresh_rw true [].
Definition demo_config : config := stream_config demo_w JSON true [] demo_handler.
Definition demo_schedule : list move :=
  replicate 6 MMain ++ MTick :: replicate 6 MHeartbeat ++ replicate 2 MMain ++ MStop :: replicate 20 MMain.

Definition demo_end : config := exec_prefix demo_config demo_schedule.

Lemma demo_reachable : reachable demo_config demo_end.
Proof. apply exec_prefix_reachable. Qed.

Lemma demo_fresh : fresh demo_w.
Proof. done. Qed.

Example demo_end_returned : ended (c_main demo_end) = Some (Ret tt).
Proof. vm_compute. reflexivity. Qed.

Definition item_bytes (m : message) : bytes := match marshal JSON (Some m) with inl b => b | inr _ => [] end.

Example demo_end_body :
  conf_body demo_end =
    encode_frames [mkFrame FlagData (item_bytes (MStreamItem 1 "a")); heartbeat_frame; mkFrame FlagFinal []].
Proof. vm_compute. reflexivity. Qed.

Lemma stream_refines_contract_witness :
  exists fs, conf_body demo_end = encode_frames fs /\ heartbeats_first fs /\
    conf_status demo_end = Some (CodeOK, ∅).
Proof.
  destruct (stream_refines_contract JSON demo_w true [] demo_handler demo_end (Ret tt)
    demo_fresh demo_reachable demo_end_returned) as (_ & fs & E1 & _ & _ & E3 & E4 & _).
  exists fs. split; [exact E1|]. split; [exact E3|]. apply E4. intros ->.
  revert E1. rewrite demo_end_body. vm_compute. discriminate.
Defined.

Lemma stream_frames_never_torn_witness :
  exists fs part, conf_body demo_end = encode_frames fs ++ part /\ heartbeats_first fs.
Proof.
  destruct (stream_frames_never_torn JSON demo_w true [] demo_handler demo_end
    demo_fresh demo_reachable) as (fs & part & E1 & E2 & _).
  exists fs, part. split; [exact E1|exact E2].
Defined.

(** The handler's goroutine is about to write while a tick is pending. *)
Lemma stream_race_free_witness :
  let c := exec_prefix demo_config [MTick; MMain; MMain; MHeartbeat] in
  next_access (c_main c) = Some (TheWriter, true) /\
  ~ conflict (next_access (c_main c)) (hb_access (c_hb c)).
Proof.
  split; [vm_compute; reflexivity|].
  apply (stream_race_free JSON demo_w true [] demo_handler). apply exec_prefix_reachable.
Defined.

Lemma stream_joined_witness : c_hb demo_end = HDone /\ forall c', ~ step demo_end c'.
Proof.
  destruct (stream_joined JSON demo_w true [] demo_handler demo_end demo_reachable demo_end_returned)
    as (E1 & _ & E3).
  exact (conj E1 E3).
Defined.

Lemma stream_terminates_witness : exists c' o, rtc step demo_config c' /\ ended (c_main c') = Some o.
Proof.
  exact (proj2 (proj2 (stream_terminates JSON demo_w true [] demo_handler demo_config (rtc_refl _ _)))).
Defined.

Lemma stream_close_failure_silent_witness :
  fst (stream_frames JSON [] (SHClose (Some (MApp "opaque" [])) (fun err => SHReturn err))) = [].
Proof. apply (stream_close_failure_silent JSON [] (MApp "opaque" []) marshal_error). reflexivity. Defined.

Lemma stream_panic_not_joined_witness :
  exists c, reachable (stream_config demo_w JSON true [] (SHPanic "boom")) c /\
    c_main c = Crash "boom" /\ conf_body c = encode_frames (replicate 3 heartbeat_frame).
Proof.
  destruct (stream_panic_not_joined JSON demo_w [] "boom" 3 demo_fresh) as (c & E1 & _ & E2 & _ & E3).
  exists c. split; [exact E1|]. split; [exact E2|exact E3].
Defined.

Lemma HandleStream_negotiates_witness :
  exists w', HandleStream_start demo_w (Header_Set ∅ "Accept" "application/duh-stream+json; q=1") None =
      Started w' JSON true /\
    Header_Get (rw_header w') "Content-Type" = ContentStreamJSON.
Proof.
  destruct (HandleStream_negotiates demo_w (Header_Set ∅ "Accept" "application/duh-stream+json; q=1")
    None eq_refl) as (w' & E1 & E2 & _).
  exists w'. split; [exact E1|exact E2].
Defined.
