(* ===== verification/StreamReader.v ===== *)
(** * StreamReader: the client side of streaming.go

    [streamReader] with [Recv] and [Close] over any response body, the
    contract they implement on the sequence of frames ([frame_Recv]), and the
    response bodies with a clock on which the heartbeat timeout is stated. *)
From Stdlib Require Import ZArith Lia.
From stdpp Require Import base gmap strings list.
From S2P Require Import Prelude GoStrings Units Messages Errors GoIO Frames MediaType Http Codec StreamWriter StreamSafety.
From S2P Require ReferenceCodec.
Local Open Scope Z_scope.

(** ** Response bodies

    What the reader does with [resp.Body] and the request context, beside
    reading: start and stop the timer that cancels the context, cancel it, ask
    for its error, close the body. *)
Class StreamBody (B : Type) `{FiniteReader B} := {
  sb_arm : B -> Z -> B;              (* time.AfterFunc(d, cancel) *)
  sb_disarm : B -> B;                (* timer.Stop() *)
  sb_cancel : B -> B;
  sb_close : B -> B;
  sb_ctx_err : B -> option goerror;  (* resp.Request.Context().Err() *)
  sb_arm_pending : forall b d, (io_pending (sb_arm b d) <= io_pending b)%nat;
  sb_disarm_pending : forall b, (io_pending (sb_disarm b) <= io_pending b)%nat
}.

(** A body whose delivery does not depend on the timer: it is never late. *)
Class PunctualBody (B : Type) `{StreamBody B, !ReaderSpec B} := {
  pb_arm_bytes : forall b d, rd_bytes (sb_arm b d) = rd_bytes b;
  pb_arm_end : forall b d, rd_end (sb_arm b d) = rd_end b;
  pb_disarm_bytes : forall b, rd_bytes (sb_disarm b) = rd_bytes b;
  pb_disarm_end : forall b, rd_end (sb_disarm b) = rd_end b;
  pb_ctx : forall b, rd_end b = ErrSentinel EOF -> sb_ctx_err b = None
}.

(** ** The reader *)
Record streamReader (B : Type) := mkStreamReader {
  sr_r : Reader B;              (* over resp.Body *)
  sr_StatusCode : Z;            (* resp.StatusCode *)
  sr_has_request : bool;        (* resp.Request != nil *)
  sr_unmarshal : encoding;
  sr_done : bool;
  sr_hasPending : bool;
  sr_heartbeatTimeout : Z
}.
Arguments mkStreamReader {B}. Arguments sr_r {B}. Arguments sr_StatusCode {B}.
Arguments sr_has_request {B}. Arguments sr_unmarshal {B}. Arguments sr_done {B}.
Arguments sr_hasPending {B}. Arguments sr_heartbeatTimeout {B}.

Definition with_r {B} (sr : streamReader B) (r : Reader B) : streamReader B :=
  mkStreamReader r (sr_StatusCode sr) (sr_has_request sr) (sr_unmarshal sr) (sr_done sr)
    (sr_hasPending sr) (sr_heartbeatTimeout sr).
Definition with_state {B} (sr : streamReader B) (done hasPending : bool) : streamReader B :=
  mkStreamReader (sr_r sr) (sr_StatusCode sr) (sr_has_request sr) (sr_unmarshal sr) done hasPending
    (sr_heartbeatTimeout sr).
Definition set_done {B} (sr : streamReader B) : streamReader B := with_state sr true (sr_hasPending sr).

Definition map_body {B} (f : B -> B) (r : Reader B) : Reader B := mkReader (f (fr_r r)) (fr_maxPayloadSize r).

(** [fmt.Sprintf("%x", flag)] for a byte. *)
Definition hex_digit (n : Z) : string :=
  match index_string "0123456789abcdef" n with Ret s => s | Panic _ => "" end.
Definition hex_byte (b : byte) : string :=
  if byte_Z b <? 16 then hex_digit (byte_Z b)
  else hex_digit (byte_Z b `div` 16) +:+ hex_digit (byte_Z b `mod` 16).

Definition message_reply (m : message) : Messages.Reply :=
  match m with MReply r => r | _ => Reply_zero end.

(** The error of an error frame. *)
Definition error_frame_error (httpCode : Z) (r : Messages.Reply) : goerror :=
  ErrClient (mkClientError (Reply_Details r) (Reply_Message r) None false (Reply_Code r) httpCode).

Section Recv.
Context {B : Type} `{Codec, StreamBody B}.

(** The error of [Recv] when [ReadFrame] fails with [e]. *)
Definition read_error (timed has_request : bool) (b : B) (e : goerror) : goerror :=
  if is_EOF e then ErrSentinel UnexpectedEOF
  else if timed && has_request && bool_decide (is_Some (sb_ctx_err b)) then ErrSentinel ErrHeartbeatTimeout
  else e.

(** The loop of [Recv] from the creation of the timer on; heartbeats go round
    it again. *)
Fixpoint recv_loop (fuel : nat) (sr : streamReader B) (msg : message)
    : option (streamReader B * message * option goerror) :=
  match fuel with
  | O => None
  | S fuel =>
    let timed := 0 <? sr_heartbeatTimeout sr in
    let r := if timed then map_body (fun b => sb_arm b (sr_heartbeatTimeout sr)) (sr_r sr) else sr_r sr in
    match ReadFrame r with
    | None => None
    | Some (r, (flag, payload, err)) =>
      let r := if timed then map_body sb_disarm r else r in
      let sr := with_r sr r in
      match err with
      | Some e => Some (set_done sr, msg, Some (read_error timed (sr_has_request sr) (fr_r r) e))
      | None =>
        if decide (flag = FlagHeartbeat) then recv_loop fuel sr msg
        else if decide (flag = FlagData) then
          let '(msg, err) := unmarshal (sr_unmarshal sr) payload msg in
          match err with
          | Some e => Some (set_done sr, msg, Some e)
          | None => Some (sr, msg, None)
          end
        else if decide (flag = FlagFinal) then
          if (0 <? length payload)%nat then
            let '(msg, err) := unmarshal (sr_unmarshal sr) payload msg in
            match err with
            | Some e => Some (set_done sr, msg, Some e)
            | None => Some (with_state sr (sr_done sr) true, msg, None)
            end
          else Some (set_done sr, msg, Some (ErrSentinel EOF))
        else if decide (flag = FlagError) then
          let sr := set_done sr in
          let '(reply, err) := unmarshal (sr_unmarshal sr) payload (MReply Reply_zero) in
          match err with
          | Some e =>
            Some (sr, msg, Some (ErrWrap ("while unmarshalling error frame: " +:+ error_text e) e))
          | None => Some (sr, msg, Some (error_frame_error (sr_StatusCode sr) (message_reply reply)))
          end
        else Some (set_done sr, msg, Some (ErrString ("unknown frame flag: 0x" +:+ hex_byte flag)))
      end
    end
  end.

(** Every frame read takes at least a header from the body, which bounds the
    number of heartbeats. *)
Definition Recv (sr : streamReader B) (msg : message) : option (streamReader B * message * option goerror) :=
  if sr_done sr && negb (sr_hasPending sr) then Some (sr, msg, Some (ErrSentinel EOF))
  else if sr_hasPending sr then Some (with_state sr true false, msg, Some (ErrSentinel EOF))
  else recv_loop (S (io_pending (fr_r (sr_r sr)))) sr msg.

Definition StreamReader_Close (sr : streamReader B) : streamReader B :=
  let sr := with_r sr (map_body sb_cancel (sr_r sr)) in
  let sr := set_done sr in
  with_r sr (map_body sb_close (sr_r sr)).
End Recv.

(** ** The contract: receiving from a sequence of frames *)
Inductive stream_state :=
| Receiving (fs : list frame)  (* frames still to come *)
| Pending                      (* the final frame had a payload *)
| Finished.

Section Contract.
Context `{Codec} (enc : encoding) (status : Z) (last : goerror).

(** [last] is how the stream ends after its last frame. *)
Fixpoint recv_frames (fs : list frame) (msg : message) : stream_state * message * option goerror :=
  match fs with
  | [] => (Finished, msg, Some last)
  | f :: fs =>
    let payload := f_payload f in
    if decide (f_flag f = FlagHeartbeat) then recv_frames fs msg
    else if decide (f_flag f = FlagData) then
      let '(msg, err) := unmarshal enc payload msg in
      match err with Some e => (Finished, msg, Some e) | None => (Receiving fs, msg, None) end
    else if decide (f_flag f = FlagFinal) then
      match payload with
      | [] => (Finished, msg, Some (ErrSentinel EOF))
      | _ =>
        let '(msg, err) := unmarshal enc payload msg in
        match err with Some e => (Finished, msg, Some e) | None => (Pending, msg, None) end
      end
    else if decide (f_flag f = FlagError) then
      let '(reply, err) := unmarshal enc payload (MReply Reply_zero) in
      match err with
      | Some e => (Finished, msg, Some (ErrWrap ("while unmarshalling error frame: " +:+ error_text e) e))
      | None => (Finished, msg, Some (error_frame_error status (message_reply reply)))
      end
    else (Finished, msg, Some (ErrString ("unknown frame flag: 0x" +:+ hex_byte (f_flag f))))
  end.

Definition frame_Recv (s : stream_state) (msg : message) : stream_state * message * option goerror :=
  match s with
  | Finished => (Finished, msg, Some (ErrSentinel EOF))
  | Pending => (Finished, msg, Some (ErrSentinel EOF))
  | Receiving fs => recv_frames fs msg
  end.
End Contract.

(** ** Lemmas: Recv returns *)
Section Total.
Context {B : Type} `{Codec, StreamBody B}.

Definition armed (sr : streamReader B) : Reader B :=
  if 0 <? sr_heartbeatTimeout sr
  then map_body (fun b => sb_arm b (sr_heartbeatTimeout sr)) (sr_r sr) else sr_r sr.
Definition disarmed (sr : streamReader B) (r : Reader B) : Reader B :=
  if 0 <? sr_heartbeatTimeout sr then map_body sb_disarm r else r.

Lemma armed_pending sr : (io_pending (fr_r (armed sr)) <= io_pending (fr_r (sr_r sr)))%nat.
Proof. unfold armed. destruct (0 <? _); [apply sb_arm_pending|done]. Qed.
Lemma disarmed_pending sr r : (io_pending (fr_r (disarmed sr r)) <= io_pending (fr_r r))%nat.
Proof. unfold disarmed. destruct (0 <? _); [apply sb_disarm_pending|done]. Qed.

Lemma recv_loop_total fuel sr msg :
  (io_pending (fr_r (sr_r sr)) < fuel)%nat -> is_Some (recv_loop fuel sr msg).
Proof.
  revert sr. induction fuel as [|fuel IH]; intros sr Hf; [lia|]. cbn [recv_loop].
  fold (armed sr). destruct (ReadFrame_total (armed sr)) as (r1 & flag & payload & e & E).
  rewrite E. fold (disarmed sr r1). apply ReadFrame_pending in E as (_ & _ & E).
  pose proof (armed_pending sr). pose proof (disarmed_pending sr r1).
  destruct e as [x|]; [eauto|].
  specialize (E eq_refl). unfold headerSize in E.
  case_decide; [apply IH; cbn [with_r sr_r]; lia|].
  case_decide; [destruct (unmarshal _ _ _) as [m [x|]]; eauto|].
  case_decide; [destruct (_ <? _)%nat; [destruct (unmarshal _ _ _) as [m [x|]]|]; eauto|].
  case_decide; [destruct (unmarshal _ _ _) as [m [x|]]; eauto|eauto].
Qed.

Lemma Recv_total sr msg : is_Some (Recv sr msg).
Proof.
  unfold Recv. destruct (_ && _); [eauto|]. destruct (sr_hasPending sr); [eauto|].
  apply recv_loop_total. lia.
Qed.
End Total.

(** ** Lemmas: Recv implements its contract

    [D b fs]: the body [b] delivers the frames [fs], one for each time the
    timer is set, and then ends with [last]. *)
Definition arm_if {B} `{StreamBody B} (timeout : Z) (b : B) : B :=
  if 0 <? timeout then sb_arm b timeout else b.
Definition disarm_if {B} `{StreamBody B} (timeout : Z) (b : B) : B :=
  if 0 <? timeout then sb_disarm b else b.

Record delivery {B} `{StreamBody B} (max timeout : Z) (last : goerror) (D : B -> list frame -> Prop)
  : Prop := mkDelivery {
  dl_frame : forall b f fs, D b (f :: fs) ->
    exists b', ReadFrame (mkReader (arm_if timeout b) max) =
        Some (mkReader b' max, (f_flag f, f_payload f, None)) /\ D (disarm_if timeout b') fs;
  dl_end : forall b, D b [] ->
    exists b' flag payload e, ReadFrame (mkReader (arm_if timeout b) max) =
        Some (mkReader b' max, (flag, payload, Some e)) /\
      read_error (0 <? timeout) true (disarm_if timeout b') e = last
}.

Section Simulation.
Context {B : Type} `{Codec, StreamBody B}.
Context (enc : encoding) (status max timeout : Z) (last : goerror) (D : B -> list frame -> Prop).
Context (HD : delivery max timeout last D).

(** The reader is in a state of the contract. *)
Definition in_state (sr : streamReader B) (s : stream_state) : Prop :=
  sr_unmarshal sr = enc /\ sr_StatusCode sr = status /\ sr_has_request sr = true /\
  sr_heartbeatTimeout sr = timeout /\ fr_maxPayloadSize (sr_r sr) = max /\
  match s with
  | Receiving fs => sr_done sr = false /\ sr_hasPending sr = false /\ D (fr_r (sr_r sr)) fs
  | Pending => sr_hasPending sr = true
  | Finished => sr_done sr = true /\ sr_hasPending sr = false
  end.

Lemma recv_loop_frames fs : forall fuel sr msg s' m' e',
  in_state sr (Receiving fs) -> (io_pending (fr_r (sr_r sr)) < fuel)%nat ->
  recv_frames enc status last fs msg = (s', m', e') ->
  exists sr', recv_loop fuel sr msg = Some (sr', m', e') /\ in_state sr' s'.
Proof.
  induction fs as [|f fs IH]; intros fuel sr msg s' m' e'
    (Henc & Hst & Hrq & Htm & Hmax & Hd & Hp & HDb) Hf Hs;
    (destruct fuel as [|fuel]; [lia|]); cbn [recv_loop]; fold (armed sr);
    pose proof (armed_pending sr) as Ap;
    assert (armed sr = mkReader (arm_if timeout (fr_r (sr_r sr))) max) as Harm
      by (unfold armed, arm_if, map_body; rewrite Htm, Hmax; destruct (sr_r sr), (0 <? timeout); cbn in *; by subst);
    rewrite Harm in *.
  - destruct (dl_end _ _ _ _ HD _ HDb) as (b1 & flag & payload & e & -> & Hlast).
    fold (disarmed sr (mkReader b1 max)). cbn [recv_frames] in Hs. injection Hs as <- <- <-.
    exists (set_done (with_r sr (disarmed sr (mkReader b1 max)))).
    split; [|repeat split; try done; cbn [set_done with_state with_r sr_r]].
    + rewrite <-Hlast. unfold disarmed, disarm_if. cbn [with_r sr_has_request]. rewrite Htm, Hrq.
      destruct (0 <? timeout); reflexivity.
    + unfold disarmed. by destruct (0 <? sr_heartbeatTimeout sr).
  - destruct (dl_frame _ _ _ _ HD _ _ _ HDb) as (b1 & ER & HD1). rewrite ER.
    apply ReadFrame_pending in ER as (_ & _ & Epend). specialize (Epend eq_refl).
    fold (disarmed sr (mkReader b1 max)).
    pose proof (disarmed_pending sr (mkReader b1 max)) as Dp. cbn [fr_r] in *.
    assert (disarmed sr (mkReader b1 max) = mkReader (disarm_if timeout b1) max) as Hdis
      by (unfold disarmed, disarm_if, map_body; rewrite Htm; by destruct (0 <? timeout)).
    rewrite Hdis in *. cbn [fr_r] in *.
    assert (in_state (with_r sr (mkReader (disarm_if timeout b1) max)) (Receiving fs)) as Hnext
      by (repeat split; done).
    assert (in_state (set_done (with_r sr (mkReader (disarm_if timeout b1) max))) Finished) as Hfin
      by (repeat split; done).
    cbn [recv_frames] in Hs. cbn [with_r sr_unmarshal sr_StatusCode] in *. rewrite Henc.
    case_decide as Hh; [apply (IH fuel _ msg); [exact Hnext| |exact Hs]|].
    { cbn [sr_r with_r fr_r]. unfold headerSize in *. lia. }
    case_decide as Hdt.
    { destruct (unmarshal enc (f_payload f) msg) as [m [x|]]; injection Hs as <- <- <-; eauto. }
    case_decide as Hfn.
    { destruct (f_payload f) as [|c t]; cbn [length Nat.ltb Nat.leb].
      - injection Hs as <- <- <-. eauto.
      - destruct (unmarshal enc (c :: t) msg) as [m [x|]]; injection Hs as <- <- <-; [eauto|].
        eexists. split; [reflexivity|]. repeat split; done. }
    case_decide as He.
    { cbn [set_done with_state with_r sr_unmarshal sr_StatusCode]. rewrite Henc, Hst.
      destruct (unmarshal enc (f_payload f) _) as [m [x|]]; injection Hs as <- <- <-; eauto. }
    injection Hs as <- <- <-. eauto.
Qed.

(** Every call answers what the contract answers and leads to its next state. *)
Lemma Recv_in_state sr s msg :
  in_state sr s ->
  let '(s', m', e') := frame_Recv enc status last s msg in
  exists sr', Recv sr msg = Some (sr', m', e') /\ in_state sr' s'.
Proof.
  intros Hs. unfold Recv. destruct s as [fs| |]; cbn [frame_Recv].
  - pose proof Hs as (_ & _ & _ & _ & _ & -> & -> & _). cbn [andb].
    destruct (recv_frames enc status last fs msg) as [[s' m'] e'] eqn:E.
    by eapply recv_loop_frames; [|lia|].
  - destruct Hs as (E1 & E2 & E3 & E4 & E5 & E6). rewrite E6, andb_false_r.
    eexists. split; [reflexivity|]. repeat split; done.
  - pose proof Hs as (_ & _ & _ & _ & _ & -> & ->). cbn [andb negb]. eauto.
Qed.
End Simulation.

(** ** Sequences of calls *)

(** The outcomes of successive calls, each with its own message. *)
Fixpoint recv_calls {B} `{Codec, StreamBody B} (sr : streamReader B) (msgs : list message)
    : option (list (message * option goerror)) :=
  match msgs with
  | [] => Some []
  | m :: t =>
    match Recv sr m with
    | Some (sr', m', e) => cons (m', e) <$> recv_calls sr' t
    | None => None
    end
  end.

Fixpoint frame_calls `{Codec} (enc : encoding) (status : Z) (last : goerror) (s : stream_state)
    (msgs : list message) : list (message * option goerror) :=
  match msgs with
  | [] => []
  | m :: t =>
    let '(s', m', e) := frame_Recv enc status last s m in
    (m', e) :: frame_calls enc status last s' t
  end.

(** The reader DoStream returns. *)
Definition new_streamReader {B} (body : B) (status : Z) (enc : encoding) (max timeout : Z) : streamReader B :=
  mkStreamReader (NewReader body max) status true enc false false timeout.

Lemma recv_calls_frames {B} `{Codec, StreamBody B} enc status max timeout last D (b : B) fs msgs :
  delivery max timeout last D -> D b fs ->
  recv_calls (new_streamReader b status enc max timeout) msgs =
    Some (frame_calls enc status last (Receiving fs) msgs).
Proof.
  intros HD Hb.
  assert (forall s sr, in_state enc status max timeout D sr s ->
    recv_calls sr msgs = Some (frame_calls enc status last s msgs)) as Hcalls.
  { induction msgs as [|m msgs IH]; intros s sr Hs; cbn [recv_calls frame_calls]; [done|].
    pose proof (Recv_in_state _ _ _ _ _ _ HD sr s m Hs) as HR.
    destruct (frame_Recv enc status last s m) as [[s' m'] e'].
    destruct HR as (sr' & -> & Hs'). by rewrite (IH s' sr' Hs'). }
  apply Hcalls. repeat split; done.
Qed.
