(* ===== verification/TimedBody.v ===== *)
(** * TimedBody: response bodies for the stream reader

    Two kinds: a [Body] over any byte source, which is never late, and
    [timed], a body whose chunks arrive at given times and which the heartbeat
    timer or the caller can cancel. *)
From Stdlib Require Import ZArith Lia.
From stdpp Require Import base strings list.
From S2P Require Import Prelude GoStrings Messages Errors GoIO Frames Codec StreamReader.
Local Open Scope Z_scope.

(** ** Bodies that are never late *)
#[export] Instance body_stream {R} `{FiniteReader R} : StreamBody (Body R).
Proof.
  refine {| sb_arm b _ := b; sb_disarm b := b; sb_cancel b := b; sb_close := Body_Close;
            sb_ctx_err _ := None |}; done.
Defined.

#[export] Instance body_punctual {R} `{ReaderSpec R} : PunctualBody (Body R).
Proof. by split. Defined.

Section Punctual.
Context {B : Type} `{PunctualBody B}.

(** What remains of a frame that was cut off, or nothing. *)
Definition cut_off (max : Z) (rest : bytes) : Prop :=
  rest = [] \/ exists f n, frame_ok f /\ fits_limit max f /\
    (0 < n < length (encode_frame f))%nat /\ rest = take n (encode_frame f).

(** The body delivers the frames [fs], then ends, possibly inside a frame. *)
Definition delivers (max : Z) (b : B) (fs : list frame) : Prop :=
  Forall frame_ok fs /\ Forall (fits_limit max) fs /\ rd_end b = ErrSentinel EOF /\
  exists rest, rd_bytes b = encode_frames fs ++ rest /\ cut_off max rest.

Lemma arm_if_bytes timeout (b : B) :
  rd_bytes (arm_if timeout b) = rd_bytes b /\ rd_end (arm_if timeout b) = rd_end b.
Proof. unfold arm_if. destruct (0 <? timeout); [|done]. by rewrite pb_arm_bytes, pb_arm_end. Qed.
Lemma disarm_if_bytes timeout (b : B) :
  rd_bytes (disarm_if timeout b) = rd_bytes b /\ rd_end (disarm_if timeout b) = rd_end b.
Proof. unfold disarm_if. destruct (0 <? timeout); [|done]. by rewrite pb_disarm_bytes, pb_disarm_end. Qed.

Lemma delivers_delivery max timeout :
  delivery max timeout (ErrSentinel UnexpectedEOF) (delivers max).
Proof.
  split.
  - intros b f fs (Hoks & Hfits & Hend & rest & Hb & Hcut).
    apply Forall_cons in Hoks as [Hok Hoks]. apply Forall_cons in Hfits as [Hfit Hfits].
    rewrite encode_frames_cons, <-app_assoc in Hb. destruct (arm_if_bytes timeout b) as [Ab Ae].
    destruct (ReadFrame_encoded (arm_if timeout b) max f _ Hok Hfit (eq_trans Ab Hb)) as (b1 & Eb & Ee & ER).
    exists b1. split; [done|]. destruct (disarm_if_bytes timeout b1) as [Db De].
    split; [done|]. split; [done|]. split; [congruence|]. exists rest. split; [congruence|done].
  - intros b (_ & _ & Hend & rest & Hb & Hcut). destruct (arm_if_bytes timeout b) as [Ab Ae].
    cbn [app] in Hb.
    assert (exists b1 e, ReadFrame (mkReader (arm_if timeout b) max) =
        Some (mkReader b1 max, (Byte.x00, [], Some e)) /\ rd_end b1 = ErrSentinel EOF /\
        (e = ErrSentinel EOF \/ e = ErrSentinel UnexpectedEOF)) as (b1 & e & E & He & Hcases).
    { destruct Hcut as [-> |(f & n & Hok & Hfit & Hn & ->)].
      - destruct (ReadFrame_at_end (arm_if timeout b) max) as (b' & E & _ & E'); [by rewrite Ab|congruence|].
        exists b', (ErrSentinel EOF). auto.
      - destruct (ReadFrame_truncated (arm_if timeout b) max f n Hok Hfit Hn) as (b' & E & E');
          [by rewrite Ab|]. exists b', (ErrSentinel UnexpectedEOF). split; [done|]. split; [congruence|auto]. }
    exists b1, Byte.x00, [], e. split; [done|]. unfold read_error.
    destruct Hcases as [-> | ->]; [done|]. cbn [is_EOF].
    destruct (disarm_if_bytes timeout b1) as [_ De].
    rewrite (pb_ctx (disarm_if timeout b1)) by congruence.
    rewrite bool_decide_false by (by intros [? ?]). by rewrite andb_false_r.
Qed.
End Punctual.

(** ** Bodies with a clock *)

(** What happens next on the connection, with the time since the event before. *)
Inductive arrival :=
| Arrive (c : chunk)
| CallerCancels (e : goerror).   (* the caller's context ends with [e] *)

Record timed := mkTimed {
  tb_events : list (Z * arrival);
  tb_timer : option Z;           (* time left until the timer fires *)
  tb_ctx : option goerror;       (* the error of the request context *)
  tb_closed : bool
}.

Definition timed_arrival (a : arrival) (t : list (Z * arrival)) (timer : option Z) (n : nat)
    : timed * (bytes * option goerror) :=
  match a with
  | Arrive (Chunk bs) =>
    if decide (length bs <= n)%nat then (mkTimed t timer None false, (bs, None))
    else (mkTimed ((0, Arrive (Chunk (drop n bs))) :: t) timer None false, (take n bs, None))
  | Arrive (ChunkEnd bs e) =>
    if decide (length bs <= n)%nat then (mkTimed [(0, Arrive (ChunkEnd [] e))] timer None false, (bs, Some e))
    else (mkTimed ((0, Arrive (ChunkEnd (drop n bs) e)) :: t) timer None false, (take n bs, None))
  | CallerCancels e => (mkTimed t timer (Some e) false, ([], Some e))
  end.

(** A read waits for the next event; when the timer fires first it cancels the
    context, and reads of a cancelled body fail with the context's error. *)
Definition timed_Read (b : timed) (n : nat) : timed * (bytes * option goerror) :=
  if tb_closed b then (b, ([], Some ErrBodyReadAfterClose))
  else match tb_ctx b with
  | Some e => (b, ([], Some e))
  | None =>
    match tb_events b with
    | [] => (b, ([], Some (ErrSentinel EOF)))
    | (d, a) :: t =>
      match tb_timer b with
      | Some remaining =>
        if remaining <? d then
          (mkTimed ((d - remaining, a) :: t) None (Some (ErrSentinel Canceled)) false,
           ([], Some (ErrSentinel Canceled)))
        else timed_arrival a t (Some (remaining - d)) n
      | None => timed_arrival a t None n
      end
    end
  end.

#[export] Instance timed_reader : IOReader timed := timed_Read.

Lemma timed_io_Read (b : timed) n : io_Read b n = timed_Read b n.
Proof. done. Qed.

Definition arrival_size (a : Z * arrival) : nat :=
  match snd a with Arrive c => chunk_size c | CallerCancels _ => 1 end.
Definition arrival_bytes (a : Z * arrival) : nat :=
  match snd a with Arrive (Chunk bs) | Arrive (ChunkEnd bs _) => length bs | CallerCancels _ => 0 end.

#[export] Instance timed_finite : FiniteReader timed.
Proof.
  refine {| io_left b := sum_list_with arrival_size (tb_events b);
            io_pending b := sum_list_with arrival_bytes (tb_events b) |};
    intros [ev timer ctx closed] n *; rewrite timed_io_Read; unfold timed_Read, timed_arrival; intros;
    repeat case_match; simplify_eq/=; unfold arrival_size, arrival_bytes; simpl;
    rewrite ?length_take, ?length_drop; try lia.
Defined.

#[export] Instance timed_stream : StreamBody timed.
Proof.
  refine {| sb_arm b d := mkTimed (tb_events b) (Some d) (tb_ctx b) (tb_closed b);
            sb_disarm b := mkTimed (tb_events b) None (tb_ctx b) (tb_closed b);
            sb_cancel b := mkTimed (tb_events b) (tb_timer b)
              (match tb_ctx b with Some e => Some e | None => Some (ErrSentinel Canceled) end) (tb_closed b);
            sb_close b := mkTimed (tb_events b) (tb_timer b) (tb_ctx b) true;
            sb_ctx_err b := tb_ctx b |}; done.
Defined.

(** ** Frames that arrive in time *)

(** A frame that arrives as a group of non-empty chunks, one after the other. *)
Definition group : Type := list (Z * bytes).
Definition group_events (g : group) : list (Z * arrival) := (fun '(d, bs) => (d, Arrive (Chunk bs))) <$> g.
Definition group_bytes (g : group) : bytes := g ≫= snd.
Definition group_delay (g : group) : Z := foldr (fun '(d, _) n => d + n) 0 g.
Definition group_ok (g : group) : Prop := Forall (fun '(d, bs) => 0 <= d /\ bs <> []) g.

(** The frame [f] arrives whole before a timer of [timeout] fires. *)
Definition in_time (timeout : Z) (f : frame) (g : group) : Prop :=
  group_ok g /\ group_delay g <= timeout /\ group_bytes g = encode_frame f.

(** A body that still has the group [g] to deliver, then [rest]. *)
Definition during (g : group) (rest : list (Z * arrival)) (timer : Z) : timed :=
  mkTimed (group_events g ++ rest) (Some timer) None false.

Lemma group_delay_nonneg g : group_ok g -> 0 <= group_delay g.
Proof. induction 1 as [|[d bs] g [Hd _] _ IH]; simpl in *; lia. Qed.

Lemma group_size_cons d bs g rest :
  sum_list_with arrival_size (group_events ((d, bs) :: g) ++ rest) =
    (S (length bs) + sum_list_with arrival_size (group_events g ++ rest))%nat.
Proof. done. Qed.

(** One read within the group. *)
Lemma during_read g rest timer n d bs :
  group_ok ((d, bs) :: g) -> group_delay ((d, bs) :: g) <= timer -> (0 < n)%nat ->
  exists g' timer' got, io_Read (during ((d, bs) :: g) rest timer) n = (during g' rest timer', (got, None)) /\
    group_ok g' /\ group_delay g' <= timer' /\ got ++ group_bytes g' = bs ++ group_bytes g /\
    (length got <= n)%nat /\
    (sum_list_with arrival_size (group_events g' ++ rest) <
     sum_list_with arrival_size (group_events ((d, bs) :: g) ++ rest))%nat.
Proof.
  intros Hok Hd Hn. apply Forall_cons in Hok as [[Hd0 Hne] Hok].
  pose proof (group_delay_nonneg g Hok) as Hg. cbn [group_delay foldr] in Hd.
  rewrite group_size_cons. rewrite timed_io_Read. unfold timed_Read, during.
  change (group_events ((d, bs) :: g) ++ rest) with ((d, Arrive (Chunk bs)) :: group_events g ++ rest).
  cbn [tb_closed tb_ctx tb_events tb_timer].
  replace (timer <? d) with false by (unfold group_delay in *; lia). unfold timed_arrival. case_decide as Hle.
  - exists g, (timer - d), bs. split; [done|]. split; [done|]. split; [unfold group_delay in *; lia|].
    split; [done|]. split; [done|]. lia.
  - exists ((0, drop n bs) :: g), (timer - d), (take n bs).
    split; [done|]. split.
    { constructor; [|done]. split; [lia|]. intros E. apply (f_equal length) in E.
      rewrite length_drop in E. simpl in E. lia. }
    split; [cbn; unfold group_delay in *; lia|].
    split; [cbn; by rewrite app_assoc, take_drop|]. split; [rewrite length_take; lia|].
    rewrite group_size_cons, length_drop. lia.
Qed.

Lemma during_read_full fuel : forall g rest timer want acc,
  group_ok g -> group_delay g <= timer -> (want <= length (group_bytes g))%nat ->
  (sum_list_with arrival_size (group_events g ++ rest) < fuel)%nat ->
  exists g' timer', read_full_loop fuel (during g rest timer) want acc =
      Some (during g' rest timer', (acc ++ take want (group_bytes g), None)) /\
    group_ok g' /\ group_delay g' <= timer' /\ group_bytes g' = drop want (group_bytes g).
Proof.
  induction fuel as [|fuel IH]; intros g rest timer want acc Hok Hd Hw Hf; [lia|].
  cbn [read_full_loop]. case_decide as H0.
  { subst. exists g, timer. by rewrite app_nil_r. }
  destruct g as [|[d bs] g]; [simpl in Hw; lia|].
  destruct (during_read g rest timer want d bs Hok Hd ltac:(lia))
    as (g1 & t1 & got & E & Hok1 & Hd1 & Hbs & Hlen & Hlt). rewrite E.
  assert (group_bytes ((d, bs) :: g) = got ++ group_bytes g1) as Hall by (rewrite Hbs; done).
  rewrite Hall in *. rewrite length_app in Hw.
  destruct (IH g1 rest t1 (want - length got)%nat (acc ++ got) Hok1 Hd1 ltac:(lia) ltac:(lia))
    as (g' & t' & -> & Hok' & Hd' & Hb').
  destruct (take_drop_split want (got ++ group_bytes g1) got (group_bytes g1) eq_refl Hlen) as [-> ->].
  exists g', t'. by rewrite <-app_assoc.
Qed.

Lemma during_ReadFull g rest timer n :
  group_ok g -> group_delay g <= timer -> (n <= length (group_bytes g))%nat ->
  exists g' timer', ReadFull (during g rest timer) n =
      Some (during g' rest timer', (take n (group_bytes g), None)) /\
    group_ok g' /\ group_delay g' <= timer' /\ group_bytes g' = drop n (group_bytes g).
Proof.
  intros Hok Hd Hn. unfold ReadFull.
  destruct (during_read_full (S (io_left (during g rest timer))) g rest timer n [] Hok Hd Hn)
    as (g' & t' & -> & H'); [apply Nat.lt_succ_diag_r|].
  exists g', t'. split; [|done]. unfold read_full_error. rewrite decide_True; [done|].
  simpl. rewrite length_take. lia.
Qed.

Lemma group_bytes_nil g : group_ok g -> group_bytes g = [] -> g = [].
Proof. intros Hok Hb. destruct Hok as [|[d bs] g [_ Hne] _]; [done|]. by destruct bs. Qed.

(** A frame in time is read whole, and the next one is at the front. *)
Lemma during_ReadFrame max timeout f g rest :
  frame_ok f -> fits_limit max f -> in_time timeout f g ->
  exists timer', ReadFrame (mkReader (during g rest timeout) max) =
    Some (mkReader (during [] rest timer') max, (f_flag f, f_payload f, None)).
Proof.
  intros Hok Hfit (Hg & Hd & Hb). unfold ReadFrame. cbn [fr_r fr_maxPayloadSize].
  assert (Hlen : length (group_bytes g) = (headerSize + length (f_payload f))%nat)
    by (rewrite Hb; apply length_encode_frame).
  destruct (during_ReadFull g rest timeout headerSize Hg Hd ltac:(lia)) as (g1 & t1 & -> & Hok1 & Hd1 & Hb1).
  rewrite Hb in *. unfold encode_frame in Hb1 |- *.
  pose proof (length_frame_header (f_flag f) (Z.of_nat (length (f_payload f)))) as Hh.
  rewrite take_app_le, take_ge by lia.
  rewrite drop_app_ge, Hh, Nat.sub_diag, drop_0 in Hb1 by lia.
  unfold frame_ok, fits_limit in *. rewrite Uint32_header by lia. cbv zeta.
  replace ((0 <? max) && (max <? Z.of_nat (length (f_payload f)))) with false by lia.
  destruct (Z.of_nat (length (f_payload f)) =? 0) eqn:E0.
  - assert (f_payload f = []) as Hp by (apply nil_length_inv; lia). rewrite Hp in *.
    apply (group_bytes_nil _ Hok1) in Hb1 as ->. eauto.
  - rewrite Nat2Z.id. destruct (during_ReadFull g1 rest t1 (length (f_payload f)) Hok1 Hd1)
      as (g2 & t2 & -> & Hok2 & _ & Hb2); [by rewrite Hb1|].
    rewrite Hb1, take_ge by lia. rewrite Hb1, drop_ge in Hb2 by lia.
    apply (group_bytes_nil _ Hok2) in Hb2 as ->. eauto.
Qed.

(** How a timed body ends: the response ends in time; nothing more arrives
    before the timer fires; or the caller's context ends. *)
Inductive timed_end (timeout : Z) : list (Z * arrival) -> goerror -> Prop :=
| end_now : timed_end timeout [] (ErrSentinel UnexpectedEOF)
| end_in_time d : d <= timeout ->
    timed_end timeout [(d, Arrive (ChunkEnd [] (ErrSentinel EOF)))] (ErrSentinel UnexpectedEOF)
| end_silence d a t : timeout < d -> timed_end timeout ((d, a) :: t) (ErrSentinel ErrHeartbeatTimeout)
| end_caller d e t : d <= timeout -> is_EOF e = false ->
    timed_end timeout ((d, CallerCancels e) :: t) (ErrSentinel ErrHeartbeatTimeout).

(** The events of frames that arrive as groups. *)
Definition groups_events (gs : list group) : list (Z * arrival) := gs ≫= group_events.

(** Each of the frames [fs] arrives before the timer set for it fires, and the
    body then ends with [last]. *)
Definition on_time (max timeout : Z) (last : goerror) (b : timed) (fs : list frame) : Prop :=
  exists gs rest, b = mkTimed (groups_events gs ++ rest) None None false /\
    Forall2 (in_time timeout) fs gs /\ Forall frame_ok fs /\ Forall (fits_limit max) fs /\
    timed_end timeout rest last.

Lemma timed_end_ReadFrame max timeout rest last :
  0 < timeout -> timed_end timeout rest last ->
  exists b' flag payload e,
    ReadFrame (mkReader (mkTimed rest (Some timeout) None false) max) =
      Some (mkReader b' max, (flag, payload, Some e)) /\
    read_error true true (sb_disarm b') e = last.
Proof.
  intros Ht Hend.
  assert (exists b' e, io_Read (mkTimed rest (Some timeout) None false) headerSize = (b', ([], Some e)) /\
    read_error true true (sb_disarm b') (if is_EOF e then ErrSentinel EOF else ErrSentinel UnexpectedEOF) = last)
    as (b' & e & E & Hr).
  { rewrite timed_io_Read. unfold timed_Read. cbn [tb_closed tb_ctx tb_events tb_timer].
    destruct Hend as [|d Hd|d a t Hd|d e t Hd Ee].
    - by do 2 eexists.
    - replace (timeout <? d) with false by lia. by do 2 eexists.
    - replace (timeout <? d) with true by lia. by do 2 eexists.
    - replace (timeout <? d) with false by lia. cbn [timed_arrival]. do 2 eexists.
      split; [reflexivity|]. by rewrite Ee. }
  do 4 eexists. split; [by apply ReadFrame_fails|exact Hr].
Qed.

Lemma on_time_delivery max timeout last :
  0 < timeout -> delivery max timeout last (on_time max timeout last).
Proof.
  intros Ht. assert ((0 <? timeout) = true) as Hb by lia. split.
  - intros b f fs (gs & rest & -> & Hin & Hoks & Hfits & Hend).
    destruct gs as [|g gs]; [by inv Hin|]. apply Forall2_cons in Hin as [Hg Hin].
    apply Forall_cons in Hoks as [Hok Hoks]. apply Forall_cons in Hfits as [Hfit Hfits].
    unfold arm_if, disarm_if. rewrite Hb.
    destruct (during_ReadFrame max timeout f g (groups_events gs ++ rest) Hok Hfit Hg) as (t' & E).
    exists (during [] (groups_events gs ++ rest) t'). split.
    + etrans; [|exact E]. unfold during. cbn [sb_arm timed_stream tb_events tb_ctx tb_closed].
      unfold groups_events. cbn [mbind list_bind]. by rewrite <-app_assoc.
    + exists gs, rest. done.
  - intros b (gs & rest & -> & Hin & _ & _ & Hend).
    apply Forall2_nil_inv_l in Hin as ->. unfold arm_if, disarm_if. rewrite Hb.
    destruct (timed_end_ReadFrame max timeout rest last Ht Hend) as (b' & fl & p & e & E & Hr).
    exists b', fl, p, e. done.
Qed.
