(* ===== verification/StreamClient.v ===== *)
(** * StreamClient: the theorems on receiving a stream

    [Recv] implements its contract over any body that delivers frames, the
    heartbeat timeout on bodies with a clock, and the two ends together: what
    a handler sends through HandleStream is what the calls of [Recv] return. *)
From Stdlib Require Import ZArith Lia.
From stdpp Require Import base gmap strings list relations.
From S2P Require Import Prelude GoStrings Messages Errors GoIO Frames MediaType Http Codec Service.
From S2P Require Import StreamWriter StreamAlone StreamSafety StreamServer StreamReader TimedBody.
From S2P Require ReferenceCodec.
Local Open Scope Z_scope.

(** ** Heartbeats are invisible *)
Section Frames.
Context `{Codec} (enc : encoding) (status : Z) (last : goerror).

Definition quiet (s : stream_state) : stream_state :=
  match s with Receiving fs => Receiving (without_heartbeats fs) | s => s end.

Lemma without_heartbeats_cons f fs :
  without_heartbeats (f :: fs) =
    if decide (f_flag f = FlagHeartbeat) then without_heartbeats fs else f :: without_heartbeats fs.
Proof.
  unfold without_heartbeats, is_heartbeat. case_decide as Hf.
  - apply filter_cons_False. by rewrite bool_decide_true.
  - apply filter_cons_True. by rewrite bool_decide_false.
Qed.

Lemma recv_frames_quiet fs msg :
  let '(s, m, e) := recv_frames enc status last fs msg in
  recv_frames enc status last (without_heartbeats fs) msg = (quiet s, m, e).
Proof.
  induction fs as [|f fs IH]; [done|]. rewrite without_heartbeats_cons. cbn [recv_frames].
  case_decide as Hf; [exact IH|]. cbn [recv_frames]. rewrite (decide_False (P := f_flag f = FlagHeartbeat)) by done.
  case_decide; [by destruct (unmarshal _ _ _) as [m1 [x|]]|].
  case_decide; [destruct (f_payload f); [done|by destruct (unmarshal _ _ _) as [m1 [x|]]]|].
  case_decide; [by destruct (unmarshal _ _ _) as [m1 [x|]]|done].
Qed.

Lemma frame_calls_quiet s msgs :
  frame_calls enc status last s msgs = frame_calls enc status last (quiet s) msgs.
Proof.
  revert s. induction msgs as [|m msgs IH]; intros s; cbn [frame_calls]; [done|].
  destruct s as [fs| |]; try done. cbn [frame_Recv quiet].
  pose proof (recv_frames_quiet fs m) as Hq.
  destruct (recv_frames enc status last fs m) as [[s' m'] e]. rewrite Hq. by rewrite IH.
Qed.

(** Data frames are answered by their messages, one for each call. *)
Lemma frame_calls_data bs rs rest msgs :
  Forall2 (fun b '(t, m) => unmarshal enc b t = (m, None)) bs rs ->
  frame_calls enc status last (Receiving ((mkFrame FlagData <$> bs) ++ rest)) (rs.*1 ++ msgs) =
    ((fun r => (snd r, None)) <$> rs) ++ frame_calls enc status last (Receiving rest) msgs.
Proof.
  induction 1 as [|b [t m] bs rs Hb _ IH]; [done|].
  cbn [fmap list_fmap app frame_calls frame_Recv recv_frames f_flag f_payload fst].
  rewrite decide_False by done. rewrite decide_True by done. rewrite Hb.
  cbn [fmap list_fmap snd app]. f_equal. exact IH.
Qed.

Lemma frame_calls_finished msgs :
  frame_calls enc status last Finished msgs = (fun m => (m, Some (ErrSentinel EOF))) <$> msgs.
Proof. induction msgs as [|m msgs IH]; [done|]. cbn. by rewrite IH. Qed.
End Frames.

(** ** After an error *)
Section Sticky.
Context {B : Type} `{Codec, StreamBody B}.

Lemma recv_loop_error fuel sr msg sr' m' e :
  recv_loop fuel sr msg = Some (sr', m', Some e) ->
  sr_done sr' = true /\ sr_hasPending sr' = sr_hasPending sr.
Proof.
  revert sr. induction fuel as [|fuel IH]; intros sr; [done|]. cbn [recv_loop].
  destruct (ReadFrame _) as [[r [[flag payload] [x|]]]|]; [by intros [= <- _ _]| |done].
  case_decide; [intros E; by apply IH in E|].
  case_decide; [destruct (unmarshal _ _ _) as [m [x|]]; by intros [= <- _ _]|].
  case_decide.
  { destruct (_ <? _)%nat; [|by intros [= <- _ _]].
    destruct (unmarshal _ _ _) as [m [x|]]; by intros [= <- _ _]. }
  case_decide; [destruct (unmarshal _ _ _) as [m [x|]]; by intros [= <- _ _]|].
  by intros [= <- _ _].
Qed.

Lemma Recv_error_done sr msg sr' m' e :
  Recv sr msg = Some (sr', m', Some e) -> sr_done sr' = true /\ sr_hasPending sr' = false.
Proof.
  unfold Recv. destruct (sr_done sr && negb (sr_hasPending sr)) eqn:E.
  { intros [= <- _ _]. apply andb_true_iff in E as [-> E]. by destruct (sr_hasPending sr). }
  destruct (sr_hasPending sr) eqn:Ep; [by intros [= <- _ _]|].
  intros Er. apply recv_loop_error in Er as [-> ->]. done.
Qed.
End Sticky.

(** ** A handler that sends messages *)

(** Send each message, stopping at the first error. *)
Fixpoint send_all (ms : list message) (h : stream_handler) : stream_handler :=
  match ms with
  | [] => h
  | m :: t =>
    SHSend (Some m) (fun err => match err with Some e => SHReturn (Some e) | None => send_all t h end)
  end.

Lemma handler_frames_send_all `{Codec} enc ctx ms bs h :
  Forall2 (fun m b => marshal enc (Some m) = inl b) ms bs ->
  handler_frames enc false ctx (send_all ms h) =
    let '(l, c, o) := handler_frames enc false ctx h in ((mkFrame FlagData <$> bs) ++ l, c, o).
Proof.
  induction 1 as [|m b ms bs Hm _ IH]; cbn [send_all handler_frames].
  - by destruct (handler_frames enc false ctx h) as [[l c] o].
  - unfold send_result. rewrite Hm. rewrite IH. by destruct (handler_frames enc false ctx h) as [[l c] o].
Qed.

(** ** Properties *)
Section Properties.
Context {B : Type} `{Codec, StreamBody B}.

Lemma done_calls (sr : streamReader B) msgs :
  sr_done sr = true ->
  recv_calls sr msgs = Some ((fun m => (m, Some (ErrSentinel EOF))) <$> msgs).
Proof.
  revert sr. induction msgs as [|m msgs IH]; intros sr Hd; [done|]. cbn [recv_calls].
  unfold Recv. rewrite Hd. cbn [andb]. destruct (sr_hasPending sr); cbn [negb].
  - by rewrite IH.
  - by rewrite IH.
Qed.

(** C25: Recv always returns (heartbeats cannot keep it for ever on a finite
    body), whatever the body does; once it has returned an error, or after
    Close, every later call returns io.EOF. *)
Theorem Recv_returns_then_EOF (sr : streamReader B) msg :
  exists sr' m' e, Recv sr msg = Some (sr', m', e) /\
    (e <> None -> forall msgs, recv_calls sr' msgs = Some ((fun m => (m, Some (ErrSentinel EOF))) <$> msgs)) /\
    (forall msgs, recv_calls (StreamReader_Close sr) msgs =
       Some ((fun m => (m, Some (ErrSentinel EOF))) <$> msgs)).
Proof.
  destruct (Recv_total sr msg) as [[[sr' m'] e] E]. exists sr', m', e. split; [done|]. split.
  - intros He msgs. destruct e as [x|]; [|done]. apply Recv_error_done in E as [E _].
    by apply done_calls.
  - intros msgs. by apply done_calls.
Qed.

(** C23: over a body that delivers the frames [fs] in whatever reads and then
    ends, inside a frame or not, successive calls of Recv return what the
    contract says for the frames without the heartbeats: the data messages in
    order, then the final message or io.EOF, or the error of the error frame,
    or io.ErrUnexpectedEOF when no terminal frame came. *)
Theorem Recv_refines_contract `{!ReaderSpec B, !PunctualBody B} enc status max timeout (b : B) fs msgs :
  delivers max b fs ->
  recv_calls (new_streamReader b status enc max timeout) msgs =
    Some (frame_calls enc status (ErrSentinel UnexpectedEOF) (Receiving (without_heartbeats fs)) msgs).
Proof.
  intros Hb. rewrite (recv_calls_frames _ _ _ _ _ _ _ fs _ (delivers_delivery max timeout) Hb).
  by rewrite frame_calls_quiet.
Qed.
End Properties.

(** C24: the heartbeat timeout.  As long as every frame, heartbeats included,
    arrives within the timeout of the one before, Recv returns what the
    contract says, however long the stream lasts; when nothing arrives for
    longer than the timeout - and also when the caller's own context ends -
    the stream ends with ErrHeartbeatTimeout. *)
Theorem Recv_heartbeat_timeout `{Codec} enc status max timeout last b fs msgs :
  0 < timeout -> on_time max timeout last b fs ->
  recv_calls (new_streamReader b status enc max timeout) msgs =
    Some (frame_calls enc status last (Receiving (without_heartbeats fs)) msgs).
Proof.
  intros Ht Hb. rewrite (recv_calls_frames _ _ _ _ _ _ _ fs _ (on_time_delivery max timeout last Ht) Hb).
  by rewrite frame_calls_quiet.
Qed.

(** ** The two ends together *)
Section EndToEnd.
Context {B : Type} `{Codec, PunctualBody B}.

(** Heartbeats are empty, so only the other frames can be over the limit. *)
Lemma sent_fits enc max fs :
  Forall (sent enc) fs -> Forall (fits_limit max) (without_heartbeats fs) -> Forall (fits_limit max) fs.
Proof.
  rewrite !Forall_forall. intros Hs Hf f Hin. destruct (decide (f_flag f = FlagHeartbeat)) as [E|E].
  - destruct (Hs f Hin) as [Hp|[? _]]; [|done]. unfold fits_limit. rewrite Hp. cbn. lia.
  - apply Hf, list_elem_of_filter. split; [|done]. unfold is_heartbeat. by rewrite bool_decide_false.
Qed.

(** The response of a complete stream, delivered to a reader. *)
Record transmitted (enc : encoding) (w : ResponseWriter) (hb : bool) (ctx : list (option goerror))
    (h : stream_handler) (c : config) (max : Z) (b : B) : Prop := mkTransmitted {
  tr_fresh : fresh w /\ rw_body w = [];
  tr_reachable : reachable (stream_config w enc hb ctx h) c;
  tr_ended : ended (c_main c) = Some (Ret tt);
  tr_bytes : rd_bytes b = conf_body c;
  tr_end : rd_end b = ErrSentinel EOF;
  tr_small : small_messages enc;
  tr_fit : Forall (fits_limit max) (fst (stream_frames enc ctx h))
}.

Lemma recv_transmitted enc w hb ctx h c max timeout b msgs :
  transmitted enc w hb ctx h c max b ->
  recv_calls (new_streamReader b CodeOK enc max timeout) msgs =
    Some (frame_calls enc CodeOK (ErrSentinel UnexpectedEOF)
      (Receiving (fst (stream_frames enc ctx h))) msgs).
Proof.
  intros [[Hw Hnil] Hr He Hb Hend Hsmall Hfit].
  destruct (contract_on_wire enc w hb ctx h c _ Hw Hr He) as (_ & fs & E1 & _ & E3 & _ & Hs & _).
  rewrite Hnil in E1. cbn [app] in E1.
  specialize (E3 Hsmall).
  assert (delivers max b fs) as Hd.
  { split; [eapply Forall_impl; [exact Hs|]; intros f; by apply sent_ok|].
    split; [by eapply sent_fits; [exact Hs|rewrite E3]|].
    split; [done|]. exists []. rewrite app_nil_r. split; [congruence|by left]. }
  rewrite (recv_calls_frames _ _ _ _ _ _ _ fs _ (delivers_delivery max timeout) Hd).
  rewrite frame_calls_quiet. cbn [quiet]. by rewrite E3.
Qed.

Lemma recv_send_all enc w hb ctx c max timeout b ms bs rs extra :
  Forall2 (fun m b => marshal enc (Some m) = inl b) ms bs ->
  Forall2 (fun b '(t, m) => unmarshal enc b t = (m, None)) bs rs ->
  transmitted enc w hb ctx (send_all ms (SHClose None (fun err => SHReturn err))) c max b ->
  recv_calls (new_streamReader b CodeOK enc max timeout) (rs.*1 ++ extra) =
    Some (((fun r => (snd r, None)) <$> rs) ++ ((fun m => (m, Some (ErrSentinel EOF))) <$> extra)).
Proof.
  intros Hms Hrs Ht. rewrite (recv_transmitted _ _ _ _ _ _ _ _ _ _ Ht). f_equal.
  unfold stream_frames. rewrite (handler_frames_send_all _ _ _ _ _ Hms). cbn [handler_frames close_result].
  cbn [fst]. rewrite (frame_calls_data _ _ _ _ _ _ _ Hrs). f_equal.
  destruct extra as [|m extra]; [done|].
  cbn [app frame_calls frame_Recv recv_frames f_flag f_payload].
  rewrite !decide_False, decide_True by done. rewrite frame_calls_finished. done.
Qed.

(** C4: end to end, a handler that sends messages and closes: whatever the
    heartbeats in between and however the response is cut into reads, the
    client's calls return the messages in order and then io.EOF for ever. *)
Theorem stream_messages_arrive enc w hb ctx c max timeout b ms bs rs extra :
  Forall2 (fun m b => marshal enc (Some m) = inl b) ms bs ->
  Forall2 (fun b '(t, m) => unmarshal enc b t = (m, None)) bs rs ->
  transmitted enc w hb ctx (send_all ms (SHClose None (fun err => SHReturn err))) c max b ->
  recv_calls (new_streamReader b CodeOK enc max timeout) (rs.*1 ++ extra) =
    Some (((fun r => (snd r, None)) <$> rs) ++ ((fun m => (m, Some (ErrSentinel EOF))) <$> extra)).
Proof. apply recv_send_all. Qed.

(** C5: end to end, a handler that sends messages and fails with a duh error,
    wrapped or not: the client gets the messages and then a ClientError with
    the code, message and details of the error's Reply (the status of the
    response, 200, as its HTTP code), then io.EOF for ever. *)
Theorem stream_error_arrives `{!CodecLaws} enc w hb ctx c max timeout b ms bs rs texts e d r p m extra :
  Forall2 (fun m b => marshal enc (Some m) = inl b) ms bs ->
  Forall2 (fun b '(t, m) => unmarshal enc b t = (m, None)) bs rs ->
  as_Error e = Some d -> ProtoMessage d = Some (MReply r) -> marshal enc (Some (MReply r)) = inl p ->
  transmitted enc w hb ctx (send_all ms (SHReturn (Some (wrapped texts e)))) c max b ->
  recv_calls (new_streamReader b CodeOK enc max timeout) (rs.*1 ++ m :: extra) =
    Some (((fun r => (snd r, None)) <$> rs) ++
      (m, Some (ErrClient (mkClientError (norm_details (Reply_Details r)) (Reply_Message r) None false
                             (Reply_Code r) CodeOK))) ::
      ((fun m => (m, Some (ErrSentinel EOF))) <$> extra)).
Proof.
  intros Hms Hrs He Hp Hm Ht. rewrite (recv_transmitted _ _ _ _ _ _ _ _ _ _ Ht). f_equal.
  unfold stream_frames. rewrite (handler_frames_send_all _ _ _ _ _ Hms). cbn [handler_frames].
  unfold error_frames, buildErrorReply. rewrite as_Error_wrapped, He, Hp, Hm. cbn [fst].
  rewrite app_nil_r, (frame_calls_data _ _ _ _ _ _ _ Hrs). f_equal.
  cbn [app frame_calls frame_Recv recv_frames f_flag f_payload].
  rewrite !decide_False, decide_True by done.
  rewrite (unmarshal_reply _ _ _ _ Hm). rewrite frame_calls_finished. done.
Qed.
End EndToEnd.

(** ** Witnesses *)
Import ReferenceCodec.

Definition item : message := MStreamItem 1 "a".
Definition empty_item : message := MStreamItem 0 "".

(** The wire of [StreamServer.demo_end] in three reads, the second inside a frame. *)
Definition cut (bs : bytes) : source :=
  [Chunk (take 4 bs); Chunk (take 9 (drop 4 bs)); Chunk (drop 13 bs)].
Definition demo_body : Body source := mkBody (cut (conf_body demo_end)) false.

Lemma Recv_refines_contract_witness :
  recv_calls (new_streamReader demo_body 200 JSON 0 30) [empty_item; empty_item; empty_item] =
    Some [(item, None); (empty_item, Some (ErrSentinel EOF)); (empty_item, Some (ErrSentinel EOF))].
Proof.
  rewrite (Recv_refines_contract JSON 200 0 30 demo_body
    [mkFrame FlagData (item_bytes item); heartbeat_frame; mkFrame FlagFinal []]).
  - vm_compute. reflexivity.
  - split; [by repeat (apply Forall_cons_2; [vm_compute; done|])|]. split; [by repeat (apply Forall_cons_2; [by left|])|]. split; [reflexivity|].
    exists []. split; [vm_compute; reflexivity|by left].
Defined.

(** Frames 20 time units apart with a timeout of 30, then silence. *)
Definition slow_body : timed :=
  mkTimed (groups_events [[(20, encode_frame heartbeat_frame)];
                          [(10, encode_frame (mkFrame FlagData (item_bytes item)))]] ++
           [(31, CallerCancels (ErrSentinel DeadlineExceeded))]) None None false.

Lemma Recv_heartbeat_timeout_witness :
  recv_calls (new_streamReader slow_body 200 JSON 0 30) [empty_item; empty_item; empty_item] =
    Some [(item, None); (empty_item, Some (ErrSentinel ErrHeartbeatTimeout));
          (empty_item, Some (ErrSentinel EOF))].
Proof.
  rewrite (Recv_heartbeat_timeout JSON 200 0 30 (ErrSentinel ErrHeartbeatTimeout) slow_body
    [heartbeat_frame; mkFrame FlagData (item_bytes item)]).
  - vm_compute. reflexivity.
  - lia.
  - exists [[(20, encode_frame heartbeat_frame)]; [(10, encode_frame (mkFrame FlagData (item_bytes item)))]],
      [(31, CallerCancels (ErrSentinel DeadlineExceeded))]. split; [reflexivity|]. split.
    { constructor; [|constructor; [|constructor]];
        (split; [repeat constructor; done|split; [vm_compute; done|reflexivity]]). }
    split; [by repeat (apply Forall_cons_2; [vm_compute; done|])|]. split; [by repeat (apply Forall_cons_2; [by left|])|]. apply end_silence. lia.
Defined.

(** The codec's messages are smaller than the length field of a frame allows. *)
Lemma ref_small enc : small_messages enc.
Proof. intros m b E. apply ref_marshal_small in E. lia. Qed.

Definition demo_msgs : list message := [MStreamItem 1 "a"; MStreamItem 2 "b"].
Definition demo_results : list (message * message) := [(empty_item, MStreamItem 1 "a"); (empty_item, MStreamItem 2 "b")].
Definition run_stream (h : stream_handler) (schedule : list move) : config :=
  exec_prefix (stream_config demo_w JSON true [] h) schedule.

Definition closing_handler : stream_handler :=
  send_all demo_msgs (SHClose None (fun err => SHReturn err)).
Definition closing_run : config := run_stream closing_handler
  (replicate 6 MMain ++ MTick :: replicate 6 MHeartbeat ++ replicate 8 MMain ++ MStop :: replicate 20 MMain).

Lemma stream_messages_arrive_witness :
  recv_calls (new_streamReader (mkBody (cut (conf_body closing_run)) false) 200 JSON 0 30)
      [empty_item; empty_item; empty_item; empty_item] =
    Some [(MStreamItem 1 "a", None); (MStreamItem 2 "b", None);
          (empty_item, Some (ErrSentinel EOF)); (empty_item, Some (ErrSentinel EOF))].
Proof.
  refine (stream_messages_arrive JSON demo_w true [] closing_run 0 30
    (mkBody (cut (conf_body closing_run)) false) demo_msgs (item_bytes <$> demo_msgs) demo_results
    [empty_item; empty_item] _ _ _).
  - repeat constructor.
  - repeat constructor; vm_compute; reflexivity.
  - constructor; [done| |vm_compute; reflexivity|vm_compute; reflexivity|reflexivity|apply ref_small|by apply Forall_forall; intros; left].
    apply exec_prefix_reachable.
Defined.

Definition failure : goerror := NewServiceErrorWithCode 404 "NO_SUCH_STREAM" "gone" None (Some {["id" := "7"]}).
Definition failing_handler : stream_handler :=
  send_all demo_msgs (SHReturn (Some (wrapped ["while streaming"] failure))).
Definition failing_run : config := run_stream failing_handler
  (replicate 6 MMain ++ MTick :: replicate 6 MHeartbeat ++ replicate 8 MMain ++ MStop :: replicate 20 MMain).

Lemma stream_error_arrives_witness :
  recv_calls (new_streamReader (mkBody (cut (conf_body failing_run)) false) 200 JSON 0 30)
      [empty_item; empty_item; empty_item; empty_item] =
    Some [(MStreamItem 1 "a", None); (MStreamItem 2 "b", None);
          (empty_item, Some (ErrClient (mkClientError (Some {["id" := "7"]}) "gone" None false
             "NO_SUCH_STREAM" 200)));
          (empty_item, Some (ErrSentinel EOF))].
Proof.
  refine (stream_error_arrives JSON demo_w true [] failing_run 0 30
    (mkBody (cut (conf_body failing_run)) false) demo_msgs (item_bytes <$> demo_msgs) demo_results
    ["while streaming"] failure _ (mkReply "NO_SUCH_STREAM" "gone" (Some {["id" := "7"]}))
    (item_bytes (MReply (mkReply "NO_SUCH_STREAM" "gone" (Some {["id" := "7"]})))) empty_item
    [empty_item] _ _ _ _ _ _).
  - repeat constructor.
  - repeat constructor; vm_compute; reflexivity.
  - reflexivity.
  - reflexivity.
  - reflexivity.
  - constructor; [done| |vm_compute; reflexivity|vm_compute; reflexivity|reflexivity|apply ref_small|by apply Forall_forall; intros; left].
    apply exec_prefix_reachable.
Defined.
