(* ===== verification/Client.v ===== *)
(** * Client: client.go

    [Client] with [Do], [DoStream], [DoBytes] and [DoContent];
    [handleErrorResponse], which classifies error responses; the error
    constructors [NewReplyError] and [NewInfraError]. *)
From Stdlib Require Import ZArith Lia.
From stdpp Require Import base gmap strings list.
From S2P Require Import Prelude GoStrings Units Messages Errors GoIO Frames MediaType Http Codec StreamWriter StreamReader.
Local Open Scope Z_scope.

(** [http.Response] *)
Record Response (B : Type) := mkResponse {
  StatusCode : Z;
  Status : string;
  Resp_Header : Header;
  Resp_Body : B
}.
Arguments mkResponse {B}. Arguments StatusCode {B}. Arguments Status {B}.
Arguments Resp_Header {B}. Arguments Resp_Body {B}.

Definition with_RespBody {B} (r : Response B) (b : B) : Response B :=
  mkResponse (StatusCode r) (Status r) (Resp_Header r) b.

(** [type Client struct]; [http_Do] is the [Do] of its [http.Client]: the
    response of the network to a request, or an error. *)
Record Client (R B : Type) := mkClient {
  http_Do : Request R -> Response B + goerror;
  MaxFramePayload : Z;
  HeartbeatTimeout : Z
}.
Arguments mkClient {R B}. Arguments http_Do {R B}. Arguments MaxFramePayload {R B}.
Arguments HeartbeatTimeout {R B}.

Definition DefaultMaxFramePayload : Z := 4 * MegaByte.
Definition DefaultHeartbeatTimeout : Z := 60 * 10 ^ 9.

(** ** The errors of the client *)
Section Errors.
Context {R B : Type}.

Definition NewReplyError (req : Request R) (resp : Response B) (reply : Messages.Reply) : goerror :=
  let details : gmap string string :=
    <[DetailsHttpCode := Itoa (StatusCode resp)]>
    (<[DetailsCodeText := CodeText (StatusCode resp)]>
    (<[DetailsHttpUrl := URL_String req]>
    (<[DetailsHttpMethod := Method req]> ∅))) in
  let details := default ∅ (Reply_Details reply) ∪ details in
  let details :=
    if StatusCode resp =? CodeTooManyRequests then
      let ra := Header_Get (Resp_Header resp) "Retry-After" in
      if decide (ra = "") then details else <[DetailsHttpRetryAfter := ra]> details
    else details in
  ErrClient (mkClientError (Some details) (Reply_Message reply) None false (Reply_Code reply) (StatusCode resp)).

(** The details of a response that is no Reply. *)
Definition response_details (req : Request R) (resp : Response B) (body : bytes) : gmap string string :=
  <[DetailsHttpCode := Itoa (StatusCode resp)]>
  (<[DetailsHttpBody := to_string body]>
  (<[DetailsHttpUrl := URL_String req]>
  (<[DetailsHttpStatus := Status resp]>
  (<[DetailsHttpMethod := Method req]> ∅)))).

Definition NewInfraError (req : Request R) (resp : Response B) (body : bytes) : goerror :=
  ErrClient (mkClientError (Some (response_details req resp body)) (to_string body) None true
    (Itoa (StatusCode resp)) (StatusCode resp)).

Definition request_details (req : Request R) : details_map :=
  Some (<[DetailsHttpUrl := URL_String req]> (<[DetailsHttpMethod := Method req]> ∅)).

Definition do_error `{FmtFallback} (req : Request R) (err : goerror) : goerror :=
  NewClientError "during client.Do(): %w" (Some err) (request_details req).

(** The error when the body of a response cannot be read. *)
Definition read_body_error (req : Request R) (resp : Response B) (err : goerror) : goerror :=
  ErrClient (mkClientError
    (Some (<[DetailsHttpUrl := URL_String req]> (<[DetailsHttpMethod := Method req]>
          (<[DetailsHttpStatus := Status resp]> ∅))))
    "" (Some (ErrWrap ("while reading response body: " +:+ error_text err) err)) false
    (Itoa CodeClientError) CodeClientError).

Definition parse_error (body : bytes) (err : goerror) : goerror :=
  ErrWrap ("while parsing response body '" +:+ to_string body +:+ "': " +:+ error_text err) err.

(** A response that is no Reply and no infrastructure error. *)
Definition nonconforming_error (req : Request R) (resp : Response B) (body : bytes) : goerror :=
  ErrClient (mkClientError (Some (response_details req resp body)) (to_string body) None false
    (Itoa (StatusCode resp)) (StatusCode resp)).
End Errors.

Definition unmarshalForMediaType `{UnicodeTables} (contentType : string) : option encoding :=
  let t := normalizeMediaType contentType in
  if decide (t = ContentTypeJSON) then Some JSON
  else if decide (t = ContentTypeProtoBuf) then Some ProtoBuf
  else None.

(** ** Error responses *)
Section Client.
Context `{UnicodeTables, FmtFallback, BufferGrowth, Codec}.
Context {R B : Type} `{StreamBody B}.

(** What the body of an error response says. *)
Definition classify (req : Request R) (resp : Response B) (body : bytes) : goerror :=
  match unmarshalForMediaType (Header_Get (Resp_Header resp) "Content-Type") with
  | Some enc =>
    let '(reply, err) := unmarshal enc body (MReply Reply_zero) in
    match err with
    | Some _ => NewInfraError req resp body
    | None => NewReplyError req resp (message_reply reply)
    end
  | None =>
    if decide (Header_Get (Resp_Header resp) HeaderDUHVersion = "") then
      let code := StatusCode resp in
      if (code ÷ 100 =? 5) || (code =? CodeNotFound) then NewInfraError req resp body
      else nonconforming_error req resp body
    else
      let '(reply, err) := unmarshal JSON body (MReply Reply_zero) in
      match err with
      | None => NewReplyError req resp (message_reply reply)
      | Some _ =>
        let '(reply, err) := unmarshal ProtoBuf body reply in
        match err with
        | Some _ => NewInfraError req resp body
        | None => NewReplyError req resp (message_reply reply)
        end
      end
  end.

(** The body, read and closed, and the error. *)
Definition handleErrorResponse (req : Request R) (resp : Response B) : B * goerror :=
  let '(b, (body, err)) := io_Copy [] (Resp_Body resp) in
  (sb_close b,
   match err with
   | Some e => read_body_error req resp e
   | None => classify req resp body
   end).

(** ** Requests *)

(** The response body as [Do] leaves it ([None] without a response), the
    message and the error. *)
Definition Do (c : Client R B) (req : Request R) (out : message) : option B * message * option goerror :=
  match http_Do c req with
  | inr err => (None, out, Some (do_error req err))
  | inl resp =>
    if negb (StatusCode resp =? CodeOK) then
      let '(b, err) := handleErrorResponse req resp in (Some b, out, Some err)
    else
      let '(b, (body, err)) := io_Copy [] (Resp_Body resp) in
      let b := sb_close b in
      match err with
      | Some e => (Some b, out, Some (read_body_error req resp e))
      | None =>
        match unmarshalForMediaType (Header_Get (Resp_Header resp) "Content-Type") with
        | None => (Some b, out, Some (NewInfraError req resp body))
        | Some enc =>
          let '(out, err) := unmarshal enc body out in
          match err with
          | Some e => (Some b, out, Some (NewClientError "" (Some (parse_error body e)) None))
          | None => (Some b, out, None)
          end
        end
      end
  end.

(** The encoding of a stream response. *)
Definition stream_response_encoding (contentType : string) : option encoding :=
  stream_encoding (normalizeMediaType contentType).

Definition max_frame_payload (c : Client R B) : Z :=
  if MaxFramePayload c =? 0 then DefaultMaxFramePayload else MaxFramePayload c.
Definition heartbeat_timeout (c : Client R B) : Z :=
  if HeartbeatTimeout c =? 0 then DefaultHeartbeatTimeout else HeartbeatTimeout c.

(** A reader, or the error and the body of the response; [cancel] is called
    before the body of a response that is no stream is read. *)
Definition DoStream (c : Client R B) (req : Request R) : streamReader B + (option B * goerror) :=
  match http_Do c req with
  | inr err => inr (None, do_error req err)
  | inl resp =>
    if negb (StatusCode resp =? CodeOK) then
      let resp := with_RespBody resp (sb_cancel (Resp_Body resp)) in
      let '(b, err) := handleErrorResponse req resp in inr (Some b, err)
    else
      match stream_response_encoding (Header_Get (Resp_Header resp) "Content-Type") with
      | None =>
        let resp := with_RespBody resp (sb_cancel (Resp_Body resp)) in
        let '(b, (body, _)) := io_Copy [] (Resp_Body resp) in
        inr (Some (sb_close b), NewInfraError req resp body)
      | Some enc =>
        inl (mkStreamReader (NewReader (Resp_Body resp) (max_frame_payload c)) (StatusCode resp) true enc
               false false (heartbeat_timeout c))
      end
  end.

(** The open body of the response, or the error and the body. *)
Definition DoBytes (c : Client R B) (req : Request R) : B + (option B * goerror) :=
  match http_Do c req with
  | inr err => inr (None, do_error req err)
  | inl resp =>
    if negb (StatusCode resp =? CodeOK) then
      let '(b, err) := handleErrorResponse req resp in inr (Some b, err)
    else if decide (normalizeMediaType (Header_Get (Resp_Header resp) "Content-Type") = ContentOctetStream) then
      inl (Resp_Body resp)
    else
      let '(b, (body, _)) := io_Copy [] (Resp_Body resp) in
      inr (Some (sb_close b), NewInfraError req resp body)
  end.

(** The body, the caller's buffer, the response headers and the error. *)
Definition DoContent (c : Client R B) (req : Request R) (buf : bytes)
    : option B * bytes * (Header + goerror) :=
  match http_Do c req with
  | inr err => (None, buf, inr (do_error req err))
  | inl resp =>
    if negb (StatusCode resp =? CodeOK) then
      let '(b, err) := handleErrorResponse req resp in (Some b, buf, inr err)
    else
      let '(b, (buf, err)) := io_Copy buf (Resp_Body resp) in
      let b := sb_close b in
      match err with
      | Some e => (Some b, buf, inr (read_body_error req resp e))
      | None => (Some b, buf, inl (Resp_Header resp))
      end
  end.
End Client.
