(* ===== verification/ClientSpec.v ===== *)
(** * ClientSpec: the theorems on the client

    How responses are classified, that bodies are closed, and the two ends
    together: what the service replies is what the client returns. *)
From Stdlib Require Import ZArith Lia.
From stdpp Require Import base gmap strings list.
From S2P Require Import Prelude GoStrings Units Messages Errors GoIO Frames MediaType Http Codec Service.
From S2P Require Import StreamWriter StreamReader TimedBody Client.
From S2P Require ReferenceCodec.
Local Open Scope Z_scope.

(** ** Lemmas *)
Section Lemmas.
Context `{UnicodeTables, FmtFallback, BufferGrowth, Codec}.

Lemma normalize_protobuf : normalizeMediaType ContentTypeProtoBuf = ContentTypeProtoBuf.
Proof. reflexivity. Qed.

(** The client decodes what the service encodes. *)
Lemma reply_encoding_unmarshal t enc ct :
  reply_encoding t = Some (enc, ct) -> unmarshalForMediaType ct = Some enc.
Proof.
  unfold reply_encoding. case_decide; [|case_decide; [|done]]; intros E; injection E as <- <-;
    unfold unmarshalForMediaType; by rewrite ?normalize_json, ?normalize_protobuf.
Qed.

Section Response.
Context {R B : Type} `{ReaderSpec B, !StreamBody B}.
Implicit Types (req : Request R) (resp : Response B).

Lemma handleErrorResponse_readable req resp :
  rd_end (Resp_Body resp) = ErrSentinel EOF ->
  exists b, handleErrorResponse req resp = (sb_close b, classify req resp (rd_bytes (Resp_Body resp))).
Proof.
  intros He. unfold handleErrorResponse. destruct (io_Copy_spec (Resp_Body resp) []) as (b & -> & _).
  rewrite He. cbn [is_EOF]. eauto.
Qed.

Lemma handleErrorResponse_unreadable req resp :
  is_EOF (rd_end (Resp_Body resp)) = false ->
  exists b, handleErrorResponse req resp = (sb_close b, read_body_error req resp (rd_end (Resp_Body resp))).
Proof.
  intros He. unfold handleErrorResponse. destruct (io_Copy_spec (Resp_Body resp) []) as (b & -> & _).
  rewrite He. eauto.
Qed.

(** The body of an error response is a Reply for the client. *)
Definition carries_reply resp (body : bytes) (r : Messages.Reply) : Prop :=
  match unmarshalForMediaType (Header_Get (Resp_Header resp) "Content-Type") with
  | Some enc => exists m, unmarshal enc body (MReply Reply_zero) = (m, None) /\ r = message_reply m
  | None =>
    Header_Get (Resp_Header resp) HeaderDUHVersion <> "" /\
    ((exists m, unmarshal JSON body (MReply Reply_zero) = (m, None) /\ r = message_reply m) \/
     (exists m m' e, unmarshal JSON body (MReply Reply_zero) = (m, Some e) /\
        unmarshal ProtoBuf body m = (m', None) /\ r = message_reply m'))
  end.

(** The status codes of infrastructure without any sign of a service. *)
Definition infra_status (code : Z) : bool := (code ÷ 100 =? 5) || (code =? CodeNotFound).

Definition unmarked resp : Prop :=
  unmarshalForMediaType (Header_Get (Resp_Header resp) "Content-Type") = None /\
  Header_Get (Resp_Header resp) HeaderDUHVersion = "".

Lemma classify_cases req resp body :
  (exists r, carries_reply resp body r /\ classify req resp body = NewReplyError req resp r) \/
  ((forall r, ~ carries_reply resp body r) /\
   ((unmarked resp /\ infra_status (StatusCode resp) = false /\
       classify req resp body = nonconforming_error req resp body) \/
    ((unmarked resp -> infra_status (StatusCode resp) = true) /\
       classify req resp body = NewInfraError req resp body))).
Proof.
  unfold classify, carries_reply, unmarked, infra_status.
  destruct (unmarshalForMediaType _) as [enc|].
  - destruct (unmarshal enc body _) as [m [e|]].
    + right. split; [intros r (m' & E & _); done|]. right. split; [by intros []|done].
    + left. eauto.
  - case_decide as Hv.
    + right. split; [by intros r []|]. destruct (_ || _); [right|left]; done.
    + destruct (unmarshal JSON body _) as [m [e|]] eqn:EJ.
      * destruct (unmarshal ProtoBuf body m) as [m' [e'|]] eqn:EP.
        -- right. split; [|right; split; [by intros [_ ?]|done]].
           intros r [_ [(m1 & E & _)|(m1 & m2 & e1 & E1 & E2 & _)]]; congruence.
        -- left. exists (message_reply m'). split; [|done]. split; [done|]. right. eauto 10.
      * left. exists (message_reply m). split; [|done]. split; [done|]. left. eauto.
Qed.
End Response.
End Lemmas.

(** The details of a Reply are kept, next to those the client adds. *)
Lemma reply_error_details {R B} (req : Request R) (resp : Response B) r k v :
  StatusCode resp <> CodeTooManyRequests -> map_get_ok (Reply_Details r) k = Some v ->
  exists d, NewReplyError req resp r =
      ErrClient (mkClientError (Some d) (Reply_Message r) None false (Reply_Code r) (StatusCode resp)) /\
    d !! k = Some v.
Proof.
  intros Hc Hk. unfold NewReplyError. replace (StatusCode resp =? CodeTooManyRequests) with false by lia.
  eexists. split; [reflexivity|]. unfold map_get_ok in Hk.
  destruct (Reply_Details r) as [m|]; [|done]. cbn [mbind option_bind default] in *.
  by apply lookup_union_Some_l.
Qed.

(** The response a client gets from what a server sent. *)
Definition arrives {B} `{ReaderSpec B} (w : ResponseWriter) (resp : Response B) : Prop :=
  match rw_status w with
  | Some (code, h) => StatusCode resp = code /\ Resp_Header resp = h /\
      rd_bytes (Resp_Body resp) = rw_body w /\ rd_end (Resp_Body resp) = ErrSentinel EOF
  | None => False
  end.

(** ** Lemmas: the response of a reply at the client *)
Section Arrived.
Context `{UnicodeTables, FmtFallback, BufferGrowth, Codec}.
Context {R B : Type} `{ReaderSpec B, !StreamBody B}.

(** What [arrives] says of the response to a reply. *)
Lemma arrived_reply w code ct p resp :
  rw_faults w = [] -> rw_body w = [] -> body_allowed code = true -> arrives (sent_reply w code ct p) resp ->
  StatusCode resp = code /\ Header_Get (Resp_Header resp) "Content-Type" = ct /\
  rd_bytes (Resp_Body resp) = p /\ rd_end (Resp_Body resp) = ErrSentinel EOF.
Proof.
  intros Hf Hb Hbody Harr. unfold arrives in Harr.
  destruct (sent_reply_status w code ct p) as (h & Est & Hct & _). rewrite Est in Harr.
  destruct Harr as (Hst & Hh & Hbytes & Hend).
  rewrite (sent_reply_body w code ct p Hf Hbody), Hb in Hbytes. rewrite Hh. done.
Qed.

Lemma Do_reply w t enc ct p (c : Client R B) req out out' resp :
  rw_faults w = [] -> rw_body w = [] -> reply_encoding t = Some (enc, ct) ->
  unmarshal enc p out = (out', None) ->
  arrives (sent_reply w CodeOK ct p) resp -> http_Do c req = inl resp ->
  exists b, Do c req out = (Some (sb_close b), out', None).
Proof.
  intros Hf Hb Ha Hu Harr Hdo.
  destruct (arrived_reply w CodeOK ct p resp Hf Hb eq_refl Harr) as (Hst & Hct & Hbytes & Hend).
  destruct (io_Copy_spec (Resp_Body resp) []) as (b & Ecp & _). exists b.
  unfold Do. rewrite Hdo, Hst. cbn [negb Z.eqb CodeOK Pos.eqb]. rewrite Ecp, Hend. cbn [is_EOF app].
  by rewrite Hct, (reply_encoding_unmarshal _ enc ct Ha), Hbytes, Hu.
Qed.

Lemma classify_error_reply `{!CodecLaws} w t enc ct code r p (req : Request R) (resp : Response B) :
  rw_faults w = [] -> rw_body w = [] -> reply_encoding t = Some (enc, ct) ->
  body_allowed code = true -> marshal enc (Some (MReply r)) = inl p ->
  arrives (sent_reply w code ct p) resp ->
  exists b, handleErrorResponse req resp = (sb_close b, NewReplyError req resp (norm_reply r)) /\
    StatusCode resp = code.
Proof.
  intros Hf Hb Ha Hbody Hm Harr.
  destruct (arrived_reply w code ct p resp Hf Hb Hbody Harr) as (Hst & Hct & Hbytes & Hend).
  destruct (handleErrorResponse_readable req resp Hend) as (b & Eh). exists b. split; [|done]. rewrite Eh.
  unfold classify. rewrite Hct, (reply_encoding_unmarshal _ enc ct Ha), Hbytes.
  by rewrite (unmarshal_reply _ _ _ _ Hm).
Qed.

Lemma Do_error_reply `{!CodecLaws} w t enc ct code r p (c : Client R B) req out resp :
  rw_faults w = [] -> rw_body w = [] -> reply_encoding t = Some (enc, ct) ->
  body_allowed code = true -> code <> CodeOK -> marshal enc (Some (MReply r)) = inl p ->
  arrives (sent_reply w code ct p) resp -> http_Do c req = inl resp ->
  exists b, Do c req out = (Some (sb_close b), out, Some (NewReplyError req resp (norm_reply r))) /\
    StatusCode resp = code.
Proof.
  intros Hf Hb Ha Hbody Hne Hm Harr Hdo.
  destruct (classify_error_reply w t enc ct code r p req resp Hf Hb Ha Hbody Hm Harr) as (b & Eh & Hst).
  exists b. split; [|done]. unfold Do. rewrite Hdo, Hst. replace (code =? CodeOK) with false by lia.
  cbn [negb]. by rewrite Eh.
Qed.
End Arrived.

(** ** Properties *)
Section Properties.
Context `{UnicodeTables, FmtFallback, BufferGrowth, Codec}.

Section Classification.
Context {R B : Type} `{ReaderSpec B, !StreamBody B}.

(** C8: every readable response other than 200 becomes an error with the
    status of the response as its HTTP code, and its body is closed.  If the
    body is a Reply - of the media type, or of either encoding when only the
    version header marks the response - it is the service's error, with the
    code and message of the Reply; otherwise its message is the raw body and
    it is an infrastructure error, except for an unmarked response whose
    status is neither 404 nor 5xx.  (docs/spec.md wants an unmarked 429 to be
    an infrastructure error and no marked response to be one.) *)
Theorem Do_error_response (c : Client R B) req out resp :
  http_Do c req = inl resp -> StatusCode resp <> CodeOK -> rd_end (Resp_Body resp) = ErrSentinel EOF ->
  let body := rd_bytes (Resp_Body resp) in
  exists b e d, Do c req out = (Some (sb_close b), out, Some e) /\
    as_Error e = Some d /\ HTTPCode d = StatusCode resp /\
    ((exists r, carries_reply resp body r /\ e = NewReplyError req resp r /\
        Code d = Reply_Code r /\ Message d = Reply_Message r /\ as_infraChecker e = Some false) \/
     ((forall r, ~ carries_reply resp body r) /\ Code d = Itoa (StatusCode resp) /\
        Message d = to_string body /\
        (as_infraChecker e = Some false <-> unmarked resp /\ infra_status (StatusCode resp) = false))).
Proof.
  intros Hdo Hc He body. destruct (handleErrorResponse_readable req resp He) as (b & Eh).
  fold body in Eh. unfold Do. rewrite Hdo. replace (StatusCode resp =? CodeOK) with false by lia.
  cbn [negb]. rewrite Eh. exists b, (classify req resp body).
  destruct (classify_cases req resp body) as [(r & Hr & ->)|(Hn & [(Hu & Hi & ->)|(Hi & ->)])];
    eexists; (split; [reflexivity|]); (split; [apply as_Error_client|]); (split; [done|]).
  - left. exists r. split; [exact Hr|]. repeat (split; [reflexivity|]). reflexivity.
  - right. split; [exact Hn|]. repeat (split; [reflexivity|]). split; [by split|reflexivity].
  - right. split; [done|]. split; [done|]. split; [done|]. split; [done|].
    intros [Hu Hs]. by rewrite Hi in Hs.
Qed.

(** C6: a service error crosses the wire: what ReplyError sends for an error
    (wrapped or not) the client's Do returns as a ClientError with the same
    status, code and message and with every detail of the error, and it is not
    an infrastructure error. *)
Theorem error_round_trip w rh texts e d r enc ct p (c : Client R B) req out :
  rw_status w = None -> rw_faults w = [] -> rw_body w = [] ->
  as_Error e = Some d -> ProtoMessage d = Some (MReply r) ->
  200 < HTTPCode d <= 999 -> body_allowed (HTTPCode d) = true -> `{CodecLaws} ->
  accept_encoding rh = Some (enc, ct) -> marshal enc (Some (MReply r)) = inl p ->
  exists w' rh', ReplyError w rh (Some (wrapped texts e)) = Ret (w', rh') /\
    forall resp, arrives w' resp -> http_Do c req = inl resp ->
      exists b e' d', Do c req out = (Some (sb_close b), out, Some e') /\ as_Error e' = Some d' /\
        HTTPCode d' = HTTPCode d /\ Code d' = Reply_Code r /\ Message d' = Reply_Message r /\
        as_infraChecker e' = Some false /\
        (HTTPCode d <> CodeTooManyRequests ->
         forall k v, map_get_ok (Reply_Details r) k = Some v -> map_get_ok (Details d') k = Some v).
Proof.
  intros Hs Hf Hb He Hp Hcode Hbody Hlaws Ha Hm.
  exists (sent_reply w (HTTPCode d) ct p), rh. split.
  { unfold ReplyError. rewrite as_Error_wrapped, He, Hp. apply (Reply_ok w rh (HTTPCode d) _ enc ct p Hs ltac:(lia) Ha Hm). }
  intros resp Harr Hdo.
  destruct (Do_error_reply w _ enc ct (HTTPCode d) r p c req out resp Hf Hb Ha Hbody
    ltac:(unfold CodeOK; lia) Hm Harr Hdo) as (b & Edo & Hst).
  exists b, (NewReplyError req resp (norm_reply r)). eexists. split; [exact Edo|].
  split; [apply as_Error_client|]. split; [done|]. split; [done|]. split; [done|]. split; [done|].
  intros Hne k v Hk. destruct (reply_error_details req resp (norm_reply r) k v) as (dm & E & Hd).
  - congruence.
  - unfold map_get_ok, norm_reply, norm_details in *. cbn [Reply_Details].
    destruct (Reply_Details r) as [m|]; [|done]. case_decide; [by subst|done].
  - injection E as <-. exact Hd.
Qed.

(** C7: a reply crosses the wire: what Reply sends with status 200 the client's
    Do decodes into the caller's message, in the encoding the client's Accept
    header asked for, and the body is closed. *)
Theorem reply_round_trip w rh m enc ct p (c : Client R B) req out out' :
  rw_status w = None -> rw_faults w = [] -> rw_body w = [] ->
  accept_encoding rh = Some (enc, ct) -> marshal enc (Some m) = inl p ->
  unmarshal enc p out = (out', None) ->
  exists w' rh', Service.Reply w rh CodeOK (Some m) = Ret (w', rh') /\
    forall resp, arrives w' resp -> http_Do c req = inl resp ->
      exists b, Do c req out = (Some (sb_close b), out', None).
Proof.
  intros Hs Hf Hb Ha Hm Hu. exists (sent_reply w CodeOK ct p), rh.
  split; [apply (Reply_ok w rh CodeOK _ enc ct p Hs ltac:(done) Ha Hm)|].
  intros resp Harr Hdo. exact (Do_reply w _ enc ct p c req out out' resp Hf Hb Ha Hu Harr Hdo).
Qed.

(** DoContent appends the whole body of a 200 to the caller's buffer and
    returns the response headers; when the body cannot be read the buffer
    keeps what was read and the error is a 452 that wraps the read error; on
    any other status the buffer is untouched and the error is the classified
    one.  The body is closed in every case. *)
Theorem DoContent_spec (c : Client R B) req buf resp :
  http_Do c req = inl resp ->
  exists b, DoContent c req buf =
    if StatusCode resp =? CodeOK then
      (Some (sb_close b), buf ++ rd_bytes (Resp_Body resp),
       if is_EOF (rd_end (Resp_Body resp)) then inl (Resp_Header resp)
       else inr (read_body_error req resp (rd_end (Resp_Body resp))))
    else
      (Some (sb_close b), buf,
       inr (if is_EOF (rd_end (Resp_Body resp)) then classify req resp (rd_bytes (Resp_Body resp))
            else read_body_error req resp (rd_end (Resp_Body resp)))).
Proof.
  intros Hdo. unfold DoContent. rewrite Hdo. destruct (StatusCode resp =? CodeOK); cbn [negb].
  - destruct (io_Copy_spec (Resp_Body resp) buf) as (b & -> & _). exists b.
    by destruct (is_EOF (rd_end (Resp_Body resp))).
  - unfold handleErrorResponse. destruct (io_Copy_spec (Resp_Body resp) []) as (b & -> & _). exists b.
    by destruct (is_EOF (rd_end (Resp_Body resp))).
Qed.
End Classification.

(** C21: no response body leaks: whatever the response, Do and DoContent leave
    its body closed, and DoBytes closes it exactly when it returns an error,
    handing out the body unread otherwise. *)
Theorem bodies_closed {R S : Type} `{FiniteReader S} (c : Client R (Body S)) req out buf resp :
  http_Do c req = inl resp ->
  (exists b, fst (fst (Do c req out)) = Some b /\ b_closed b = true) /\
  (exists b, fst (fst (DoContent c req buf)) = Some b /\ b_closed b = true) /\
  match DoBytes c req with
  | inl b => b = Resp_Body resp
  | inr (b, _) => exists b', b = Some b' /\ b_closed b' = true
  end.
Proof.
  intros Hdo. unfold Do, DoContent, DoBytes, handleErrorResponse. rewrite Hdo.
  destruct (io_Copy [] (Resp_Body resp)) as [b [body e]].
  destruct (io_Copy buf (Resp_Body resp)) as [b2 [body2 e2]].
  destruct (StatusCode resp =? CodeOK); cbn [negb]; [|by eauto 10].
  split; [|split].
  - destruct e as [x|]; [by eauto|]. destruct (unmarshalForMediaType _) as [enc|]; [|by eauto].
    destruct (unmarshal _ _ _) as [m [x|]]; by eauto.
  - destruct e2; by eauto.
  - case_decide; [done|]. by eauto.
Qed.

(** DoStream on a 200 response of a streaming type returns a reader of its
    body in the announced encoding, nothing read yet, with the client's limits:
    4 MB and 60 s when they are 0, none when they are negative. *)
Theorem DoStream_opens {R B} `{StreamBody B} (c : Client R B) req resp enc :
  http_Do c req = inl resp -> StatusCode resp = CodeOK ->
  stream_encoding (normalizeMediaType (Header_Get (Resp_Header resp) "Content-Type")) = Some enc ->
  DoStream c req = inl (new_streamReader (Resp_Body resp) CodeOK enc
    (if MaxFramePayload c =? 0 then 4000000 else MaxFramePayload c)
    (if HeartbeatTimeout c =? 0 then 60000000000 else HeartbeatTimeout c)).
Proof.
  intros Hdo Hst Henc. unfold DoStream. rewrite Hdo, Hst. cbn [negb Z.eqb CodeOK Pos.eqb].
  unfold stream_response_encoding. rewrite Henc. reflexivity.
Qed.

(** DoStream cancels the request before it reads the body of an error
    response.  When the reads of a cancelled body fail, the service's Reply is
    lost: the error is a 452 that wraps context.Canceled, whatever the service
    answered. *)
Theorem DoStream_loses_reply {R} (c : Client R timed) req resp :
  http_Do c req = inl resp -> StatusCode resp <> CodeOK ->
  tb_closed (Resp_Body resp) = false -> tb_ctx (Resp_Body resp) = None ->
  exists b, DoStream c req = inr (Some b, read_body_error req resp (ErrSentinel Canceled)) /\
    tb_closed b = true.
Proof.
  intros Hdo Hst Hc Hx. unfold DoStream. rewrite Hdo.
  replace (StatusCode resp =? CodeOK) with false by lia. cbn [negb].
  unfold handleErrorResponse. cbn [with_RespBody Resp_Body].
  set (b := sb_cancel (Resp_Body resp)).
  assert (forall n, io_Read b n = (b, ([], Some (ErrSentinel Canceled)))) as Hr.
  { intros n. rewrite timed_io_Read. unfold timed_Read, b. cbn [sb_cancel timed_stream tb_closed tb_ctx].
    by rewrite Hc, Hx. }
  assert (io_Copy [] b = (b, ([], Some (ErrSentinel Canceled)))) as ->.
  { unfold io_Copy, Copy. cbn [read_from_loop length]. by rewrite Hr. }
  eexists. split; [reflexivity|]. done.
Qed.
End Properties.

(** ** Witnesses *)
Import ReferenceCodec.

Definition get_request : Request source := mkRequest "POST" "/v1/x" "http://h/v1/x" ∅ (mkBody [] false).

(** The client of a network that answers every request with [resp]. *)
Definition client_of {B} (resp : Response B) : Client source B := mkClient (fun _ => inl resp) 0 0.

(** A proxy's answer, in two reads. *)
Definition bad_gateway : Response (Body source) :=
  mkResponse 502 "502 Bad Gateway" (Header_Set ∅ "Content-Type" "text/html")
    (mkBody [Chunk (of_string "<html>"); Chunk (of_string "</html>")] false).

Lemma Do_error_response_witness :
  exists b e d, Do (client_of bad_gateway) get_request (MEvent 0 "") = (Some (sb_close b), MEvent 0 "", Some e) /\
    as_Error e = Some d /\ HTTPCode d = 502.
Proof.
  destruct (Do_error_response (client_of bad_gateway) get_request (MEvent 0 "") bad_gateway
    eq_refl ltac:(done) eq_refl) as (b & e & d & E1 & E2 & E3 & _).
  exists b, e, d. exact (conj E1 (conj E2 E3)).
Defined.

Definition not_found : goerror := NewServiceErrorWithCode 404 "NO_SUCH_USER" "gone" None (Some {["id" := "7"]}).
Definition not_found_reply : Messages.Reply := mkReply "NO_SUCH_USER" "gone" (Some {["id" := "7"]}).
Definition reply_bytes (m : message) : bytes := match marshal JSON (Some m) with inl b => b | inr _ => [] end.

(** What the client receives of what the server sent. *)
Definition received (w : ResponseWriter) : Response (Body source) :=
  match rw_status w with
  | Some (code, h) => mkResponse code (Itoa code) h (mkBody [Chunk (rw_body w)] false)
  | None => mkResponse 0 "" ∅ (mkBody [] false)
  end.

Lemma received_arrives w : rw_status w <> None -> arrives w (received w).
Proof.
  unfold arrives, received. destruct (rw_status w) as [[code h]|]; [|done]. intros _.
  cbn [StatusCode Resp_Header Resp_Body]. split; [done|]. split; [done|]. split; [|done].
  change (rw_body w ++ [] = rw_body w). apply app_nil_r.
Qed.

Definition committed (w : ResponseWriter) : bool := match rw_status w with Some _ => true | None => false end.

Lemma committed_arrives w : committed w = true -> arrives w (received w).
Proof. unfold committed. intros E. apply received_arrives. by destruct (rw_status w). Qed.

Definition sent_404 : ResponseWriter :=
  sent_reply (fresh_rw true []) 404 ContentTypeJSON (reply_bytes (MReply not_found_reply)).

Lemma accept_any : accept_encoding ∅ = Some (JSON, ContentTypeJSON).
Proof. vm_compute. reflexivity. Qed.
Lemma not_found_marshals :
  marshal JSON (Some (MReply not_found_reply)) = inl (reply_bytes (MReply not_found_reply)).
Proof. vm_compute. reflexivity. Qed.
Lemma hello_marshals :
  marshal JSON (Some (MSayHelloResponse "hi")) = inl (reply_bytes (MSayHelloResponse "hi")).
Proof. vm_compute. reflexivity. Qed.
Lemma hello_unmarshals :
  unmarshal JSON (reply_bytes (MSayHelloResponse "hi")) (MSayHelloResponse "") = (MSayHelloResponse "hi", None).
Proof. vm_compute. reflexivity. Qed.
Lemma replies_404 :
  ReplyError (fresh_rw true []) ∅ (Some (wrapped ["while handling"] not_found)) = Ret (sent_404, ∅).
Proof. vm_compute. reflexivity. Qed.

Lemma error_round_trip_witness :
  exists b e' d', Do (client_of (received sent_404)) get_request (MEvent 0 "") =
      (Some (sb_close b), MEvent 0 "", Some e') /\ as_Error e' = Some d' /\
    HTTPCode d' = 404 /\ Code d' = "NO_SUCH_USER" /\ Message d' = "gone" /\
    map_get_ok (Details d') "id" = Some "7".
Proof.
  destruct (error_round_trip (fresh_rw true []) ∅ ["while handling"] not_found _ not_found_reply JSON
    ContentTypeJSON (reply_bytes (MReply not_found_reply)) (client_of (received sent_404)) get_request
    (MEvent 0 "") eq_refl eq_refl eq_refl eq_refl eq_refl ltac:(done) eq_refl ref_codec_laws
    accept_any not_found_marshals) as (w' & rh' & E & Hall).
  assert (w' = sent_404) as ->.
  { pose proof (eq_trans (eq_sym E) replies_404) as Er.
    exact (f_equal (fun o => match o with Ret (w, _) => w | Panic _ => w' end) Er). }
  destruct (Hall (received sent_404) (received_arrives sent_404 ltac:(done)) eq_refl)
    as (b & e' & d' & E1 & E2 & E3 & E4 & E5 & _ & E6).
  exists b, e', d'. split; [exact E1|]. split; [exact E2|]. split; [exact E3|]. split; [exact E4|].
  split; [exact E5|]. refine (E6 _ "id" "7" _); [done|vm_compute; reflexivity].
Defined.

Definition sent_hello : ResponseWriter :=
  sent_reply (fresh_rw true []) 200 ContentTypeJSON (reply_bytes (MSayHelloResponse "hi")).

Lemma replies_hello :
  Service.Reply (fresh_rw true []) ∅ CodeOK (Some (MSayHelloResponse "hi")) = Ret (sent_hello, ∅).
Proof. vm_compute. reflexivity. Qed.

Lemma reply_round_trip_witness :
  exists b, Do (client_of (received sent_hello)) get_request (MSayHelloResponse "") =
    (Some (sb_close b), MSayHelloResponse "hi", None).
Proof.
  destruct (reply_round_trip (fresh_rw true []) ∅ (MSayHelloResponse "hi") JSON ContentTypeJSON
    (reply_bytes (MSayHelloResponse "hi")) (client_of (received sent_hello)) get_request
    (MSayHelloResponse "") (MSayHelloResponse "hi") eq_refl eq_refl eq_refl
    accept_any hello_marshals hello_unmarshals) as (w' & rh' & E & Hall).
  assert (w' = sent_hello) as ->.
  { pose proof (eq_trans (eq_sym E) replies_hello) as Er.
    exact (f_equal (fun o => match o with Ret (w, _) => w | Panic _ => w' end) Er). }
  apply (Hall (received sent_hello)); [|reflexivity].
  apply received_arrives. done.
Defined.

Lemma DoContent_spec_witness :
  exists b, DoContent (client_of (received sent_hello)) get_request (of_string "x") =
    (Some (sb_close b), of_string "x" ++ reply_bytes (MSayHelloResponse "hi"),
     inl (Resp_Header (received sent_hello))).
Proof.
  destruct (DoContent_spec (client_of (received sent_hello)) get_request (of_string "x")
    (received sent_hello) eq_refl) as (b & E).
  exists b. exact E.
Defined.

Lemma bodies_closed_witness :
  exists b, fst (fst (Do (client_of bad_gateway) get_request (MEvent 0 ""))) = Some b /\ b_closed b = true.
Proof.
  exact (proj1 (bodies_closed (client_of bad_gateway) get_request (MEvent 0 "") [] bad_gateway eq_refl)).
Defined.

Definition stream_response : Response (Body source) :=
  mkResponse 200 "200 OK" (Header_Set ∅ "Content-Type" ContentStreamJSON) (mkBody [] false).

Lemma DoStream_opens_witness :
  DoStream (client_of stream_response) get_request =
    inl (new_streamReader (mkBody [] false) 200 JSON 4000000 60000000000).
Proof. apply (DoStream_opens (client_of stream_response) get_request stream_response JSON); reflexivity. Defined.

(** A 404 with a Reply, on a connection that honours cancellation. *)
Definition timed_404 : Response timed :=
  mkResponse 404 "404 Not Found" (Header_Set ∅ "Content-Type" ContentTypeJSON)
    (mkTimed [(0, Arrive (Chunk (reply_bytes (MReply not_found_reply))))] None None false).

Lemma DoStream_loses_reply_witness :
  exists b, DoStream (client_of timed_404) get_request =
      inr (Some b, read_body_error get_request timed_404 (ErrSentinel Canceled)) /\ tb_closed b = true.
Proof.
  apply (DoStream_loses_reply (client_of timed_404) get_request timed_404); [reflexivity|done|done|done].
Defined.
