(* ===== verification/Retry.v ===== *)
(** * Retry: retry/retry.go and policies.go

    The intervals [BackOff] and [Sleep], [Policy], [shouldRetry],
    [rateLimitDuration] and the loop [On].  Time, the context and the source
    of random numbers are the environment, a class on a world state that the
    operation shares. *)
From Stdlib Require Import ZArith Lia.
From stdpp Require Import base gmap strings list.
From S2P Require Import Prelude GoStrings GoFloat Messages Errors.
Local Open Scope Z_scope.

(** ** The environment *)
Class RetryEnv (W : Type) := {
  ctx_err : W -> option goerror;             (* ctx.Err(); [Some] when ctx.Done() is closed *)
  wait : W -> Z -> W * option goerror;       (* until the timer fires, or ctx.Done(): ctx.Err() *)
  rand_Float64 : W -> W * float64;           (* the global source *)
  own_Float64 : W -> W * float64             (* BackOff.Rand *)
}.

(** A wait that the context ends gives the context's error, and a context that
    has ended stays so. *)
Class RetryEnvLaws (W : Type) `{RetryEnv W} := {
  wait_ctx : forall w d w' e, wait w d = (w', Some e) -> ctx_err w' = Some e;
  rand_ctx : forall w, ctx_err (fst (rand_Float64 w)) = ctx_err w;
  own_ctx : forall w, ctx_err (fst (own_Float64 w)) = ctx_err w
}.

(** ** Intervals *)
Definition Nanosecond : Z := 1.
Definition Millisecond : Z := 10 ^ 6.
Definition Second : Z := 10 ^ 9.

Record BackOff := mkBackOff {
  Min : Z;
  Max : Z;
  Factor : float64;
  Jitter : float64;
  Rand : bool        (* whether a source of its own is set *)
}.

(** The delay for the random number [r] (unused without jitter). *)
Definition BackOff_delay `{FloatConv} (b : BackOff) (attempts : Z) (r : float64) : Z :=
  let d := float_to_int64 (fmul (float_of_Z (Min b)) (Pow (Factor b) attempts)) in
  let d :=
    if fltb (float_of_Z 0) (Jitter b) then float_to_int64 (fmul (fmul r (Jitter b)) (float_of_Z d))
    else d in
  if Max b <? d then Max b
  else if d <? Min b then Min b
  else d.

Definition BackOff_Next {W} `{FloatConv, RetryEnv W} (w : W) (b : BackOff) (attempts : Z) : W * Z :=
  if fltb (float_of_Z 0) (Jitter b) then
    let '(w, r) := rand_Float64 w in
    let '(w, r) := if Rand b then own_Float64 w else (w, r) in
    (w, BackOff_delay b attempts r)
  else (w, BackOff_delay b attempts (float_of_Z 0)).

Definition DefaultBackOff : BackOff :=
  mkBackOff (500 * Millisecond) (5 * Second) (float_of_Z 2) (float_of_ratio 2 10) false.

(** [type Interval interface]; an implementation of the caller is a function. *)
Inductive Interval :=
| IBackOff (b : BackOff)
| ISleep (d : Z)
| ICustom (next : Z -> Z).

Definition Interval_Next {W} `{FloatConv, RetryEnv W} (w : W) (i : Interval) (attempts : Z) : W * Z :=
  match i with
  | IBackOff b => BackOff_Next w b attempts
  | ISleep d => (w, d)
  | ICustom next => (w, next attempts)
  end.

(** ** Policies *)

(** [None] is the nil slice, a nil interval. *)
Record Policy := mkPolicy {
  P_Interval : option Interval;
  OnCodes : option (list Z);
  OnInfraCodes : option (list Z);
  Attempts : Z
}.

Definition Twice : Policy := mkPolicy (Some (IBackOff DefaultBackOff)) None None 2.
Definition UntilSuccess : Policy := mkPolicy (Some (IBackOff DefaultBackOff)) None None 0.

Definition contains (l : list Z) (x : Z) : bool := bool_decide (x ∈ l).

(** For a non-nil error. *)
Definition retryable (err : goerror) (policy : Policy) : bool :=
  match OnCodes policy, OnInfraCodes policy with
  | None, None => true
  | codes, infra =>
    match as_httpCoder err with
    | None => false
    | Some code =>
      if match as_infraChecker err with Some b => b | None => false end then
        match infra with Some l => contains l code | None => false end
      else
        match codes with Some l => contains l code | None => false end
    end
  end.

Definition shouldRetry (err : option goerror) (policy : Policy) : outcome bool :=
  match err with
  | None => Panic "err cannot be nil"
  | Some e => Ret (retryable e policy)
  end.

Definition detailRateLimitReset : string := "ratelimit-reset".
Definition detailRetryAfter : string := "http.retry-after".

(** The first key with a positive number of seconds. *)
Fixpoint rate_limit_keys `{FloatConv, FloatParse} (keys : list string) (details : gmap string string) : Z :=
  match keys with
  | [] => 0
  | key :: keys =>
    match details !! key with
    | Some v =>
      match ParseFloat v with
      | Some seconds =>
        if fltb (float_of_Z 0) seconds then float_to_int64 (fmul seconds (float_of_Z Second))
        else rate_limit_keys keys details
      | None => rate_limit_keys keys details
      end
    | None => rate_limit_keys keys details
    end
  end.

Definition rateLimitDuration `{FloatConv, FloatParse} (err : goerror) : Z :=
  match as_detailer err with
  | Some (Some details) => rate_limit_keys [detailRateLimitReset; detailRetryAfter] details
  | _ => 0
  end.

(** ** The retry loop *)
Section On.
Context {W : Type} `{FloatConv, FloatParse, RetryEnv W}.
Context (operation : W -> Z -> W * option goerror).

(** The time slept after the attempt, from the error or from the interval. *)
Definition sleep_duration (w : W) (i : Interval) (err : goerror) (attempt : Z) : W * Z :=
  let d := rateLimitDuration err in
  if d =? 0 then Interval_Next w i attempt else (w, d).

Fixpoint On_loop (fuel : nat) (w : W) (p : Policy) (i : Interval) (attempt : Z)
    : option (W * option goerror) :=
  match fuel with
  | O => None
  | S fuel =>
    match ctx_err w with
    | Some e => Some (w, Some e)
    | None =>
      let '(w, err) := operation w attempt in
      match err with
      | None => Some (w, None)
      | Some e =>
        if negb (Attempts p =? 0) && (Attempts p <=? attempt) then Some (w, Some e)
        else if retryable e p then
          let '(w, d) := sleep_duration w i e attempt in
          let '(w, ended) := wait w d in
          match ended with
          | Some x => Some (w, Some x)
          | None => On_loop fuel w p i (int64 (attempt + 1))
          end
        else Some (w, Some e)
      end
    end
  end.

(** [None] when the loop goes on after [fuel] attempts. *)
Definition On (fuel : nat) (w : W) (p : Policy) : outcome (option (W * option goerror)) :=
  match P_Interval p with
  | None => Panic "Policy.Interval cannot be nil"
  | Some i => Ret (On_loop fuel w p i 1)
  end.
End On.

(** ** policies.go *)
Definition RetryableCodes : list Z := [CodeTooManyRequests; CodeRetryRequest; CodeInternalError].
Definition RetryableInfraCodes : list Z := [CodeNotFound; 502; 503; 504].
Definition OnRetryable : Policy :=
  mkPolicy (Some (IBackOff DefaultBackOff)) (Some RetryableCodes) (Some RetryableInfraCodes) 0.

(** ** A world with a clock

    Time, the end of the context, the random numbers to come and the pauses
    made so far. *)
Record clock := mkClock {
  now : Z;
  deadline : option (Z * goerror);   (* when the context ends, with which error *)
  draws : list float64;
  waits : list Z
}.

Definition clock_err (c : clock) : option goerror :=
  match deadline c with Some (t, e) => if t <=? now c then Some e else None | None => None end.

(** A timer of no or negative duration fires at once. *)
Definition clock_wait (c : clock) (d : Z) : clock * option goerror :=
  let stop := now c + Z.max 0 d in
  match deadline c with
  | Some (t, e) =>
    if t <=? stop then (mkClock (Z.max (now c) t) (deadline c) (draws c) (waits c ++ [d]), Some e)
    else (mkClock stop (deadline c) (draws c) (waits c ++ [d]), None)
  | None => (mkClock stop None (draws c) (waits c ++ [d]), None)
  end.

Definition clock_draw (c : clock) : clock * float64 :=
  match draws c with
  | r :: l => (mkClock (now c) (deadline c) l (waits c), r)
  | [] => (c, float_of_Z 0)
  end.

#[export] Instance clock_env : RetryEnv clock :=
  {| ctx_err := clock_err; wait := clock_wait; rand_Float64 := clock_draw; own_Float64 := clock_draw |}.

#[export] Instance clock_laws : RetryEnvLaws clock.
Proof.
  split.
  - intros [n [[t x]|] dr ws] d w' e; cbn; unfold clock_wait; cbn; [|done].
    destruct (t <=? n + Z.max 0 d); [|done]. intros [= <- <-].
    unfold clock_err. cbn. by replace (t <=? Z.max n t) with true by lia.
  - intros [n dl [|r l] ws]; done.
  - intros [n dl [|r l] ws]; done.
Qed.

(** ** A world with the variables a closure captures *)
#[export] Instance captured_env {W L} `{RetryEnv W} : RetryEnv (W * L) := {|
  ctx_err s := ctx_err (fst s);
  wait s d := let '(w, e) := wait (fst s) d in ((w, snd s), e);
  rand_Float64 s := let '(w, r) := rand_Float64 (fst s) in ((w, snd s), r);
  own_Float64 s := let '(w, r) := own_Float64 (fst s) in ((w, snd s), r)
|}.

#[export] Instance captured_laws {W L} `{RetryEnvLaws W} : RetryEnvLaws (W * L).
Proof.
  split.
  - intros [w l] d w' e. cbn. destruct (wait w d) as [w1 e1] eqn:E. intros [= <- ->]. cbn.
    by eapply wait_ctx.
  - intros [w l]. cbn. pose proof (rand_ctx w). by destruct (rand_Float64 w).
  - intros [w l]. cbn. pose proof (own_ctx w). by destruct (own_Float64 w).
Qed.
