(* ===== verification/RetrySpec.v ===== *)
(** * RetrySpec: the theorems on retries

    The intervals stay within their bounds; [On] calls the operation with the
    attempts 1, 2, ... and returns for one of the documented reasons; which
    errors the policies retry; the rate-limit delays. *)
From Stdlib Require Import ZArith Lia.
From stdpp Require Import base gmap strings list list_numbers.
From S2P Require Import Prelude GoStrings GoFloat Messages Errors Http Client Retry.
From S2P Require ReferenceCodec.
Local Open Scope Z_scope.

(** ** Worlds that log the calls of the operation *)
Class CallLog (W : Type) `{RetryEnv W} := {
  calls : W -> list (Z * option goerror);
  wait_calls : forall w d, calls (fst (wait w d)) = calls w;
  rand_calls : forall w, calls (fst (rand_Float64 w)) = calls w;
  own_calls : forall w, calls (fst (own_Float64 w)) = calls w
}.

Definition logs {W} `{CallLog W} (operation : W -> Z -> W * option goerror) : Prop :=
  forall w n, calls (fst (operation w n)) = calls w ++ [(n, snd (operation w n))].

(** The calls with the attempts from [n] on. *)
Fixpoint numbered (n : Z) (l : list (option goerror)) : list (Z * option goerror) :=
  match l with [] => [] | e :: t => (n, e) :: numbered (n + 1) t end.

Lemma length_numbered n l : length (numbered n l) = length l.
Proof. revert n. induction l as [|e l IH]; intros n; simpl; [done|by rewrite IH]. Qed.

#[export] Instance logged_calls {W} `{RetryEnv W} : CallLog (W * list (Z * option goerror)).
Proof.
  refine {| calls := snd |}; intros [w l] *; cbn.
  - by destruct (wait w d).
  - by destruct (rand_Float64 w).
  - by destruct (own_Float64 w).
Defined.

(** The operation [f] of a world, with its calls logged. *)
Definition logged {W} (f : W -> Z -> W * option goerror) (s : W * list (Z * option goerror)) (n : Z)
    : (W * list (Z * option goerror)) * option goerror :=
  let '(w, e) := f (fst s) n in ((w, snd s ++ [(n, e)]), e).

Lemma logged_logs {W} `{RetryEnv W} (f : W -> Z -> W * option goerror) : logs (logged f).
Proof. intros [w l] n. unfold logged. cbn [fst snd calls logged_calls]. by destruct (f w n). Qed.

(** ** Lemmas *)
Section Loop.
Context {W : Type} `{FloatConv, FloatParse, CallLog W}.

Lemma Interval_Next_calls w i n : calls (fst (Interval_Next w i n)) = calls w.
Proof.
  destruct i as [b|d|next]; try done. cbn [Interval_Next]. unfold BackOff_Next.
  destruct (fltb _ _); [|done]. pose proof (rand_calls w) as Hr.
  destruct (rand_Float64 w) as [w1 r]. cbn [fst] in Hr. destruct (Rand b); [|done].
  pose proof (own_calls w1) as Ho. destruct (own_Float64 w1) as [w2 r2]. cbn [fst] in *. congruence.
Qed.

Lemma sleep_duration_calls w i e n : calls (fst (sleep_duration w i e n)) = calls w.
Proof. unfold sleep_duration. destruct (_ =? 0); [apply Interval_Next_calls|done]. Qed.

Context (operation : W -> Z -> W * option goerror) (Hlogs : logs operation) `{!RetryEnvLaws W}.

(** How a run of the loop ends, after the retried errors [es]. *)
Inductive run_end (p : Policy) (attempt : Z) (es : list goerror) (w w' : W) : option goerror -> Prop :=
| by_context x :
    ctx_err w' = Some x -> calls w' = calls w ++ numbered attempt (Some <$> es) ->
    run_end p attempt es w w' (Some x)
| by_success :
    calls w' = calls w ++ numbered attempt ((Some <$> es) ++ [None]) ->
    run_end p attempt es w w' None
| by_failure x :
    calls w' = calls w ++ numbered attempt ((Some <$> es) ++ [Some x]) ->
    retryable x p = false \/ (Attempts p <> 0 /\ Attempts p <= attempt + Z.of_nat (length es)) ->
    run_end p attempt es w w' (Some x).

Lemma On_loop_end fuel p i : forall w attempt w' r,
  1 <= attempt -> attempt + Z.of_nat fuel <= max_int64 ->
  On_loop operation fuel w p i attempt = Some (w', r) ->
  exists es, run_end p attempt es w w' r /\ Forall (fun e => retryable e p = true) es /\
    (0 < Attempts p -> es <> [] -> attempt + Z.of_nat (length es) <= Attempts p).
Proof.
  induction fuel as [|fuel IH]; intros w attempt w' r Ha Hf; [done|]. cbn [On_loop].
  destruct (ctx_err w) as [x|] eqn:Ec.
  { intros [= <- <-]. exists []. split; [|by split]. apply by_context; [done|]. cbn. by rewrite app_nil_r. }
  pose proof (Hlogs w attempt) as Hl. destruct (operation w attempt) as [w1 [e|]] eqn:Eo; cbn [fst snd] in Hl.
  2:{ intros [= <- <-]. exists []. split; [by apply by_success|by split]. }
  destruct (negb (Attempts p =? 0) && (Attempts p <=? attempt)) eqn:El.
  { intros [= <- <-]. exists []. split; [|by split]. apply by_failure; [done|]. cbn [length]. lia. }
  destruct (retryable e p) eqn:Er.
  2:{ intros [= <- <-]. exists []. split; [|by split]. apply by_failure; [done|]. by left. }
  pose proof (sleep_duration_calls w1 i e attempt) as Hs.
  destruct (sleep_duration w1 i e attempt) as [w2 d]. cbn [fst] in Hs.
  pose proof (wait_calls w2 d) as Hw. destruct (wait w2 d) as [w3 [x|]] eqn:Ew; cbn [fst] in Hw.
  - intros [= <- <-]. exists [e]. split; [|split].
    + apply by_context; [by eapply wait_ctx|]. cbn. congruence.
    + by repeat constructor.
    + intros Hp _. cbn [length]. lia.
  - rewrite int64_id by (unfold min_int64, max_int64 in *; lia). intros E.
    destruct (IH w3 (attempt + 1) w' r ltac:(lia) ltac:(lia) E) as (es & Hend & Hes & Hn).
    exists (e :: es). split; [|split; [by constructor|]].
    + destruct Hend as [x Hx Hc|Hc|x Hc Hx].
      * apply by_context; [done|]. rewrite Hc, Hw, Hs, Hl, <-app_assoc. done.
      * apply by_success. rewrite Hc, Hw, Hs, Hl, <-app_assoc. done.
      * apply by_failure; [rewrite Hc, Hw, Hs, Hl, <-app_assoc; done|].
        destruct Hx as [?|[? ?]]; [by left|right; cbn [length]; lia].
    + intros Hp _. cbn [length]. destruct es as [|e2 es]; [cbn [length]; lia|].
      specialize (Hn Hp ltac:(done)). lia.
Qed.

(** A policy with a positive number of attempts needs no more than that. *)
Lemma On_loop_total fuel p i : forall w attempt,
  1 <= attempt -> 0 < Attempts p <= max_int64 ->
  Attempts p < attempt + Z.of_nat fuel -> (0 < fuel)%nat ->
  is_Some (On_loop operation fuel w p i attempt).
Proof.
  induction fuel as [|fuel IH]; intros w attempt Ha Hp Hf Hpos; [lia|]. cbn [On_loop].
  destruct (ctx_err w); [by eauto|]. destruct (operation w attempt) as [w1 [e|]]; [|by eauto].
  destruct (negb (Attempts p =? 0) && (Attempts p <=? attempt)) eqn:El; [by eauto|].
  destruct (retryable e p); [|by eauto]. destruct (sleep_duration w1 i e attempt) as [w2 d].
  destruct (wait w2 d) as [w3 [x|]]; [by eauto|].
  rewrite int64_id by (unfold min_int64, max_int64 in *; lia). apply IH; lia.
Qed.
End Loop.

Lemma BackOff_delay_bounds `{FloatConv} b n r :
  Min b <= Max b -> Min b <= BackOff_delay b n r <= Max b.
Proof.
  intros Hb. unfold BackOff_delay.
  set (d := if fltb _ _ then _ else _).
  destruct (Z.ltb_spec (Max b) d); [lia|]. destruct (Z.ltb_spec d (Min b)); lia.
Qed.

(** *** Errors of the client *)
Lemma as_httpCoder_client c : as_httpCoder (ErrClient c) = Some (ce_httpCode c).
Proof. done. Qed.
Lemma as_infraChecker_client c : as_infraChecker (ErrClient c) = Some (ce_isInfraError c).
Proof. done. Qed.
Lemma as_detailer_client c : as_detailer (ErrClient c) = Some (ce_details c).
Proof. done. Qed.

(** ** Properties *)

(** Whatever the number of attempts, the factor, the jitter, the random
    numbers and the conversion of the platform, a BackOff with Min <= Max
    never returns a delay outside [Min, Max], and draws from the random
    sources leave the context alone. *)
Theorem BackOff_Next_bounds {W} `{FloatConv, RetryEnvLaws W} (w : W) b n :
  Min b <= Max b ->
  exists w' d, BackOff_Next w b n = (w', d) /\ Min b <= d <= Max b /\ ctx_err w' = ctx_err w.
Proof.
  intros Hb. unfold BackOff_Next. destruct (fltb _ _).
  - pose proof (rand_ctx w) as Hr. destruct (rand_Float64 w) as [w1 r]. cbn [fst] in Hr.
    destruct (Rand b).
    + pose proof (own_ctx w1) as Ho. destruct (own_Float64 w1) as [w2 r2]. cbn [fst] in Ho.
      eexists _, _. split; [reflexivity|]. split; [by apply BackOff_delay_bounds|congruence].
    + eexists _, _. split; [reflexivity|]. split; [by apply BackOff_delay_bounds|done].
  - eexists _, _. split; [reflexivity|]. split; [by apply BackOff_delay_bounds|done].
Qed.

(** The default backoff without its jitter. *)
Definition plain_backoff : BackOff := mkBackOff (500 * Millisecond) (5 * Second) (float_of_Z 2) (float_of_Z 0) false.

(** The nominal delays: doubling from Min up to Max. *)
Definition doubling (n : Z) : Z := Z.min (5 * Second) (500 * Millisecond * 2 ^ n).

Lemma forallb_seqZ (f : Z -> bool) a len n :
  forallb f (seqZ a len) = true -> a <= n < a + len -> f n = true.
Proof. rewrite forallb_forall. intros Hf Hn. apply Hf, list_elem_of_In, elem_of_seqZ. lia. Qed.

(** Without jitter the default backoff doubles from 1 s to its maximum of
    5 s and stays there up to attempt 34; from attempt 35 on the product
    leaves the range of int64, so that the delay depends on the platform: on
    amd64 it falls back to Min, 500 ms, on arm64 it stays at Max (checked up
    to attempt 1100, where 2^n is no float any more). *)
Theorem default_backoff_delays n r :
  1 <= n <= 1100 ->
  @BackOff_delay amd64_conv plain_backoff n r = (if n <=? 34 then doubling n else 500 * Millisecond) /\
  @BackOff_delay arm64_conv plain_backoff n r = doubling n.
Proof.
  intros Hn.
  assert (forallb (fun n => (@BackOff_delay amd64_conv plain_backoff n (float_of_Z 0) =?
      (if n <=? 34 then doubling n else 500 * Millisecond)) &&
    (@BackOff_delay arm64_conv plain_backoff n (float_of_Z 0) =? doubling n)) (seqZ 1 1100) = true)
    as Hall by (vm_compute; reflexivity).
  pose proof (forallb_seqZ _ _ _ n Hall ltac:(lia)) as Hc. cbv beta in Hc.
  apply andb_true_iff in Hc as [E1%Z.eqb_eq E2%Z.eqb_eq]. split; [exact E1|exact E2].
Qed.

Section OnProperties.
Context {W : Type} `{FloatConv, FloatParse, CallLog W, !RetryEnvLaws W}.

(** C9: a run of On that returns called the operation with the attempts 1, 2,
    ..., k, every call but the last failed with an error the policy retries,
    and it returned because the context had ended (its error), the last call
    succeeded (nil), or the last call failed (its error) and either the policy
    does not retry that error or the attempts are used up; a policy with a
    positive number of attempts makes at most that many calls. *)
Theorem On_runs operation fuel w p w' r :
  logs operation -> Z.of_nat fuel < max_int64 ->
  On operation fuel w p = Ret (Some (w', r)) ->
  exists es, run_end p 1 es w w' r /\ Forall (fun e => retryable e p = true) es /\
    (0 < Attempts p -> Z.of_nat (length (calls w')) <= Z.of_nat (length (calls w)) + Attempts p).
Proof.
  intros Hl Hf. unfold On. destruct (P_Interval p) as [i|]; [|done]. intros [= E].
  destruct (On_loop_end operation Hl fuel p i w 1 w' r ltac:(lia) ltac:(lia) E) as (es & Hend & Hes & Hn).
  exists es. split; [done|]. split; [done|]. intros Hp. specialize (Hn Hp).
  assert (es <> [] -> 1 + Z.of_nat (length es) <= Attempts p) as Hn' by done. clear Hn.
  destruct es as [|e es].
  - destruct Hend as [x _ Hc|Hc|x Hc _]; rewrite Hc, length_app; simpl; lia.
  - specialize (Hn' ltac:(done)).
    destruct Hend as [x _ Hc|Hc|x Hc _]; rewrite Hc, length_app, length_numbered, ?length_app, length_fmap;
      simpl in *; lia.
Qed.

(** C18: On terminates for every policy with a number of attempts other than 0,
    whatever the operation, the errors and the context do: after at most that
    many rounds, and after a single one when the number is negative.  Without
    an interval it panics before the first call; with 0 attempts it goes on as
    long as the errors are retryable and the context lives. *)
Theorem On_terminates operation w p :
  (forall i, P_Interval p = Some i -> 0 < Attempts p <= max_int64 ->
     exists w' r, On operation (Z.to_nat (Attempts p)) w p = Ret (Some (w', r))) /\
  (forall i, P_Interval p = Some i -> Attempts p < 0 ->
     exists w' r, On operation 1 w p = Ret (Some (w', r))) /\
  (P_Interval p = None -> forall fuel, On operation fuel w p = Panic "Policy.Interval cannot be nil") /\
  (forall i, P_Interval p = Some i -> Attempts p = 0 ->
     (forall w, ctx_err w = None) -> (forall w d, snd (wait w d) = None) ->
     (forall w n, exists e, snd (operation w n) = Some e /\ retryable e p = true) ->
     forall fuel, On operation fuel w p = Ret None).
Proof.
  unfold On. split; [|split; [|split]].
  - intros i -> Hp.
    destruct (On_loop_total operation (Z.to_nat (Attempts p)) p i w 1 ltac:(lia) Hp ltac:(lia) ltac:(lia))
      as [[w' r] E]. exists w', r. by rewrite E.
  - intros i -> Hp. cbn [On_loop]. destruct (ctx_err w); [eauto|].
    destruct (operation w 1) as [w1 [e|]]; [|eauto].
    replace (negb (Attempts p =? 0) && (Attempts p <=? 1)) with true by lia. eauto.
  - intros -> fuel. done.
  - intros i -> Hp Hctx Hwait Hop fuel. f_equal. generalize 1 as n. revert w.
    induction fuel as [|fuel IH]; intros w n; [done|]. cbn [On_loop]. rewrite Hctx.
    destruct (Hop w n) as (e & Ee & Er). destruct (operation w n) as [w1 e1]. cbn [snd] in Ee. subst e1.
    rewrite Hp, Er. cbn [Z.eqb negb andb]. destruct (sleep_duration w1 i e n) as [w2 d].
    pose proof (Hwait w2 d) as Hw. destruct (wait w2 d) as [w3 x]. cbn [snd] in Hw. subst x. apply IH.
Qed.
End OnProperties.

(** C19: which errors of the client OnRetryable retries, wrapped or not: a
    service error with status 429, 454 or 500; an infrastructure error with
    404, 502, 503 or 504 and no other (docs/spec.md asks for every 5xx); a
    response that is neither Reply nor infrastructure
    error by the service's list; never an error of the client itself (no
    response, 452).  Twice and UntilSuccess retry every error. *)
Theorem OnRetryable_errors {R B} `{FmtFallback} texts (req : Request R) (resp : Response B) reply body err :
  retryable (wrapped texts (NewReplyError req resp reply)) OnRetryable =
    contains [429; 454; 500] (StatusCode resp) /\
  retryable (wrapped texts (NewInfraError req resp body)) OnRetryable =
    contains [404; 502; 503; 504] (StatusCode resp) /\
  retryable (wrapped texts (nonconforming_error req resp body)) OnRetryable =
    contains [429; 454; 500] (StatusCode resp) /\
  retryable (wrapped texts (do_error req err)) OnRetryable = false /\
  retryable (wrapped texts (read_body_error req resp err)) OnRetryable = false /\
  (forall e, retryable e Twice = true /\ retryable e UntilSuccess = true).
Proof.
  unfold retryable. cbn [OnCodes OnInfraCodes OnRetryable].
  rewrite !as_httpCoder_wrapped, !as_infraChecker_wrapped. repeat split.
Qed.

(** ** Rate limits *)
Lemma float_to_int64_trunc `{FloatConv} f z :
  trunc f = Some z -> min_int64 <= z <= max_int64 -> float_to_int64 f = z.
Proof.
  intros Ht Hz. unfold float_to_int64. rewrite Ht.
  by replace ((min_int64 <=? z) && (z <=? max_int64)) with true by lia.
Qed.

Lemma ParseFloat_decimal `{FloatParse} s :
  parse_special s = None -> extended_literal s = false -> ParseFloat s = parse_decimal s.
Proof. intros E1 E2. unfold ParseFloat. by rewrite E1, E2. Qed.

(** What [ParseFloat] and the conversion give for whole seconds. *)
Definition seconds_ok (n : Z) : bool :=
  bool_decide (parse_special (Itoa n) = None) && negb (extended_literal (Itoa n)) &&
  match parse_decimal (Itoa n) with
  | Some f => fltb (float_of_Z 0) f && bool_decide (trunc (fmul f (float_of_Z Second)) = Some (n * Second))
  | None => false
  end.

Lemma whole_seconds `{FloatConv, FloatParse} n :
  1 <= n <= 3600 ->
  exists f, ParseFloat (Itoa n) = Some f /\ fltb (float_of_Z 0) f = true /\
    float_to_int64 (fmul f (float_of_Z Second)) = n * Second.
Proof.
  intros Hn. assert (forallb seconds_ok (seqZ 1 3600) = true) as Hall by (vm_compute; reflexivity).
  pose proof (forallb_seqZ _ _ _ n Hall ltac:(lia)) as Hs. unfold seconds_ok in Hs.
  apply andb_true_iff in Hs as [Hs Hd]. apply andb_true_iff in Hs as [Hs1 Hs2].
  apply bool_decide_eq_true in Hs1. apply negb_true_iff in Hs2.
  rewrite (ParseFloat_decimal _ Hs1 Hs2). destruct (parse_decimal (Itoa n)) as [f|]; [|done].
  apply andb_true_iff in Hd as [Hd1 Hd2]. apply bool_decide_eq_true in Hd2.
  exists f. split; [done|]. split; [done|].
  apply float_to_int64_trunc; [done|]. unfold Second, min_int64, max_int64. lia.
Qed.

(** A 429 is retried after the delay the service asked for: when the
    response has a Retry-After of n seconds (up to an hour) and the Reply no
    ratelimit-reset, On sleeps exactly n seconds after that error, wrapped or
    not, whatever the interval of the policy. *)
Theorem retry_after_honoured {R B W} `{FloatConv, FloatParse, RetryEnv W} texts (req : Request R)
    (resp : Response B) reply n (w : W) i attempt :
  StatusCode resp = CodeTooManyRequests -> Header_Get (Resp_Header resp) "Retry-After" = Itoa n ->
  1 <= n <= 3600 -> map_get_ok (Reply_Details reply) detailRateLimitReset = None ->
  sleep_duration w i (wrapped texts (NewReplyError req resp reply)) attempt = (w, n * Second).
Proof.
  intros Hc Hh Hn Hr. destruct (whole_seconds n Hn) as (f & Ef & Hf & Hz).
  assert (rateLimitDuration (wrapped texts (NewReplyError req resp reply)) = n * Second) as E.
  { unfold rateLimitDuration. rewrite as_detailer_wrapped. unfold NewReplyError.
    rewrite Hc, Hh. cbn [Z.eqb CodeTooManyRequests Pos.eqb].
    rewrite decide_False by (intros E; rewrite E in Ef; by vm_compute in Ef).
    rewrite as_detailer_client. cbn [ce_details rate_limit_keys].
    rewrite lookup_insert_ne by done.
    rewrite lookup_union_r; [|unfold map_get_ok in Hr; by destruct (Reply_Details reply)].
    rewrite !lookup_insert_ne, lookup_empty by done.
    change detailRetryAfter with DetailsHttpRetryAfter. rewrite lookup_insert_eq.
    by rewrite Ef, Hf. }
  unfold sleep_duration. rewrite E. by replace (n * Second =? 0) with false by (unfold Second; lia).
Qed.

(** A rate-limit delay beyond the range of time.Duration is not bounded: on
    amd64 the conversion gives the smallest duration, whose timer fires at
    once, so that the retry does not wait at all. *)
Theorem rate_limit_overflow `{FloatParse} texts details c :
  details !! detailRateLimitReset = None -> details !! detailRetryAfter = Some "9300000000" ->
  let e := wrapped texts (ErrClient (mkClientError (Some details) "" None false "429" 429)) in
  @rateLimitDuration amd64_conv _ e = min_int64 /\
  (deadline c = None -> now (fst (wait c (@rateLimitDuration amd64_conv _ e))) = now c).
Proof.
  intros H1 H2 e.
  assert (@rateLimitDuration amd64_conv _ e = min_int64) as ->.
  { unfold rateLimitDuration, e. rewrite as_detailer_wrapped, as_detailer_client.
    cbn [ce_details rate_limit_keys]. rewrite H1, H2.
    rewrite ParseFloat_decimal by (vm_compute; reflexivity). vm_compute. reflexivity. }
  split; [done|]. intros Hd. change (now (fst (clock_wait c min_int64)) = now c).
  unfold clock_wait. rewrite Hd. cbn [fst now]. unfold min_int64. lia.
Qed.

(** ** Witnesses *)
Import ReferenceCodec.
#[local] Existing Instance amd64_conv.
Definition no_extended : FloatParse := {| parse_extended _ := None |}.
#[local] Existing Instance no_extended.

Definition start : clock := mkClock 0 None [float_of_ratio 1 2] [].

Lemma BackOff_Next_bounds_witness :
  exists w' d, BackOff_Next start DefaultBackOff 3 = (w', d) /\
    500 * Millisecond <= d <= 5 * Second /\ ctx_err w' = ctx_err start.
Proof. apply (BackOff_Next_bounds start DefaultBackOff 3). vm_compute. discriminate. Defined.

Lemma default_backoff_delays_witness :
  BackOff_delay plain_backoff 3 (float_of_Z 0) = 4 * Second /\
  BackOff_delay plain_backoff 35 (float_of_Z 0) = 500 * Millisecond.
Proof.
  split.
  - exact (proj1 (default_backoff_delays 3 (float_of_Z 0) ltac:(lia))).
  - exact (proj1 (default_backoff_delays 35 (float_of_Z 0) ltac:(lia))).
Defined.

(** An operation that fails twice with a 500, then succeeds. *)
Definition unavailable : goerror := NewServiceError 500 "try again" None None.
Definition flaky (c : clock) (n : Z) : clock * option goerror :=
  (c, if n <? 3 then Some unavailable else None).
Definition logged_start : clock * list (Z * option goerror) := (start, []).
Definition flaky_run : outcome (option ((clock * list (Z * option goerror)) * option goerror)) :=
  On (logged flaky) 5 logged_start OnRetryable.
Definition flaky_end : clock * list (Z * option goerror) :=
  match flaky_run with Ret (Some (w, _)) => w | _ => logged_start end.

Lemma On_runs_witness :
  calls flaky_end = [(1, Some unavailable); (2, Some unavailable); (3, None)] /\
  exists es, run_end OnRetryable 1 es logged_start flaky_end None /\
    Forall (fun e => retryable e OnRetryable = true) es.
Proof.
  split; [vm_compute; reflexivity|].
  destruct (On_runs (logged flaky) 5 logged_start OnRetryable flaky_end None (logged_logs flaky)
    ltac:(vm_compute; reflexivity) ltac:(vm_compute; reflexivity)) as (es & E1 & E2 & _).
  exists es. exact (conj E1 E2).
Defined.

Lemma On_terminates_witness :
  exists w' r, On (logged flaky) 2 logged_start Twice = Ret (Some (w', r)).
Proof.
  apply (proj1 (On_terminates (logged flaky) logged_start Twice) (IBackOff DefaultBackOff) eq_refl).
  vm_compute. split; [reflexivity|discriminate].
Defined.

Definition limited : Response unit :=
  mkResponse 429 "429 Too Many Requests" (Header_Set ∅ "Retry-After" "7") tt.
Definition some_request : Request unit := mkRequest "POST" "/v1/x" "/v1/x" ∅ (GoIO.mkBody tt false).

Lemma retry_after_honoured_witness :
  sleep_duration start (ISleep 1) (wrapped ["while calling"] (NewReplyError some_request limited (mkReply "429" "slow down" None))) 1 =
    (start, 7 * Second).
Proof.
  apply (retry_after_honoured ["while calling"] some_request limited (mkReply "429" "slow down" None) 7);
    [reflexivity|vm_compute; reflexivity|lia|reflexivity].
Defined.

Lemma rate_limit_overflow_witness :
  rateLimitDuration (ErrClient (mkClientError (Some {["http.retry-after" := "9300000000"]}) "" None false "429" 429)) =
    min_int64.
Proof.
  exact (proj1 (rate_limit_overflow [] {["http.retry-after" := "9300000000"]} start eq_refl eq_refl)).
Defined.
