(* ===== verification/RetryClient.v ===== *)
(** * RetryClient: a service, a client and retry.On together

    An operation that calls [Client.Do], in the loop of [On], against a
    service that answers some calls with errors: which answer the caller gets
    in the end, and that no body stays open. *)
From Stdlib Require Import ZArith Lia.
From stdpp Require Import base gmap strings list.
From S2P Require Import Prelude GoStrings GoFloat Messages Errors GoIO MediaType Http Codec Service.
From S2P Require Import StreamReader TimedBody Client ClientSpec Retry RetrySpec.
From S2P Require ReferenceCodec.
Local Open Scope Z_scope.

(** ** A context that goes on *)
Class LiveContext (W : Type) `{RetryEnv W} := {
  live : W -> Prop;
  live_ctx : forall w, live w -> ctx_err w = None;
  live_wait : forall w d, live w -> live (fst (wait w d)) /\ snd (wait w d) = None;
  live_rand : forall w, live w -> live (fst (rand_Float64 w));
  live_own : forall w, live w -> live (fst (own_Float64 w))
}.

(** A clock without a deadline. *)
#[export] Instance clock_live : LiveContext clock.
Proof.
  refine {| live c := deadline c = None |}.
  - intros c E. change (clock_err c = None). unfold clock_err. by rewrite E.
  - intros c d E. change (deadline (fst (clock_wait c d)) = None /\ snd (clock_wait c d) = None).
    unfold clock_wait. by rewrite E.
  - intros [n dl [|r l] ws]; done.
  - intros [n dl [|r l] ws]; done.
Defined.

#[export] Instance captured_live {W L} `{LiveContext W} : LiveContext (W * L).
Proof.
  refine {| live s := live (fst s) |}; intros [w l] *; cbn; intros Hw.
  - by apply live_ctx.
  - destruct (live_wait w d Hw). by destruct (wait w d).
  - pose proof (live_rand w Hw). by destruct (rand_Float64 w).
  - pose proof (live_own w Hw). by destruct (own_Float64 w).
Defined.

(** ** The loop over an operation that uses only what its closure captured *)
Section Script.
Context {W L : Type} `{FloatConv, FloatParse, LiveContext W}.
Context (op : L -> Z -> L * option goerror).

Definition captured_op (s : W * L) (n : Z) : (W * L) * option goerror :=
  let '(l, e) := op (snd s) n in ((fst s, l), e).

(** Calls from the attempt [n] on: they fail with [es], the last one returns
    [r]. *)
Inductive script : L -> Z -> list goerror -> L -> option goerror -> Prop :=
| script_last l n l' r : op l n = (l', r) -> script l n [] l' r
| script_fail l n e l1 es l' r : op l n = (l1, Some e) -> script l1 (n + 1) es l' r -> script l n (e :: es) l' r.

(** The policy goes on after [es] and stops after [r]. *)
Definition follows (p : Policy) (n : Z) (es : list goerror) (r : option goerror) : Prop :=
  Forall (fun e => retryable e p = true) es /\
  (Attempts p = 0 \/ n + Z.of_nat (length es) <= Attempts p) /\
  match r with
  | None => True
  | Some e => retryable e p = false \/ Attempts p = n + Z.of_nat (length es)
  end.

Lemma live_pair (w : W) (l : L) : live w -> ctx_err (w, l) = None.
Proof. intros Hw. exact (live_ctx w Hw). Qed.

Lemma On_loop_S (fuel : nat) (s : W * L) p i n :
  On_loop captured_op (S fuel) s p i n =
  match ctx_err s with
  | Some e => Some (s, Some e)
  | None =>
    let '(s, err) := captured_op s n in
    match err with
    | None => Some (s, None)
    | Some e =>
      if negb (Attempts p =? 0) && (Attempts p <=? n) then Some (s, Some e)
      else if retryable e p then
        let '(s, d) := sleep_duration s i e n in
        let '(s, ended) := wait s d in
        match ended with
        | Some x => Some (s, Some x)
        | None => On_loop captured_op fuel s p i (int64 (n + 1))
        end
      else Some (s, Some e)
    end
  end.
Proof. done. Qed.

Lemma sleep_live (w : W) (l : L) i e n : live w ->
  exists w' d, sleep_duration (w, l) i e n = ((w', l), d) /\ live w'.
Proof.
  intros Hw. unfold sleep_duration. destruct (_ =? 0); [|by eauto].
  destruct i as [b|d|next]; [|by eauto..]. cbn [Interval_Next]. unfold BackOff_Next.
  destruct (fltb _ _); [|by eauto]. cbn. pose proof (live_rand w Hw) as Hr.
  destruct (rand_Float64 w) as [w1 r]. cbn [fst] in Hr. destruct (Rand b); [|by eauto].
  cbn. pose proof (live_own w1 Hr). destruct (own_Float64 w1). by eauto.
Qed.

Lemma wait_live (w : W) (l : L) d : live w -> exists w', wait (w, l) d = ((w', l), None) /\ live w'.
Proof.
  intros Hw. destruct (live_wait w d Hw) as [Hl He]. cbn. destruct (wait w d) as [w' x]. cbn in *. subst. eauto.
Qed.

Lemma On_loop_script p i l n es l' r :
  script l n es l' r -> follows p n es r -> 1 <= n -> n + Z.of_nat (length es) <= max_int64 ->
  forall w : W, live w ->
  exists w', live w' /\ On_loop captured_op (S (length es)) (w, l) p i n = Some ((w', l'), r).
Proof.
  intros Hs. induction Hs as [l n l' r E|l n e l1 es l' r E Hs IH]; intros (Hf & Ha & Hr) Hn Hmax w Hw;
    cbn [length] in *; rewrite On_loop_S, (live_pair w l Hw); unfold captured_op at 1; cbn [fst snd]; rewrite E.
  - exists w. split; [done|]. destruct r as [e|]; [|done].
    destruct Hr as [Hr|Hr]; [rewrite Hr; by destruct (_ && _)|].
    by replace (negb (Attempts p =? 0) && (Attempts p <=? n)) with true by lia.
  - apply Forall_cons in Hf as [He Hf]. rewrite He.
    replace (negb (Attempts p =? 0) && (Attempts p <=? n)) with false by lia.
    destruct (sleep_live w l1 i e n Hw) as (w2 & d & -> & Hw2).
    destruct (wait_live w2 l1 d Hw2) as (w3 & -> & Hw3).
    rewrite int64_id by (unfold min_int64, max_int64 in *; lia).
    apply IH; [|lia|lia|done]. split; [done|]. split; [lia|]. destruct r; [|done].
    destruct Hr; [by left|right; lia].
Qed.
End Script.

(** ** Client.Do in the loop *)
Section Service.
Context `{UnicodeTables, FmtFallback, BufferGrowth, CodecLaws}.
Context {R B : Type} `{ReaderSpec B, !StreamBody B}.

(** What the service does with a call: it fails with an error of any
    wrapping, or replies. *)
Inductive answer := Fails (e : goerror) | Succeeds (m : message).

Definition unused (w : ResponseWriter) : Prop := rw_status w = None /\ rw_faults w = [] /\ rw_body w = [].

Definition send_answer (w : ResponseWriter) (rh : Header) (a : answer) : outcome (ResponseWriter * Header) :=
  match a with
  | Fails e => ReplyError w rh (Some e)
  | Succeeds m => Service.Reply w rh CodeOK (Some m)
  end.

(** The call of the client is answered with what the service sent. *)
Definition answered (c : Client R B) (req : Request R) (rh : Header) (a : answer) : Prop :=
  exists w0 w rh' resp, unused w0 /\ send_answer w0 rh a = Ret (w, rh') /\ arrives w resp /\ http_Do c req = inl resp.

(** A service error with a status, code and message that can be sent. *)
Definition service_failure (enc : encoding) (e : goerror) (status : Z) (code msg : string) : Prop :=
  exists d r p, as_Error e = Some d /\ ProtoMessage d = Some (MReply r) /\
    HTTPCode d = status /\ Reply_Code r = code /\ Reply_Message r = msg /\
    200 < status <= 999 /\ body_allowed status = true /\ marshal enc (Some (MReply r)) = inl p.

(** [func(ctx, attempt) error { return client.Do(req, &out) }]; the calls may
    go to different servers.  The message and the bodies so far. *)
Definition Do_op (c : Z -> Client R B) (req : Z -> Request R) (s : message * list (option B)) (n : Z)
    : (message * list (option B)) * option goerror :=
  let '(b, out, err) := Do (c n) (req n) (fst s) in ((out, snd s ++ [b]), err).

(** The error that the caller gets. *)
Definition client_error (status : Z) (code msg : string) (e : goerror) : Prop :=
  exists details, e = ErrClient (mkClientError details msg None false code status).

Definition closed (b : option B) : Prop := exists b', b = Some (sb_close b').

Lemma Do_failure c req rh enc ct e status code msg out :
  accept_encoding rh = Some (enc, ct) -> answered c req rh (Fails e) -> service_failure enc e status code msg ->
  exists b e', Do c req out = (b, out, Some e') /\ closed b /\ client_error status code msg e'.
Proof.
  intros Ha (w0 & w & rh' & resp & (Hw & Hf & Hbo) & Es & Harr & Hdo) (d & r & p & He & Hp & <- & <- & <- & Hs & Hb & Hm).
  cbn [send_answer] in Es. unfold ReplyError in Es. rewrite He, Hp in Es.
  rewrite (Reply_ok w0 rh (HTTPCode d) _ enc ct p Hw ltac:(lia) Ha Hm) in Es.
  injection Es as <- <-.
  destruct (Do_error_reply w0 _ enc ct (HTTPCode d) r p c req out resp Hf Hbo Ha Hb
    ltac:(unfold CodeOK; lia) Hm Harr Hdo) as (b & E & Hst).
  exists (Some (sb_close b)), (NewReplyError req resp (norm_reply r)). split; [done|]. split; [by exists b|].
  rewrite <- Hst. by eexists.
Qed.

Lemma send_success w0 rh enc ct m p :
  unused w0 -> accept_encoding rh = Some (enc, ct) -> marshal enc (Some m) = inl p ->
  send_answer w0 rh (Succeeds m) = Ret (sent_reply w0 CodeOK ct p, rh).
Proof.
  intros (Hw & _) Ha Hm. unfold send_answer. apply (Reply_ok w0 rh CodeOK _ enc ct p Hw); [|done..].
  unfold CodeOK. lia.
Qed.

Lemma Do_success c req rh enc ct m p out out' :
  accept_encoding rh = Some (enc, ct) -> answered c req rh (Succeeds m) ->
  marshal enc (Some m) = inl p -> unmarshal enc p out = (out', None) ->
  exists b, Do c req out = (b, out', None) /\ closed b.
Proof.
  intros Ha (w0 & w & rh' & resp & Hw & Es & Harr & Hdo) Hm Hu.
  rewrite (send_success w0 rh enc ct m p Hw Ha Hm) in Es. injection Es as <- <-. destruct Hw as (Hw & Hf & Hbo).
  destruct (Do_reply w0 _ enc ct p c req out out' resp Hf Hbo Ha Hu Harr Hdo) as (b & E).
  exists (Some (sb_close b)). split; [done|by exists b].
Qed.

(** Whether the policy retries a service error with this status. *)
Definition retries (p : Policy) (status : Z) : bool :=
  match OnCodes p, OnInfraCodes p with
  | None, None => true
  | Some l, _ => contains l status
  | None, Some _ => false
  end.

Lemma retryable_client_error p status code msg e :
  client_error status code msg e -> retryable e p = retries p status.
Proof. intros (details & ->). unfold retryable, retries. by destruct (OnCodes p), (OnInfraCodes p). Qed.

(** The calls from the attempt [n] on, answered in this order. *)
Definition all_answered (c : Z -> Client R B) (req : Z -> Request R) (rh : Header) (n : Z) (l : list answer) : Prop :=
  forall k a, l !! k = Some a -> answered (c (n + Z.of_nat k)) (req (n + Z.of_nat k)) rh a.

Lemma all_answered_cons c req rh n a l :
  all_answered c req rh n (a :: l) -> answered (c n) (req n) rh a /\ all_answered c req rh (n + 1) l.
Proof.
  intros Hl. split.
  - rewrite <- (Z.add_0_r n). by apply (Hl 0%nat).
  - intros k b Hk. replace (n + 1 + Z.of_nat k) with (n + Z.of_nat (S k)) by lia. by apply (Hl (S k)).
Qed.

(** An error of the service that the policy retries. *)
Definition retried (enc : encoding) (p : Policy) (e : goerror) : Prop :=
  exists status code msg, service_failure enc e status code msg /\ retries p status = true.

(** The last answer, what it makes of the message of the caller, and why the
    loop ends, after [k] calls. *)
Inductive last_answer (enc : encoding) (p : Policy) (k : Z) (out : message) : answer -> message -> Prop :=
| last_reply m b out' :
    marshal enc (Some m) = inl b -> unmarshal enc b out = (out', None) -> last_answer enc p k out (Succeeds m) out'
| last_failure e status code msg :
    service_failure enc e status code msg -> retries p status = false \/ Attempts p = k ->
    last_answer enc p k out (Fails e) out.

(** What [On] returns: nil, or the error of the service, with its status, code
    and message. *)
Definition returns (enc : encoding) (a : answer) (r : option goerror) : Prop :=
  match a with
  | Succeeds _ => r = None
  | Fails e => exists status code msg x, service_failure enc e status code msg /\ r = Some x /\ client_error status code msg x
  end.

Lemma last_call c req rh enc ct p k n out out' bs a :
  accept_encoding rh = Some (enc, ct) -> answered (c n) (req n) rh a -> last_answer enc p k out a out' ->
  exists b r, Do_op c req (out, bs) n = ((out', bs ++ [b]), r) /\ closed b /\ returns enc a r /\
    match r with None => True | Some e => retryable e p = false \/ Attempts p = k end.
Proof.
  intros Ha Hc Hl. unfold Do_op. cbn [fst snd]. destruct Hl as [m b out' Hm Hu|e status code msg He Hr].
  - destruct (Do_success _ _ _ _ _ _ _ _ _ Ha Hc Hm Hu) as (b' & -> & Hb). by exists b', None.
  - destruct (Do_failure _ _ _ _ _ _ _ _ _ out Ha Hc He) as (b & x & -> & Hb & Hx). exists b, (Some x).
    split; [done|]. split; [done|]. split; [by exists status, code, msg, x|].
    by rewrite (retryable_client_error p status code msg x Hx).
Qed.

Lemma calls_script c req rh enc ct p k last out out' es : forall n bs,
  accept_encoding rh = Some (enc, ct) -> Forall (retried enc p) es ->
  all_answered c req rh n (map Fails es ++ [last]) -> last_answer enc p k out last out' ->
  exists errs bs' r, script (Do_op c req) (out, bs) n errs (out', bs ++ bs') r /\
    length errs = length es /\ length bs' = S (length es) /\
    Forall (fun e => retryable e p = true) errs /\ Forall closed bs' /\ returns enc last r /\
    match r with None => True | Some e => retryable e p = false \/ Attempts p = k end.
Proof.
  induction es as [|e es IH]; intros n bs Ha Hes Hc Hl; cbn [map app] in Hc;
    apply all_answered_cons in Hc as [Hc Hcs].
  - destruct (last_call c req rh enc ct p k n out out' bs last Ha Hc Hl) as (b & r & E & Hb & Hr & Hp).
    exists [], [b], r. split; [by apply script_last|]. repeat (split; [by repeat constructor|]). done.
  - apply Forall_cons in Hes as [(status & code & msg & He & Hs) Hes].
    destruct (Do_failure _ _ _ _ _ _ _ _ _ out Ha Hc He) as (b & x & E & Hb & Hx).
    destruct (IH (n + 1) (bs ++ [b]) Ha Hes Hcs Hl) as (errs & bs' & r & Hscr & El & Eb & Hre & Hcl & Hrest).
    exists (x :: errs), (b :: bs'), r. split.
    { eapply script_fail; [unfold Do_op; cbn [fst snd]; by rewrite E|]. by rewrite <- app_assoc in Hscr. }
    cbn [length]. split; [congruence|]. split; [congruence|].
    split; [constructor; [by rewrite (retryable_client_error _ _ _ _ _ Hx)|done]|]. split; [by constructor|done].
Qed.

(** C10: a call through the network with retries: while the context lives, a
    service that fails some calls with errors the policy retries (wrapped or
    not) and then answers once more is called exactly that often; the caller
    gets the reply in its message, or, when the last error is not retried or
    the attempts are used up, that error with its status, code and message
    and the message untouched.  Every body is closed. *)
Theorem retried_call {W : Type} `{FloatConv, FloatParse, LiveContext W} (w : W) c req rh enc ct p i es last out out' :
  accept_encoding rh = Some (enc, ct) -> P_Interval p = Some i -> live w ->
  Forall (retried enc p) es -> Attempts p = 0 \/ Z.of_nat (S (length es)) <= Attempts p ->
  Z.of_nat (S (length es)) <= max_int64 ->
  all_answered c req rh 1 (map Fails es ++ [last]) ->
  last_answer enc p (Z.of_nat (S (length es))) out last out' ->
  exists w' bs r, live w' /\
    On (captured_op (Do_op c req)) (S (length es)) (w, (out, [])) p = Ret (Some ((w', (out', bs)), r)) /\
    returns enc last r /\ length bs = S (length es) /\ Forall closed bs.
Proof.
  intros Ha Hi Hw Hes Hn Hmax Hc Hl. unfold On. rewrite Hi.
  destruct (calls_script c req rh enc ct p _ last out out' es 1 [] Ha Hes Hc Hl)
    as (errs & bs & r & Hs & El & Eb & Hre & Hcl & Hr & Hp).
  destruct (On_loop_script (Do_op c req) p i (out, []) 1 errs (out', bs) r Hs) with (w := w) as (w' & Hw' & E).
  - split; [done|]. rewrite El. split; [destruct Hn; [by left|right; lia]|]. destruct r; [|done].
    destruct Hp as [?|Hp]; [by left|right; rewrite Hp; lia].
  - lia.
  - rewrite El. lia.
  - done.
  - exists w', bs, r. split; [done|]. rewrite El in E. by rewrite E.
Qed.
End Service.

(** ** Witnesses *)
Import ReferenceCodec.
#[local] Existing Instance amd64_conv.
#[local] Existing Instance no_extended.

Definition overloaded : goerror := NewServiceErrorWithCode 454 "BUSY" "try again" None None.
Definition sent_454 : ResponseWriter :=
  sent_reply (fresh_rw true []) 454 ContentTypeJSON (reply_bytes (MReply (mkReply "BUSY" "try again" None))).

(** Two servers: the first two calls find the busy one. *)
Definition two_servers (n : Z) : Client source (Body source) :=
  client_of (received (if n <? 3 then sent_454 else sent_hello)).

Definition waiting : goerror := wrapped ["while handling"] overloaded.

Lemma overloaded_retried : retried JSON OnRetryable waiting.
Proof.
  exists 454, "BUSY", "try again". split; [|vm_compute; reflexivity]. do 3 eexists.
  split; [vm_compute; reflexivity|]. split; [reflexivity|]. do 3 (split; [reflexivity|]). split; [done|].
  split; [reflexivity|vm_compute; reflexivity].
Qed.

Lemma start_live : live RetrySpec.start.
Proof. exact eq_refl. Qed.

Lemma sends_454 : send_answer (fresh_rw true []) ∅ (Fails waiting) = Ret (sent_454, ∅).
Proof. vm_compute. reflexivity. Qed.

Lemma two_servers_answer :
  all_answered two_servers (fun _ => get_request) ∅ 1 [Fails waiting; Fails waiting; Succeeds (MSayHelloResponse "hi")].
Proof.
  intros [|[|[|k]]] a E; [injection E as <-..|done]; eexists (fresh_rw true []), _, _, _; (split; [done|]).
  1,2: split; [apply sends_454|]. 3: split; [apply replies_hello|].
  all: split; [|reflexivity]; by apply received_arrives.
Qed.

Lemma retried_call_witness :
  exists w' bs, On (captured_op (Do_op two_servers (fun _ => get_request))) 3
      (RetrySpec.start, (MSayHelloResponse "", [])) OnRetryable =
      Ret (Some ((w', (MSayHelloResponse "hi", bs)), None)) /\ length bs = 3%nat /\ Forall closed bs.
Proof.
  destruct (retried_call RetrySpec.start two_servers (fun _ => get_request) ∅ JSON ContentTypeJSON OnRetryable
    (IBackOff DefaultBackOff) [waiting; waiting] (Succeeds (MSayHelloResponse "hi"))
    (MSayHelloResponse "") (MSayHelloResponse "hi") accept_any eq_refl start_live
    ltac:(repeat constructor; apply overloaded_retried) ltac:(by left) ltac:(vm_compute; discriminate)
    two_servers_answer ltac:(by eapply last_reply; [apply hello_marshals|apply hello_unmarshals]))
    as (w' & bs & r & _ & E & Hr & Hn & Hc).
  cbn [returns] in Hr. subst r. exists w', bs. exact (conj E (conj Hn Hc)).
Defined.
