(* ===== verification/Pagination.v ===== *)
(** * Pagination: pagination.go

    The cursor-based [Iterator], with and without a retry policy. *)
From Stdlib Require Import ZArith Lia.
From stdpp Require Import base gmap strings list.
From S2P Require Import Prelude GoStrings GoFloat Messages Errors Retry.
From S2P Require RetrySpec ReferenceCodec.
Local Open Scope Z_scope.

Record Page := mkPage { EndCursor : string; HasNextPage : bool }.
Definition Page_zero : Page := mkPage "" false.

(** [iteratorConfig], an option that sets it, and its only constructor. *)
Definition iteratorConfig : Type := option Policy.
Definition IteratorOption : Type := iteratorConfig -> iteratorConfig.
Definition WithRetryPolicy (p : Policy) : IteratorOption := fun _ => Some p.

Record Iterator := mkIterator {
  it_retryPolicy : iteratorConfig;
  it_cursor : string;
  it_err : option goerror;
  it_done : bool
}.

Definition NewIterator (opts : list IteratorOption) : Iterator :=
  mkIterator (foldl (fun cfg opt => opt cfg) None opts) "" None false.

Definition Err (it : Iterator) : option goerror := it_err it.

Section Next.
Context {W T : Type} `{FloatConv, FloatParse, RetryEnv W}.
Context (fetch : W -> string -> W * (list T * Page * option goerror)).

(** The operation handed to [retry.On]: it assigns the items and the page of
    the enclosing call. *)
Definition fetch_operation (cursor : string) (s : W * (list T * Page)) (_ : Z)
    : (W * (list T * Page)) * option goerror :=
  let '(w, (items, pg, fetchErr)) := fetch (fst s) cursor in ((w, (items, pg)), fetchErr).

(** The items, the page and the error of one call of [Next]; [None] while the
    retries go on. *)
Definition fetch_page (fuel : nat) (w : W) (policy : iteratorConfig) (cursor : string)
    : outcome (option (W * (list T * Page * option goerror))) :=
  match policy with
  | Some p =>
    omap_ret (fun res : option ((W * (list T * Page)) * option goerror) =>
        match res with
        | Some ((w, (items, pg)), err) => Some (w, (items, pg, err))
        | None => None
        end)
      (On (fetch_operation cursor) fuel (w, ([], Page_zero)) p)
  | None => Ret (Some (fetch w cursor))
  end.

(** The world, the iterator, the caller's page and the result. *)
Definition Next (fuel : nat) (w : W) (it : Iterator) (page : list T)
    : outcome (option (W * Iterator * list T * bool)) :=
  if it_done it then Ret (Some (w, it, page, false))
  else
    omap_ret (fun res : option (W * (list T * Page * option goerror)) =>
        match res with
        | None => None
        | Some (w, (items, pg, err)) =>
          match err with
          | Some e =>
            Some (w, mkIterator (it_retryPolicy it) (it_cursor it) (Some e) true, page, false)
          | None =>
            Some (w, mkIterator (it_retryPolicy it) (EndCursor pg) (it_err it) (negb (HasNextPage pg)),
                  items, true)
          end
        end)
      (fetch_page fuel w (it_retryPolicy it) (it_cursor it)).

(** The caller's loop: the pages until [Next] returns false. *)
Fixpoint all_pages (steps fuel : nat) (w : W) (it : Iterator) (page : list T)
    : option (list (list T) * Iterator) :=
  match steps with
  | O => None
  | S steps =>
    match Next fuel w it page with
    | Ret (Some (w, it, page, true)) =>
      match all_pages steps fuel w it page with
      | Some (pages, it) => Some (page :: pages, it)
      | None => None
      end
    | Ret (Some (_, it, _, false)) => Some ([], it)
    | _ => None
    end
  end.

(** A resource read from [cursor] on: its pages, each fetched with the cursor
    of the one before (after retries, if the policy says so), and the error of
    the fetch that fails, if one does. *)
Inductive book (fuel : nat) (policy : iteratorConfig) : W -> string -> list (list T) -> option goerror -> Prop :=
| book_last w cursor w' items pg :
    fetch_page fuel w policy cursor = Ret (Some (w', (items, pg, None))) -> HasNextPage pg = false ->
    book fuel policy w cursor [items] None
| book_more w cursor w' items pg pages err :
    fetch_page fuel w policy cursor = Ret (Some (w', (items, pg, None))) -> HasNextPage pg = true ->
    book fuel policy w' (EndCursor pg) pages err ->
    book fuel policy w cursor (items :: pages) err
| book_broken w cursor w' items pg e :
    fetch_page fuel w policy cursor = Ret (Some (w', (items, pg, Some e))) ->
    book fuel policy w cursor [] (Some e).

(** ** Lemmas *)
Lemma Next_fetched fuel w it page w' items pg err :
  it_done it = false -> fetch_page fuel w (it_retryPolicy it) (it_cursor it) = Ret (Some (w', (items, pg, err))) ->
  Next fuel w it page = Ret (Some
    match err with
    | Some e => (w', mkIterator (it_retryPolicy it) (it_cursor it) (Some e) true, page, false)
    | None => (w', mkIterator (it_retryPolicy it) (EndCursor pg) (it_err it) (negb (HasNextPage pg)), items, true)
    end).
Proof. intros Hd E. unfold Next. rewrite Hd, E. by destruct err. Qed.

Lemma Next_done fuel w it page : it_done it = true -> Next fuel w it page = Ret (Some (w, it, page, false)).
Proof. intros Hd. unfold Next. by rewrite Hd. Qed.
End Next.

(** A run of [On] that succeeds ends with a call of the operation that did. *)
Lemma On_loop_success {W} `{FloatConv, FloatParse, RetryEnv W} operation fuel p i : forall (w : W) n w',
  On_loop operation fuel w p i n = Some (w', None) -> exists w0 k, operation w0 k = (w', None).
Proof.
  induction fuel as [|fuel IH]; intros w n w'; [done|]. cbn [On_loop].
  destruct (ctx_err w); [done|]. destruct (operation w n) as [w1 [e|]] eqn:Eo.
  2:{ intros [= <-]. eauto. }
  destruct (_ && _); [done|]. destruct (retryable e p); [|done].
  destruct (sleep_duration w1 i e n) as [w2 d]. destruct (wait w2 d) as [w3 [x|]]; [done|]. apply IH.
Qed.

(** ** Properties *)
Section Properties.
Context {W T : Type} `{FloatConv, FloatParse, RetryEnv W}.
Context (fetch : W -> string -> W * (list T * Page * option goerror)).

(** C20: the caller's loop over a fresh iterator gets the pages of the resource
    in order, each once, with or without retries, and ends: without an error
    after the last page, or with the error of the fetch that failed, which Err
    reports. *)
Theorem Iterator_collects steps fuel w opts pages err page :
  book fetch fuel (it_retryPolicy (NewIterator opts)) w "" pages err -> (length pages < steps)%nat ->
  exists it, all_pages fetch steps fuel w (NewIterator opts) page = Some (pages, it) /\
    Err it = err /\ it_done it = true.
Proof.
  intros Hb.
  assert (forall policy it, it_retryPolicy it = policy -> it_done it = false -> it_err it = None ->
    forall w cursor, it_cursor it = cursor -> book fetch fuel policy w cursor pages err ->
    forall steps page, (length pages < steps)%nat ->
    exists it', all_pages fetch steps fuel w it page = Some (pages, it') /\ Err it' = err /\ it_done it' = true)
    as Hall.
  { clear. intros policy it Hp Hd He w cursor Hc Hb. revert it Hp Hd He Hc.
    induction Hb as [w cursor w' items pg E Hn|w cursor w' items pg pages err E Hn _ IH|w cursor w' items pg e E];
      intros it <- Hd He <- [|steps] page Hs; cbn [length] in *; try lia; cbn [all_pages];
      rewrite (Next_fetched fetch _ _ _ page _ _ _ _ Hd E).
    - rewrite Hn. destruct steps as [|steps]; [lia|]. cbn [all_pages negb].
      rewrite Next_done by done. by eexists.
    - rewrite Hn. cbn [negb].
      destruct (IH (mkIterator (it_retryPolicy it) (EndCursor pg) (it_err it) false) eq_refl eq_refl He eq_refl
        steps items ltac:(lia)) as (it' & -> & ? & ?). by eexists.
    - by eexists. }
  intros Hs. by eapply Hall.
Qed.

(** Once Next has returned false - the iteration is complete or a fetch
    failed - it returns false for ever, without another fetch, and leaves the
    caller's page and the error alone. *)
Theorem Next_false_is_final fuel w it page w' it' page' :
  Next fetch fuel w it page = Ret (Some (w', it', page', false)) ->
  page' = page /\ it_cursor it' = it_cursor it /\
  forall fuel2 w2 page2, Next fetch fuel2 w2 it' page2 = Ret (Some (w2, it', page2, false)).
Proof.
  intros E. assert (it_done it' = true /\ page' = page /\ it_cursor it' = it_cursor it) as (Hd & -> & ->).
  { unfold Next in E. destruct (it_done it) eqn:Hd; [by simplify_eq|].
    destruct (fetch_page _ _ _ _ _) as [[[w1 [[items pg] [e|]]]|]|]; cbn [omap_ret obind] in E; by simplify_eq. }
  split; [done|]. split; [done|]. intros. by apply Next_done.
Qed.

(** A page that Next returns is the result of one successful fetch with the
    iterator's cursor, however many failed fetches the retry policy made it
    repeat: no page is skipped or taken twice, and the cursor moves to the
    page's end cursor. *)
Theorem Next_page_from_cursor fuel w it page w' it' page' :
  Next fetch fuel w it page = Ret (Some (w', it', page', true)) ->
  exists w0 pg, fetch w0 (it_cursor it) = (w', (page', pg, None)) /\
    it_cursor it' = EndCursor pg /\ it_done it' = negb (HasNextPage pg) /\ it_err it' = it_err it.
Proof.
  unfold Next. destruct (it_done it); [done|]. intros E.
  destruct (fetch_page fetch fuel w (it_retryPolicy it) (it_cursor it)) as [[[w1 [[items pg] [e|]]]|]|] eqn:Ef;
    cbn [omap_ret obind] in E; simplify_eq.
  assert (exists w0, fetch w0 (it_cursor it) = (w', (page', pg, None))) as [w0 E0].
  { unfold fetch_page in Ef. destruct (it_retryPolicy it) as [p|]; [|simplify_eq; eauto].
    unfold On in Ef. destruct (P_Interval p) as [i|]; [|done]. cbn [omap_ret obind] in Ef.
    destruct (On_loop _ _ _ _ _ _) as [[[w1 [items1 pg1]] e1]|] eqn:Eo; simplify_eq.
    apply On_loop_success in Eo as ([w0 x] & k & Eo). unfold fetch_operation in Eo. cbn [fst] in Eo.
    exists w0. destruct (fetch w0 (it_cursor it)) as [w2 [[items2 pg2] e2]]. by simplify_eq. }
  exists w0, pg. done.
Qed.
End Properties.

(** ** Witnesses *)
Import ReferenceCodec RetrySpec.
#[local] Existing Instance amd64_conv.
#[local] Existing Instance no_extended.

(** A resource of three pages whose second page fails at the first try; the
    world counts the fetches. *)
Definition shelf (s : clock * nat) (cursor : string) : (clock * nat) * (list Z * Page * option goerror) :=
  let '(c, n) := s in
  ((c, S n),
   if decide (cursor = "") then ([1; 2], mkPage "a" true, None)
   else if decide (cursor = "a") then
     if decide (n = 1%nat) then ([], Page_zero, Some unavailable) else ([3; 4], mkPage "b" true, None)
   else ([5], mkPage "c" false, None)).

Lemma shelf_book : book shelf 3 (Some OnRetryable) (start, 0%nat) "" [[1; 2]; [3; 4]; [5]] None.
Proof.
  eapply book_more; [vm_compute; reflexivity|reflexivity|].
  eapply book_more; [vm_compute; reflexivity|reflexivity|].
  eapply book_last; [vm_compute; reflexivity|reflexivity].
Qed.

Lemma Iterator_collects_witness :
  exists it, all_pages shelf 4 3 (start, 0%nat) (NewIterator [WithRetryPolicy OnRetryable]) [] =
      Some ([[1; 2]; [3; 4]; [5]], it) /\ Err it = None.
Proof.
  destruct (Iterator_collects shelf 4 3 (start, 0%nat) [WithRetryPolicy OnRetryable]
    [[1; 2]; [3; 4]; [5]] None [] shelf_book ltac:(simpl; lia)) as (it & E1 & E2 & _).
  exists it. exact (conj E1 E2).
Defined.

(** Without retries the second page stops the iteration. *)
Definition broken_it : Iterator := mkIterator None "a" None false.

Lemma Next_false_is_final_witness :
  Next shelf 3 (start, 9%nat) (mkIterator None "a" (Some unavailable) true) [7] =
    Ret (Some ((start, 9%nat), mkIterator None "a" (Some unavailable) true, [7], false)).
Proof.
  refine (proj2 (proj2 (Next_false_is_final shelf 3 (start, 1%nat) broken_it [6] (start, 2%nat)
    (mkIterator None "a" (Some unavailable) true) [6] _)) 3%nat (start, 9%nat) [7]).
  vm_compute. reflexivity.
Defined.

Lemma Next_page_from_cursor_witness :
  exists w0 pg, shelf w0 "" = ((start, 1%nat), ([1; 2], pg, None)) /\ EndCursor pg = "a".
Proof.
  destruct (Next_page_from_cursor shelf 3 (start, 0%nat) (NewIterator []) [] (start, 1%nat)
    (mkIterator None "a" None false) [1; 2]) as (w0 & pg & E1 & E2 & _).
  - vm_compute. reflexivity.
  - exists w0, pg. split; [exact E1|]. symmetry. exact E2.
Defined.
