(* ===== verification/DemoService.v ===== *)
(** * DemoService: demo/service.go

    The demo service: greeting, the Mandelbrot pixel, the list of events and
    the content store.  A method is a function of the state, the request and
    the response message of the caller. *)
From Stdlib Require Import ZArith Lia.
From stdpp Require Import base gmap strings list.
From S2P Require Import Prelude GoStrings GoFloat Messages Errors.
Local Open Scope Z_scope.

(** [cases.Title(language.English).String] of golang.org/x/text: third-party
    code, a parameter. *)
Class TitleCase := { Title : string -> string }.

(** ** State *)
Record contentEntry := mkContentEntry { contentType : string; body : bytes }.

(** [type Service struct]: the map; its [RWMutex] makes each method atomic. *)
Record Service := mkService { content : gmap string contentEntry }.

Definition NewService : Service := mkService ∅.

(** ** Methods *)
Section Methods.
Context `{FmtFallback, FloatConv, TitleCase}.

(** [resp.Message] and the error. *)
Definition SayHello (Name Message : string) : string * option goerror :=
  if decide (Name = "") then
    (Message, Some (NewServiceError CodeBadRequest "'name' is required and cannot be empty" None None))
  else if decide (Title Name <> Name) then
    (Message, Some (NewServiceError CodeBadRequest "'name' must be capitalized" None None))
  else ("Hello, " +:+ Name, None).

Definition norm (x total : Z) (min max : float64) : float64 :=
  fsub (fdiv (fmul (fsub max min) (float_of_Z x)) (float_of_Z total)) max.

(** One round of the loop, each operation rounded (the compiler may fuse a
    product and a sum on some platforms; amd64 does not by default). *)
Definition pixel_step (xi yi : float64) (p : float64 * float64) : float64 * float64 :=
  let '(x, y) := p in
  (fadd (fsub (fmul x x) (fmul y y)) xi, fadd (fmul (fmul (float_of_Z 2) x) y) yi).

(** [x*x+y*y < req.Complexity] *)
Definition pixel_inside (complexity : float64) (p : float64 * float64) : bool :=
  let '(x, y) := p in fltb (fadd (fmul x x) (fmul y y)) complexity.

Definition maxI : nat := 1000.

(** The loop with [n] rounds left. *)
Fixpoint pixel_loop (n : nat) (complexity xi yi : float64) (p : float64 * float64) : float64 * float64 :=
  match n with
  | O => p
  | S n => if pixel_inside complexity p then pixel_loop n complexity xi yi (pixel_step xi yi p) else p
  end.

(** [resp.Gray] and the error. *)
Definition RenderPixel (complexity : float64) (Height Width I J : Z) : Z * option goerror :=
  let xi := norm I Width (float_of_Z (-1)) (float_of_Z 2) in
  let yi := norm J Height (float_of_Z (-1)) (float_of_Z 1) in
  (float_to_int64 (fst (pixel_loop maxI complexity xi yi (float_of_Z 0, float_of_Z 0))), None).

Definition event (i : Z) : message := MEvent i ("event-" +:+ Itoa i).

(** The loop from [i] on, with [n] rounds left. *)
Fixpoint events_loop (n : nat) (i : Z) (events : list message) : list message :=
  match n with
  | O => events
  | S n => events_loop n (int32 (i + 1)) (events ++ [event i])
  end.

(** [make] panics on a negative capacity. *)
Definition ListEvents (Count : Z) : outcome (list message * option goerror) :=
  if Count <? 0 then Panic "runtime error: makeslice: cap out of range"
  else Ret (events_loop (Z.to_nat Count) 0 [], None).

Definition StoreContent (s : Service) (path ctype : string) (b : bytes) : Service * option goerror :=
  (mkService (<[path := mkContentEntry ctype b]> (content s)), None).

Definition GetContent (s : Service) (path : string) : string * bytes * option goerror :=
  match content s !! path with
  | None => ("", [], Some (NewServiceError CodeNotFound "content not found" None None))
  | Some e => (contentType e, body e, None)
  end.
End Methods.

(** ** Lemmas *)
Lemma events_loop_seq n : forall i acc,
  0 <= i -> i + Z.of_nat n <= 2 ^ 31 - 1 ->
  events_loop n i acc = acc ++ (event <$> seqZ i (Z.of_nat n)).
Proof.
  induction n as [|n IH]; intros i acc Hi Hn; cbn [events_loop].
  - by rewrite app_nil_r.
  - assert (int32 (i + 1) = i + 1) as Hw by (unfold int32; rewrite Z.mod_small; lia).
    rewrite Hw. rewrite IH by lia. rewrite (seqZ_cons i) by lia.
    replace (Z.pred (Z.of_nat (S n))) with (Z.of_nat n) by lia.
    replace (Z.succ i) with (i + 1) by lia.
    rewrite fmap_cons. by rewrite <-app_assoc.
Qed.

Lemma ListEvents_seq n :
  0 <= n <= 2 ^ 31 - 1 -> ListEvents n = Ret (event <$> seqZ 0 n, None).
Proof.
  intros Hn. unfold ListEvents. replace (n <? 0) with false by lia.
  rewrite events_loop_seq by lia. cbn [app]. by rewrite Z2Nat.id by lia.
Qed.
