(* ===== verification/Mandelbrot.v ===== *)
(** * Mandelbrot: what RenderPixel computes

    The reference is the iteration of z^2 + c on complex numbers, over any
    arithmetic.  Over a commutative ring the square is the product z z and the
    norm is the product of z and its conjugate, so that the reference is the
    mathematical one; over float64 it is compared with the loop of
    demo/service.go, operation by operation as floats round. *)
From Stdlib Require Import ZArith Lia Ring.
From stdpp Require Import base list.
From S2P Require Import Prelude GoFloat Errors DemoService.
Local Open Scope Z_scope.

(** ** Complex numbers over an arithmetic *)
Class Arithmetic (A : Type) := {
  a_zero : A; a_one : A; a_add : A -> A -> A; a_sub : A -> A -> A; a_mul : A -> A -> A
}.

Record complex (A : Type) := mkComplex { re : A; im : A }.
Arguments mkComplex {A}. Arguments re {A}. Arguments im {A}.

Section Complex.
Context `{Arithmetic A}.

Definition a_two : A := a_add a_one a_one.
Definition origin : complex A := mkComplex a_zero a_zero.
Definition cadd (z w : complex A) : complex A := mkComplex (a_add (re z) (re w)) (a_add (im z) (im w)).
Definition cmul (z w : complex A) : complex A :=
  mkComplex (a_sub (a_mul (re z) (re w)) (a_mul (im z) (im w))) (a_add (a_mul (re z) (im w)) (a_mul (im z) (re w))).
Definition conj (z : complex A) : complex A := mkComplex (re z) (a_sub a_zero (im z)).

(** The square with three products, and the square of the modulus. *)
Definition csquare (z : complex A) : complex A :=
  mkComplex (a_sub (a_mul (re z) (re z)) (a_mul (im z) (im z))) (a_mul (a_mul a_two (re z)) (im z)).
Definition cnorm2 (z : complex A) : A := a_add (a_mul (re z) (re z)) (a_mul (im z) (im z)).

(** The orbit of the origin under z^2 + c. *)
Fixpoint orbit (c : complex A) (k : nat) : complex A :=
  match k with O => origin | S k => cadd (csquare (orbit c k)) c end.
End Complex.

(** The reference over exact numbers. *)
Section Exact.
Context `{Arithmetic A} (opp : A -> A).
Context (ring : ring_theory a_zero a_one a_add a_mul a_sub opp eq).
Add Ring exact : ring.

Lemma csquare_exact z : csquare z = cmul z z.
Proof. unfold csquare, cmul, a_two. f_equal; ring. Qed.

Lemma cnorm2_exact z : cmul z (conj z) = mkComplex (cnorm2 z) a_zero.
Proof. unfold cmul, conj, cnorm2. cbn [re im]. f_equal; ring. Qed.
End Exact.

(** ** float64 *)
#[export] Instance float_arithmetic : Arithmetic float64 :=
  {| a_zero := float_of_Z 0; a_one := float_of_Z 1; a_add := fadd; a_sub := fsub; a_mul := fmul |}.

(** The point of the plane at the pixel (I, J) of a picture: the picture shows
    the rectangle from -2 - i to 1 + i. *)
Definition plane_point (Width Height I J : Z) : complex float64 :=
  mkComplex (fsub (fdiv (fmul (float_of_Z 3) (float_of_Z I)) (float_of_Z Width)) (float_of_Z 2))
            (fsub (fdiv (fmul (float_of_Z 2) (float_of_Z J)) (float_of_Z Height)) (float_of_Z 1)).

Definition point (z : complex float64) : float64 * float64 := (re z, im z).

(** ** The loop follows the orbit *)
Lemma two_floats : a_two = float_of_Z 2.
Proof. vm_compute. reflexivity. Qed.

Lemma pixel_step_orbit c k : pixel_step (re c) (im c) (point (orbit c k)) = point (orbit c (S k)).
Proof. cbn [orbit]. unfold point, cadd, csquare. cbn [re im]. by rewrite two_floats. Qed.

Lemma pixel_inside_norm complexity z : pixel_inside complexity (point z) = fltb (cnorm2 z) complexity.
Proof. done. Qed.

Lemma norm_point Width Height I J :
  norm I Width (float_of_Z (-1)) (float_of_Z 2) = re (plane_point Width Height I J) /\
  norm J Height (float_of_Z (-1)) (float_of_Z 1) = im (plane_point Width Height I J).
Proof.
  unfold norm, plane_point. cbn [re im].
  assert (fsub (float_of_Z 2) (float_of_Z (-1)) = float_of_Z 3) as -> by (vm_compute; reflexivity).
  assert (fsub (float_of_Z 1) (float_of_Z (-1)) = float_of_Z 2) as -> by (vm_compute; reflexivity).
  done.
Qed.

(** From the point [j] of the orbit on, with [n] rounds left. *)
Lemma pixel_loop_orbit complexity c n : forall j,
  exists k, pixel_loop n complexity (re c) (im c) (point (orbit c j)) = point (orbit c (j + k)) /\ (k <= n)%nat /\
    (forall i, (i < k)%nat -> fltb (cnorm2 (orbit c (j + i))) complexity = true) /\
    (k = n \/ fltb (cnorm2 (orbit c (j + k))) complexity = false).
Proof.
  induction n as [|n IH]; intros j; cbn [pixel_loop].
  - exists 0%nat. rewrite Nat.add_0_r. split; [done|]. split; [done|]. split; [lia|by left].
  - rewrite pixel_inside_norm, pixel_step_orbit. destruct (fltb _ _) eqn:E.
    + destruct (IH (S j)) as (k & Hk & Hle & Hin & Hend).
      exists (S k). replace (j + S k)%nat with (S j + k)%nat by lia. split; [done|]. split; [lia|]. split.
      * intros [|i] Hi; [by rewrite Nat.add_0_r|].
        replace (j + S i)%nat with (S j + i)%nat by lia. apply Hin. lia.
      * destruct Hend as [->|?]; [by left|by right].
    + exists 0%nat. rewrite Nat.add_0_r. split; [done|]. split; [lia|]. split; [lia|by right].
Qed.

(** C30: RenderPixel is the escape of the point of the plane at the pixel: the
    result is the integral part of the real coordinate of the first point of
    the orbit of z^2 + c, from the origin, whose square of the modulus is not
    below the complexity, or of its point after 1000 rounds; it is computed
    without an error for every request. *)
Theorem RenderPixel_orbit `{FloatConv} complexity Height Width I J :
  let c := plane_point Width Height I J in
  exists k, RenderPixel complexity Height Width I J = (float_to_int64 (re (orbit c k)), None) /\
    (k <= 1000)%nat /\
    (forall i, (i < k)%nat -> fltb (cnorm2 (orbit c i)) complexity = true) /\
    (k = 1000%nat \/ fltb (cnorm2 (orbit c k)) complexity = false).
Proof.
  intros c. destruct (pixel_loop_orbit complexity c maxI 0) as (k & E & Hk & Hin & Hend).
  exists k. unfold RenderPixel. destruct (norm_point Width Height I J) as [-> ->]. fold c.
  change (float_of_Z 0, float_of_Z 0) with (point (orbit c 0)). by rewrite E.
Qed.

(** The pixel (10, 90) of a picture of 100 by 100 escapes with a negative
    gray. *)
Example render_pixel_ex :
  let H := amd64_conv in RenderPixel (float_of_Z 4) 100 100 10 90 = (-5, None).
Proof. vm_compute. reflexivity. Qed.
