(* ===== verification/DemoHandler.v ===== *)
(** * DemoHandler: demo/handler.go

    [Handler.ServeHTTP] of the demo service with every route. *)
From Stdlib Require Import ZArith Lia.
From stdpp Require Import base gmap strings list.
From S2P Require Import Prelude GoStrings GoFloat Units Messages Errors GoIO MediaType Http Codec Service.
From S2P Require Import StreamWriter DemoService.
Local Open Scope Z_scope.

(** What became of a request: a complete response, or a stream that starts
    (or is rejected) with the handler that feeds it; [handles] runs it. *)
Inductive served :=
| Answered (w : ResponseWriter)
| Streaming (start : stream_start) (h : stream_handler).

Section Handler.
Context `{UnicodeTables, FmtFallback, BufferGrowth, Codec, FloatConv, TitleCase}.
Context {R : Type} `{FiniteReader R}.
Implicit Types (w : ResponseWriter) (r : Request R) (svc : DemoService.Service).

(** A reply ends the request. *)
Definition answered (o : outcome (ResponseWriter * Header)) : outcome served :=
  omap_ret (fun '(w, _) => Answered w) o.

(** The request messages into which a body is decoded. *)
Definition say_hello_name (m : message) : string :=
  match m with MSayHelloRequest n => n | _ => "" end.
Definition list_events_count (m : message) : Z :=
  match m with MListEventsRequest n => n | _ => 0 end.
Definition content_path (m : message) : string :=
  match m with MContentDownloadRequest p => p | _ => "" end.
Definition render_pixel_request (m : message) : float64 * Z * Z * Z * Z :=
  match m with
  | MRenderPixelRequest c h w i j => (c, h, w, i, j)
  | _ => (float_of_Z 0, 0, 0, 0, 0)
  end.

Definition handleSayHello w r : outcome served :=
  let '(_, req, err) := ReadRequest r (MSayHelloRequest "") (5 * MegaByte) in
  match err with
  | Some e => answered (ReplyError w (Req_Header r) (Some e))
  | None =>
    let '(resp, err) := SayHello (say_hello_name req) "" in
    match err with
    | Some e => answered (ReplyError w (Req_Header r) (Some e))
    | None => answered (Service.Reply w (Req_Header r) CodeOK (Some (MSayHelloResponse resp)))
    end
  end.

(** The loop over the events, then [stream.Close(nil)]. *)
Fixpoint send_events (events : list message) : stream_handler :=
  match events with
  | [] => SHClose None (fun err => SHReturn err)
  | e :: t =>
    SHSend (Some e) (fun err => match err with Some x => SHReturn (Some x) | None => send_events t end)
  end.

Definition listEvents r : stream_handler :=
  let '(_, req, err) := ReadRequest r (MListEventsRequest 0) (5 * MegaByte) in
  match err with
  | Some e => SHReturn (Some e)
  | None =>
    match ListEvents (list_events_count req) with
    | Panic why => SHPanic why
    | Ret (_, Some e) => SHReturn (Some e)
    | Ret (events, None) => send_events events
    end
  end.

Definition handleDownloadBytes w : outcome served :=
  omap_ret Answered (WriteContent w ContentOctetStream (of_string "hello, bytes")).

Definition handleRenderPixel w r : outcome served :=
  let '(_, req, err) := ReadRequest r (MRenderPixelRequest (float_of_Z 0) 0 0 0 0) (5 * MegaByte) in
  match err with
  | Some e => answered (ReplyError w (Req_Header r) (Some e))
  | None =>
    let '(c, height, width, i, j) := render_pixel_request req in
    let '(gray, err) := RenderPixel c height width i j in
    match err with
    | Some e => answered (ReplyError w (Req_Header r) (Some e))
    | None => answered (Service.Reply w (Req_Header r) CodeOK (Some (MRenderPixelResponse gray)))
    end
  end.

(** The reply of a successful upload. *)
Definition stored_reply (path : string) (b : bytes) : Messages.Reply :=
  mkReply (Itoa CodeOK) "content stored"
    (Some (<["path" := path]> (<["size" := Itoa (Z.of_nat (length b))]> ∅))).

Definition handleContentUpload svc w r : DemoService.Service * outcome served :=
  let '(_, (b, ctype, err)) := ReadContent r (10 * MegaByte) in
  match err with
  | Some e => (svc, answered (ReplyContentError w (Req_Header r) (Some e)))
  | None =>
    let path := Header_Get (Req_Header r) "X-RPC-Path" in
    if decide (path = "") then
      (svc, answered (ReplyContentError w (Req_Header r)
              (Some (NewServiceError CodeBadRequest "X-RPC-Path header is required" None None))))
    else
      let '(svc, err) := StoreContent svc path ctype b in
      match err with
      | Some e => (svc, answered (ReplyContentError w (Req_Header r) (Some e)))
      | None =>
        (svc, answered (Service.Reply w (Req_Header r) CodeOK (Some (MReply (stored_reply path b)))))
      end
  end.

Definition handleContentDownload svc w r : outcome served :=
  let '(_, req, err) := ReadRequest r (MContentDownloadRequest "") (5 * MegaByte) in
  match err with
  | Some e => answered (ReplyError w (Req_Header r) (Some e))
  | None =>
    let '(ctype, b, err) := GetContent svc (content_path req) in
    match err with
    | Some e => answered (ReplyContentError w (Req_Header r) (Some e))
    | None => omap_ret Answered (WriteContent w ctype b)
    end
  end.

(** [Handler.ServeHTTP]: the state of the service afterwards and what became
    of the request. *)
Definition ServeHTTP svc w r : DemoService.Service * outcome served :=
  if decide (Method r <> "POST") then
    (svc, answered (ReplyWithCode w (Req_Header r) CodeBadRequest None
            ("http method '" +:+ Method r +:+ "' not allowed; only POST")))
  else if decide (URL_Path r = "/v1/say.hello") then (svc, handleSayHello w r)
  else if decide (URL_Path r = "/v1/render.pixel") then (svc, handleRenderPixel w r)
  else if decide (URL_Path r = "/v1/events.list") then
    (svc, Ret (Streaming (HandleStream_start w (Req_Header r) None) (listEvents r)))
  else if decide (URL_Path r = "/v1/bytes.download") then (svc, handleDownloadBytes w)
  else if decide (URL_Path r = "/v1/content.upload") then handleContentUpload svc w r
  else if decide (URL_Path r = "/v1/content.download") then (svc, handleContentDownload svc w r)
  else (svc, answered (ReplyWithCode w (Req_Header r) CodeNotImplemented None
               ("no such method; " +:+ URL_Path r))).

(** A call of [Handler.ServeHTTP] from its beginning to its end: the state of
    the service and the response afterwards, and whether it returned or
    panicked.  A stream that starts runs the handler and the heartbeats of
    HandleStream, in any interleaving, with any answers [ctx] of the request's
    context, until the goroutine of the handler ends. *)
Inductive handles svc w r : DemoService.Service -> ResponseWriter -> outcome unit -> Prop :=
| handles_answer svc' w' :
    ServeHTTP svc w r = (svc', Ret (Answered w')) -> handles svc w r svc' w' (Ret tt)
| handles_rejection svc' w' rh h :
    ServeHTTP svc w r = (svc', Ret (Streaming (Rejected (Ret (w', rh))) h)) -> handles svc w r svc' w' (Ret tt)
| handles_stream svc' w' enc hb h ctx c o :
    ServeHTTP svc w r = (svc', Ret (Streaming (Started w' enc hb) h)) ->
    reachable (stream_config w' enc hb ctx h) c -> ended (c_main c) = Some o ->
    handles svc w r svc' (sw_w (c_sw c)) o
| handles_rejection_panic svc' why h :
    ServeHTTP svc w r = (svc', Ret (Streaming (Rejected (Panic why)) h)) -> handles svc w r svc' w (Panic why)
| handles_panic svc' why :
    ServeHTTP svc w r = (svc', Panic why) -> handles svc w r svc' w (Panic why).
End Handler.
