(* ===== verification/DemoServe.v ===== *)
(** * DemoServe: every call of the demo handler

    What a call of [ServeHTTP] answers, from its beginning to its end, the
    goroutines of a stream included. *)
From Stdlib Require Import ZArith Lia.
From stdpp Require Import base gmap strings list relations.
From S2P Require Import Prelude GoStrings GoFloat Units Messages Errors GoIO Frames MediaType Http Codec Service.
From S2P Require Import StreamWriter StreamAlone StreamSafety StreamServer DemoService DemoHandler.
From S2P Require ReferenceCodec.
Local Open Scope Z_scope.

(** The statuses the service answers with. *)
Definition used_codes : list Z :=
  [CodeOK; CodeBadRequest; CodeNotFound; CodeClientContentError; CodeInternalError; CodeNotImplemented].

Ltac used := unfold used_codes; rewrite ?elem_of_cons; tauto.

(** The cases of a call [Hh] whose [ServeHTTP] is known by [E]. *)
Ltac inv_handles Hh E :=
  let Eh := fresh "Eh" in
  destruct Hh as [? ? Eh|? ? ? ? Eh|? ? ? ? ? ? ? ? Eh|? ? ? Eh|? ? Eh]; rewrite E in Eh; simplify_eq.

Definition media_type (enc : encoding) : string :=
  match enc with JSON => ContentTypeJSON | ProtoBuf => ContentTypeProtoBuf end.

Section Serve.
Context `{UnicodeTables, FmtFallback, BufferGrowth, CodecLaws, FloatConv, TitleCase}.

(** ** Answers *)

(** [b] is a Reply in the encoding of the media type [ct]. *)
Definition reply_body (ct : string) (b : bytes) : Prop :=
  exists enc r, marshal enc (Some (MReply r)) = inl b /\ ct = media_type enc.

(** A complete answer of the service: one status it uses, with the headers of
    every service response, and the whole body, which is a Reply unless the
    status is 200. *)
Definition service_answer (w w' : ResponseWriter) : Prop :=
  exists code h b, rw_status w' = Some (code, h) /\ code ∈ used_codes /\
    Header_Get h HeaderDUHVersion = DUHVersion /\ Header_Get h "X-Content-Type-Options" = "nosniff" /\
    rw_body w' = rw_body w ++ b /\ (code = CodeOK \/ reply_body (Header_Get h "Content-Type") b).

Definition is_answered (w : ResponseWriter) (o : outcome served) : Prop :=
  exists w', o = Ret (Answered w') /\ service_answer w w'.

Lemma used_code_range code : code ∈ used_codes -> 200 <= code <= 999 /\ body_allowed code = true.
Proof.
  unfold used_codes. rewrite !elem_of_cons, elem_of_nil.
  intros Hc. repeat destruct Hc as [->|Hc]; try done.
Qed.

Lemma sent_reply_answer w code ct b :
  fresh w -> code ∈ used_codes -> code = CodeOK \/ reply_body ct b -> service_answer w (sent_reply w code ct b).
Proof.
  intros (_ & Hf & _) Hc Hb. destruct (sent_reply_status w code ct b) as (h & E & <- & E1 & E2).
  exists code, h, b. do 4 (split; [done|]). split; [|done].
  apply sent_reply_body; [done|by apply used_code_range].
Qed.

Lemma accept_media_type rh enc ct : accept_encoding rh = Some (enc, ct) -> ct = media_type enc.
Proof. unfold accept_encoding, reply_encoding. repeat case_decide; by intros [= <- <-]. Qed.

(** The body of a reply. *)
Lemma reply_result_answer rh code m code' ct b :
  code ∈ used_codes -> code = CodeOK \/ (exists r, m = MReply r) ->
  reply_result rh code (Some m) code' ct b -> code' ∈ used_codes /\ (code' = CodeOK \/ reply_body ct b).
Proof.
  intros Hc Hm [enc ct' b' Ha Hb|enc ct' e b' Ha He Hb|b' Ha Hb|e b' Ha He Hb].
  - split; [done|]. destruct Hm as [?|[r ->]]; [by left|right]. exists enc, r.
    split; [done|by eapply accept_media_type].
  - split; [used|right]. eexists enc, _. split; [done|by eapply accept_media_type].
  - split; [used|right]. by eexists JSON, _.
  - split; [used|right]. by eexists JSON, _.
Qed.

Lemma Reply_sends w rh code m :
  fresh w -> code ∈ used_codes -> code = CodeOK \/ (exists r, m = MReply r) ->
  exists w' rh', Service.Reply w rh code (Some m) = Ret (w', rh') /\ service_answer w w'.
Proof.
  intros Hw Hc Hm. pose proof Hw as (Hs & _). destruct (used_code_range _ Hc) as [Hrange _].
  destruct (Reply_result w rh code (Some m) Hs Hrange) as (code' & ct & b & rh' & E & Hr).
  destruct (reply_result_answer _ _ _ _ _ _ Hc Hm Hr) as [Hc' Hb].
  exists (sent_reply w code' ct b), rh'. split; [exact E|by apply sent_reply_answer].
Qed.

Lemma answered_sent w o : (exists w' rh', o = Ret (w', rh') /\ service_answer w w') -> is_answered w (answered o).
Proof. intros (w' & rh' & -> & Hw). by exists w'. Qed.

Lemma ReplyWithCode_sends w rh code details msg :
  fresh w -> code ∈ used_codes ->
  exists w' rh', ReplyWithCode w rh code details msg = Ret (w', rh') /\ service_answer w w'.
Proof. intros Hw Hc. apply Reply_sends; [done|done|right; by eexists]. Qed.

Lemma ReplyError_answered w rh e codes :
  fresh w -> codes ⊆ used_codes -> replies_with codes e -> is_answered w (answered (ReplyError w rh (Some e))).
Proof.
  intros Hw Hc (d & r & He & Hp & Hd). apply answered_sent. unfold ReplyError. rewrite He, Hp.
  apply Reply_sends; [done|by apply Hc|right; by eexists].
Qed.

(** A built service error, answered with its status. *)
Lemma service_error_answered w rh code msg err details :
  fresh w -> code ∈ used_codes ->
  is_answered w (answered (ReplyError w rh (Some (NewServiceError code msg err details)))).
Proof. intros Hw Hc. by apply (ReplyError_answered _ _ _ used_codes), NewServiceErrorWithCode_replies. Qed.

Lemma WriteContent_answered w ct b : fresh w -> is_answered w (omap_ret Answered (WriteContent w ct b)).
Proof.
  intros Hw. pose proof Hw as (Hs & _). rewrite WriteContent_sent by done. eexists. split; [reflexivity|].
  apply sent_reply_answer; [done|used|by left].
Qed.

(** ** Handlers *)
Context {R : Type} `{ReaderSpec R}.
Implicit Types (r : Request R).

(** The two ways a handler that reads a message starts. *)
Lemma read_then_answered w r m limit (k : message -> outcome served) :
  fresh w -> as_Error (rd_end (Req_Body r)) = None -> (forall req, is_answered w (k req)) ->
  is_answered w (let '(_, req, err) := ReadRequest r m limit in
    match err with Some e => answered (ReplyError w (Req_Header r) (Some e)) | None => k req end).
Proof.
  intros Hw Hb Hk. destruct (ReadRequest r m limit) as [[r' req] [e|]] eqn:E; [|apply Hk].
  eapply ReplyError_answered; [done| |by eapply ReadRequest_error_replies]. unfold used_codes. set_solver.
Qed.

Lemma handleSayHello_answered w r :
  fresh w -> as_Error (rd_end (Req_Body r)) = None -> is_answered w (handleSayHello w r).
Proof.
  intros Hw Hb. apply read_then_answered; [done|done|]. intros req. unfold SayHello.
  case_decide; [apply service_error_answered; [done|used]|].
  case_decide; [apply service_error_answered; [done|used]|].
  apply answered_sent, Reply_sends; [done|used|by left].
Qed.

Lemma handleRenderPixel_answered w r :
  fresh w -> as_Error (rd_end (Req_Body r)) = None -> is_answered w (handleRenderPixel w r).
Proof.
  intros Hw Hb. apply read_then_answered; [done|done|]. intros req.
  destruct (render_pixel_request req) as [[[[c h] wd] i] j].
  apply answered_sent, Reply_sends; [done|used|by left].
Qed.

Lemma handleContentDownload_answered svc w r :
  fresh w -> as_Error (rd_end (Req_Body r)) = None -> is_answered w (handleContentDownload svc w r).
Proof.
  intros Hw Hb. apply read_then_answered; [done|done|]. intros req. unfold GetContent.
  destruct (content svc !! _) as [e|]; [by apply WriteContent_answered|].
  apply service_error_answered; [done|used].
Qed.

(** The state changes only by a stored upload. *)
Definition stores svc r svc' : Prop :=
  exists b, Header_Get (Req_Header r) "X-RPC-Path" <> "" /\
    snd (ReadContent r (10 * MegaByte)) = (b, Header_Get (Req_Header r) "Content-Type", None) /\
    svc' = mkService (<[Header_Get (Req_Header r) "X-RPC-Path" :=
                        mkContentEntry (Header_Get (Req_Header r) "Content-Type") b]> (content svc)).

Lemma handleContentUpload_answered svc w r :
  fresh w -> as_Error (rd_end (Req_Body r)) = None ->
  is_answered w (snd (handleContentUpload svc w r)) /\
  (fst (handleContentUpload svc w r) = svc \/ stores svc r (fst (handleContentUpload svc w r))).
Proof.
  intros Hw Hb. unfold handleContentUpload.
  destruct (ReadContent r (10 * MegaByte)) as [r' [[b ct] [e|]]] eqn:E; cbn [fst snd].
  - split; [|by left]. eapply ReplyError_answered; [done| |by eapply ReadContent_error_replies].
    unfold used_codes. set_solver.
  - case_decide as Hp; cbn [fst snd].
    + split; [|by left]. apply service_error_answered; [done|used].
    + cbn [StoreContent fst snd]. split; [apply answered_sent, Reply_sends; [done|used|by left]|]. right. exists b.
      assert (ct = Header_Get (Req_Header r) "Content-Type") as ->.
      { unfold ReadContent in E. destruct (copy_body _ _) as [? [? [?|]]]; by simplify_eq. }
      by rewrite E.
Qed.

(** ** The stream of the events *)

(** The request decodes, and asks for a negative number of events. *)
Definition negative_count r : Prop :=
  exists r' m, ReadRequest r (MListEventsRequest 0) (5 * MegaByte) = (r', m, None) /\ list_events_count m < 0.

(** How a handler ends that neither panics nor returns an error without an
    answer. *)
Definition ends_well (enc : encoding) (ctx : list (option goerror)) (h : stream_handler) : Prop :=
  exists fs closed e, handler_frames enc false ctx h = (fs, closed, Ret e) /\
    match e with Some x => exists rep, buildErrorReply x = Ret rep | None => True end.

Lemma ends_well_returns enc ctx h : ends_well enc ctx h -> snd (stream_frames enc ctx h) = Ret tt.
Proof.
  intros (fs & closed & e & E & He). unfold stream_frames. rewrite E. destruct e as [x|]; [|done].
  destruct He as [rep Hr]. destruct closed; [done|]. unfold error_frames. rewrite Hr. by destruct (marshal _ _).
Qed.

Lemma replies_with_reply codes e : replies_with codes e -> exists rep, buildErrorReply e = Ret rep.
Proof. intros (d & rep & He & Hp & _). exists rep. unfold buildErrorReply. by rewrite He, Hp. Qed.

Lemma plain_error_reply text e : as_Error e = None -> exists rep, buildErrorReply (ErrWrap text e) = Ret rep.
Proof.
  intros He. pose proof (as_Error_wrapped [text] e) as Hw. cbn [wrapped foldr] in Hw.
  unfold buildErrorReply. rewrite Hw, He. by eexists.
Qed.

Context `{!CodecErrors}.

Lemma send_events_ends enc ctx events : ends_well enc ctx (send_events events).
Proof.
  unfold ends_well. induction events as [|m events IH]; cbn [send_events handler_frames].
  - by eexists _, _, _.
  - unfold send_result. destruct (marshal enc (Some m)) as [b|x] eqn:E.
    + destruct IH as (fs & closed & e & -> & He). by eexists _, _, _.
    + eexists _, _, _. split; [reflexivity|]. by eapply plain_error_reply, marshal_error_plain.
Qed.

Lemma listEvents_outcome r enc ctx :
  as_Error (rd_end (Req_Body r)) = None ->
  (snd (stream_frames enc ctx (listEvents r)) = Ret tt /\ ~ negative_count r) \/
  (snd (stream_frames enc ctx (listEvents r)) = Panic "runtime error: makeslice: cap out of range" /\ negative_count r).
Proof.
  intros Hb. unfold listEvents, negative_count.
  destruct (ReadRequest r (MListEventsRequest 0) (5 * MegaByte)) as [[r' req] [e|]] eqn:E.
  - left. split; [|by intros (? & ? & ? & _)]. apply ends_well_returns. eexists _, _, _. split; [reflexivity|].
    by eapply replies_with_reply, ReadRequest_error_replies.
  - unfold ListEvents. destruct (Z.ltb_spec (list_events_count req) 0) as [Hn|Hn].
    + right. split; [done|by eauto].
    + left. split; [apply ends_well_returns, send_events_ends|]. intros (? & ? & [= <- <-] & ?). lia.
Qed.

(** ** ServeHTTP *)

(** What a request for the events gets: a response of whole frames, heartbeats
    apart those of the contract of HandleStream, and a panic exactly when it
    asks for a negative number of events. *)
Definition streamed (w : ResponseWriter) r (w' : ResponseWriter) (o : outcome unit) : Prop :=
  exists enc ctx fs, stream_encoding (normalizeMediaType (Header_Get (Req_Header r) "Accept")) = Some enc /\
    rw_body w' = rw_body w ++ encode_frames fs /\
    encode_frames (StreamSafety.without_heartbeats fs) = encode_frames (fst (stream_frames enc ctx (listEvents r))) /\
    (fs <> [] -> exists h, rw_status w' = Some (CodeOK, h) /\ Header_Get h HeaderDUHVersion = DUHVersion) /\
    (o = Ret tt /\ ~ negative_count r \/
     o = Panic "runtime error: makeslice: cap out of range" /\ negative_count r).

(** The requests for the events, with the place where ServeHTTP hands them to
    HandleStream. *)
Definition events_request r : Prop := Method r = "POST" /\ URL_Path r = "/v1/events.list".

Lemma ServeHTTP_served svc w r :
  fresh w -> as_Error (rd_end (Req_Body r)) = None ->
  let '(svc', o) := ServeHTTP svc w r in
  (is_answered w o \/ events_request r /\ o = Ret (Streaming (HandleStream_start w (Req_Header r) None) (listEvents r))) /\
  (svc' = svc \/ Method r = "POST" /\ URL_Path r = "/v1/content.upload" /\ stores svc r svc').
Proof.
  intros Hw Hb. unfold ServeHTTP.
  case_decide as Hm; [split; [|by left]; left; apply answered_sent, ReplyWithCode_sends; [done|used]|].
  assert (Method r = "POST") as Hpost by (destruct (decide (Method r = "POST")); [done|by destruct Hm]).
  case_decide; [split; [left; by apply handleSayHello_answered|by left]|].
  case_decide; [split; [left; by apply handleRenderPixel_answered|by left]|].
  case_decide; [split; [by right|by left]|].
  case_decide; [split; [left; by apply WriteContent_answered|by left]|].
  case_decide.
  { destruct (handleContentUpload_answered svc w r Hw Hb) as [Ha Hst].
    destruct (handleContentUpload svc w r) as [svc' o]. split; [by left|]. destruct Hst; [by left|by right]. }
  case_decide; [split; [left; by apply handleContentDownload_answered|by left]|].
  split; [|by left]. left. apply answered_sent, ReplyWithCode_sends; [done|used].
Qed.

(** The start of the stream: rejected with an answer, or with nothing sent. *)
Lemma events_start w rh :
  fresh w ->
  (exists w' rh', HandleStream_start w rh None = Rejected (Ret (w', rh')) /\ service_answer w w') \/
  (exists w' enc, HandleStream_start w rh None = Started w' enc true /\ fresh w' /\ rw_body w' = rw_body w /\
     stream_encoding (normalizeMediaType (Header_Get rh "Accept")) = Some enc /\
     Header_Get (rw_header w') HeaderDUHVersion = DUHVersion).
Proof.
  intros Hw. unfold HandleStream_start. destruct (rw_flusher w); cbn [negb].
  - destruct (stream_encoding _) as [enc|] eqn:E.
    + right. do 2 eexists. split; [reflexivity|]. split; [exact Hw|]. split; [done|]. split; [done|].
      by apply service_headers_get.
    + left. destruct (ReplyWithCode_sends w rh CodeBadRequest None (stream_accept_error (Header_Get rh "Accept"))
        Hw ltac:(used)) as (w' & rh' & -> & Ha). eauto.
  - left. destruct (ReplyWithCode_sends w rh CodeInternalError None "response writer does not support streaming"
      Hw ltac:(used)) as (w' & rh' & -> & Ha). eauto.
Qed.

Lemma handled_stream_answer w w1 r enc ctx c o :
  as_Error (rd_end (Req_Body r)) = None -> fresh w1 -> rw_body w1 = rw_body w ->
  stream_encoding (normalizeMediaType (Header_Get (Req_Header r) "Accept")) = Some enc ->
  Header_Get (rw_header w1) HeaderDUHVersion = DUHVersion ->
  reachable (stream_config w1 enc true ctx (listEvents r)) c -> ended (c_main c) = Some o ->
  streamed w r (sw_w (c_sw c)) o.
Proof.
  intros Hb Hw1 Hbody Henc Hv Hr He.
  destruct (contract_on_wire enc w1 true ctx _ c o Hw1 Hr He) as (-> & fs & E1 & E2 & _ & _ & _ & E3 & _).
  exists enc, ctx, fs. split; [done|]. split; [rewrite <- Hbody; exact E1|]. split; [done|].
  split; [intros Hne; eexists; split; [by apply E3|done]|]. by apply listEvents_outcome.
Qed.

End Serve.

(** ** Witness *)
Import ReferenceCodec.
#[local] Existing Instance amd64_conv.

(** A third-party function: capitalise the first letter. *)
Definition first_upper : TitleCase :=
  {| Title s := match of_string s with b :: t => to_string (upper_byte b :: t) | [] => "" end |}.
#[local] Existing Instance first_upper.

(** A request to a path the service does not have. *)
Definition stray_request : Request source := mkRequest "POST" "/v1/nothing" "http://h/v1/nothing" ∅ (mkBody [] false).

Lemma no_body_error : as_Error (rd_end (Req_Body stray_request)) = None.
Proof. reflexivity. Qed.

Lemma fresh_writer flusher : fresh (fresh_rw flusher []).
Proof. done. Qed.

