(* ===== verification/DemoClient.v ===== *)
(** * DemoClient: demo/client.go

    The client of the demo service: how each call builds its request and which
    method of the HTTP client it uses; [http.NewRequestWithContext] for the
    POST requests it makes. *)
From Stdlib Require Import ZArith Lia.
From stdpp Require Import base gmap strings list.
From S2P Require Import Prelude GoStrings GoFloat Messages Errors GoIO MediaType Http Codec.
From S2P Require Import StreamWriter StreamReader Client.
Local Open Scope Z_scope.

(** [net/url.Parse]: the [String()] and the [Path] of a URL. *)
Class URLParser := { url_Parse : string -> (string * string) + goerror }.

(** [bytes.NewReader] *)
Definition bytes_NewReader (b : bytes) : source := match b with [] => [] | _ => [Chunk b] end.

(** [http.NewRequestWithContext] with the method POST. *)
Definition NewPostRequest `{URLParser} (url : string) (body : bytes) : Request source + goerror :=
  match url_Parse url with
  | inr e => inr e
  | inl (u, path) => inl (mkRequest "POST" path u ∅ (mkBody (bytes_NewReader body) false))
  end.

Definition set_header {R} (r : Request R) (k v : string) : Request R :=
  with_Header r (Header_Set (Req_Header r) k v).

(** [type Client struct], [ClientConfig] and [NewClient]: without a client the
    one of the default transport is used. *)
Record demoClient (B : Type) := mkDemoClient {
  dc_Client : Client source B;
  dc_endpoint : string
}.
Arguments mkDemoClient {B}. Arguments dc_Client {B}. Arguments dc_endpoint {B}.

Record ClientConfig (B : Type) := mkClientConfig {
  Endpoint : string;
  conf_Client : option (Request source -> Response B + goerror)
}.
Arguments mkClientConfig {B}. Arguments Endpoint {B}. Arguments conf_Client {B}.

Definition NewClient {B} (DefaultTransport : Request source -> Response B + goerror)
    (conf : ClientConfig B) : demoClient B :=
  mkDemoClient (mkClient (default DefaultTransport (conf_Client conf)) 0 0) (Endpoint conf).

Section Calls.
Context `{UnicodeTables, FmtFallback, BufferGrowth, Codec, URLParser}.
Context {B : Type} `{StreamBody B}.
Implicit Types (c : demoClient B).

(** [fmt.Sprintf("%s/%s", c.endpoint, path)] *)
Definition call_url c (path : string) : string := dc_endpoint c +:+ "/" +:+ path.

Definition marshal_request_error (e : goerror) : goerror :=
  NewClientError "while marshaling request payload: %w" (Some e) None.

(** The request of a call that sends [m]: the payload, the URL, the headers. *)
Definition call_request c (enc : encoding) (m : message) (path : string) (headers : list (string * string))
    : Request source + goerror :=
  match marshal enc (Some m) with
  | inr e => inr (marshal_request_error e)
  | inl payload =>
    match NewPostRequest (call_url c path) payload with
    | inr e => inr (NewClientError "" (Some e) None)
    | inl r => inl (foldl (fun r '(k, v) => set_header r k v) r headers)
    end
  end.

Definition SayHello c (Name : string) (resp : message) : message * option goerror :=
  match call_request c JSON (MSayHelloRequest Name) "v1/say.hello"
          [("Content-Type", ContentTypeJSON)] with
  | inr e => (resp, Some e)
  | inl r => let '(_, m, e) := Do (dc_Client c) r resp in (m, e)
  end.

Definition ListEvents c (Count : Z) : streamReader B + goerror :=
  match call_request c JSON (MListEventsRequest Count) "v1/events.list"
          [("Content-Type", ContentTypeJSON); ("Accept", ContentStreamJSON)] with
  | inr e => inr e
  | inl r => match DoStream (dc_Client c) r with inl sr => inl sr | inr (_, e) => inr e end
  end.

Definition DownloadBytes c : B + goerror :=
  match NewPostRequest (call_url c "v1/bytes.download") [] with
  | inr e => inr (NewClientError "" (Some e) None)
  | inl r =>
    match DoBytes (dc_Client c) (set_header r "Accept" ContentOctetStream) with
    | inl b => inl b
    | inr (_, e) => inr e
    end
  end.

Definition UploadContent c (path ctype : string) (body : bytes) : option goerror :=
  match NewPostRequest (call_url c "v1/content.upload") body with
  | inr e => Some (NewClientError "" (Some e) None)
  | inl r =>
    let r := set_header (set_header r "Content-Type" ctype) "X-RPC-Path" path in
    snd (Do (dc_Client c) r (MReply Reply_zero))
  end.

(** The caller's buffer, and the headers or the error. *)
Definition DownloadContent c (path : string) (buf : bytes) : bytes * (Header + goerror) :=
  match call_request c JSON (MContentDownloadRequest path) "v1/content.download"
          [("Content-Type", ContentTypeJSON)] with
  | inr e => (buf, inr e)
  | inl r => let '(_, buf, res) := DoContent (dc_Client c) r buf in (buf, res)
  end.

Definition RenderPixel c (complexity : float64) (Height Width I J : Z) (resp : message)
    : message * option goerror :=
  match call_request c ProtoBuf (MRenderPixelRequest complexity Height Width I J) "v1/render.pixel"
          [("Content-Type", ContentTypeProtoBuf)] with
  | inr e => (resp, Some e)
  | inl r => let '(_, m, e) := Do (dc_Client c) r resp in (m, e)
  end.
End Calls.
