(* ===== verification/DemoSpec.v ===== *)
(** * DemoSpec: the theorems on the demo service

    What the greeting, the content store and the event stream give to a client
    that calls them over the network. *)
From Stdlib Require Import ZArith Lia.
From stdpp Require Import base gmap strings list.
From S2P Require Import Prelude GoStrings GoFloat Units Messages Errors GoIO MediaType Http Codec Service.
From S2P Require Import Frames StreamWriter StreamServer StreamReader TimedBody StreamClient Client ClientSpec.
From S2P Require Import DemoService DemoHandler DemoServe.
From S2P Require DemoClient ReferenceCodec.
Local Open Scope Z_scope.

(** ** The client and the handler, over a network *)
Section EndToEnd.
Context `{UnicodeTables, FmtFallback, BufferGrowth, CodecLaws, FloatConv, TitleCase, !DemoClient.URLParser}.
Context {R B : Type} `{ReaderSpec R, ReaderSpec B, !StreamBody B}.

(** The request as the server receives it: the same method, path, body and
    values of the headers the service looks at. *)
Record received_as (req : Request source) (req' : Request R) : Prop := mkReceived {
  ra_method : Method req' = Method req;
  ra_path : URL_Path req' = URL_Path req;
  ra_headers : forall k, k ∈ ["Accept"; "Content-Type"; "X-RPC-Path"] ->
    Header_Get (Req_Header req') k = Header_Get (Req_Header req) k;
  ra_bytes : rd_bytes (Req_Body req') = rd_bytes (Req_Body req);
  ra_end : rd_end (Req_Body req') = ErrSentinel EOF
}.

(** The HTTP client [c] reaches the demo handler in the state [svc]: a request
    whose body can be read arrives there, and what the handler answers is the
    response. *)
Definition connected (svc : DemoService.Service) (c : Client source B) : Prop :=
  forall req, rd_end (Req_Body req) = ErrSentinel EOF ->
  exists req', received_as req req' /\
    forall w, snd (ServeHTTP svc (fresh_rw true []) req') = Ret (Answered w) ->
    exists resp, http_Do c req = inl resp /\ arrives w resp.

Lemma post_body p :
  rd_bytes (mkBody (DemoClient.bytes_NewReader p) false) = p /\
  rd_end (mkBody (DemoClient.bytes_NewReader p) false) = ErrSentinel EOF.
Proof. destruct p; cbn; by rewrite ?app_nil_r. Qed.

(** A POST of [p] with the given headers, as both ends see it. *)
Definition post (url path : string) (p : bytes) (headers : list (string * string)) : Request source :=
  foldl (fun r '(k, v) => DemoClient.set_header r k v)
    (mkRequest "POST" path url ∅ (mkBody (DemoClient.bytes_NewReader p) false)) headers.

Lemma post_fields url path p headers :
  Method (post url path p headers) = "POST" /\ URL_Path (post url path p headers) = path /\
  rd_bytes (Req_Body (post url path p headers)) = p /\
  rd_end (Req_Body (post url path p headers)) = ErrSentinel EOF.
Proof.
  unfold post. set (r := mkRequest _ _ _ _ _).
  assert (Method r = "POST" /\ URL_Path r = path /\ rd_bytes (Req_Body r) = p /\
          rd_end (Req_Body r) = ErrSentinel EOF) as Hr
    by (split; [done|]; split; [done|]; apply post_body).
  clearbody r. revert r Hr. induction headers as [|[k v] t IH]; intros r Hr; [exact Hr|].
  cbn [foldl]. apply IH. exact Hr.
Qed.

Lemma call_request_post (c : DemoClient.demoClient B) enc m path headers p u path' :
  marshal enc (Some m) = inl p ->
  DemoClient.url_Parse (DemoClient.call_url c path) = inl (u, path') ->
  DemoClient.call_request c enc m path headers = inl (post u path' p headers).
Proof. intros Hm Hu. unfold DemoClient.call_request, DemoClient.NewPostRequest. by rewrite Hm, Hu. Qed.

(** A structured call: what the handler makes of the request it receives. *)
Lemma post_arrives svc c u path p headers :
  connected svc c ->
  exists req' : Request R, Method req' = "POST" /\ URL_Path req' = path /\
    (forall k, k ∈ ["Accept"; "Content-Type"; "X-RPC-Path"] ->
       Header_Get (Req_Header req') k = Header_Get (Req_Header (post u path p headers)) k) /\
    rd_bytes (Req_Body req') = p /\ rd_end (Req_Body req') = ErrSentinel EOF /\
    forall w, snd (ServeHTTP svc (fresh_rw true []) req') = Ret (Answered w) ->
    exists resp, http_Do c (post u path p headers) = inl resp /\ arrives w resp.
Proof.
  intros Hc. destruct (post_fields u path p headers) as (E1 & E2 & E3 & E4).
  destruct (Hc _ E4) as (req' & [] & Hw). exists req'. rewrite E1, E2, E3 in *. done.
Qed.

(** The message the handler decodes. *)
Lemma read_crossing (r : Request R) p m m0 limit :
  rd_bytes (Req_Body r) = p -> rd_end (Req_Body r) = ErrSentinel EOF ->
  Header_Get (Req_Header r) "Content-Type" = ContentTypeJSON ->
  crosses JSON p m m0 -> Z.of_nat (length p) <= limit < max_int64 ->
  exists r', ReadRequest r m0 limit = (r', m, None).
Proof.
  intros Hp He Hct [_ Hu] Hl.
  destruct (ReadRequest_read r m0 limit JSON He) as (r' & E & _).
  - rewrite Hp. right. lia.
  - rewrite Hct. reflexivity.
  - rewrite Hp, Hu in E. eauto.
Qed.

Lemma no_accept rh : Header_Get rh "Accept" = "" -> accept_encoding rh = Some (JSON, ContentTypeJSON).
Proof. intros Ha. unfold accept_encoding. rewrite Ha. reflexivity. Qed.

(** What the client makes of an error reply of the service. *)
Lemma call_error_reply (c : Client source B) rh req out code msg q :
  Header_Get rh "Accept" = "" -> code ∈ used_codes -> code <> CodeOK ->
  marshal JSON (Some (MReply (mkReply (Itoa code) msg None))) = inl q -> msg <> "" ->
  (forall w, answered (ReplyError (fresh_rw true []) rh (Some (NewServiceError code msg None None))) =
       Ret (Answered w) -> exists resp, http_Do c req = inl resp /\ arrives w resp) ->
  exists b e d, Do c req out = (Some b, out, Some e) /\ as_Error e = Some d /\
    HTTPCode d = code /\ Code d = Itoa code /\ Message d = msg /\ as_infraChecker e = Some false.
Proof.
  intros Ha Hc Hne Hq Hmsg Hnet.
  assert (ReplyError (fresh_rw true []) rh (Some (NewServiceError code msg None None)) =
          Ret (sent_reply (fresh_rw true []) code ContentTypeJSON q, rh)) as E.
  { unfold ReplyError, NewServiceError. rewrite NewServiceErrorWithCode_Error. cbn [HTTPCode ProtoMessage].
    unfold built_message. rewrite decide_False by done.
    apply (Reply_ok _ _ _ _ JSON); [done|by apply used_code_range|by apply no_accept|done]. }
  destruct (Hnet (sent_reply (fresh_rw true []) code ContentTypeJSON q)) as (resp & Hdo & Harr);
    [by rewrite E|].
  assert (body_allowed code = true) as Hb.
  { revert Hc. unfold used_codes. rewrite !elem_of_cons, elem_of_nil.
    intros Hc. repeat destruct Hc as [->|Hc]; try done. }
  destruct (Do_error_reply (fresh_rw true []) ContentTypeJSON JSON ContentTypeJSON code _ q c req out resp
    eq_refl eq_refl eq_refl Hb Hne Hq Harr Hdo) as (b & Ed & Hst).
  eexists _, _, _. split; [exact Ed|]. split; [apply as_Error_client|]. by repeat split.
Qed.

Lemma header_in k : k ∈ ["Accept"; "Content-Type"; "X-RPC-Path"] <->
  k = "Accept" \/ k = "Content-Type" \/ k = "X-RPC-Path".
Proof. rewrite !elem_of_cons, elem_of_nil. tauto. Qed.

(** The complaint of the service about a name. *)
Definition name_complaint (name : string) : option string :=
  if decide (name = "") then Some "'name' is required and cannot be empty"
  else if decide (Title name <> name) then Some "'name' must be capitalized"
  else None.

(** C26: saying hello over the network: for a capitalised name the client gets
    the greeting; for another name it gets a ClientError 400 with the message
    of the service, its response message untouched. *)
Theorem say_hello_end_to_end svc (c : DemoClient.demoClient B) u name p q out :
  connected svc (DemoClient.dc_Client c) ->
  DemoClient.url_Parse (DemoClient.call_url c "v1/say.hello") = inl (u, "/v1/say.hello") ->
  crosses JSON p (MSayHelloRequest name) (MSayHelloRequest "") ->
  Z.of_nat (length p) <= 5000000 ->
  match name_complaint name with
  | None => crosses JSON q (MSayHelloResponse ("Hello, " +:+ name)) out ->
      DemoClient.SayHello c name out = (MSayHelloResponse ("Hello, " +:+ name), None)
  | Some msg => marshal JSON (Some (MReply (mkReply "400" msg None))) = inl q ->
      exists e d, DemoClient.SayHello c name out = (out, Some e) /\ as_Error e = Some d /\
        HTTPCode d = 400 /\ Code d = "400" /\ Message d = msg /\ as_infraChecker e = Some false
  end.
Proof.
  intros Hc Hu Hp Hl. unfold DemoClient.SayHello.
  rewrite (call_request_post c _ _ _ _ p u _ (proj1 Hp) Hu).
  destruct (post_arrives svc _ u "/v1/say.hello" p [("Content-Type", ContentTypeJSON)] Hc)
    as (r & Hm & Hpath & Hh & Hb & He & Hw).
  assert (Header_Get (Req_Header r) "Content-Type" = ContentTypeJSON) as Hct
    by (rewrite Hh by (rewrite header_in; tauto); reflexivity).
  assert (Header_Get (Req_Header r) "Accept" = "") as Ha
    by (rewrite Hh by (rewrite header_in; tauto); reflexivity).
  assert (exists r', ReadRequest r (MSayHelloRequest "") (5 * MegaByte) = (r', MSayHelloRequest name, None))
    as (r' & Er) by (eapply read_crossing; [exact Hb|exact He|exact Hct|exact Hp|change (5 * MegaByte) with 5000000; unfold max_int64; lia]).
  assert (snd (ServeHTTP svc (fresh_rw true []) r) = handleSayHello (fresh_rw true []) r) as Es.
  { unfold ServeHTTP. rewrite Hm, Hpath. by rewrite decide_False, decide_True by (try intros []; done). }
  rewrite Es in Hw. unfold handleSayHello in Hw. rewrite Er in Hw.
  cbn [say_hello_name] in Hw. unfold name_complaint, SayHello in *.
  case_decide as Hn.
  - intros Hq. edestruct (call_error_reply _ _ _ out CodeBadRequest _ q Ha ltac:(used) ltac:(done) Hq ltac:(done) Hw)
      as (b & e & d & Ed & Hd). exists e, d. by rewrite Ed.
  - case_decide as Ht.
    + intros Hq. edestruct (call_error_reply _ _ _ out CodeBadRequest _ q Ha ltac:(used) ltac:(done) Hq ltac:(done) Hw)
        as (b & e & d & Ed & Hd). exists e, d. by rewrite Ed.
    + intros [Hq1 Hq2]. pose proof (Reply_ok (fresh_rw true []) (Req_Header r) CodeOK _ JSON ContentTypeJSON q
        eq_refl ltac:(done) (no_accept _ Ha) Hq1) as Erep.
      destruct (Hw _ (f_equal answered Erep)) as (resp & Hdo & Harr).
      destruct (Do_reply (fresh_rw true []) ContentTypeJSON JSON ContentTypeJSON q _ _ out _ resp
        eq_refl eq_refl eq_refl Hq2 Harr Hdo) as (b & ->). done.
Qed.

(** The service after an upload. *)
Definition stored svc (path ctype : string) (b : bytes) : DemoService.Service :=
  mkService (<[path := mkContentEntry ctype b]> (content svc)).

Definition upload_headers (path ctype : string) : list (string * string) :=
  [("Content-Type", ctype); ("X-RPC-Path", path)].

Lemma ServeHTTP_upload svc w (r : Request R) path ctype b :
  Method r = "POST" -> URL_Path r = "/v1/content.upload" ->
  Header_Get (Req_Header r) "Content-Type" = ctype -> Header_Get (Req_Header r) "X-RPC-Path" = path ->
  rd_bytes (Req_Body r) = b -> rd_end (Req_Body r) = ErrSentinel EOF ->
  path <> "" -> Z.of_nat (length b) <= 10000000 ->
  ServeHTTP svc w r =
    (stored svc path ctype b,
     answered (Service.Reply w (Req_Header r) CodeOK (Some (MReply (stored_reply path b))))).
Proof.
  intros Hm Hp Hct Hx Hb He Hne Hl. unfold ServeHTTP. rewrite Hm, Hp.
  repeat rewrite decide_False by (try (intros []; done); done). rewrite decide_True by done.
  unfold handleContentUpload.
  destruct (ReadContent_read r (10 * MegaByte) He) as (r' & E).
  { rewrite Hb. right. change (10 * MegaByte) with 10000000. unfold max_int64. lia. }
  rewrite E, Hct, Hb, Hx. rewrite decide_False by done. reflexivity.
Qed.

Lemma ServeHTTP_download svc w (r : Request R) path p :
  Method r = "POST" -> URL_Path r = "/v1/content.download" ->
  Header_Get (Req_Header r) "Content-Type" = ContentTypeJSON ->
  rd_bytes (Req_Body r) = p -> rd_end (Req_Body r) = ErrSentinel EOF ->
  crosses JSON p (MContentDownloadRequest path) (MContentDownloadRequest "") ->
  Z.of_nat (length p) <= 5000000 ->
  snd (ServeHTTP svc w r) =
    match content svc !! path with
    | Some e => omap_ret Answered (WriteContent w (contentType e) (body e))
    | None => answered (ReplyError w (Req_Header r)
                (Some (NewServiceError CodeNotFound "content not found" None None)))
    end.
Proof.
  intros Hm Hp Hct Hb He Hcr Hl. unfold ServeHTTP. rewrite Hm, Hp.
  repeat rewrite decide_False by (try (intros []; done); done). rewrite decide_True by done.
  unfold handleContentDownload. cbn [snd].
  destruct (read_crossing r p _ _ (5 * MegaByte) Hb He Hct Hcr) as (r' & E).
  { change (5 * MegaByte) with 5000000. unfold max_int64. lia. }
  rewrite E. cbn [content_path]. unfold GetContent. by destruct (content svc !! path).
Qed.

(** C28: content comes back as it was stored: an upload of at most 10 MB under a
    non-empty path succeeds and leaves the service with exactly that entry
    replaced; a download from the service in that state appends the bytes to
    the buffer of the caller and answers with the content type of the
    upload. *)
Theorem content_round_trip svc (c1 c2 : DemoClient.demoClient B) u1 u2 path ctype b p q buf :
  connected svc (DemoClient.dc_Client c1) -> connected (stored svc path ctype b) (DemoClient.dc_Client c2) ->
  DemoClient.url_Parse (DemoClient.call_url c1 "v1/content.upload") = inl (u1, "/v1/content.upload") ->
  DemoClient.url_Parse (DemoClient.call_url c2 "v1/content.download") = inl (u2, "/v1/content.download") ->
  path <> "" -> Z.of_nat (length b) <= 10000000 ->
  marshal JSON (Some (MReply (stored_reply path b))) = inl q ->
  crosses JSON p (MContentDownloadRequest path) (MContentDownloadRequest "") ->
  Z.of_nat (length p) <= 5000000 ->
  DemoClient.UploadContent c1 path ctype b = None /\
  (forall r, received_as (post u1 "/v1/content.upload" b (upload_headers path ctype)) r ->
     fst (ServeHTTP svc (fresh_rw true []) r) = stored svc path ctype b) /\
  exists h, DemoClient.DownloadContent c2 path buf = (buf ++ b, inl h) /\
    Header_Get h "Content-Type" = ctype.
Proof.
  intros Hc1 Hc2 Hu1 Hu2 Hne Hl Hq Hcr Hlp. split; [|split].
  - unfold DemoClient.UploadContent, DemoClient.NewPostRequest. rewrite Hu1.
    change (DemoClient.set_header _ "X-RPC-Path" path)
      with (post u1 "/v1/content.upload" b (upload_headers path ctype)).
    destruct (post_arrives svc _ u1 "/v1/content.upload" b (upload_headers path ctype) Hc1)
      as (r & Hm & Hpath & Hh & Hb & He & Hw).
    assert (Header_Get (Req_Header r) "Accept" = "") as Ha
      by (rewrite Hh by (rewrite header_in; tauto); reflexivity).
    rewrite (ServeHTTP_upload svc _ r path ctype b Hm Hpath) in Hw
      by (first [done | rewrite Hh by (rewrite header_in; tauto); reflexivity]).
    cbn [snd] in Hw.
    pose proof (Reply_ok (fresh_rw true []) (Req_Header r) CodeOK _ JSON ContentTypeJSON q
      eq_refl ltac:(done) (no_accept _ Ha) Hq) as Erep.
    destruct (Hw _ (f_equal answered Erep)) as (resp & Hdo & Harr).
    destruct (Do_reply (fresh_rw true []) ContentTypeJSON JSON ContentTypeJSON q _ _ (MReply Reply_zero) _ resp
      eq_refl eq_refl eq_refl (unmarshal_reply _ _ _ _ Hq) Harr Hdo) as (b' & ->). done.
  - intros r [Hm Hpath Hh Hb He].
    destruct (post_fields u1 "/v1/content.upload" b (upload_headers path ctype)) as (E1 & E2 & E3 & _).
    rewrite E1 in Hm. rewrite E2 in Hpath. rewrite E3 in Hb.
    rewrite (ServeHTTP_upload svc _ r path ctype b Hm Hpath)
      by (first [done | rewrite Hh by (rewrite header_in; tauto); reflexivity]). done.
  - unfold DemoClient.DownloadContent.
    rewrite (call_request_post c2 _ _ _ _ p u2 _ (proj1 Hcr) Hu2).
    destruct (post_arrives (stored svc path ctype b) _ u2 "/v1/content.download" p
      [("Content-Type", ContentTypeJSON)] Hc2) as (r & Hm & Hpath & Hh & Hb & He & Hw).
    rewrite (ServeHTTP_download _ _ r path p Hm Hpath) in Hw
      by (first [done | rewrite Hh by (rewrite header_in; tauto); reflexivity]).
    cbn [stored content] in Hw. rewrite lookup_insert_eq, WriteContent_sent in Hw by done.
    destruct (Hw _ eq_refl) as (resp & Hdo & Harr).
    destruct (arrived_reply (fresh_rw true []) CodeOK ctype b resp eq_refl eq_refl eq_refl Harr) as (Hst & Hct & Hbytes & Hend).
    destruct (io_Copy_spec (Resp_Body resp) buf) as (b' & Ecp & _).
    exists (Resp_Header resp). split; [|done].
    unfold DoContent. rewrite Hdo, Hst. cbn [negb Z.eqb CodeOK Pos.eqb].
    by rewrite Ecp, Hend, Hbytes.
Qed.

(** *** The stream of events *)
Lemma send_events_all ms : send_events ms = send_all ms (SHClose None (fun err => SHReturn err)).
Proof. induction ms as [|m ms IH]; [done|]. cbn [send_events send_all]. by rewrite IH. Qed.

(** The request [req] of [c] reaches the demo handler, and a stream the handler starts runs to its
    end, interleaved with its heartbeats in some way; when it ends normally
    its response arrives whole. *)
Definition connected_stream (svc : DemoService.Service) (c : Client source B) (req : Request source) : Prop :=
  exists req' : Request R, received_as req req' /\
    forall w enc hb h, snd (ServeHTTP svc (fresh_rw true []) req') = Ret (Streaming (Started w enc hb) h) ->
    exists ctx run o, reachable (stream_config w enc hb ctx h) run /\ ended (c_main run) = Some o /\
      (o = Ret tt -> exists resp, http_Do c req = inl resp /\ arrives (sw_w (c_sw run)) resp).

Lemma send_all_frames enc ctx ms bs :
  Forall2 (fun m b => marshal enc (Some m) = inl b) ms bs ->
  stream_frames enc ctx (send_all ms (SHClose None (fun err => SHReturn err))) =
    ((mkFrame FlagData <$> bs) ++ [mkFrame FlagFinal []], Ret tt).
Proof.
  intros Hms. unfold stream_frames. by rewrite (handler_frames_send_all _ _ _ _ _ Hms).
Qed.

Definition events_headers : list (string * string) :=
  [("Content-Type", ContentTypeJSON); ("Accept", ContentStreamJSON)].

(** The writer on which the events are streamed. *)
Definition events_w : ResponseWriter :=
  setServiceHeaders (set_content_type (fresh_rw true []) ContentStreamJSON).

Lemma ServeHTTP_events svc (r : Request R) n p :
  Method r = "POST" -> URL_Path r = "/v1/events.list" ->
  Header_Get (Req_Header r) "Content-Type" = ContentTypeJSON ->
  Header_Get (Req_Header r) "Accept" = ContentStreamJSON ->
  rd_bytes (Req_Body r) = p -> rd_end (Req_Body r) = ErrSentinel EOF ->
  0 <= n <= 2 ^ 31 - 1 ->
  crosses JSON p (MListEventsRequest n) (MListEventsRequest 0) -> Z.of_nat (length p) <= 5000000 ->
  snd (ServeHTTP svc (fresh_rw true []) r) = Ret (Streaming (Started events_w JSON true)
    (send_all (event <$> seqZ 0 n) (SHClose None (fun err => SHReturn err)))).
Proof.
  intros Hm Hpath Hct Ha Hb He Hn Hcr Hl. unfold ServeHTTP. rewrite Hm, Hpath.
  repeat rewrite decide_False by (try (intros []; done); done). rewrite decide_True by done. cbn [snd].
  destruct (read_crossing r p _ _ (5 * MegaByte) Hb He Hct Hcr) as (r' & Er).
  { change (5 * MegaByte) with 5000000. unfold max_int64. lia. }
  unfold listEvents. rewrite Er. cbn [list_events_count].
  rewrite ListEvents_seq by done. rewrite send_events_all. unfold HandleStream_start.
  cbn [rw_flusher fresh_rw negb]. rewrite Ha. reflexivity.
Qed.

Lemma fmap_const_replicate {A C} (x : C) (f : A -> C) (l : list A) :
  (forall a, f a = x) -> f <$> l = replicate (length l) x.
Proof. intros Hf. induction l as [|a l IH]; [done|]. cbn. by rewrite Hf, <-IH. Qed.

(** C27: the stream of events over the network: whatever the heartbeats and the
    reads, the client receives the n events in order and then io.EOF for
    ever. *)
Theorem list_events_end_to_end `{!PunctualBody B} svc (c : DemoClient.demoClient B) u n p bs extra :
  connected_stream svc (DemoClient.dc_Client c) (post u "/v1/events.list" p events_headers) ->
  DemoClient.url_Parse (DemoClient.call_url c "v1/events.list") = inl (u, "/v1/events.list") ->
  0 <= n <= 2 ^ 31 - 1 ->
  crosses JSON p (MListEventsRequest n) (MListEventsRequest 0) -> Z.of_nat (length p) <= 5000000 ->
  small_messages JSON ->
  Forall2 (fun i b => crosses JSON b (event i) (MEvent 0 "") /\
    fits_limit (max_frame_payload (DemoClient.dc_Client c)) (mkFrame FlagData b)) (seqZ 0 n) bs ->
  exists sr, DemoClient.ListEvents c n = inl sr /\
    recv_calls sr (replicate (Z.to_nat n) (MEvent 0 "") ++ extra) =
      Some (((fun i => (event i, None)) <$> seqZ 0 n) ++ ((fun m => (m, Some (ErrSentinel EOF))) <$> extra)).
Proof.
  intros Hc Hu Hn Hcr Hl Hsmall Hev. unfold DemoClient.ListEvents.
  rewrite (call_request_post c _ _ _ _ p u _ (proj1 Hcr) Hu). fold events_headers.
  destruct (post_fields u "/v1/events.list" p events_headers) as (E1 & E2 & E3 & _).
  destruct Hc as (r & [Hm Hpath Hh Hb He] & Hrun).
  rewrite E1 in Hm. rewrite E2 in Hpath. rewrite E3 in Hb.
  set (ms := event <$> seqZ 0 n).
  assert (snd (ServeHTTP svc (fresh_rw true []) r) = Ret (Streaming (Started events_w JSON true)
    (send_all ms (SHClose None (fun err => SHReturn err))))) as Es.
  { eapply (ServeHTTP_events svc r n p Hm Hpath); try done;
      rewrite Hh by (rewrite header_in; tauto); reflexivity. }
  destruct (Hrun _ _ _ _ Es) as (ctx & run & o & Hr & Hend & Ho).
  assert (Forall2 (fun m b => marshal JSON (Some m) = inl b) ms bs) as Hms.
  { apply Forall2_fmap_l. eapply Forall2_impl; [exact Hev|]. by intros i b [[? _] _]. }
  assert (fresh events_w) as Hw by (split; [done|split; [done|reflexivity]]).
  destruct (contract_on_wire JSON events_w true ctx _ run o Hw Hr Hend) as (-> & fs & Ebody & _ & E5 & _ & _ & Est & _).
  rewrite (send_all_frames JSON ctx ms bs Hms) in *. cbn [fst snd] in *.
  destruct (Ho eq_refl) as (resp & Hdo & Harr). unfold arrives in Harr.
  unfold conf_status in Est. rewrite Est in Harr.
  2:{ intros ->. specialize (E5 Hsmall). by destruct (mkFrame FlagData <$> bs). }
  destruct Harr as (Hst & Hhd & Hbytes & Hrend).
  exists (new_streamReader (Resp_Body resp) CodeOK JSON (max_frame_payload (DemoClient.dc_Client c))
           (heartbeat_timeout (DemoClient.dc_Client c))).
  split.
  { unfold DoStream. rewrite Hdo, Hst. cbn [negb Z.eqb CodeOK Pos.eqb].
    rewrite Hhd. reflexivity. }
  set (rs := (fun i => (MEvent 0 "", event i)) <$> seqZ 0 n).
  pose proof (recv_send_all JSON events_w true ctx run (max_frame_payload (DemoClient.dc_Client c))
    (heartbeat_timeout (DemoClient.dc_Client c)) (Resp_Body resp) ms bs rs extra Hms) as Hrecv.
  assert (rs.*1 = replicate (Z.to_nat n) (MEvent 0 "")) as Ers.
  { unfold rs. rewrite <-list_fmap_compose, <-(length_seqZ 0 n). by apply fmap_const_replicate. }
  rewrite Ers in Hrecv. rewrite Hrecv.
  - f_equal. f_equal. unfold rs. by rewrite <-list_fmap_compose.
  - unfold rs. apply Forall2_fmap_r, Forall2_flip. eapply Forall2_impl; [exact Hev|]. by intros i b [[_ ?] _].
  - constructor; try done.
    rewrite (send_all_frames JSON ctx ms bs Hms). cbn [fst]. apply Forall_app. split.
    + apply Forall_fmap. eapply Forall2_Forall_r; [exact Hev|]. apply Forall_forall. by intros i _ b [_ ?].
    + apply Forall_singleton. unfold fits_limit. cbn. lia.
Qed.

(** A negative count makes the handler of the events panic (the capacity of
    [make] is negative): nothing but heartbeats is ever sent, and HandleStream
    panics too. *)
Theorem list_events_negative_count svc (r : Request R) n p ctx run o :
  Method r = "POST" -> URL_Path r = "/v1/events.list" ->
  Header_Get (Req_Header r) "Content-Type" = ContentTypeJSON ->
  Header_Get (Req_Header r) "Accept" = ContentStreamJSON ->
  rd_bytes (Req_Body r) = p -> rd_end (Req_Body r) = ErrSentinel EOF -> n < 0 ->
  crosses JSON p (MListEventsRequest n) (MListEventsRequest 0) -> Z.of_nat (length p) <= 5000000 ->
  exists h, snd (ServeHTTP svc (fresh_rw true []) r) = Ret (Streaming (Started events_w JSON true) h) /\
    (reachable (stream_config events_w JSON true ctx h) run -> ended (c_main run) = Some o ->
     o = Panic "runtime error: makeslice: cap out of range" /\
     exists fs, conf_body run = encode_frames fs /\ encode_frames (StreamSafety.without_heartbeats fs) = []).
Proof.
  intros Hm Hpath Hct Ha Hb He Hn Hcr Hl.
  exists (SHPanic "runtime error: makeslice: cap out of range"). split.
  - unfold ServeHTTP. rewrite Hm, Hpath.
    repeat rewrite decide_False by (try (intros []; done); done). rewrite decide_True by done. cbn [snd].
    destruct (read_crossing r p _ _ (5 * MegaByte) Hb He Hct Hcr) as (r' & Er).
    { change (5 * MegaByte) with 5000000. unfold max_int64. lia. }
    unfold listEvents. rewrite Er. cbn [list_events_count]. unfold ListEvents.
    replace (n <? 0) with true by lia. unfold HandleStream_start.
    cbn [rw_flusher fresh_rw negb]. rewrite Ha. reflexivity.
  - intros Hr Hend. assert (fresh events_w) as Hw by (split; [done|split; [done|reflexivity]]).
    destruct (contract_on_wire JSON events_w true ctx _ run o Hw Hr Hend) as (-> & fs & Eb & E & _).
    split; [done|]. exists fs. split; [exact Eb|exact E].
Qed.
End EndToEnd.

(** ** Witnesses *)
Import ReferenceCodec.

#[local] Existing Instance amd64_conv.

(** A third-party function: a URL is ["http://h"] and the path. *)
#[local] Existing Instance first_upper.
#[local] Instance test_urls : DemoClient.URLParser :=
  {| DemoClient.url_Parse s := inl (s, to_string (drop 8 (of_string s))) |}.

Definition enc_bytes (m : message) : bytes := match marshal JSON (Some m) with inl b => b | inr _ => [] end.

(** A network whose other end is the demo handler in the state [svc]. *)
Definition local_client (svc : DemoService.Service) : Client source (Body source) :=
  mkClient (fun req => match snd (ServeHTTP svc (fresh_rw true []) req) with
                       | Ret (Answered w) => inl (received w)
                       | _ => inr (ErrSentinel UnexpectedEOF)
                       end) 0 0.

Definition local_demo (svc : DemoService.Service) : DemoClient.demoClient (Body source) :=
  DemoClient.mkDemoClient (local_client svc) "http://h".

Lemma local_connected svc : connected (R := source) svc (local_client svc).
Proof.
  intros req He. exists req. split; [by constructor|]. intros w Hw. exists (received w).
  unfold local_client. cbn [http_Do]. rewrite Hw. split; [done|]. apply received_arrives.
  pose proof (ServeHTTP_served svc (fresh_rw true []) req (fresh_writer true)) as Hs.
  rewrite He in Hs. specialize (Hs eq_refl).
  destruct (ServeHTTP svc (fresh_rw true []) req) as [svc' o]. cbn [snd] in Hw. subst o.
  destruct Hs as [[(w' & [= <-] & code & h & b & E & _)|[_ [=]]] _]. by rewrite E.
Qed.

Lemma say_hello_end_to_end_witness :
  DemoClient.SayHello (local_demo NewService) "Thrawn" (MSayHelloResponse "") =
    (MSayHelloResponse "Hello, Thrawn", None).
Proof.
  apply (say_hello_end_to_end NewService (local_demo NewService) "http://h/v1/say.hello" "Thrawn"
    (enc_bytes (MSayHelloRequest "Thrawn")) (enc_bytes (MSayHelloResponse "Hello, Thrawn"))
    (MSayHelloResponse "") (local_connected NewService)).
  - reflexivity.
  - split; vm_compute; reflexivity.
  - vm_compute. discriminate.
  - split; vm_compute; reflexivity.
Defined.

Lemma content_round_trip_witness :
  exists h, DemoClient.DownloadContent (local_demo (stored NewService "/a" "text/plain" (of_string "xyz"))) "/a" [] =
    (of_string "xyz", inl h) /\ Header_Get h "Content-Type" = "text/plain".
Proof.
  apply (content_round_trip NewService (local_demo NewService)
    (local_demo (stored NewService "/a" "text/plain" (of_string "xyz")))
    "http://h/v1/content.upload" "http://h/v1/content.download" "/a" "text/plain" (of_string "xyz")
    (enc_bytes (MContentDownloadRequest "/a"))
    (enc_bytes (MReply (stored_reply "/a" (of_string "xyz")))) []
    (local_connected _) (local_connected _)).
  - reflexivity.
  - reflexivity.
  - done.
  - vm_compute. discriminate.
  - vm_compute. reflexivity.
  - split; vm_compute; reflexivity.
  - vm_compute. discriminate.
Defined.

(** Two events, with a heartbeat in between. *)
Definition two_events : stream_handler := send_all (event <$> seqZ 0 2) (SHClose None (fun err => SHReturn err)).
Definition events_run : config :=
  exec_prefix (stream_config events_w JSON true [] two_events)
    (replicate 6 MMain ++ MTick :: replicate 6 MHeartbeat ++ replicate 8 MMain ++ MStop :: replicate 20 MMain).
Definition events_client : DemoClient.demoClient (Body source) :=
  DemoClient.mkDemoClient
    (mkClient (fun _ => inl (received (sw_w (c_sw events_run)))) 0 0) "http://h".
Definition events_post : Request source :=
  post "http://h/v1/events.list" "/v1/events.list" (enc_bytes (MListEventsRequest 2)) events_headers.

Lemma events_connected : connected_stream (R := source) NewService (DemoClient.dc_Client events_client) events_post.
Proof.
  exists events_post. split; [by constructor|].
  intros w enc hb h E. exists [], events_run, (Ret tt).
  assert (snd (ServeHTTP NewService (fresh_rw true []) events_post) =
    Ret (Streaming (Started events_w JSON true) two_events)) as E2.
  { apply (ServeHTTP_events NewService events_post 2 (enc_bytes (MListEventsRequest 2)));
      try reflexivity; [vm_compute; by split|split; vm_compute; reflexivity|vm_compute; discriminate]. }
  rewrite E in E2. injection E2 as -> -> -> ->.
  split; [apply exec_prefix_reachable|]. split; [vm_compute; reflexivity|].
  intros _. eexists. split; [reflexivity|]. apply committed_arrives. vm_compute. reflexivity.
Qed.

Lemma list_events_end_to_end_witness :
  exists sr, DemoClient.ListEvents events_client 2 = inl sr /\
    recv_calls sr [MEvent 0 ""; MEvent 0 ""; MEvent 0 ""] =
      Some [(event 0, None); (event 1, None); (MEvent 0 "", Some (ErrSentinel EOF))].
Proof.
  apply (list_events_end_to_end (R := source) NewService events_client "http://h/v1/events.list" 2
    (enc_bytes (MListEventsRequest 2)) [enc_bytes (event 0); enc_bytes (event 1)] [MEvent 0 ""]
    events_connected).
  - reflexivity.
  - lia.
  - split; vm_compute; reflexivity.
  - vm_compute. discriminate.
  - apply (ref_small JSON).
  - change (seqZ 0 2) with [0; 1]. apply Forall2_cons_2; [|apply Forall2_cons_2; [|apply Forall2_nil_2]];
      (split; [split; vm_compute; reflexivity|right; vm_compute; discriminate]).
Defined.

Lemma list_events_negative_count_witness :
  exists h, snd (ServeHTTP NewService (fresh_rw true [])
      (post "" "/v1/events.list" (enc_bytes (MListEventsRequest (-1))) events_headers)) =
    Ret (Streaming (Started events_w JSON true) h).
Proof.
  destruct (list_events_negative_count NewService
    (post "" "/v1/events.list" (enc_bytes (MListEventsRequest (-1))) events_headers) (-1)
    (enc_bytes (MListEventsRequest (-1))) [] (stream_config events_w JSON true [] two_events) (Ret tt))
    as (h & E & _); try reflexivity;
    [split; vm_compute; reflexivity|vm_compute; discriminate|by exists h].
Defined.
