(* ===== verification/GoNet.v ===== *)
(** * GoNet: the parts of net and encoding/pem that tls.go uses

    IP addresses as byte strings ([To4], [IsLoopback], [String], [ParseIP]),
    network interfaces, and the PEM encoding of a block.  Only the textual form
    of IPv6 addresses is left as a parameter. *)
From Stdlib Require Import ZArith Lia.
From stdpp Require Import base strings list.
From S2P Require Import Prelude GoStrings.
Local Open Scope Z_scope.

(** ** IP addresses ([net.IP]; [[]] is nil) *)
Abbreviation IP := (list Byte.byte).

Class IPv6Text := {
  parse_IPv6 : string -> option IP;
  print_IPv6 : IP -> string
}.

Definition v4_prefix : IP := replicate 10 Byte.x00 ++ [Byte.xff; Byte.xff].

(** [ip.To4()] *)
Definition To4 (ip : IP) : option IP :=
  if decide (length ip = 4%nat) then Some ip
  else if decide (length ip = 16%nat /\ take 12 ip = v4_prefix) then Some (drop 12 ip)
  else None.

Definition IPv6loopback : IP := replicate 15 Byte.x00 ++ [Byte.x01].

Definition IsLoopback (ip : IP) : bool :=
  match To4 ip with
  | Some (b :: _) => byte_Z b =? 127
  | _ => bool_decide (ip = IPv6loopback)
  end.

Definition byte_text (b : byte) : string := Itoa (byte_Z b).

(** [ip.String()] *)
Definition IP_String `{IPv6Text} (ip : IP) : string :=
  match To4 ip with
  | Some [a; b; c; d] => byte_text a +:+ "." +:+ byte_text b +:+ "." +:+ byte_text c +:+ "." +:+ byte_text d
  | _ => match ip with [] => "<nil>" | _ => print_IPv6 ip end
  end.

(** Dotted decimal: fields of at most 255 without leading zeros; the field in
    progress, its number of digits, the fields before it. *)
Fixpoint parse_fields (bs : bytes) (val digits : Z) (fields : IP) : option IP :=
  match bs with
  | [] =>
    if (digits =? 0) || negb (Z.of_nat (length fields) =? 3) then None else Some (fields ++ [Z_byte val])
  | b :: t =>
    if is_digit b then
      if (digits =? 1) && (val =? 0) then None
      else
        let val := val * 10 + (byte_Z b - 48) in
        if 255 <? val then None else parse_fields t val (digits + 1) fields
    else if byte_Z b =? 46 then
      if (digits =? 0) || (Z.of_nat (length fields) =? 3) then None
      else parse_fields t 0 0 (fields ++ [Z_byte val])
    else None
  end.

(** The first byte that tells the two notations apart. *)
Fixpoint ip_separator (bs : bytes) : option byte :=
  match bs with
  | [] => None
  | b :: t => if (byte_Z b =? 46) || (byte_Z b =? 58) then Some b else ip_separator t
  end.

(** [net.ParseIP]: 16 bytes. *)
Definition ParseIP `{IPv6Text} (s : string) : option IP :=
  match ip_separator (of_string s) with
  | Some b =>
    if byte_Z b =? 46 then app v4_prefix <$> parse_fields (of_string s) 0 0 [] else parse_IPv6 s
  | None => None
  end.

(** ** Interfaces *)
Record Interface := mkInterface { if_Name : string; if_Flags : Z }.
Definition FlagUp : Z := 1.
Definition FlagLoopback : Z := 4.

(** [net.Addr]: the two types the code looks at. *)
Inductive Addr := IPNet (ip : IP) | IPAddr (ip : IP) | OtherAddr.

(** ** PEM ([encoding/pem.Encode], a block without headers) *)
Definition b64_char (n : Z) : byte :=
  if n <? 26 then Z_byte (65 + n)
  else if n <? 52 then Z_byte (71 + n)
  else if n <? 62 then Z_byte (n - 4)
  else if n =? 62 then Z_byte 43 else Z_byte 47.

Fixpoint base64 (bs : bytes) : bytes :=
  match bs with
  | a :: b :: c :: t =>
    let n := byte_Z a * 65536 + byte_Z b * 256 + byte_Z c in
    b64_char (n / 262144) :: b64_char (n / 4096 mod 64) :: b64_char (n / 64 mod 64) :: b64_char (n mod 64)
      :: base64 t
  | [a; b] =>
    let n := byte_Z a * 65536 + byte_Z b * 256 in
    [b64_char (n / 262144); b64_char (n / 4096 mod 64); b64_char (n / 64 mod 64); Z_byte 61]
  | [a] =>
    let n := byte_Z a * 65536 in
    [b64_char (n / 262144); b64_char (n / 4096 mod 64); Z_byte 61; Z_byte 61]
  | [] => []
  end.

(** Lines of 64 characters, each ended by a newline; [room] is what is left of
    the current line. *)
Fixpoint break_lines (bs : bytes) (room : nat) : bytes :=
  match bs with
  | [] => if decide (room = 64%nat) then [] else [Byte.x0a]
  | b :: t =>
    match room with
    | S (S r) => b :: break_lines t (S r)
    | _ => b :: Byte.x0a :: break_lines t 64
    end
  end.

Definition pem_Encode (type : string) (b : bytes) : bytes :=
  of_string ("-----BEGIN " +:+ type +:+ "-----" +:+ newline) ++
  break_lines (base64 b) 64 ++
  of_string ("-----END " +:+ type +:+ "-----" +:+ newline).

(** ** Lemmas *)

(** The part of [parse_fields] that reads one field. *)
Fixpoint read_field (bs : bytes) (val digits : Z) : option (Z * Z) :=
  match bs with
  | [] => Some (val, digits)
  | b :: t =>
    if is_digit b && negb ((digits =? 1) && (val =? 0)) && negb (255 <? val * 10 + (byte_Z b - 48))
    then read_field t (val * 10 + (byte_Z b - 48)) (digits + 1) else None
  end.

Lemma parse_fields_read bs rest fields : forall val digits v d,
  read_field bs val digits = Some (v, d) ->
  parse_fields (bs ++ rest) val digits fields = parse_fields rest v d fields.
Proof.
  induction bs as [|b t IH]; intros val digits v d; cbn [read_field app parse_fields].
  - by intros [= <- <-].
  - destruct (is_digit b); [|done]. destruct ((digits =? 1) && (val =? 0)); [done|].
    destruct (255 <? _); [done|]. apply IH.
Qed.

Lemma read_byte b : exists d, read_field (of_string (byte_text b)) 0 0 = Some (byte_Z b, d) /\ 0 < d.
Proof.
  assert (forall b, match read_field (of_string (byte_text b)) 0 0 with
    | Some (v, d) => (v =? byte_Z b) && (0 <? d) | None => false end = true) as Hb
    by (clear b; intros b; destruct b; vm_compute; reflexivity).
  specialize (Hb b). destruct (read_field _ _ _) as [[v d]|]; [|done].
  apply andb_true_iff in Hb as [Hv Hd]. exists d. apply Z.eqb_eq in Hv. subst. split; [done|lia].
Qed.

Lemma parse_byte_dot b rest fields :
  (length fields < 3)%nat ->
  parse_fields (of_string (byte_text b) ++ Byte.x2e :: rest) 0 0 fields = parse_fields rest 0 0 (fields ++ [b]).
Proof.
  intros Hf. destruct (read_byte b) as (d & E & Hd). rewrite (parse_fields_read _ _ _ _ _ _ _ E).
  cbn [parse_fields].
  change (is_digit Byte.x2e) with false. change (byte_Z Byte.x2e =? 46) with true. cbn iota.
  replace (d =? 0) with false by lia. replace (Z.of_nat (length fields) =? 3) with false by lia.
  cbn [orb]. by rewrite Z_byte_of_byte.
Qed.

Lemma parse_byte_end b fields :
  length fields = 3%nat -> parse_fields (of_string (byte_text b)) 0 0 fields = Some (fields ++ [b]).
Proof.
  intros Hf. destruct (read_byte b) as (d & E & Hd). rewrite <-(app_nil_r (of_string _)).
  rewrite (parse_fields_read _ _ _ _ _ _ _ E). cbn [parse_fields].
  replace (d =? 0) with false by lia. rewrite Hf. cbn. by rewrite Z_byte_of_byte.
Qed.

Lemma ip_separator_read bs rest : forall val digits v d,
  read_field bs val digits = Some (v, d) -> ip_separator (bs ++ rest) = ip_separator rest.
Proof.
  induction bs as [|b t IH]; intros val digits v d; cbn [read_field app ip_separator]; [done|].
  destruct (is_digit b) eqn:Hb; [|done]. unfold is_digit in Hb.
  replace ((byte_Z b =? 46) || (byte_Z b =? 58)) with false by lia.
  destruct (true && _ && _); [apply IH|done].
Qed.

(** Reading an IPv4 address back. *)
Lemma ParseIP_String `{IPv6Text} ip4 :
  length ip4 = 4%nat -> ParseIP (IP_String ip4) = Some (v4_prefix ++ ip4).
Proof.
  intros Hlen. destruct ip4 as [|a [|b [|c [|d [|]]]]]; try done.
  unfold IP_String, To4. rewrite decide_True by done. unfold ParseIP.
  rewrite !of_string_app. change (of_string ".") with [Byte.x2e].
  cbn [app].
  destruct (read_byte a) as (n & E & _). rewrite (ip_separator_read _ _ _ _ _ _ E).
  cbn [ip_separator]. change ((byte_Z Byte.x2e =? 46) || _) with true. cbn iota.
  change (byte_Z Byte.x2e =? 46) with true. cbn iota.
  rewrite !parse_byte_dot by (cbn; lia). by rewrite parse_byte_end.
Qed.

Example pem_ex : pem_Encode "T" (of_string "hello") =
  of_string ("-----BEGIN T-----" +:+ newline +:+ "aGVsbG8=" +:+ newline +:+ "-----END T-----" +:+ newline).
Proof. vm_compute. reflexivity. Qed.
