(* ===== verification/Scanner.v ===== *)
(** * Scanner: bufio.Scanner with its default split function

    [log.go] and [cmd/duh/main.go] read lines with a [bufio.Scanner].  A
    scanner is written as what it does next ([scan_next]: return a token, read,
    stop) and what a read does to it ([scan_feed]), so that it can run over
    any [io.Reader] ([Scan]) or beside the writers of a pipe (Log.v).  [Scan]
    is proved equal to splitting the whole text into lines. *)
From Stdlib Require Import ZArith Lia.
From stdpp Require Import base strings list.
From S2P Require Import Prelude Errors GoIO.
Local Open Scope Z_scope.

(** ** ScanLines *)
Definition is_newline (b : byte) : bool := byte_Z b =? 10.

(** The bytes before and after the first newline. *)
Fixpoint split_newline (bs : bytes) : option (bytes * bytes) :=
  match bs with
  | [] => None
  | b :: t =>
    if is_newline b then Some ([], t)
    else match split_newline t with Some (l, rest) => Some (b :: l, rest) | None => None end
  end.

(** Drop a terminal carriage return. *)
Fixpoint dropCR (bs : bytes) : bytes :=
  match bs with
  | [] => []
  | [b] => if byte_Z b =? 13 then [] else [b]
  | b :: t => b :: dropCR t
  end.

(** The token and what is left of the data, if there is a token. *)
Definition ScanLines (data : bytes) (atEOF : bool) : option (bytes * bytes) :=
  match split_newline data with
  | Some (l, rest) => Some (dropCR l, rest)
  | None => match data with [] => None | _ => if atEOF then Some (dropCR data, []) else None end
  end.

(** ** The scanner

    [sc_data] are the bytes read and not yet returned, at [sc_start] in a
    buffer of [sc_size] bytes; [sc_loop] counts reads in a row that returned
    nothing. *)
Record Scanner := mkScanner {
  sc_start : Z;
  sc_data : bytes;
  sc_size : Z;
  sc_err : option goerror;
  sc_loop : Z
}.

Definition NewScanner : Scanner := mkScanner 0 [] 0 None 0.

Definition MaxScanTokenSize : Z := 64 * 1024.
Definition startBufSize : Z := 4096.
Definition maxConsecutiveEmptyReads : Z := 100.
Definition ErrTooLong : goerror := ErrString "bufio.Scanner: token too long".
Definition ErrNoProgress : goerror := ErrString "multiple Read calls return no data or error".

Definition len (bs : bytes) : Z := Z.of_nat (length bs).

Inductive scan_action :=
| Token (token : bytes) (s : Scanner)   (* Scan returns true *)
| NeedRead (n : Z) (s : Scanner)        (* Read into n free bytes *)
| Stop (s : Scanner).                   (* Scan returns false *)

(** A token from what the scanner holds. *)
Definition scan_token (s : Scanner) : option (bytes * bytes) :=
  match sc_err s with
  | Some _ => ScanLines (sc_data s) true
  | None => match sc_data s with [] => None | _ => ScanLines (sc_data s) false end
  end.

(** Room for the next read: the data are moved to the front of the buffer when
    that helps, a full buffer is doubled up to the limit. *)
Definition scan_room (s : Scanner) : scan_action :=
  let stop := sc_start s + len (sc_data s) in
  let start := if (0 <? sc_start s) && ((stop =? sc_size s) || (sc_size s / 2 <? sc_start s))
               then 0 else sc_start s in
  if start + len (sc_data s) =? sc_size s then
    if MaxScanTokenSize <=? sc_size s then
      Stop (mkScanner start (sc_data s) (sc_size s) (Some ErrTooLong) 0)
    else
      let size := Z.min (if sc_size s =? 0 then startBufSize else 2 * sc_size s) MaxScanTokenSize in
      NeedRead (size - len (sc_data s)) (mkScanner 0 (sc_data s) size None (sc_loop s))
  else
    NeedRead (sc_size s - (start + len (sc_data s)))
      (mkScanner start (sc_data s) (sc_size s) None (sc_loop s)).

Definition scan_next (s : Scanner) : scan_action :=
  match scan_token s with
  | Some (token, rest) =>
    Token token (mkScanner (sc_start s + (len (sc_data s) - len rest)) rest (sc_size s) (sc_err s) (sc_loop s))
  | None =>
    match sc_err s with
    | Some _ => Stop (mkScanner 0 [] (sc_size s) (sc_err s) (sc_loop s))
    | None => scan_room s
    end
  end.

(** The result of a read. *)
Definition scan_feed (s : Scanner) (bs : bytes) (err : option goerror) : Scanner :=
  let data := sc_data s ++ bs in
  match err with
  | Some e => mkScanner (sc_start s) data (sc_size s) (Some e) 0
  | None =>
    match bs with
    | [] =>
      if maxConsecutiveEmptyReads <? sc_loop s + 1
      then mkScanner (sc_start s) data (sc_size s) (Some ErrNoProgress) 0
      else mkScanner (sc_start s) data (sc_size s) None (sc_loop s + 1)
    | _ => mkScanner (sc_start s) data (sc_size s) None 0
    end
  end.

(** [scanner.Err()] *)
Definition scanner_Err (s : Scanner) : option goerror :=
  match sc_err s with
  | Some e => if is_EOF e then None else Some e
  | None => None
  end.

(** ** Scanning a reader *)
Fixpoint scan_loop {R} `{IOReader R} (fuel : nat) (r : R) (s : Scanner) : option (R * Scanner * option bytes) :=
  match fuel with
  | O => None
  | S fuel =>
    match scan_next s with
    | Token t s => Some (r, s, Some t)
    | Stop s => Some (r, s, None)
    | NeedRead n s =>
      let '(r, (bs, e)) := io_Read r (Z.to_nat n) in scan_loop fuel r (scan_feed s bs e)
    end
  end.

(** [scanner.Scan()]: the token, or [None] when it returns false. *)
Definition Scan {R} `{FiniteReader R} (r : R) (s : Scanner) : option (R * Scanner * option bytes) :=
  scan_loop (S (S (io_left r))) r s.

(** The tokens of [for scanner.Scan()], and [scanner.Err()] after it. *)
Fixpoint scan_all {R} `{FiniteReader R} (fuel : nat) (r : R) (s : Scanner) : option (list bytes * option goerror) :=
  match fuel with
  | O => None
  | S fuel =>
    match Scan r s with
    | None => None
    | Some (r, s, Some t) => match scan_all fuel r s with Some (ts, e) => Some (t :: ts, e) | None => None end
    | Some (r, s, None) => Some ([], scanner_Err s)
    end
  end.

(** [for scanner.Scan() { ... }] with a body that may leave the function. *)
Fixpoint for_scan {R} `{FiniteReader R} {A E} (body : A -> bytes -> A + E) (fuel : nat) (r : R) (s : Scanner) (a : A)
    : option ((A * option goerror) + E) :=
  match fuel with
  | O => None
  | S fuel =>
    match Scan r s with
    | None => None
    | Some (r, s, Some t) =>
      match body a t with inl a => for_scan body fuel r s a | inr e => Some (inr e) end
    | Some (r, s, None) => Some (inl (a, scanner_Err s))
    end
  end.

(** The same over a list of lines. *)
Fixpoint for_lines {A E} (body : A -> bytes -> A + E) (ls : list bytes) (a : A) : A + E :=
  match ls with
  | [] => inl a
  | l :: t => match body a l with inl a => for_lines body t a | inr e => inr e end
  end.

(** A scanner returns at most one token per byte. *)
Definition lines_of {R} `{FiniteReader R} (r : R) : option (list bytes * option goerror) :=
  scan_all (S (io_pending r)) r NewScanner.

(** ** The lines of a text *)
Fixpoint raw_lines (bs : bytes) : list bytes :=
  match bs with
  | [] => []
  | b :: t =>
    if is_newline b then [] :: raw_lines t
    else match raw_lines t with
         | [] => [[b]]
         | l :: ls => (b :: l) :: ls
         end
  end.

(** A line the scanner can return. *)
Definition short (l : bytes) : Prop := len l < MaxScanTokenSize.

Example lines_ex :
  lines_of [Chunk (of_string "one"); Chunk (Byte.x0d :: Byte.x0a :: Byte.x0a :: of_string "two")] =
    Some ([of_string "one"; []; of_string "two"], None).
Proof. vm_compute. reflexivity. Qed.

(** ** Lemmas: lines *)
Lemma raw_lines_newline l t : split_newline l = None -> raw_lines (l ++ Byte.x0a :: t) = l :: raw_lines t.
Proof.
  induction l as [|b l IH]; intros Hn; [done|]. cbn [split_newline app raw_lines] in *.
  destruct (is_newline b); [done|]. destruct (split_newline l) as [[]|]; [done|]. by rewrite IH.
Qed.

Lemma raw_lines_last l : split_newline l = None -> l <> [] -> raw_lines l = [l].
Proof.
  induction l as [|b l IH]; intros Hn Hl; [done|]. cbn [split_newline raw_lines] in *.
  destruct (is_newline b); [done|]. destruct (split_newline l) as [[]|]; [done|].
  destruct l as [|b' l]; [done|]. by rewrite IH.
Qed.

Lemma split_newline_Some bs l rest :
  split_newline bs = Some (l, rest) -> bs = l ++ Byte.x0a :: rest /\ split_newline l = None.
Proof.
  revert l rest. induction bs as [|b t IH]; intros l rest; cbn [split_newline]; [done|].
  destruct (is_newline b) eqn:Hb.
  - intros [= <- <-]. split; [|done]. cbn [app]. f_equal. apply byte_Z_inj. by apply Z.eqb_eq in Hb.
  - destruct (split_newline t) as [[l' r']|] eqn:E; [|done]. intros [= <- <-].
    destruct (IH _ _ eq_refl) as [-> Hl]. split; [done|]. cbn [split_newline]. by rewrite Hb, Hl.
Qed.

Lemma raw_lines_Some bs l rest : split_newline bs = Some (l, rest) -> raw_lines bs = l :: raw_lines rest.
Proof. intros E. apply split_newline_Some in E as [-> Hl]. by apply raw_lines_newline. Qed.

(** Without a newline the data are the beginning of the first line. *)
Lemma raw_lines_prefix data rest l ls :
  split_newline data = None -> raw_lines (data ++ rest) = l :: ls -> exists l', l = data ++ l'.
Proof.
  revert l. induction data as [|b t IH]; intros l Hn E; [by exists l|]. cbn [split_newline app raw_lines] in *.
  destruct (is_newline b); [done|]. destruct (split_newline t) as [[]|]; [done|].
  destruct (raw_lines (t ++ rest)) as [|l0 ls0] eqn:El.
  - injection E as <- <-. destruct t as [|b' t]; [by exists []|]. cbn [app raw_lines] in El.
    destruct (is_newline b'); [done|]. by destruct (raw_lines (t ++ rest)).
  - injection E as <- <-. destruct (IH l0 eq_refl eq_refl) as [l' ->]. by exists l'.
Qed.

Lemma raw_lines_nil bs : raw_lines bs = [] -> bs = [].
Proof. destruct bs as [|b t]; [done|]. cbn. destruct (is_newline b); [done|]. by destruct (raw_lines t). Qed.

Lemma split_newline_app bs l rest x :
  split_newline bs = Some (l, rest) -> split_newline (bs ++ x) = Some (l, rest ++ x).
Proof.
  revert l rest. induction bs as [|b t IH]; intros l rest; cbn [split_newline app]; [done|].
  destruct (is_newline b); [by intros [= <- <-]|].
  destruct (split_newline t) as [[l' r']|]; [|done]. intros [= <- <-]. by rewrite (IH _ _ eq_refl).
Qed.

Lemma split_newline_length bs l rest :
  split_newline bs = Some (l, rest) -> (length bs = length l + S (length rest))%nat.
Proof. intros E. apply split_newline_Some in E as [-> _]. by rewrite length_app. Qed.

(** ** Lemmas: one call of Scan *)

(** A class of readers closed under reads that never return an empty read
    without an error. *)
Definition eager {R} `{IOReader R} (P : R -> Prop) : Prop :=
  forall r n r' bs e, P r -> (0 < n)%nat -> io_Read r n = (r', (bs, e)) -> P r' /\ (e = None -> bs <> []).

Section Scanning.
Context {R : Type} `{ReaderSpec R}.
Implicit Types (r : R) (s : Scanner).

(** The data are in the buffer, the buffer within its limit; an error of the
    reader comes after all its bytes. *)
Record scanning r s : Prop := mkScanning {
  sg_bounds : 0 <= sc_start s /\ sc_start s + len (sc_data s) <= sc_size s <= MaxScanTokenSize;
  sg_loop : sc_loop s = 0;
  sg_err : sc_err s = None \/ (sc_err s = Some (rd_end r) /\ rd_bytes r = [])
}.

(** What is still to be split into lines. *)
Definition held r s : bytes := sc_data s ++ rd_bytes r.

Lemma scan_room_spec s :
  0 <= sc_start s /\ sc_start s + len (sc_data s) <= sc_size s <= MaxScanTokenSize -> sc_err s = None ->
  match scan_room s with
  | Stop s' => sc_err s' = Some ErrTooLong /\ len (sc_data s) = MaxScanTokenSize
  | NeedRead n s' => 0 < n /\ 0 <= sc_start s' /\ sc_start s' + len (sc_data s') + n = sc_size s' /\
      sc_size s' <= MaxScanTokenSize /\ sc_data s' = sc_data s /\ sc_err s' = None /\ sc_loop s' = sc_loop s
  | Token _ _ => False
  end.
Proof.
  intros (Hs & Hl) He. unfold scan_room. assert (0 <= len (sc_data s)) by (unfold len; lia).
  set (start := if _ && _ then 0 else sc_start s).
  assert (0 <= start <= sc_start s /\ (start + len (sc_data s) = sc_size s -> start = 0)) as [Hst Hst0].
  { unfold start. destruct ((0 <? sc_start s) && _) eqn:E; [lia|].
    apply andb_false_iff in E as [E|E]; [lia|]. apply orb_false_iff in E as [E _]. lia. }
  unfold MaxScanTokenSize, startBufSize in *.
  destruct (start + len (sc_data s) =? sc_size s) eqn:Ef.
  - assert (start = 0) as Es by lia. destruct (64 * 1024 <=? sc_size s) eqn:Em.
    + split; [done|]. lia.
    + cbn [sc_start sc_data sc_size sc_err sc_loop]. destruct (sc_size s =? 0) eqn:Ez; repeat split; lia.
  - cbn [sc_start sc_data sc_size sc_err sc_loop]. repeat split; lia.
Qed.

(** What one call of Scan does: the next line, or the end of the text and the
    error of the reader, or ErrTooLong. *)
Definition scan_result (P : R -> Prop) r s (res : option (R * Scanner * option bytes)) : Prop :=
  match raw_lines (held r s) with
  | [] => exists r' s', res = Some (r', s', None) /\ sc_err s' = Some (rd_end r)
  | l :: ls =>
    (short l -> exists r' s', res = Some (r', s', Some (dropCR l)) /\ scanning r' s' /\ P r' /\
       raw_lines (held r' s') = ls /\ rd_end r' = rd_end r /\
       (io_pending r' + length (sc_data s') < io_pending r + length (sc_data s))%nat) /\
    (MaxScanTokenSize < len l -> exists r' s', res = Some (r', s', None) /\ sc_err s' = Some ErrTooLong)
  end.

(** A line that is already in the buffer. *)
Lemma scan_token_result (P : R -> Prop) r s l rest fuel :
  scanning r s -> P r -> split_newline (sc_data s) = Some (l, rest) ->
  scan_result P r s (scan_loop (S fuel) r s).
Proof.
  intros [Hb Hl He] HP E. unfold scan_result, held. rewrite (raw_lines_Some _ _ _ (split_newline_app _ _ _ _ E)).
  pose proof (split_newline_length _ _ _ E) as Hlen.
  assert (scan_token s = Some (dropCR l, rest)) as Et.
  { unfold scan_token, ScanLines. rewrite E. destruct (sc_err s); [done|]. by destruct (sc_data s). }
  cbn [scan_loop]. unfold scan_next. rewrite Et. unfold len in *. split; [|intros; exfalso; lia]. intros _.
  do 2 eexists. split; [reflexivity|]. split; [|split; [done|split; [done|split; [done|cbn [sc_data]; lia]]]].
  split; cbn [sc_start sc_data sc_size sc_loop sc_err]; [unfold len; lia|done|done].
Qed.

Lemma scan_feed_fields s bs e :
  sc_start (scan_feed s bs e) = sc_start s /\ sc_size (scan_feed s bs e) = sc_size s /\
  sc_data (scan_feed s bs e) = sc_data s ++ bs.
Proof. unfold scan_feed. destruct e; [done|]. destruct bs; [by destruct (_ <? _)|done]. Qed.

(** A read keeps what is still to be split. *)
Lemma scan_feed_good r s n r' bs e :
  sc_err s = None -> sc_loop s = 0 -> 0 < n -> 0 <= sc_start s -> sc_start s + len (sc_data s) + n = sc_size s ->
  sc_size s <= MaxScanTokenSize ->
  io_Read r (Z.to_nat n) = (r', (bs, e)) -> (e = None -> bs <> []) ->
  scanning r' (scan_feed s bs e) /\ held r' (scan_feed s bs e) = held r s /\ sc_err (scan_feed s bs e) = e /\
  rd_end r' = rd_end r /\
  (io_pending r' + length (sc_data (scan_feed s bs e)) <= io_pending r + length (sc_data s))%nat.
Proof.
  intros He Hl Hn Hs Hsize Hmax Hread Hne.
  destruct (rd_read _ (Z.to_nat n) _ _ _ ltac:(lia) Hread) as (Hbytes & Hend & Herr).
  pose proof (io_read_length _ _ _ _ _ Hread) as Hlen. apply io_read_pending in Hread.
  destruct (scan_feed_fields s bs e) as (F1 & F2 & F3).
  assert (sc_err (scan_feed s bs e) = e /\ sc_loop (scan_feed s bs e) = 0) as [F4 F5].
  { unfold scan_feed. destruct e; [done|]. destruct bs; [by specialize (Hne eq_refl)|done]. }
  split; [|split; [unfold held; by rewrite F3, Hbytes, app_assoc|]].
  - split; [rewrite F1, F2, F3; unfold len in *; rewrite length_app; lia|done|]. rewrite F4.
    destruct e as [x|]; [|by left]. right. by destruct (Herr x eq_refl) as [-> ->]; rewrite Hend.
  - split; [done|]. split; [done|]. rewrite F3, length_app. lia.
Qed.

Lemma scan_result_feed (P : R -> Prop) r s r' s' res :
  held r' s' = held r s -> rd_end r' = rd_end r ->
  (io_pending r' + length (sc_data s') <= io_pending r + length (sc_data s))%nat ->
  scan_result P r' s' res -> scan_result P r s res.
Proof.
  unfold scan_result. intros -> Hend Hp Hres. destruct (raw_lines (held r s)) as [|l ls]; [by rewrite <-Hend|].
  destruct Hres as [Hshort Hlong]. split; [|done]. intros Hl.
  destruct (Hshort Hl) as (r2 & s2 & E & Hg & HP & Hls & Hend2 & Hp2). exists r2, s2.
  repeat (split; [congruence || done|]). lia.
Qed.

(** The end of the data: the rest is the last line. *)
Lemma scan_end_result (P : R -> Prop) r s fuel e :
  scanning r s -> P r -> sc_err s = Some e -> split_newline (sc_data s) = None ->
  scan_result P r s (scan_loop (S fuel) r s).
Proof.
  intros [Hb Hl He] HP Ee E. destruct He as [He|[He Hnil]]; [congruence|].
  cbn [scan_loop]. unfold scan_next.
  assert (scan_token s = match sc_data s with [] => None | _ => Some (dropCR (sc_data s), []) end) as ->
    by (unfold scan_token, ScanLines; by rewrite He, E).
  unfold scan_result, held. rewrite Hnil, app_nil_r, He. destruct (sc_data s) as [|b t] eqn:Ed.
  - do 2 eexists. by split.
  - rewrite raw_lines_last by done. unfold len in *. split; [|intros; exfalso; lia]. intros _.
    do 2 eexists. split; [reflexivity|]. split.
    + split; cbn [sc_start sc_data sc_size sc_loop sc_err]; [unfold len in *; cbn [length] in *; lia|done|by right].
    + split; [done|]. split; [unfold held; by rewrite Hnil|]. split; [done|]. cbn. lia.
Qed.

Lemma scan_loop_spec (P : R -> Prop) : eager P -> forall fuel r s,
  P r -> scanning r s -> (match sc_err s with None => S (io_left r) | Some _ => 0%nat end < fuel)%nat ->
  scan_result P r s (scan_loop fuel r s).
Proof.
  intros HP. induction fuel as [|fuel IH]; intros r s Hr Hg Hf; [lia|].
  destruct (split_newline (sc_data s)) as [[l rest]|] eqn:E; [by eapply scan_token_result|].
  destruct (sc_err s) as [e|] eqn:He; [by eapply scan_end_result|].
  pose proof Hg as [Hb Hl _]. cbn [scan_loop]. unfold scan_next.
  assert (scan_token s = None) as -> by (unfold scan_token, ScanLines; rewrite He, E; by destruct (sc_data s)).
  rewrite He. pose proof (scan_room_spec s Hb He) as Hroom.
  destruct (scan_room s) as [t s'|n s'|s']; [done| |].
  - destruct Hroom as (Hn & Hs & Hsize & Hmax & Hd & He' & Hl'). rewrite Hl in Hl'.
    destruct (io_Read r (Z.to_nat n)) as [r1 [bs e]] eqn:Hread.
    destruct (HP _ (Z.to_nat n) _ _ _ Hr ltac:(lia) Hread) as [HP1 Hne].
    destruct (scan_feed_good _ s' n _ _ _ He' Hl' Hn Hs Hsize Hmax Hread Hne) as (Hg1 & Hh & Hfe & Hend & Hp).
    apply (scan_result_feed P r s r1 (scan_feed s' bs e)); [| |rewrite Hd in Hp; exact Hp|].
    + rewrite Hh. unfold held. by rewrite Hd.
    + done.
    + apply IH; [done|done|]. rewrite Hfe. destruct e; [lia|]. apply io_read_left in Hread; lia.
  - destruct Hroom as [Hs Hmax]. unfold scan_result, held.
    destruct (raw_lines (sc_data s ++ rd_bytes r)) as [|l ls] eqn:El.
    + apply raw_lines_nil, app_nil in El as [El _]. rewrite El in Hmax. done.
    + destruct (raw_lines_prefix _ _ _ _ E El) as [l' ->]. split.
      * unfold short, len in *. rewrite length_app. lia.
      * intros _. by do 2 eexists.
Qed.

Lemma Scan_spec (P : R -> Prop) r s :
  eager P -> P r -> scanning r s -> scan_result P r s (Scan r s).
Proof. intros HP Hr Hg. apply scan_loop_spec; [done|done|done|]. destruct (sc_err s); lia. Qed.

Lemma scanning_new r : scanning r NewScanner.
Proof. split; [cbn; unfold len, MaxScanTokenSize; cbn; lia|done|by left]. Qed.

(** ** All lines *)

(** The lines that are returned, and the error that ends it: every line has to
    be short of the limit. *)
Inductive cut_at : list bytes -> list bytes -> option goerror -> goerror -> Prop :=
| cut_end e : cut_at [] [] (if is_EOF e then None else Some e) e
| cut_line l ls ts err e : short l -> cut_at ls ts err e -> cut_at (l :: ls) (dropCR l :: ts) err e
| cut_long l ls e : MaxScanTokenSize < len l -> cut_at (l :: ls) [] (Some ErrTooLong) e.

Lemma scan_all_spec (P : R -> Prop) : eager P -> forall fuel r s ts err,
  P r -> scanning r s -> (io_pending r + length (sc_data s) < fuel)%nat ->
  cut_at (raw_lines (held r s)) ts err (rd_end r) -> scan_all fuel r s = Some (ts, err).
Proof.
  intros HP. induction fuel as [|fuel IH]; intros r s ts err Hr Hg Hf Hcut; [lia|].
  pose proof (Scan_spec P r s HP Hr Hg) as Hscan. unfold scan_result in Hscan. cbn [scan_all].
  inversion Hcut as [e El|l ls ts' err' e Hl Hcut' El|l ls e Hl El]; subst; rewrite <-El in Hscan.
  - destruct Hscan as (r' & s' & -> & He). unfold scanner_Err. by rewrite He.
  - destruct Hscan as [Hshort _]. destruct (Hshort Hl) as (r' & s' & -> & Hg' & HP' & Hls & Hend & Hp).
    rewrite (IH r' s' ts' err); [done|done|done|lia|]. by rewrite Hls, Hend.
  - destruct Hscan as [_ Hlong]. destruct (Hlong Hl) as (r' & s' & -> & He). unfold scanner_Err. by rewrite He.
Qed.

Lemma lines_of_spec (P : R -> Prop) r ts err :
  eager P -> P r -> cut_at (raw_lines (rd_bytes r)) ts err (rd_end r) -> lines_of r = Some (ts, err).
Proof.
  intros HP Hr Hcut. apply (scan_all_spec P); [done|done|apply scanning_new| |done]. cbn. lia.
Qed.

Lemma for_scan_all {A E} (body : A -> bytes -> A + E) : forall fuel r s a ts err,
  scan_all fuel r s = Some (ts, err) ->
  for_scan body fuel r s a =
    Some (match for_lines body ts a with inl a => inl (a, err) | inr e => inr e end).
Proof.
  induction fuel as [|fuel IH]; intros r s a ts err; cbn [scan_all for_scan]; [done|].
  destruct (Scan r s) as [[[r' s'] [t|]]|]; [| |done].
  - destruct (scan_all fuel r' s') as [[ts' err']|] eqn:Es; [|done]. intros [= <- <-]. cbn [for_lines].
    destruct (body a t) as [a'|e]; [|done]. by apply IH.
  - by intros [= <- <-].
Qed.

Lemma cut_at_short ls e :
  Forall short ls -> cut_at ls (dropCR <$> ls) (if is_EOF e then None else Some e) e.
Proof. induction 1; by constructor. Qed.
End Scanning.

(** Sources without empty chunks. *)
Definition chunk_nonempty (c : chunk) : Prop := match c with Chunk bs => bs <> [] | ChunkEnd _ _ => True end.

Lemma source_eager : eager (Forall chunk_nonempty : source -> Prop).
Proof.
  intros [|[cs|cs x] t] n s' bs e Hs Hn Hr; rewrite source_io_Read in Hr; cbn [source_Read] in Hr;
    repeat case_decide; simplify_eq/=; try (inversion Hs; subst); cbn [chunk_nonempty] in *.
  - by split.
  - by split.
  - split; [constructor; [|done]|].
    + cbn. intros E. apply (f_equal length) in E. rewrite length_drop in E. cbn in E. lia.
    + intros _ E. apply (f_equal length) in E. rewrite length_take in E. cbn in E. lia.
  - split; [by repeat constructor|done].
  - split; [by constructor|]. intros _ E. apply (f_equal length) in E. rewrite length_take in E. cbn in E. lia.
Qed.
