(* ===== verification/Log.v ===== *)
(** * Log: log.go

    [StandardLogger] with its do-nothing instance, and the [HttpLogAdaptor]: an
    [io.Writer] whose lines are forwarded to a logger by a goroutine that scans
    the other end of an [io.Pipe].  Writers, closers and the goroutine run
    interleaved: [step] takes one of them through one action. *)
From Stdlib Require Import ZArith Lia.
From stdpp Require Import base strings list relations.
From S2P Require Import Prelude Errors GoIO Scanner.
Local Open Scope Z_scope.

(** ** Loggers *)

(** A [StandardLogger]: the one that does nothing or the user's. *)
Inductive logger := NoOpLogger | UserLogger.

(** A call of a method of the user's logger. *)
Inductive level := Error | Info | Debug | Warn.
Record log_line := mkLine { l_level : level; l_msg : string; l_args : list string }.

(** The lines logged so far after a call of a method of the logger. *)
Definition log_call (l : logger) (logged : list log_line) (line : log_line) : list log_line :=
  match l with
  | NoOpLogger => logged
  | UserLogger => logged ++ [line]
  end.

(** ** The pipe, the goroutine and its clients *)
Definition ErrClosedPipe : goerror := ErrString "io: read/write on closed pipe".

(** Calls on the adaptor and what they return. *)
Inductive op := OpWrite (p : bytes) | OpClose.
Inductive result := RWrite (p : bytes) (n : nat) (err : option goerror) | RClose.

(** Where a client is: between calls, in [pipe.write] before its lock, in the
    loop of [pipe.write] with [n] bytes of [p] written, or in [wg.Wait]. *)
Inductive client_at := Ready | Locking (p : bytes) | Writing (p : bytes) (n : nat) | Waiting.

Record client := mkClient {
  c_at : client_at;
  c_ops : list op;
  c_results : list result
}.

(** Where the goroutine is: about to go on with [scanner.Scan], in
    [pipe.read] with room for [n] bytes, after the loop with [scanner.Err],
    before [reader.Close], before [wg.Done], ended. *)
Inductive scan_at :=
| GScan (s : Scanner)
| GRead (n : Z) (s : Scanner)
| GStop (err : option goerror)
| GClose
| GDone
| GEnded.

(** [p_accepted]: a history of the bytes the pipe took, one entry for each call
    of [Write] that handed over any, with its client. *)
Record adaptor := mkAdaptor {
  a_clients : list client;
  a_goroutine : scan_at;
  p_done : bool;                      (* the channel done is closed *)
  p_mu : option nat;                  (* the holder of wrMu *)
  p_werr : bool;                      (* closed by the writer, by the reader *)
  p_rerr : bool;
  p_accepted : list (nat * bytes);
  a_logged : list log_line
}.

(** [NewHttpLogAdaptor] and the calls its clients will make. *)
Definition NewHttpLogAdaptor (programs : list (list op)) : adaptor :=
  mkAdaptor ((fun ops => mkClient Ready ops []) <$> programs) (GScan NewScanner) false None false false [] [].

(** [pipe.readCloseError] and [pipe.writeCloseError] *)
Definition readCloseError (a : adaptor) : goerror :=
  if negb (p_rerr a) && p_werr a then ErrSentinel EOF else ErrClosedPipe.
Definition writeCloseError : goerror := ErrClosedPipe.

Definition with_client (a : adaptor) (i : nat) (c : client) : adaptor :=
  mkAdaptor (<[i := c]> (a_clients a)) (a_goroutine a) (p_done a) (p_mu a) (p_werr a) (p_rerr a)
    (p_accepted a) (a_logged a).
Definition with_goroutine (a : adaptor) (g : scan_at) : adaptor :=
  mkAdaptor (a_clients a) g (p_done a) (p_mu a) (p_werr a) (p_rerr a) (p_accepted a) (a_logged a).
Definition with_mu (a : adaptor) (mu : option nat) : adaptor :=
  mkAdaptor (a_clients a) (a_goroutine a) (p_done a) mu (p_werr a) (p_rerr a) (p_accepted a) (a_logged a).
Definition with_accepted (a : adaptor) (l : list (nat * bytes)) : adaptor :=
  mkAdaptor (a_clients a) (a_goroutine a) (p_done a) (p_mu a) (p_werr a) (p_rerr a) l (a_logged a).
Definition with_logged (a : adaptor) (l : list log_line) : adaptor :=
  mkAdaptor (a_clients a) (a_goroutine a) (p_done a) (p_mu a) (p_werr a) (p_rerr a) (p_accepted a) l.
Definition close_write (a : adaptor) : adaptor :=
  mkAdaptor (a_clients a) (a_goroutine a) true (p_mu a) true (p_rerr a) (p_accepted a) (a_logged a).
Definition close_read (a : adaptor) : adaptor :=
  mkAdaptor (a_clients a) (a_goroutine a) true (p_mu a) (p_werr a) true (p_accepted a) (a_logged a).

(** Client [i] hands over [bs] after [n] bytes of the same call. *)
Definition accept (l : list (nat * bytes)) (i n : nat) (bs : bytes) : list (nat * bytes) :=
  match n, rev l with
  | S _, (j, p) :: t => rev t ++ [(j, p ++ bs)]
  | _, _ => l ++ [(i, bs)]
  end.

(** A call returns. *)
Definition returns (c : client) (r : result) : client := mkClient Ready (c_ops c) (c_results c ++ [r]).

Section Adaptor.
Context (log : logger).

(** *** The goroutine *)
Definition goroutine_step (a : adaptor) : option adaptor :=
  match a_goroutine a with
  | GScan s =>
    match scan_next s with
    | Token t s =>
      Some (with_goroutine (with_logged a (log_call log (a_logged a) (mkLine Info (to_string t) []))) (GScan s))
    | NeedRead n s =>
      Some (with_goroutine a (if p_done a then GScan (scan_feed s [] (Some (readCloseError a))) else GRead n s))
    | Stop s => Some (with_goroutine a (GStop (scanner_Err s)))
    end
  | GRead _ s =>
    if p_done a then Some (with_goroutine a (GScan (scan_feed s [] (Some (readCloseError a))))) else None
  | GStop (Some err) =>
    Some (with_goroutine
      (with_logged a (log_call log (a_logged a)
        (mkLine Error "while reading from Writer" ["err"; error_text err; "category"; "HttpLogAdaptor"]))) GClose)
  | GStop None => Some (with_goroutine a GClose)
  | GClose => Some (with_goroutine (close_read a) GDone)
  | GDone => Some (with_goroutine a GEnded)
  | GEnded => None
  end.

(** *** A client *)
Definition client_step (a : adaptor) (i : nat) : option adaptor :=
  match a_clients a !! i with
  | None => None
  | Some c =>
    match c_at c with
    | Ready =>
      match c_ops c with
      | [] => None
      | OpWrite p :: ops =>
        let c := mkClient (c_at c) ops (c_results c) in
        if p_done a then
          Some (with_client a i (returns c (RWrite p 0 (Some writeCloseError))))
        else Some (with_client a i (mkClient (Locking p) ops (c_results c)))
      | OpClose :: ops => Some (close_write (with_client a i (mkClient Waiting ops (c_results c))))
      end
    | Locking p =>
      match p_mu a with
      | Some _ => None
      | None =>
        Some (with_mu (with_client a i (mkClient (Writing p 0) (c_ops c) (c_results c))) (Some i))
      end
    | Writing p n =>
      if p_done a then
        Some (with_mu (with_client a i (returns c (RWrite p n (Some writeCloseError)))) None)
      else None
    | Waiting => match a_goroutine a with GEnded => Some (with_client a i (returns c RClose)) | _ => None end
    end
  end.

(** *** The rendezvous of [pipe.write] and [pipe.read] *)
Definition transfer_step (a : adaptor) (i : nat) : option adaptor :=
  match a_clients a !! i, a_goroutine a with
  | Some c, GRead room s =>
    match c_at c with
    | Writing p n =>
      let k := (length (drop n p) `min` Z.to_nat room)%nat in
      let bs := take k (drop n p) in
      let a := with_accepted (with_goroutine a (GScan (scan_feed s bs None))) (accept (p_accepted a) i n bs) in
      if decide (n + k = length p)%nat then
        Some (with_mu (with_client a i (returns c (RWrite p (n + k) None))) None)
      else Some (with_client a i (mkClient (Writing p (n + k)) (c_ops c) (c_results c)))
    | _ => None
    end
  | _, _ => None
  end.

(** One action of anybody. *)
Inductive step (a a' : adaptor) : Prop :=
| step_goroutine : goroutine_step a = Some a' -> step a a'
| step_client i : client_step a i = Some a' -> step a a'
| step_transfer i : transfer_step a i = Some a' -> step a a'.

(** Every call has returned. *)
Definition finished (a : adaptor) : Prop :=
  Forall (fun c => c_at c = Ready /\ c_ops c = []) (a_clients a).
End Adaptor.
