(* ===== verification/LogSpec.v ===== *)
(** * LogSpec: the theorems on the HttpLogAdaptor

    What is logged are the lines of what was written, whatever the
    interleaving; a write that returns without error was taken whole; [Close]
    returns only when everything has been logged; nothing deadlocks and every
    execution ends. *)
From Stdlib Require Import ZArith Lia.
From stdpp Require Import base strings list relations.
From S2P Require Import Prelude Errors GoIO Scanner Log.
Local Open Scope Z_scope.

(** ** The steps, one by one *)
Section Steps.
Context (log : logger).

(** A property of every state after a step. *)
Lemma step_cases (Q : adaptor -> Prop) a a' :
  step log a a' ->
  (forall s t s', a_goroutine a = GScan s -> scan_next s = Token t s' ->
     Q (with_goroutine (with_logged a (log_call log (a_logged a) (mkLine Info (to_string t) []))) (GScan s'))) ->
  (forall s n s', a_goroutine a = GScan s -> scan_next s = NeedRead n s' -> p_done a = false ->
     Q (with_goroutine a (GRead n s'))) ->
  (forall s s', (a_goroutine a = GScan s /\ exists n, scan_next s = NeedRead n s') \/ (exists n, a_goroutine a = GRead n s') ->
     p_done a = true -> Q (with_goroutine a (GScan (scan_feed s' [] (Some (readCloseError a)))))) ->
  (forall s s', a_goroutine a = GScan s -> scan_next s = Stop s' -> Q (with_goroutine a (GStop (scanner_Err s')))) ->
  (forall err, a_goroutine a = GStop (Some err) ->
     Q (with_goroutine (with_logged a (log_call log (a_logged a)
          (mkLine Error "while reading from Writer" ["err"; error_text err; "category"; "HttpLogAdaptor"]))) GClose)) ->
  (a_goroutine a = GStop None -> Q (with_goroutine a GClose)) ->
  (a_goroutine a = GClose -> Q (with_goroutine (close_read a) GDone)) ->
  (a_goroutine a = GDone -> Q (with_goroutine a GEnded)) ->
  (forall i c p ops, a_clients a !! i = Some c -> c_at c = Ready -> c_ops c = OpWrite p :: ops -> p_done a = true ->
     Q (with_client a i (mkClient Ready ops (c_results c ++ [RWrite p 0 (Some ErrClosedPipe)])))) ->
  (forall i c p ops, a_clients a !! i = Some c -> c_at c = Ready -> c_ops c = OpWrite p :: ops -> p_done a = false ->
     Q (with_client a i (mkClient (Locking p) ops (c_results c)))) ->
  (forall i c ops, a_clients a !! i = Some c -> c_at c = Ready -> c_ops c = OpClose :: ops ->
     Q (close_write (with_client a i (mkClient Waiting ops (c_results c))))) ->
  (forall i c p, a_clients a !! i = Some c -> c_at c = Locking p -> p_mu a = None ->
     Q (with_mu (with_client a i (mkClient (Writing p 0) (c_ops c) (c_results c))) (Some i))) ->
  (forall i c p n, a_clients a !! i = Some c -> c_at c = Writing p n -> p_done a = true ->
     Q (with_mu (with_client a i (returns c (RWrite p n (Some ErrClosedPipe)))) None)) ->
  (forall i c, a_clients a !! i = Some c -> c_at c = Waiting -> a_goroutine a = GEnded ->
     Q (with_client a i (returns c RClose))) ->
  (forall i c p n room s, a_clients a !! i = Some c -> c_at c = Writing p n -> a_goroutine a = GRead room s ->
     let k := (length (drop n p) `min` Z.to_nat room)%nat in
     let bs := take k (drop n p) in
     let a1 := with_accepted (with_goroutine a (GScan (scan_feed s bs None))) (accept (p_accepted a) i n bs) in
     Q (if decide (n + k = length p)%nat then
          with_mu (with_client a1 i (returns c (RWrite p (n + k) None))) None
        else with_client a1 i (mkClient (Writing p (n + k)) (c_ops c) (c_results c)))) ->
  Q a'.
Proof.
  intros Hstep Q1 Q2 Q3 Q4 Q5 Q6 Q7 Q8 Q9 Q10 Q11 Q12 Q13 Q14 Q15. destruct Hstep as [E|i E|i E].
  - unfold goroutine_step in E. destruct (a_goroutine a) as [s|n s|[e|]| | |] eqn:Eg; [| | | | | |done].
    + destruct (scan_next s) as [t s'|n s'|s'] eqn:En; injection E as <-; [by eapply Q1| |by eapply Q4].
      destruct (p_done a) eqn:Ed; [by eapply (Q3 s s'); [left; eauto|done]|by eapply Q2].
    + destruct (p_done a) eqn:Ed; [|done]. injection E as <-. eapply (Q3 s s); [right; eauto|done].
    + injection E as <-. by apply Q5.
    + injection E as <-. by apply Q6.
    + injection E as <-. by apply Q7.
    + injection E as <-. by apply Q8.
  - unfold client_step in E. destruct (a_clients a !! i) as [c|] eqn:Ec; [|done].
    destruct (c_at c) as [|p|p n|] eqn:Ea.
    + destruct (c_ops c) as [|[p|] ops] eqn:Eo; [done| |].
      * destruct (p_done a) eqn:Ed; injection E as <-; [exact (Q9 i c p ops Ec Ea Eo eq_refl)|exact (Q10 i c p ops Ec Ea Eo eq_refl)].
      * injection E as <-. by eapply Q11.
    + destruct (p_mu a) eqn:Em; [done|]. injection E as <-. by eapply Q12.
    + destruct (p_done a) eqn:Ed; [|done]. injection E as <-. by eapply Q13.
    + destruct (a_goroutine a) eqn:Eg; try done. injection E as <-. by eapply Q14.
  - unfold transfer_step in E. destruct (a_clients a !! i) as [c|] eqn:Ec; [|done].
    destruct (a_goroutine a) as [|room s| | | |] eqn:Eg; try done. destruct (c_at c) as [| |p n|] eqn:Ea; try done.
    specialize (Q15 i c p n room s Ec Ea eq_refl). cbv zeta in Q15, E.
    destruct (decide (_ = length p)) in E, Q15; by injection E as <-.
Qed.
End Steps.

(** ** The history *)
Definition text (l : list (nat * bytes)) : bytes := concat (snd <$> l).
Definition entries (i : nat) (l : list (nat * bytes)) : list bytes := snd <$> filter (fun e => fst e = i) l.

Lemma accept_cases l i n bs :
  (l = [] \/ n = 0%nat) /\ accept l i n bs = l ++ [(i, bs)] \/
  n <> 0%nat /\ exists l' j p, l = l' ++ [(j, p)] /\ accept l i n bs = l' ++ [(j, p ++ bs)].
Proof.
  destruct n as [|n]; [by left; split; [right|]|].
  destruct l as [|[j p] l' _] using rev_ind; [by left; split; [left|]|].
  right. split; [done|]. exists l', j, p. split; [done|]. unfold accept.
  rewrite rev_unit. by rewrite rev_involutive.
Qed.

Lemma text_app l1 l2 : text (l1 ++ l2) = text l1 ++ text l2.
Proof. unfold text. by rewrite fmap_app, concat_app. Qed.

Lemma text_one i bs : text [(i, bs)] = bs.
Proof. unfold text. cbn. apply app_nil_r. Qed.

Lemma accept_text l i n bs : text (accept l i n bs) = text l ++ bs.
Proof.
  destruct (accept_cases l i n bs) as [[_ ->]|(_ & l' & j & p & -> & ->)]; rewrite !text_app, !text_one; [done|].
  by rewrite app_assoc.
Qed.

Lemma entries_app i l1 l2 : entries i (l1 ++ l2) = entries i l1 ++ entries i l2.
Proof. unfold entries. by rewrite filter_app, fmap_app. Qed.

Lemma entries_one i j bs : entries i [(j, bs)] = if decide (j = i) then [bs] else [].
Proof. unfold entries. rewrite filter_cons. cbn [fst]. by destruct (decide (j = i)). Qed.

(** The entry of a call in progress. *)
Definition current (p : bytes) (n : nat) : list bytes := match n with O => [] | _ => [take n p] end.

Lemma accept_entries l i n p bs :
  (n <> 0%nat -> last l = Some (i, take n p)) ->
  last (accept l i n bs) = Some (i, take n p ++ bs) /\
  (forall pre, entries i l = pre ++ current p n -> entries i (accept l i n bs) = pre ++ [take n p ++ bs]) /\
  (forall j, j <> i -> entries j (accept l i n bs) = entries j l).
Proof.
  intros Hlast. destruct (accept_cases l i n bs) as [[Hn ->]|(Hn & l' & j & q & -> & ->)].
  - assert (n = 0%nat) as ->.
    { destruct n as [|n]; [done|]. specialize (Hlast ltac:(done)). destruct Hn as [->|Hn]; [done|lia]. }
    rewrite last_snoc. split; [done|]. split.
    + intros pre E. rewrite entries_app, entries_one, decide_True by done. rewrite E. cbn. by rewrite app_nil_r.
    + intros j Hj. rewrite entries_app, entries_one, decide_False by congruence. apply app_nil_r.
  - specialize (Hlast Hn). rewrite last_snoc in Hlast. injection Hlast as -> ->.
    rewrite last_snoc. split; [done|]. split.
    + intros pre. rewrite !entries_app, !entries_one, !decide_True by done. intros E.
      destruct n as [|n]; [done|]. cbn [current] in E. apply app_inj_tail in E as [-> _]. done.
    + intros j Hj. by rewrite !entries_app, !entries_one, !decide_False by congruence.
Qed.

(** ** The scanner, one action at a time *)

(** The data are in the buffer, the buffer within its limit. *)
Definition buffer_ok (s : Scanner) : Prop :=
  0 <= sc_start s /\ sc_start s + len (sc_data s) <= sc_size s <= MaxScanTokenSize.

(** Of the bytes [acc] the lines [ls] are taken, [data] are left. *)
Definition consumed (ls : list bytes) (acc data : bytes) : Prop :=
  forall x, raw_lines (acc ++ x) = ls ++ raw_lines (data ++ x).

Lemma consumed_snoc ls l acc data data' :
  consumed ls acc data -> consumed [l] data data' -> consumed (ls ++ [l]) acc data'.
Proof. intros H1 H2 x. by rewrite H1, H2, <-app_assoc. Qed.

Lemma consumed_app ls acc data bs : consumed ls acc data -> consumed ls (acc ++ bs) (data ++ bs).
Proof. intros Hc x. by rewrite <-!app_assoc. Qed.

Lemma scan_next_spec s :
  buffer_ok s ->
  match scan_next s with
  | Token t s' => exists l, t = dropCR l /\ buffer_ok s' /\ sc_err s' = sc_err s /\ sc_loop s' = sc_loop s /\
      (length (sc_data s') < length (sc_data s))%nat /\
      (sc_err s = None -> short l /\ consumed [l] (sc_data s) (sc_data s')) /\
      (short (sc_data s) -> short l /\ raw_lines (sc_data s) = l :: raw_lines (sc_data s'))
  | NeedRead n s' => sc_err s = None /\ sc_err s' = None /\ sc_loop s' = sc_loop s /\ sc_data s' = sc_data s /\
      split_newline (sc_data s) = None /\ 0 < n /\ 0 <= sc_start s' /\
      sc_start s' + len (sc_data s') + n = sc_size s' /\ sc_size s' <= MaxScanTokenSize
  | Stop s' =>
      (sc_err s' = sc_err s /\ sc_err s <> None /\ sc_data s = []) \/
      (sc_err s = None /\ sc_err s' = Some ErrTooLong /\ split_newline (sc_data s) = None /\
       len (sc_data s) = MaxScanTokenSize)
  end.
Proof.
  intros Hb. unfold scan_next.
  destruct (split_newline (sc_data s)) as [[l rest]|] eqn:E.
  - assert (scan_token s = Some (dropCR l, rest)) as ->
      by (unfold scan_token, ScanLines; rewrite E; destruct (sc_err s); [done|]; by destruct (sc_data s)).
    pose proof (split_newline_length _ _ _ E) as Hlen. exists l. unfold buffer_ok, short, len in *.
    cbn [sc_start sc_data sc_size sc_err sc_loop]. split; [done|]. split; [lia|]. split; [done|]. split; [done|].
    split; [lia|]. split.
    + intros _. split; [lia|]. intros x. exact (raw_lines_Some _ _ _ (split_newline_app _ _ _ x E)).
    + intros _. split; [lia|]. by apply raw_lines_Some.
  - destruct (sc_err s) as [e|] eqn:He.
    + assert (scan_token s = match sc_data s with [] => None | _ => Some (dropCR (sc_data s), []) end) as ->
        by (unfold scan_token, ScanLines; by rewrite He, E).
      destruct (sc_data s) as [|b t] eqn:Ed; [by left|]. exists (b :: t). unfold buffer_ok, short, len in *.
      rewrite Ed in Hb. cbn [sc_start sc_data sc_size sc_err sc_loop length] in *.
      split; [done|]. split; [lia|]. split; [done|]. split; [done|]. split; [lia|]. split; [done|].
      intros Hs. split; [lia|]. by apply raw_lines_last.
    + assert (scan_token s = None) as -> by (unfold scan_token, ScanLines; rewrite He, E; by destruct (sc_data s)).
      pose proof (scan_room_spec s Hb He) as Hr. destruct (scan_room s); [done| |].
      * destruct Hr as (? & ? & ? & ? & ? & ? & ?). by repeat split.
      * right. by destruct Hr.
Qed.

(** ** The invariant *)
Definition op_of (r : result) : op := match r with RWrite p _ _ => OpWrite p | RClose => OpClose end.

Definition in_progress (c : client_at) : list op :=
  match c with Ready => [] | Locking p | Writing p _ => [OpWrite p] | Waiting => [OpClose] end.

(** The bytes that a call of [Write] handed over, if any. *)
Definition portion (r : result) : option bytes :=
  match r with RWrite p (S n) _ => Some (take (S n) p) | _ => None end.

(** A write without error was taken whole; a failed one returns
    ErrClosedPipe. *)
Definition result_ok (r : result) : Prop :=
  match r with
  | RWrite p n None => n = length p
  | RWrite p n (Some e) => e = ErrClosedPipe /\ (n < length p)%nat
  | RClose => True
  end.

Record client_ok (prog : list op) (a : adaptor) (i : nat) (c : client) : Prop := mkClientOk {
  ck_ops : prog = (op_of <$> c_results c) ++ in_progress (c_at c) ++ c_ops c;
  ck_results : Forall result_ok (c_results c);
  ck_mu : p_mu a = Some i <-> exists p n, c_at c = Writing p n;
  ck_at : match c_at c with
          | Writing p n => (n < length p)%nat /\ (n <> 0%nat -> last (p_accepted a) = Some (i, take n p))
          | Waiting => p_werr a = true
          | _ => True
          end;
  ck_entries : entries i (p_accepted a) =
    omap portion (c_results c) ++ match c_at c with Writing p n => current p n | _ => [] end;
  ck_closed : RClose ∈ c_results c -> a_goroutine a = GEnded
}.

(** The lines as they are logged. *)
Definition info (ls : list bytes) : list log_line := (fun l => mkLine Info (to_string (dropCR l)) []) <$> ls.
Definition error_lines (e : option goerror) : list log_line :=
  match e with
  | Some err => [mkLine Error "while reading from Writer" ["err"; error_text err; "category"; "HttpLogAdaptor"]]
  | None => []
  end.

(** The whole text is scanned: into its lines, or up to a line that is too
    long. *)
Definition scanned (T : bytes) (ls : list bytes) (e : option goerror) : Prop :=
  Forall short ls /\
  match e with
  | None => raw_lines T = ls
  | Some e => e = ErrTooLong /\ exists l post, raw_lines T = ls ++ l :: post /\ MaxScanTokenSize <= len l
  end.

Definition goroutine_ok (a : adaptor) : Prop :=
  let T := text (p_accepted a) in
  match a_goroutine a with
  | GScan s => buffer_ok s /\ sc_loop s = 0 /\ exists ls, Forall short ls /\ a_logged a = info ls /\
      match sc_err s with
      | None => consumed ls T (sc_data s)
      | Some e => e = ErrSentinel EOF /\ p_done a = true /\ short (sc_data s) /\
          raw_lines T = ls ++ raw_lines (sc_data s)
      end
  | GRead n s => 0 < n /\ 0 <= sc_start s /\ sc_start s + len (sc_data s) + n = sc_size s /\
      sc_size s <= MaxScanTokenSize /\ sc_loop s = 0 /\ sc_err s = None /\ split_newline (sc_data s) = None /\
      exists ls, Forall short ls /\ a_logged a = info ls /\ consumed ls T (sc_data s)
  | GStop e => exists ls, scanned T ls e /\ a_logged a = info ls
  | _ => exists ls e, scanned T ls e /\ a_logged a = info ls ++ error_lines e
  end.

Record inv (progs : list (list op)) (a : adaptor) : Prop := mkInv {
  inv_clients : forall i c, a_clients a !! i = Some c -> exists prog, progs !! i = Some prog /\ client_ok prog a i c;
  inv_length : length (a_clients a) = length progs;
  inv_done : p_done a = p_werr a || p_rerr a;
  inv_rerr : p_rerr a = match a_goroutine a with GDone | GEnded => true | _ => false end;
  inv_holder : forall i, p_mu a = Some i -> is_Some (a_clients a !! i);
  inv_goroutine : goroutine_ok a
}.

Definition nonempty_op (o : op) : Prop := match o with OpWrite p => p <> [] | OpClose => True end.

(** ** The invariant is kept *)
Lemma client_ok_mono prog a a' j c :
  client_ok prog a j c -> (p_mu a' = Some j <-> p_mu a = Some j) -> (p_werr a = true -> p_werr a' = true) ->
  entries j (p_accepted a') = entries j (p_accepted a) ->
  (p_mu a = Some j -> p_accepted a' = p_accepted a) -> (a_goroutine a = GEnded -> a_goroutine a' = GEnded) ->
  client_ok prog a' j c.
Proof.
  intros [Ho Hr Hm Ha He Hc] Hmu Hw Hen Hacc Hg. split; [done|done|by rewrite Hmu| |by rewrite Hen|auto].
  destruct (c_at c) as [| |p n|] eqn:Ec; [done|done| |auto]. destruct Ha as [Hn Hl]. split; [done|].
  rewrite Hacc; [done|]. apply Hm. eauto.
Qed.

(** A step of client [i]. *)
Lemma clients_step (progs : list (list op)) a a' i c c' :
  (forall j d, a_clients a !! j = Some d -> exists prog, progs !! j = Some prog /\ client_ok prog a j d) ->
  a_clients a !! i = Some c -> a_clients a' = <[i := c']> (a_clients a) ->
  (forall prog, client_ok prog a i c -> client_ok prog a' i c') ->
  (forall j d prog, j <> i -> client_ok prog a j d -> client_ok prog a' j d) ->
  forall j d, a_clients a' !! j = Some d -> exists prog, progs !! j = Some prog /\ client_ok prog a' j d.
Proof.
  intros Hall Hi -> Hc Ho j d Hj. apply list_lookup_insert_Some in Hj as [(<- & <- & _)|[Hne Hj]].
  - destruct (Hall i c Hi) as (prog & Hp & Hok). eauto.
  - destruct (Hall j d Hj) as (prog & Hp & Hok). eauto.
Qed.

Lemma inv_goroutine_step progs a a' :
  inv progs a -> a_clients a' = a_clients a -> p_mu a' = p_mu a -> p_accepted a' = p_accepted a ->
  p_werr a' = p_werr a -> (a_goroutine a = GEnded -> a_goroutine a' = GEnded) ->
  p_done a' = p_werr a' || p_rerr a' ->
  p_rerr a' = match a_goroutine a' with GDone | GEnded => true | _ => false end ->
  goroutine_ok a' -> inv progs a'.
Proof.
  intros [Hc Hlen _ _ Hh _] Ec Em Ea Ew Hg Hd Hr Hok. split; [|by rewrite Ec|done|done|by rewrite Ec, Em|done].
  rewrite Ec. intros i c Hi. destruct (Hc i c Hi) as (prog & Hp & Hcl). exists prog. split; [done|].
  eapply client_ok_mono; [exact Hcl|by rewrite Em|by rewrite Ew|by rewrite Ea|by intros _; rewrite Ea|exact Hg].
Qed.

Lemma goroutine_ok_mono a a' :
  a_goroutine a' = a_goroutine a -> a_logged a' = a_logged a -> p_accepted a' = p_accepted a ->
  (p_done a = true -> p_done a' = true) -> goroutine_ok a -> goroutine_ok a'.
Proof.
  unfold goroutine_ok. intros -> -> -> Hd. destruct (a_goroutine a) as [s| | | | |]; try done.
  intros (Hb & Hl & ls & Hs & Hlog & He). split; [done|]. split; [done|]. exists ls. split; [done|]. split; [done|].
  destruct (sc_err s); [|done]. destruct He as (? & ? & ?). auto.
Qed.

Lemma inv_client_step progs a a' i c c' :
  inv progs a -> a_clients a !! i = Some c -> a_clients a' = <[i := c']> (a_clients a) ->
  a_goroutine a' = a_goroutine a -> a_logged a' = a_logged a -> p_accepted a' = p_accepted a ->
  p_rerr a' = p_rerr a -> p_done a' = p_werr a' || p_rerr a' -> (p_werr a = true -> p_werr a' = true) ->
  (forall j, j <> i -> p_mu a' = Some j <-> p_mu a = Some j) ->
  (forall prog, client_ok prog a i c -> client_ok prog a' i c') -> inv progs a'.
Proof.
  intros [Hc Hlen Hd Hr Hh Hg] Hi Ec Eg El Ea Er Hd' Hw Hmu Hok. split.
  - eapply clients_step; [exact Hc|exact Hi|exact Ec|exact Hok|]. intros j d prog Hj Hcl.
    eapply client_ok_mono; [exact Hcl|by apply Hmu|done|by rewrite Ea|by intros _|by rewrite Eg].
  - by rewrite Ec, length_insert.
  - done.
  - by rewrite Er, Eg.
  - intros j Hj. rewrite Ec. destruct (decide (j = i)) as [->|Hne].
    + rewrite list_lookup_insert_eq by (by eapply lookup_lt_Some). done.
    + rewrite list_lookup_insert_ne by done. apply Hh. by apply Hmu.
  - eapply goroutine_ok_mono; [exact Eg|exact El|exact Ea| |exact Hg].
    rewrite Hd, Hd', Er. destruct (p_werr a); [by rewrite Hw|]. cbn. intros ->. by destruct (p_werr a').
Qed.

(** The goroutine goes on with the end of the pipe. *)
Lemma goroutine_ok_end a s :
  buffer_ok s -> sc_loop s = 0 -> short (sc_data s) -> p_done a = true -> readCloseError a = ErrSentinel EOF ->
  (exists ls, Forall short ls /\ a_logged a = info ls /\ consumed ls (text (p_accepted a)) (sc_data s)) ->
  goroutine_ok (with_goroutine a (GScan (scan_feed s [] (Some (readCloseError a))))).
Proof.
  intros Hb Hl Hs Hd He (ls & Hls & Hlog & Hc). unfold goroutine_ok. cbn [a_goroutine with_goroutine p_accepted a_logged p_done].
  unfold scan_feed. cbn [sc_err sc_data sc_loop]. rewrite app_nil_r. split; [exact Hb|]. split; [done|].
  exists ls. split; [done|]. split; [done|]. split; [done|]. split; [done|]. split; [done|].
  specialize (Hc []). by rewrite !app_nil_r in Hc.
Qed.

Lemma info_snoc ls l : info (ls ++ [l]) = info ls ++ [mkLine Info (to_string (dropCR l)) []].
Proof. unfold info. by rewrite fmap_app. Qed.

(** The goroutine takes a line. *)
Lemma goroutine_ok_token a s t s' :
  goroutine_ok a -> a_goroutine a = GScan s -> scan_next s = Token t s' ->
  goroutine_ok (with_goroutine (with_logged a (log_call UserLogger (a_logged a) (mkLine Info (to_string t) []))) (GScan s')).
Proof.
  unfold goroutine_ok. intros Hg Eg En. rewrite Eg in Hg. destruct Hg as (Hb & Hl & ls & Hls & Hlog & He).
  pose proof (scan_next_spec s Hb) as Hn. rewrite En in Hn.
  destruct Hn as (l & -> & Hb' & He' & Hl' & Hlt & Hnone & Hsome).
  cbn [a_goroutine with_goroutine with_logged p_accepted a_logged p_done log_call].
  split; [done|]. split; [by rewrite Hl'|]. exists (ls ++ [l]). rewrite He', info_snoc, Hlog.
  destruct (sc_err s) as [e|].
  - destruct He as (-> & Hd & Hs & Hraw). destruct (Hsome Hs) as [Hsl Hr].
    split; [apply Forall_app_2; [done|by constructor]|]. split; [done|]. split; [done|]. split; [done|].
    split; [unfold short, len in *; lia|]. by rewrite Hraw, Hr, <-app_assoc.
  - destruct (Hnone eq_refl) as [Hsl Hc]. split; [apply Forall_app_2; [done|by constructor]|]. split; [done|].
    by eapply consumed_snoc.
Qed.

(** The goroutine stops scanning. *)
Lemma goroutine_ok_stop a s s' :
  goroutine_ok a -> a_goroutine a = GScan s -> scan_next s = Stop s' ->
  goroutine_ok (with_goroutine a (GStop (scanner_Err s'))).
Proof.
  unfold goroutine_ok. intros Hg Eg En. rewrite Eg in Hg. destruct Hg as (Hb & Hl & ls & Hls & Hlog & He).
  pose proof (scan_next_spec s Hb) as Hn. rewrite En in Hn.
  cbn [a_goroutine with_goroutine p_accepted a_logged p_done]. exists ls. split; [|done]. unfold scanned, scanner_Err.
  split; [done|]. destruct Hn as [(He' & Hne & Hd)|(He' & -> & Hsp & Hlen)].
  - rewrite He'. destruct (sc_err s) as [e|]; [|done]. destruct He as (-> & _ & _ & Hraw).
    cbn [is_EOF]. rewrite Hraw, Hd. apply app_nil_r.
  - rewrite He' in He. cbn [is_EOF ErrTooLong]. split; [done|]. exists (sc_data s), []. split; [|lia].
    specialize (He []). rewrite !app_nil_r in He. rewrite He, raw_lines_last; [done|done|].
    intros E. by rewrite E in Hlen.
Qed.

(** The goroutine gets some bytes. *)
Lemma goroutine_ok_transfer a a' n s bs :
  goroutine_ok a -> a_goroutine a = GRead n s -> (length bs <= Z.to_nat n)%nat -> bs <> [] ->
  a_goroutine a' = GScan (scan_feed s bs None) -> a_logged a' = a_logged a ->
  text (p_accepted a') = text (p_accepted a) ++ bs -> goroutine_ok a'.
Proof.
  unfold goroutine_ok. intros Hg Eg Hlen Hne -> -> ->. rewrite Eg in Hg.
  destruct Hg as (Hn & Hs & Hsize & Hmax & Hl & He & _ & ls & Hls & Hlog & Hc).
  destruct (scan_feed_fields s bs None) as (F1 & F2 & F3).
  assert (sc_err (scan_feed s bs None) = None /\ sc_loop (scan_feed s bs None) = 0) as [F4 F5]
    by (unfold scan_feed; by destruct bs).
  unfold buffer_ok. rewrite F1, F2, F3, F4, F5. unfold len in *. rewrite length_app.
  split; [lia|]. split; [done|]. exists ls. split; [done|]. split; [done|]. by apply consumed_app.
Qed.

(** The call of a client returns. *)
Lemma client_ok_returns prog a a' i c r o :
  client_ok prog a i c -> in_progress (c_at c) = [o] -> op_of r = o -> result_ok r ->
  p_mu a' <> Some i ->
  entries i (p_accepted a') = omap portion (c_results c) ++ match portion r with Some p => [p] | None => [] end ->
  (RClose ∈ c_results c ++ [r] -> a_goroutine a' = GEnded) ->
  client_ok prog a' i (returns c r).
Proof.
  intros [Ho Hr Hm Ha He Hc] Hp Hop Hok Hmu Hen Hcl. split; cbn [returns c_at c_ops c_results in_progress].
  - by rewrite Ho, Hp, fmap_app, <-app_assoc, <-Hop.
  - apply Forall_app_2; [done|by constructor].
  - split; [done|]. by intros (p & n & E).
  - done.
  - by rewrite Hen, omap_app, app_nil_r.
  - done.
Qed.

Lemma portion_write p n e : match portion (RWrite p n e) with Some q => [q] | None => [] end = current p n.
Proof. by destruct n. Qed.

Lemma closed_elem (a : adaptor) prog i c r :
  client_ok prog a i c -> r <> RClose -> RClose ∈ c_results c ++ [r] -> a_goroutine a = GEnded.
Proof.
  intros Hok Hr Hin. apply elem_of_app in Hin as [Hin|Hin]; [by apply (ck_closed _ _ _ _ Hok)|].
  apply list_elem_of_singleton in Hin. by subst.
Qed.

(** A client hands over some bytes. *)
Lemma inv_transfer progs a i c p n room s :
  inv progs a -> a_clients a !! i = Some c -> c_at c = Writing p n -> a_goroutine a = GRead room s ->
  let k := (length (drop n p) `min` Z.to_nat room)%nat in
  let bs := take k (drop n p) in
  let a1 := with_accepted (with_goroutine a (GScan (scan_feed s bs None))) (accept (p_accepted a) i n bs) in
  inv progs (if decide (n + k = length p)%nat then
          with_mu (with_client a1 i (returns c (RWrite p (n + k) None))) None
        else with_client a1 i (mkClient (Writing p (n + k)) (c_ops c) (c_results c))).
Proof.
  intros [Hc Hlen Hd Hr Hh Hg] Hi Ea Eg k bs a1.
  destruct (Hc i c Hi) as (prog0 & Hp0 & Hok0). pose proof (ck_at _ _ _ _ Hok0) as Hat. rewrite Ea in Hat.
  destruct Hat as [Hn Hlast]. pose proof Hg as Hg0. unfold goroutine_ok in Hg0. rewrite Eg in Hg0. destruct Hg0 as [Hroom _].
  assert (1 <= k /\ n + k <= length p)%nat as [Hk Hnk] by (unfold k; rewrite length_drop; lia).
  assert (take n p ++ bs = take (n + k) p) as Htake by (unfold bs; apply take_take_drop).
  assert (length bs = k) as Hbs by (unfold bs; rewrite length_take, length_drop; lia).
  destruct (accept_entries (p_accepted a) i n p bs Hlast) as (Hl1 & He1 & He2). rewrite Htake in Hl1, He1.
  set (c' := if decide (n + k = length p)%nat then returns c (RWrite p (n + k) None)
             else mkClient (Writing p (n + k)) (c_ops c) (c_results c)).
  set (mu' := if decide (n + k = length p)%nat then None else p_mu a).
  assert (match decide (n + k = length p)%nat with
    | left _ => with_mu (with_client a1 i (returns c (RWrite p (n + k) None))) None
    | right _ => with_client a1 i (mkClient (Writing p (n + k)) (c_ops c) (c_results c)) end
    = with_mu (with_client a1 i c') mu') as ->
    by (unfold c', mu'; by destruct (decide _)).
  assert (p_mu a = Some i) as Hmu by (apply (ck_mu _ _ _ _ Hok0); eauto).
  split; cbn [with_mu with_client a1 with_accepted with_goroutine a_clients a_goroutine p_done p_werr p_rerr p_accepted p_mu a_logged].
  - apply (clients_step progs a (with_mu (with_client a1 i c') mu') i c c'); [exact Hc|exact Hi|reflexivity| |].
    + intros prog Hok. pose proof (ck_entries _ _ _ _ Hok) as Hen. rewrite Ea in Hen. apply He1 in Hen.
      unfold c', mu'. destruct (decide _) as [E|E].
      * eapply client_ok_returns; [exact Hok|by rewrite Ea|done|exact E|done| |].
        -- cbn [p_accepted with_mu with_client a1 with_accepted with_goroutine]. rewrite Hen, portion_write.
           destruct (n + k)%nat; [lia|done].
        -- intros Hin. eapply closed_elem in Hin; [|exact Hok|done]. congruence.
      * destruct Hok as [Ho Hre Hm _ _ Hcl]. split; cbn [c_at c_ops c_results p_mu p_accepted a_goroutine p_werr with_mu with_client a1 with_accepted with_goroutine].
        -- by rewrite Ea in Ho.
        -- done.
        -- split; [eauto|done].
        -- split; [lia|]. intros _. exact Hl1.
        -- rewrite Hen. destruct (n + k)%nat eqn:Enk; [lia|done].
        -- intros Hin. apply Hcl in Hin. congruence.
    + intros j d prog Hj Hok. eapply client_ok_mono; [exact Hok| |done|by apply He2| |].
      * cbn [p_mu with_mu]. unfold mu'. destruct (decide _); [|done]. rewrite Hmu. split; [done|congruence].
      * rewrite Hmu. congruence.
      * congruence.
  - by rewrite length_insert.
  - done.
  - rewrite Hr, Eg. done.
  - intros j. unfold mu'. destruct (decide _); [done|]. rewrite Hmu. intros [= <-].
    rewrite list_lookup_insert_eq by (by eapply lookup_lt_Some). done.
  - eapply goroutine_ok_transfer; [exact Hg|exact Eg| | |reflexivity|done|apply accept_text].
    + rewrite Hbs. unfold k. lia.
    + intros E. rewrite E in Hbs. cbn in Hbs. lia.
Qed.

(** Steps of the goroutine. *)
Ltac by_goroutine Hinv Eg :=
  eapply inv_goroutine_step; [exact Hinv|reflexivity|reflexivity|reflexivity|reflexivity|by rewrite ?Eg| | |].

Lemma readCloseError_EOF progs a :
  inv progs a -> p_done a = true -> (forall x, a_goroutine a = x -> x <> GDone /\ x <> GEnded) ->
  readCloseError a = ErrSentinel EOF.
Proof.
  intros [_ _ Hd Hr _ _] Hdone Hg. unfold readCloseError. destruct (Hg _ eq_refl) as [H1 H2].
  assert (p_rerr a = false) as E by (rewrite Hr; by destruct (a_goroutine a)).
  rewrite E, Hdone, orb_false_r in Hd. by rewrite E, <-Hd.
Qed.

Lemma op_nonempty progs prog i c ops p :
  Forall (Forall nonempty_op) progs -> progs !! i = Some prog -> prog = ops ++ OpWrite p :: c -> p <> [].
Proof.
  intros Hall Hp ->. eapply Forall_lookup_1 in Hall; [|exact Hp]. apply Forall_app in Hall as [_ Hall].
  by apply Forall_cons in Hall as [H _].
Qed.

Section Preserved.
Context (progs : list (list op)) (nonempty : Forall (Forall nonempty_op) progs).

Lemma goroutine_preserves a a' :
  inv progs a -> goroutine_step UserLogger a = Some a' -> inv progs a'.
Proof.
  intros Hinv E. pose proof Hinv as [Hc Hlen Hd Hr Hh Hg]. unfold goroutine_step in E.
  destruct (a_goroutine a) as [s|n s|[e|]| | |] eqn:Eg; [| | | | | |done].
  - pose proof Hg as Hg0. unfold goroutine_ok in Hg0. rewrite Eg in Hg0. destruct Hg0 as (Hb & Hl & ls & Hls & Hlog & He).
    destruct (scan_next s) as [t s'|n s'|s'] eqn:En; injection E as <-.
    + by_goroutine Hinv Eg; [done|done|]. by eapply goroutine_ok_token.
    + pose proof (scan_next_spec s Hb) as Hn. rewrite En in Hn.
      destruct Hn as (Hs & Hs' & Hl' & Hdata & Hsp & Hroom & Hst & Hsize & Hmax). rewrite Hs in He.
      assert (buffer_ok s' /\ short (sc_data s')) as [Hb' Hsh] by (unfold buffer_ok, short, len in *; lia).
      destruct (p_done a) eqn:Ed; (by_goroutine Hinv Eg; [exact (inv_done _ _ Hinv)|done|]).
      * eapply goroutine_ok_end; [done|by rewrite Hl'|done|done| |by rewrite Hdata; eauto].
        by eapply readCloseError_EOF; [exact Hinv|exact Ed|rewrite Eg; intros x <-].
      * unfold goroutine_ok. cbn. rewrite Hs', Hl', Hdata. rewrite Hdata in Hsize. eauto 20.
    + by_goroutine Hinv Eg; [done|done|]. by eapply goroutine_ok_stop.
  - destruct (p_done a) eqn:Ed; [|done]. injection E as <-. pose proof Hg as Hg0. unfold goroutine_ok in Hg0. rewrite Eg in Hg0.
    destruct Hg0 as (Hn & Hs & Hsize & Hmax & Hl & He & Hsp & Hls). by_goroutine Hinv Eg; [exact (inv_done _ _ Hinv)|done|].
    eapply goroutine_ok_end; [unfold buffer_ok, len in *; lia|done|unfold short, len in *; lia|done| |exact Hls].
    by eapply readCloseError_EOF; [exact Hinv|exact Ed|rewrite Eg; intros x <-].
  - injection E as <-. by_goroutine Hinv Eg; [done|done|]. unfold goroutine_ok in *. rewrite Eg in Hg. cbn.
    destruct Hg as (ls & Hs & ->). by exists ls, (Some e).
  - injection E as <-. by_goroutine Hinv Eg; [done|done|]. unfold goroutine_ok in *. rewrite Eg in Hg. cbn.
    destruct Hg as (ls & Hs & ->). exists ls, None. by rewrite app_nil_r.
  - injection E as <-. by_goroutine Hinv Eg; [cbn; by rewrite orb_true_r|done|].
    unfold goroutine_ok in *. by rewrite Eg in Hg.
  - injection E as <-. by_goroutine Hinv Eg; [exact (inv_done _ _ Hinv)|exact Hr|]. unfold goroutine_ok in *. by rewrite Eg in Hg.
Qed.

Ltac by_client Hinv Ec :=
  eapply inv_client_step; [exact Hinv|exact Ec|reflexivity|reflexivity|reflexivity|reflexivity|reflexivity|..].

Lemma client_preserves a i a' :
  inv progs a -> client_step a i = Some a' -> inv progs a'.
Proof.
  intros Hinv E. pose proof Hinv as [Hc Hlen Hd Hr Hh Hg]. unfold client_step in E.
  destruct (a_clients a !! i) as [c|] eqn:Ec; [|done]. destruct (Hc i c Ec) as (prog & Hp & Hok).
  destruct (c_at c) as [|p|p n|] eqn:Ea.
  - destruct (c_ops c) as [|[p|] ops] eqn:Eo; [done| |].
    + destruct (p_done a) eqn:Ed; injection E as <-; (by_client Hinv Ec; [exact (inv_done _ _ Hinv)|done|done|]).
      * intros prog' [Ho Hre Hm Ha He Hcl]. rewrite Ea, Eo in *. cbn [in_progress app] in Ho.
        split; cbn [returns c_at c_ops c_results in_progress p_mu p_accepted a_goroutine with_client].
        -- by rewrite Ho, fmap_app, <-app_assoc.
        -- apply Forall_app_2; [done|]. constructor; [|done]. split; [done|].
           assert (p <> []) as Hne by (eapply op_nonempty; [exact nonempty|exact Hp|]; rewrite (ck_ops _ _ _ _ Hok), Ea, Eo; reflexivity).
           destruct p; [done|]. cbn. lia.
        -- exact Hm.
        -- done.
        -- by rewrite He, omap_app, !app_nil_r.
        -- intros Hin. apply elem_of_app in Hin as [Hin|Hin]; [auto|]. by apply list_elem_of_singleton in Hin.
      * intros prog' [Ho Hre Hm Ha He Hcl]. rewrite Ea, Eo in *. split; cbn; [done|done| |done|done|done].
        rewrite Hm. split; intros (q & m & Eq); done.
    + injection E as <-. by_client Hinv Ec; [done|done|done|].
      intros prog' [Ho Hre Hm Ha He Hcl]. rewrite Ea, Eo in *. split; cbn; [done|done| |done|done|done].
      rewrite Hm. split; intros (q & m & Eq); done.
  - destruct (p_mu a) eqn:Em; [done|]. injection E as <-. by_client Hinv Ec; [done|done|by intros j Hj; cbn; rewrite Em; split; [congruence|]|].
    intros prog' [Ho Hre Hm Ha He Hcl]. rewrite Ea in *. split; cbn; [done|done| | |done|done].
    + split; [eauto|done].
    + split; [|done].
      assert (p <> []) as Hne by (eapply op_nonempty; [exact nonempty|exact Hp|]; rewrite (ck_ops _ _ _ _ Hok), Ea; reflexivity).
      destruct p; [done|]. cbn. lia.
  - destruct (p_done a) eqn:Ed; [|done]. injection E as <-.
    assert (p_mu a = Some i) as Em by (apply (ck_mu _ _ _ _ Hok); eauto).
    by_client Hinv Ec; [exact (inv_done _ _ Hinv)|done|by intros j Hj; cbn; rewrite Em; split; [|congruence]|].
    intros prog' Hok'. eapply client_ok_returns; [exact Hok'|by rewrite Ea|done| |done| |].
    + split; [done|]. pose proof (ck_at _ _ _ _ Hok') as Hat. rewrite Ea in Hat. apply Hat.
    + cbn [p_accepted with_mu with_client]. rewrite (ck_entries _ _ _ _ Hok'), Ea, portion_write. done.
    + intros Hin. eapply closed_elem in Hin; [|exact Hok'|done]. exact Hin.
  - destruct (a_goroutine a) eqn:Eg; try done. injection E as <-. by_client Hinv Ec; [done|done|done|].
    intros prog' Hok'. eapply client_ok_returns; [exact Hok'|by rewrite Ea|done|done| | |done].
    + cbn. intros Em. apply (ck_mu _ _ _ _ Hok') in Em as (p & n & En). congruence.
    + cbn [p_accepted with_client portion]. by rewrite (ck_entries _ _ _ _ Hok'), Ea.
Qed.

Lemma inv_step a a' : inv progs a -> step UserLogger a a' -> inv progs a'.
Proof.
  intros Hinv [E|i E|i E]; [by eapply goroutine_preserves|by eapply client_preserves|].
  unfold transfer_step in E. destruct (a_clients a !! i) as [c|] eqn:Ec; [|done].
  destruct (a_goroutine a) as [|room s| | | |] eqn:Eg; try done. destruct (c_at c) as [| |p n|] eqn:Ea; try done.
  pose proof (inv_transfer progs a i c p n room s Hinv Ec Ea Eg) as Ht. cbv zeta in Ht, E.
  destruct (decide (_ = length p)) in E, Ht; by injection E as <-.
Qed.

Lemma inv_init : inv progs (NewHttpLogAdaptor progs).
Proof.
  split; cbn [NewHttpLogAdaptor a_clients a_goroutine p_done p_mu p_werr p_rerr p_accepted a_logged].
  - intros i c Hi. rewrite list_lookup_fmap in Hi. destruct (progs !! i) as [ops|] eqn:E; [|done].
    injection Hi as <-. exists ops. split; [done|]. split; cbn; try done.
    + split; [done|]. by intros (p & n & Ep).
    + by intros Hin%not_elem_of_nil.
  - by rewrite length_fmap.
  - done.
  - done.
  - done.
  - unfold goroutine_ok. cbn. split; [unfold buffer_ok, len, MaxScanTokenSize; cbn; lia|].
    split; [done|]. by exists [].
Qed.

Lemma inv_reachable a : rtc (step UserLogger) (NewHttpLogAdaptor progs) a -> inv progs a.
Proof. revert a. apply rtc_ind_r; [apply inv_init|]. intros a b _ Hs IH. by eapply inv_step. Qed.
End Preserved.

(** ** Termination *)
Definition op_weight (o : op) : nat := match o with OpWrite p => 4 * length p + 4 | OpClose => 2 end.
Definition at_weight (c : client_at) : nat :=
  match c with
  | Ready => 0
  | Locking p => 4 * length p + 3
  | Writing p n => 4 * (length p - n) + 2
  | Waiting => 1
  end.
Definition client_weight (c : client) : nat := at_weight (c_at c) + sum_list_with op_weight (c_ops c).
Definition scan_weight (g : scan_at) : nat :=
  match g with
  | GScan s => 2 * length (sc_data s) + match sc_err s with None => 6 | Some _ => 4 end
  | GRead _ s => 2 * length (sc_data s) + 5
  | GStop (Some _) => 4
  | GStop None => 3
  | GClose => 2
  | GDone => 1
  | GEnded => 0
  end.
Definition weight (a : adaptor) : nat := sum_list_with client_weight (a_clients a) + scan_weight (a_goroutine a).

Lemma weight_insert (l : list client) i c c' :
  l !! i = Some c ->
  (sum_list_with client_weight (<[i := c']> l) + client_weight c = sum_list_with client_weight l + client_weight c')%nat.
Proof.
  intros Hi. rewrite insert_take_drop by (by eapply lookup_lt_Some).
  assert (sum_list_with client_weight l = sum_list_with client_weight (take i l ++ c :: drop (S i) l)) as ->
    by (by rewrite take_drop_middle).
  rewrite !sum_list_with_app. cbn [sum_list_with]. lia.
Qed.

Section Terminates.
Context (progs : list (list op)) (nonempty : Forall (Forall nonempty_op) progs).

Lemma goroutine_decreases a a' :
  inv progs a -> goroutine_step UserLogger a = Some a' -> (weight a' < weight a)%nat.
Proof.
  intros Hinv E. pose proof (inv_goroutine _ _ Hinv) as Hg. unfold goroutine_ok in Hg.
  assert (a_clients a' = a_clients a /\ (scan_weight (a_goroutine a') < scan_weight (a_goroutine a))%nat) as [Ec Hw];
    [|unfold weight; rewrite Ec; lia].
  unfold goroutine_step in E. destruct (a_goroutine a) as [s|n s|[e|]| | |] eqn:Eg; [| | | | | |done].
  - destruct Hg as (Hb & _ & ls & _ & _ & Herr). pose proof (scan_next_spec s Hb) as Hn.
    destruct (scan_next s) as [t s'|n s'|s']; injection E as <-; (split; [done|]); cbn [a_goroutine with_goroutine].
    + destruct Hn as (l & _ & _ & He & _ & Hlt & _). cbn. rewrite He. destruct (sc_err s); lia.
    + destruct Hn as (He & He' & _ & Hd & _). destruct (p_done a); cbn [scan_weight sc_data sc_err scan_feed]; rewrite ?app_nil_r, ?Hd, ?He, ?He'; lia.
    + cbn [scan_weight]. destruct Hn as [(He & Hne & _)|(-> & He & _ & Hlen)]; unfold scanner_Err; rewrite He.
      * destruct (sc_err s) as [e|]; [|done]. destruct Herr as (-> & _). cbn. lia.
      * cbn. lia.
  - destruct (p_done a); [|done]. injection E as <-. split; [done|]. cbn [a_goroutine with_goroutine].
    cbn [scan_weight sc_data sc_err scan_feed]. rewrite app_nil_r. lia.
  - injection E as <-. split; [done|]. cbn. lia.
  - injection E as <-. split; [done|]. cbn. lia.
  - injection E as <-. split; [done|]. cbn. lia.
  - injection E as <-. split; [done|]. cbn. lia.
Qed.

(** A step of a client that leaves the goroutine alone. *)
Lemma weight_client a a' i c c' :
  a_clients a !! i = Some c -> a_clients a' = <[i := c']> (a_clients a) -> a_goroutine a' = a_goroutine a ->
  (client_weight c' < client_weight c)%nat -> (weight a' < weight a)%nat.
Proof.
  intros Hi E1 E2 Hw. unfold weight. rewrite E1, E2. pose proof (weight_insert _ _ _ c' Hi). lia.
Qed.

Lemma client_decreases a i a' : client_step a i = Some a' -> (weight a' < weight a)%nat.
Proof.
  unfold client_step. destruct (a_clients a !! i) as [c|] eqn:Ec; [|done]. intros E.
  destruct (c_at c) as [|p|p n|] eqn:Ea.
  - destruct (c_ops c) as [|[p|] ops] eqn:Eo; [done| |].
    + destruct (p_done a); injection E as <-; (eapply weight_client; [exact Ec|reflexivity|reflexivity|]);
        unfold client_weight; rewrite Ea, Eo; cbn; lia.
    + injection E as <-. eapply weight_client; [exact Ec|reflexivity|reflexivity|].
      unfold client_weight; rewrite Ea, Eo; cbn; lia.
  - destruct (p_mu a); [done|]. injection E as <-. eapply weight_client; [exact Ec|reflexivity|reflexivity|].
    unfold client_weight; rewrite Ea; cbn; lia.
  - destruct (p_done a); [|done]. injection E as <-. eapply weight_client; [exact Ec|reflexivity|reflexivity|].
    unfold client_weight; rewrite Ea; cbn; lia.
  - destruct (a_goroutine a); try done. injection E as <-. eapply weight_client; [exact Ec|reflexivity|reflexivity|].
    unfold client_weight; rewrite Ea; cbn; lia.
Qed.

Lemma transfer_decreases a i a' : inv progs a -> transfer_step a i = Some a' -> (weight a' < weight a)%nat.
Proof.
  intros Hinv. unfold transfer_step. destruct (a_clients a !! i) as [c|] eqn:Ec; [|done].
  destruct (a_goroutine a) as [|room s| | | |] eqn:Eg; try done. destruct (c_at c) as [| |p n|] eqn:Ea; try done.
  pose proof (inv_goroutine _ _ Hinv) as Hg. unfold goroutine_ok in Hg. rewrite Eg in Hg. destruct Hg as [Hroom _].
  destruct (inv_clients _ _ Hinv i c Ec) as (prog & _ & Hok). pose proof (ck_at _ _ _ _ Hok) as Hat. rewrite Ea in Hat.
  set (k := (length (drop n p) `min` Z.to_nat room)%nat).
  assert (1 <= k /\ n + k <= length p)%nat as [Hk Hnk] by (unfold k; rewrite length_drop; lia).
  assert (scan_weight (GScan (scan_feed s (take k (drop n p)) None)) <= 2 * length (sc_data s) + 2 * k + 6)%nat as Hs.
  { destruct (scan_feed_fields s (take k (drop n p)) None) as (_ & _ & F). cbn [scan_weight]. rewrite F, length_app, length_take.
    destruct (sc_err _); lia. }
  intros E. assert (exists c', a_clients a' = <[i := c']> (a_clients a) /\
    a_goroutine a' = GScan (scan_feed s (take k (drop n p)) None) /\ (client_weight c' + 4 * k <= client_weight c)%nat)
    as (c' & E1 & E2 & Hw).
  { destruct (decide (n + k = length p)%nat); injection E as <-; eexists; (split; [reflexivity|]); (split; [reflexivity|]);
      unfold client_weight; rewrite Ea; cbn; lia. }
  unfold weight. rewrite E1, E2, Eg. pose proof (weight_insert _ _ _ c' Ec). cbn [scan_weight] in *. lia.
Qed.

Lemma step_decreases a a' : inv progs a -> step UserLogger a a' -> (weight a' < weight a)%nat.
Proof.
  intros Hinv [E|i E|i E]; [by eapply goroutine_decreases|by eapply client_decreases|by eapply transfer_decreases].
Qed.

Lemma steps_bounded n a a' : inv progs a -> nsteps (step UserLogger) n a a' -> (n + weight a' <= weight a)%nat.
Proof.
  intros Hinv Hn. revert Hinv. induction Hn as [a|n a b c Hs _ IH]; intros Hinv; [lia|].
  pose proof (step_decreases _ _ Hinv Hs). specialize (IH (inv_step _ nonempty _ _ Hinv Hs)). lia.
Qed.

(** *** Progress *)
#[local] Instance client_finished_dec c : Decision (c_at c = Ready /\ c_ops c = []).
Proof. destruct (c_at c), (c_ops c); first [by left|right; intros [??]; done]. Defined.

Lemma goroutine_moves a :
  inv progs a -> a_goroutine a <> GEnded -> p_done a = true \/ (forall n s, a_goroutine a <> GRead n s) ->
  exists a', step UserLogger a a'.
Proof.
  intros Hinv Hne Hd. assert (exists a', goroutine_step UserLogger a = Some a') as [a' E]; [|exists a'; by apply step_goroutine].
  unfold goroutine_step. destruct (a_goroutine a) as [s|n s|[e|]| | |] eqn:Eg; try done; eauto.
  - destruct (scan_next s); eauto.
  - destruct Hd as [-> |Hd]; [eauto|by destruct (Hd n s)].
Qed.

(** A client that holds the lock, or the goroutine on its behalf, can go on. *)
Lemma writer_moves a i c p n :
  inv progs a -> a_clients a !! i = Some c -> c_at c = Writing p n -> exists a', step UserLogger a a'.
Proof.
  intros Hinv Ec Ea. destruct (p_done a) eqn:Ed.
  - eexists. apply (step_client _ _ _ i). unfold client_step. by rewrite Ec, Ea, Ed.
  - destruct (a_goroutine a) as [s|room s|e| | |] eqn:Eg;
      try (apply goroutine_moves; [done|by rewrite Eg|right; intros; by rewrite Eg]).
    + assert (exists a', transfer_step a i = Some a') as [a' E].
      { unfold transfer_step. rewrite Ec, Eg, Ea. cbv zeta. destruct (decide _); eauto. }
      exists a'. by apply (step_transfer _ _ _ i).
    + pose proof (inv_rerr _ _ Hinv) as Hr. pose proof (inv_done _ _ Hinv) as Hd.
      rewrite Eg in Hr. rewrite Ed, Hr, orb_true_r in Hd. done.
Qed.

Lemma progress a : inv progs a -> finished a \/ exists a', step UserLogger a a'.
Proof.
  intros Hinv. destruct (decide (Forall (fun c => c_at c = Ready /\ c_ops c = []) (a_clients a))) as [Hf|Hf]; [by left|].
  right. apply not_Forall_Exists in Hf; [|intros c; apply _]. apply Exists_exists in Hf as (c & Hin & Hc).
  apply list_elem_of_lookup in Hin as [i Hi]. destruct (inv_clients _ _ Hinv i c Hi) as (prog & _ & Hok).
  destruct (c_at c) as [|p|p n|] eqn:Ea.
  - destruct (c_ops c) as [|o ops] eqn:Eo; [by destruct Hc|].
    assert (exists a', client_step a i = Some a') as [a' E]
      by (unfold client_step; rewrite Hi, Ea, Eo; destruct o; [destruct (p_done a)|]; eauto).
    exists a'. by apply (step_client _ _ _ i).
  - destruct (p_mu a) as [j|] eqn:Em.
    + destruct (inv_holder _ _ Hinv j Em) as [d Hj]. destruct (inv_clients _ _ Hinv j d Hj) as (prog' & _ & Hok').
      destruct (proj1 (ck_mu _ _ _ _ Hok') Em) as (q & n & Eq). by eapply writer_moves.
    + eexists. apply (step_client _ _ _ i). unfold client_step. by rewrite Hi, Ea, Em.
  - by eapply writer_moves.
  - pose proof (ck_at _ _ _ _ Hok) as Hw. rewrite Ea in Hw.
    assert (p_done a = true) as Hd by (by rewrite (inv_done _ _ Hinv), Hw).
    destruct (a_goroutine a) eqn:Eg; try (apply goroutine_moves; [done|by rewrite Eg|by left]).
    eexists. apply (step_client _ _ _ i). unfold client_step. by rewrite Hi, Ea, Eg.
Qed.
End Terminates.

(** ** Properties *)

(** A program closes the adaptor. *)
Definition closes (prog : list op) : Prop := OpClose ∈ prog.

(** C35: when no write is empty, whatever the interleaving of the writers, the closers and the
    goroutine: a write without error was taken whole and a failed one returns
    io.ErrClosedPipe; the pipe has taken the bytes of every call in one piece
    and, for each client, in the order of its calls; once a Close has returned
    the goroutine has ended and what was logged are the lines of what was
    taken, one call of Info each, in order, followed by one Error exactly when
    a line of 64 KiB or more ended the scan. *)
Theorem adaptor_logs_lines progs a :
  Forall (Forall nonempty_op) progs -> rtc (step UserLogger) (NewHttpLogAdaptor progs) a ->
  (forall i c, a_clients a !! i = Some c ->
     Forall result_ok (c_results c) /\
     (c_at c = Ready -> entries i (p_accepted a) = omap portion (c_results c)) /\
     (RClose ∈ c_results c -> a_goroutine a = GEnded)) /\
  (a_goroutine a = GEnded -> exists ls e,
     scanned (text (p_accepted a)) ls e /\ a_logged a = info ls ++ error_lines e).
Proof.
  intros Hne Hr. pose proof (inv_reachable progs Hne a Hr) as Hinv. split.
  - intros i c Hi. destruct (inv_clients _ _ Hinv i c Hi) as (prog & _ & [Ho Hre Hm Ha He Hc]).
    split; [exact Hre|]. split; [|exact Hc]. intros Ea. by rewrite He, Ea, app_nil_r.
  - intros Eg. pose proof (inv_goroutine _ _ Hinv) as Hg. unfold goroutine_ok in Hg. by rewrite Eg in Hg.
Qed.

(** C36: no deadlock and no livelock, when no write is empty: as long as a call has not returned
    somebody can act, every execution is finite, with a bound known from the
    calls, and ends with every call returned; if one of them closed the
    adaptor its goroutine has ended too. *)
Theorem adaptor_finishes progs a :
  Forall (Forall nonempty_op) progs -> rtc (step UserLogger) (NewHttpLogAdaptor progs) a ->
  (finished a \/ exists a', step UserLogger a a') /\
  (forall n a', nsteps (step UserLogger) n a a' -> (n <= weight a)%nat) /\
  exists a', rtc (step UserLogger) a a' /\ finished a' /\ (Exists closes progs -> a_goroutine a' = GEnded).
Proof.
  intros Hne Hr. pose proof (inv_reachable progs Hne a Hr) as Hinv.
  split; [by eapply progress|]. split.
  - intros n a' Hn. pose proof (steps_bounded progs Hne n a a' Hinv Hn). lia.
  - clear Hr. induction a as [a IH] using (well_founded_induction (well_founded_ltof _ weight)).
    destruct (progress progs a Hinv) as [Hf|[a1 Hs]].
    + exists a. split; [reflexivity|]. split; [exact Hf|]. intros Hex.
      apply Exists_exists in Hex as (prog & Hin & Hclose). apply list_elem_of_lookup in Hin as [i Hi].
      destruct (lookup_lt_is_Some_2 (a_clients a) i) as [c Hc];
        [rewrite (inv_length _ _ Hinv); by eapply lookup_lt_Some|].
      destruct (inv_clients _ _ Hinv i c Hc) as (prog' & Hp & [Ho _ _ _ _ Hcl]). rewrite Hi in Hp. injection Hp as <-.
      eapply Forall_lookup_1 in Hf as [Ea Eo]; [|exact Hc]. rewrite Ea, Eo in Ho. cbn in Ho. rewrite app_nil_r in Ho.
      apply Hcl. unfold closes in Hclose. rewrite Ho in Hclose. apply list_elem_of_fmap in Hclose as (r & Hr & Hin).
      destruct r; [done|exact Hin].
    + destruct (IH a1) as (a' & Hs' & Hf & Hex); [by apply step_decreases with progs|by eapply inv_step|].
      exists a'. split; [by eapply rtc_l|by split].
Qed.

(** ** Witnesses *)

(** An execution: the first of the goroutine, the transfers and the clients
    that can act. *)
Fixpoint first_some {A B} (f : A -> option B) (l : list A) : option B :=
  match l with
  | [] => None
  | x :: t => match f x with Some b => Some b | None => first_some f t end
  end.

Definition next_step (a : adaptor) : option adaptor :=
  let threads := seq 0 (length (a_clients a)) in
  match goroutine_step UserLogger a with
  | Some a => Some a
  | None =>
    match first_some (transfer_step a) threads with
    | Some a => Some a
    | None => first_some (client_step a) threads
    end
  end.

Fixpoint execute (fuel : nat) (a : adaptor) : adaptor :=
  match fuel with
  | O => a
  | S fuel => match next_step a with Some a => execute fuel a | None => a end
  end.

Lemma first_some_Some {A B} (f : A -> option B) l b : first_some f l = Some b -> exists x, f x = Some b.
Proof. induction l as [|x t IH]; cbn; [done|]. destruct (f x) eqn:E; [|done]. intros [= <-]. eauto. Qed.

Lemma execute_steps fuel a : rtc (step UserLogger) a (execute fuel a).
Proof.
  revert a. induction fuel as [|fuel IH]; intros a; cbn [execute]; [done|].
  destruct (next_step a) as [a'|] eqn:E; [|done]. eapply rtc_l; [|apply IH]. unfold next_step in E.
  destruct (goroutine_step UserLogger a) as [a1|] eqn:E1; [injection E as <-; by apply step_goroutine|].
  destruct (first_some (transfer_step a) _) as [a2|] eqn:E2.
  - injection E as <-. apply first_some_Some in E2 as [i E2]. by apply step_transfer with i.
  - apply first_some_Some in E as [i E]. by apply step_client with i.
Qed.

(** Two writers, one of which closes the adaptor. *)
Definition two_writers : list (list op) :=
  [[OpWrite (of_string "hello, "); OpWrite (of_string "world" ++ [Byte.x0a]); OpClose];
   [OpWrite (of_string "x" ++ [Byte.x0a])]].

Lemma two_writers_nonempty : Forall (Forall nonempty_op) two_writers.
Proof. repeat constructor; done. Qed.

Example two_writers_ex :
  l_msg <$> a_logged (execute 100 (NewHttpLogAdaptor two_writers)) = ["hello, world"].
Proof. vm_compute. reflexivity. Qed.

Lemma adaptor_logs_lines_witness :
  let a := execute 100 (NewHttpLogAdaptor two_writers) in
  a_goroutine a = GEnded /\
  exists ls e, scanned (text (p_accepted a)) ls e /\ a_logged a = info ls ++ error_lines e.
Proof.
  cbv zeta. split; [vm_compute; reflexivity|].
  apply (adaptor_logs_lines two_writers); [apply two_writers_nonempty|apply execute_steps|vm_compute; reflexivity].
Defined.

Lemma adaptor_finishes_witness :
  finished (NewHttpLogAdaptor two_writers) \/
  exists a', step UserLogger (NewHttpLogAdaptor two_writers) a'.
Proof.
  apply (adaptor_finishes two_writers); [apply two_writers_nonempty|reflexivity].
Defined.
