(* ===== verification/Wait.v ===== *)
(** * Wait: wait.go

    [WaitForConnect] dials an address every 100 ms until a connection is
    accepted or the context has ended.  The network, the context and the clock
    are the environment; the loop has fuel, one round each. *)
From Stdlib Require Import ZArith Lia.
From stdpp Require Import base strings list.
From S2P Require Import Prelude GoStrings Errors.
Local Open Scope Z_scope.

(** [DialContext] of a [tls.Dialer] (true) or a [net.Dialer]; [conn.Close];
    [ctx.Err]; [time.Sleep]. *)
Class WaitEnv (W : Type) := {
  DialContext : W -> bool -> string -> W * option goerror;
  conn_Close : W -> W;
  ctx_Err : W -> option goerror;
  time_Sleep : W -> Z -> W
}.

(** A context with a deadline on a clock that dialling does not turn back. *)
Class WaitClock (W : Type) `{WaitEnv W} := {
  now : W -> Z;
  deadline : Z;
  dial_now : forall w tls address, now w <= now (fst (DialContext w tls address));
  sleep_now : forall w d, now w + d <= now (time_Sleep w d);
  expired : forall w, deadline <= now w -> ctx_Err w <> None
}.

(** How late the environment may be: a dial ends by the deadline, a sleep and
    a close end in time, each up to [latency]. *)
Class WaitTimely (W : Type) `{WaitClock W} := {
  latency : Z;
  dial_timely : forall w tls address, now (fst (DialContext w tls address)) <= Z.max (now w) deadline + latency;
  sleep_timely : forall w d, 0 <= d -> now (time_Sleep w d) <= now w + d + latency;
  close_timely : forall w, now (conn_Close w) <= now w + latency
}.

Definition RetryInterval : Z := 100 * 10 ^ 6.

Section Wait.
Context `{WaitEnv W}.

Fixpoint wait_loop (fuel : nat) (w : W) (tls : bool) (address : string) (errs : list string)
    : option (W * option goerror) :=
  match fuel with
  | O => None
  | S fuel =>
    let '(w, err) := DialContext w tls address in
    match err with
    | None => Some (conn_Close w, None)
    | Some err =>
      let errs := errs ++ [error_text err] in
      match ctx_Err w with
      | Some e => Some (w, Some (ErrString (Join (errs ++ [error_text e]) newline)))
      | None => wait_loop fuel (time_Sleep w RetryInterval) tls address errs
      end
    end
  end.

(** [cfg] tells whether a TLS configuration was given. *)
Definition WaitForConnect (fuel : nat) (w : W) (address : string) (cfg : bool) : option (W * option goerror) :=
  if decide (address = "") then Some (w, Some (ErrString "WaitForConnect() requires a valid address"))
  else wait_loop fuel w cfg address [].

(** ** The specification

    A run of attempts: the errors of the dials that failed, the final world,
    and the error of the context when it ended the run. *)
Inductive attempts (tls : bool) (address : string) : W -> list goerror -> W -> option goerror -> Prop :=
| connected w w1 : DialContext w tls address = (w1, None) -> attempts tls address w [] (conn_Close w1) None
| gave_up w w1 e c :
    DialContext w tls address = (w1, Some e) -> ctx_Err w1 = Some c -> attempts tls address w [e] w1 (Some c)
| again w w1 e es w2 r :
    DialContext w tls address = (w1, Some e) -> ctx_Err w1 = None ->
    attempts tls address (time_Sleep w1 RetryInterval) es w2 r -> attempts tls address w (e :: es) w2 r.

(** What the caller gets: nil, or the errors of all attempts and of the
    context, one per line. *)
Definition wait_error (es : list goerror) (r : option goerror) : option goerror :=
  match r with
  | None => None
  | Some c => Some (ErrString (Join ((error_text <$> es) ++ [error_text c]) newline))
  end.

Lemma wait_loop_attempts tls address w es w' r : attempts tls address w es w' r ->
  forall fuel errs, (length es < fuel)%nat ->
  wait_loop fuel w tls address errs =
    Some (w', match r with
              | None => None
              | Some c => Some (ErrString (Join (errs ++ (error_text <$> es) ++ [error_text c]) newline))
              end).
Proof.
  induction 1 as [w w1 Hd|w w1 e c Hd Hc|w w1 e es w2 r Hd Hc _ IH]; intros [|fuel] errs Hf; cbn in Hf; try lia;
    cbn [wait_loop]; rewrite Hd; [done|by rewrite Hc, <-app_assoc|].
  rewrite Hc, IH by lia. destruct r; [|done]. by rewrite <-app_assoc.
Qed.

Context `{!WaitClock W}.

(** A dial whose error does not end the loop ended before the deadline. *)
Lemma not_expired w : ctx_Err w = None -> now w < deadline.
Proof. intros Hc. destruct (Z.lt_ge_cases (now w) deadline) as [|Hge]; [done|by destruct (expired w Hge)]. Qed.

(** The number of rounds before the deadline. *)
Definition rounds (w : W) : nat := Z.to_nat ((deadline - now w + RetryInterval - 1) / RetryInterval).

Lemma attempts_end tls address : forall n w, (rounds w <= n)%nat ->
  exists es w' r, attempts tls address w es w' r /\ (length es <= S n)%nat.
Proof.
  induction n as [|n IH]; intros w Hn; destruct (DialContext w tls address) as [w1 [e|]] eqn:Hd;
    try (exists [], (conn_Close w1), None; split; [by econstructor|cbn; lia]);
    pose proof (dial_now w tls address) as Hnow; rewrite Hd in Hnow; cbn [fst] in Hnow;
    (destruct (ctx_Err w1) as [c|] eqn:Hc; [exists [e], w1, (Some c); split; [by econstructor|cbn; lia]|]);
    pose proof (not_expired w1 Hc) as Hlt.
  - exfalso. unfold rounds, RetryInterval in Hn.
    assert (1 <= (deadline - now w + 100 * 10 ^ 6 - 1) / (100 * 10 ^ 6)) by (apply Z.div_le_lower_bound; lia). lia.
  - destruct (IH (time_Sleep w1 RetryInterval)) as (es & w' & r & Ha & Hl).
    + pose proof (sleep_now w1 RetryInterval) as Hs. unfold rounds in *.
      assert ((deadline - now (time_Sleep w1 RetryInterval) + RetryInterval - 1) / RetryInterval
              <= (deadline - now w + RetryInterval - 1) / RetryInterval - 1) as Hle.
      { replace ((deadline - now w + RetryInterval - 1) / RetryInterval - 1)
          with ((deadline - now w + RetryInterval - 1 + -1 * RetryInterval) / RetryInterval)
          by (rewrite Z.div_add by done; lia).
        apply Z.div_le_mono; unfold RetryInterval in *; lia. }
      lia.
    + exists (e :: es), w', r. split; [by econstructor|cbn; lia].
Qed.

Context `{!WaitTimely W}.

(** The sleep does not look at the context: the last one may begin just before
    the deadline. *)
Definition latest (w : W) : Z := Z.max (now w) (deadline + RetryInterval + latency) + 2 * latency.

Lemma attempts_latest tls address w es w' r :
  0 <= latency -> attempts tls address w es w' r -> now w' <= latest w.
Proof.
  intros Hl. unfold latest, RetryInterval.
  induction 1 as [w w1 Hd|w w1 e c Hd Hc|w w1 e es w2 r Hd Hc _ IH];
    pose proof (dial_timely w tls address) as Ht; rewrite Hd in Ht; cbn [fst] in Ht.
  - pose proof (close_timely w1). lia.
  - lia.
  - apply not_expired in Hc. pose proof (sleep_timely w1 RetryInterval) as Hs. unfold RetryInterval in *. lia.
Qed.

(** C37: WaitForConnect ends: after at most one dial per 100 ms until the
    deadline of its context and one more it has either connected, closed the
    connection and returns nil, or it returns the errors of all its dials, in
    order, and the error of the context, one per line.  It may return after
    the deadline, by the 100 ms of a sleep and the latency of the environment
    at most. *)
Theorem WaitForConnect_ends w address cfg :
  address <> "" -> 0 <= latency ->
  exists es w' r, attempts cfg address w es w' r /\ (length es <= S (rounds w))%nat /\ now w' <= latest w /\
    forall fuel, (S (rounds w) < fuel)%nat -> WaitForConnect fuel w address cfg = Some (w', wait_error es r).
Proof.
  intros Ha Hl. destruct (attempts_end cfg address (rounds w) w ltac:(lia)) as (es & w' & r & Hr & Hn).
  exists es, w', r. split; [done|]. split; [done|]. split; [by eapply attempts_latest|].
  intros fuel Hf. unfold WaitForConnect.
  rewrite decide_False by done. rewrite (wait_loop_attempts _ _ _ _ _ _ Hr) by lia. by destruct r.
Qed.
End Wait.

(** ** Witnesses: a host that accepts connections after 250 ms, a context of one
    second; the world is the time in ns. *)
#[local] Instance late_host : WaitEnv Z := {|
  DialContext := fun t _ _ => (t, if t <? 250 * 10 ^ 6 then Some (ErrString "connection refused") else None);
  conn_Close := fun t => t;
  ctx_Err := fun t => if 10 ^ 9 <=? t then Some (ErrSentinel DeadlineExceeded) else None;
  time_Sleep := fun t d => t + d
|}.

#[local] Instance late_clock : WaitClock Z.
Proof.
  refine {| now := fun t => t; deadline := 10 ^ 9 |}.
  - done.
  - intros w d. cbn [time_Sleep late_host]. lia.
  - intros w Hw. cbn [ctx_Err late_host]. by replace (10 ^ 9 <=? w) with true by lia.
Defined.

#[local] Instance late_timely : WaitTimely Z.
Proof.
  refine {| latency := 0 |}.
  - intros w tls address. cbn [DialContext late_host fst now late_clock deadline]. lia.
  - intros w d Hd. cbn [time_Sleep late_host now late_clock]. lia.
  - intros w. cbn [conn_Close late_host now late_clock]. lia.
Defined.

Lemma latest_host : latest (W := Z) 0 <= 1100 * 10 ^ 6.
Proof. vm_compute. discriminate. Qed.

Lemma WaitForConnect_ends_witness :
  WaitForConnect 20 0 "localhost:9685" true = Some (300 * 10 ^ 6, None) /\
  exists es w' r, attempts true "localhost:9685" 0 es w' r /\ (length es <= 11)%nat /\ w' <= 1100 * 10 ^ 6.
Proof.
  split; [vm_compute; reflexivity|].
  destruct (WaitForConnect_ends 0 "localhost:9685" true) as (es & w' & r & Ha & Hl & Hw & _); [discriminate|reflexivity|].
  exists es, w', r. split; [exact Ha|]. vm_compute in Hl. split; [exact Hl|].
  exact (Z.le_trans _ _ _ Hw latest_host).
Defined.

(** A host that refuses every connection, a context of one second: called at
    0.95 s, WaitForConnect returns 50 ms after the deadline. *)
Definition refusing_host : WaitEnv Z := {|
  DialContext := fun t _ _ => (t, Some (ErrString "connection refused"));
  conn_Close := fun t => t;
  ctx_Err := fun t => if 10 ^ 9 <=? t then Some (ErrSentinel DeadlineExceeded) else None;
  time_Sleep := fun t d => t + d
|}.

Lemma WaitForConnect_overruns :
  exists e, @WaitForConnect Z refusing_host 20 (950 * 10 ^ 6) "localhost:9685" false = Some (1050 * 10 ^ 6, Some e).
Proof. eexists. vm_compute. reflexivity. Qed.
