(* ===== verification/Tls.v ===== *)
(** * Tls: tls.go

    [SetupTLS] with [fromFile], [selfCA], [selfCert], [discoverNetwork] and
    [discoverNetworkAddresses].  Files, the clock, random keys, certificates
    and the network are the environment: a world state threaded through the
    code.  The code is written in a monad of the world, the [TLSConfig] it
    updates and the lines its logger was given, with errors and panics. *)
From Stdlib Require Import ZArith Lia.
From stdpp Require Import base gmap strings list.
From S2P Require Import Prelude GoStrings Errors GoNet Log.
Local Open Scope Z_scope.

(** ** The environment *)

(** [x509.Certificate]: the fields the code fills in or reads. *)
Record Certificate := mkCertificate {
  SerialNumber : Z;
  Organization : list string;
  NotBefore : Z;                 (* nanoseconds *)
  NotAfter : Z;
  KeyUsage : Z;
  ExtKeyUsage : list Z;
  BasicConstraintsValid : bool;
  IsCA : bool;
  DNSNames : list string;
  IPAddresses : list IP
}.

(** [tls.Certificate]: the chain (DER) and the private key. *)
Record tls_Certificate (K : Type) := mkTLSCertificate { Chain : list bytes; PrivateKey : K }.
Arguments mkTLSCertificate {K}. Arguments Chain {K}. Arguments PrivateKey {K}.

Class TLSWorld (W K : Type) := {
  os_ReadFile : W -> string -> W * (bytes + goerror);
  time_Now : W -> W * Z;
  time_AddDate : Z -> Z -> Z -> Z -> Z;    (* in the local time zone *)
  ecdsa_GenerateKey : W -> W * (K + goerror);
  x509_CreateCertificate : W -> Certificate -> Certificate -> K -> K -> W * (bytes + goerror);
  x509_SystemCertPool : W -> W * (list bytes + goerror);
  x509_ParseCertificate : bytes -> Certificate + goerror;
  x509_MarshalECPrivateKey : K -> bytes + goerror;
  x509_PEMCerts : bytes -> list bytes;     (* the certificates AppendCertsFromPEM finds *)
  tls_X509KeyPair : bytes -> bytes -> tls_Certificate K + goerror;
  net_Interfaces : W -> W * (list Interface + goerror);
  net_Addrs : W -> Interface -> W * (list Addr + goerror);
  net_LookupAddr : W -> string -> W * list string
}.

(** [set.Default] of github.com/kapetan-io/tackle, third-party code: it
    assigns a default to a variable that has its zero value. *)
Class SetDefault := { set_Default : forall {A : Type}, (A -> bool) -> A -> A -> A }.
Class SetDefaultLaws `{SetDefault} := {
  set_Default_law : forall (A : Type) (is_zero : A -> bool) (v d : A),
    set_Default is_zero v d = if is_zero v then d else v
}.

(** ** Configurations *)

(** [tls.Config]: the fields the code touches; a pool is the list of its
    certificates. *)
Record tls_Config (K : Type) := mkTLSConfig {
  CipherSuites : list Z;
  cfg_ClientAuth : Z;
  cfg_MinVersion : Z;
  NextProtos : list string;
  RootCAs : option (list bytes);
  Certificates : list (tls_Certificate K);
  ClientCAs : option (list bytes);
  ServerName : string;
  cfg_InsecureSkipVerify : bool
}.
Arguments mkTLSConfig {K}. Arguments CipherSuites {K}. Arguments cfg_ClientAuth {K}.
Arguments cfg_MinVersion {K}. Arguments NextProtos {K}. Arguments RootCAs {K}.
Arguments Certificates {K}. Arguments ClientCAs {K}. Arguments ServerName {K}.
Arguments cfg_InsecureSkipVerify {K}.

Definition empty_config {K} : tls_Config K := mkTLSConfig [] 0 0 [] None [] None "" false.

Definition with_RootCAs {K} (c : tls_Config K) (p : list bytes) : tls_Config K :=
  mkTLSConfig (CipherSuites c) (cfg_ClientAuth c) (cfg_MinVersion c) (NextProtos c) (Some p)
    (Certificates c) (ClientCAs c) (ServerName c) (cfg_InsecureSkipVerify c).
Definition with_Certificates {K} (c : tls_Config K) (l : list (tls_Certificate K)) : tls_Config K :=
  mkTLSConfig (CipherSuites c) (cfg_ClientAuth c) (cfg_MinVersion c) (NextProtos c) (RootCAs c)
    l (ClientCAs c) (ServerName c) (cfg_InsecureSkipVerify c).
Definition with_ClientCAs {K} (c : tls_Config K) (p : list bytes) : tls_Config K :=
  mkTLSConfig (CipherSuites c) (cfg_ClientAuth c) (cfg_MinVersion c) (NextProtos c) (RootCAs c)
    (Certificates c) (Some p) (ServerName c) (cfg_InsecureSkipVerify c).
Definition with_peer {K} (c : tls_Config K) (name : string) (insecure : bool) : tls_Config K :=
  mkTLSConfig (CipherSuites c) (cfg_ClientAuth c) (cfg_MinVersion c) (NextProtos c) (RootCAs c)
    (Certificates c) (ClientCAs c) name insecure.

(** The seven PEM buffers of a [TLSConfig]; each has a field with the name of
    the file it is loaded from. *)
Inductive pem_slot := CaPEM | CaKeyPEM | KeyPEM | CertPEM | ClientAuthCaPEM | ClientAuthKeyPEM | ClientAuthCertPEM.
#[export] Instance pem_slot_eq_dec : EqDecision pem_slot.
Proof. solve_decision. Defined.

Definition slot_index (s : pem_slot) : nat :=
  match s with
  | CaPEM => 0 | CaKeyPEM => 1 | KeyPEM => 2 | CertPEM => 3
  | ClientAuthCaPEM => 4 | ClientAuthKeyPEM => 5 | ClientAuthCertPEM => 6
  end.
Definition index_slot (n : nat) : option pem_slot :=
  [CaPEM; CaKeyPEM; KeyPEM; CertPEM; ClientAuthCaPEM; ClientAuthKeyPEM; ClientAuthCertPEM] !! n.
#[export] Instance pem_slot_countable : Countable pem_slot.
Proof. refine (inj_countable slot_index index_slot _). by intros []. Defined.

(** [type TLSConfig struct] *)
Record TLSConfig (K : Type) := mkConf {
  File : pem_slot -> string;
  AutoTLS : bool;
  MinVersion : Z;
  ClientAuth : Z;
  InsecureSkipVerify : bool;
  ClientAuthServerName : string;
  PEM : gmap pem_slot bytes;     (* no entry for a nil buffer *)
  Logger : option logger;
  ServerOrgName : string;
  ServerTLS : option (tls_Config K);
  ClientTLS : option (tls_Config K)
}.
Arguments mkConf {K}. Arguments File {K}. Arguments AutoTLS {K}. Arguments MinVersion {K}.
Arguments ClientAuth {K}. Arguments InsecureSkipVerify {K}. Arguments ClientAuthServerName {K}.
Arguments PEM {K}. Arguments Logger {K}. Arguments ServerOrgName {K}. Arguments ServerTLS {K}.
Arguments ClientTLS {K}.

Definition with_PEM {K} (c : TLSConfig K) (s : pem_slot) (b : option bytes) : TLSConfig K :=
  mkConf (File c) (AutoTLS c) (MinVersion c) (ClientAuth c) (InsecureSkipVerify c) (ClientAuthServerName c)
    (partial_alter (fun _ => b) s (PEM c)) (Logger c) (ServerOrgName c) (ServerTLS c) (ClientTLS c).
Definition with_Logger {K} (c : TLSConfig K) (l : option logger) : TLSConfig K :=
  mkConf (File c) (AutoTLS c) (MinVersion c) (ClientAuth c) (InsecureSkipVerify c) (ClientAuthServerName c)
    (PEM c) l (ServerOrgName c) (ServerTLS c) (ClientTLS c).
Definition with_ServerOrgName {K} (c : TLSConfig K) (n : string) : TLSConfig K :=
  mkConf (File c) (AutoTLS c) (MinVersion c) (ClientAuth c) (InsecureSkipVerify c) (ClientAuthServerName c)
    (PEM c) (Logger c) n (ServerTLS c) (ClientTLS c).
Definition with_TLS {K} (c : TLSConfig K) (s t : option (tls_Config K)) : TLSConfig K :=
  mkConf (File c) (AutoTLS c) (MinVersion c) (ClientAuth c) (InsecureSkipVerify c) (ClientAuthServerName c)
    (PEM c) (Logger c) (ServerOrgName c) s t.

Definition VersionTLS13 : Z := 0x0304.
Definition NoClientCert : Z := 0.

(** The cipher suites of the default server configuration. *)
Definition defaultCipherSuites : list Z :=
  [0xc02b; 0xc02f; 0xc02c; 0xc030; 0xcca9; 0xcca8; 0xc023; 0xc027; 0xc009; 0xc013; 0xc00a; 0xc014;
   0x009c; 0x009d; 0x003c; 0x002f; 0x0035].

Definition min_version (v : Z) : Z := if v =? 0 then VersionTLS13 else v.

Definition default_server {K} (clientAuth minVersion : Z) : tls_Config K :=
  mkTLSConfig defaultCipherSuites clientAuth minVersion ["h2"; "http/1.1"] None [] None "" false.

(** ** The monad *)
Record state (W K : Type) := mkState {
  st_world : W;
  st_conf : TLSConfig K;
  st_log : list log_line
}.
Arguments mkState {W K}. Arguments st_world {W K}. Arguments st_conf {W K}. Arguments st_log {W K}.

Section Monad.
Context {W K : Type}.

Definition M (A : Type) : Type := state W K -> outcome (state W K * (A + goerror)).

Definition ret {A} (a : A) : M A := fun s => Ret (s, inl a).
Definition throw {A} (e : goerror) : M A := fun s => Ret (s, inr e).
Definition bind {A B} (m : M A) (k : A -> M B) : M B :=
  fun s =>
    match m s with
    | Ret (s, inl a) => k a s
    | Ret (s, inr e) => Ret (s, inr e)
    | Panic w => Panic w
    end.

Definition effect {A} (f : W -> W * A) : M A :=
  fun s => let '(w, a) := f (st_world s) in Ret (mkState w (st_conf s) (st_log s), inl a).
Definition get_conf : M (TLSConfig K) := fun s => Ret (s, inl (st_conf s)).
Definition update (f : TLSConfig K -> TLSConfig K) : M unit :=
  fun s => Ret (mkState (st_world s) (f (st_conf s)) (st_log s), inl tt).

(** [fmt.Errorf("...: %w", err)] *)
Definition while (doing : string) (e : goerror) : goerror := ErrWrap (doing +:+ ": " +:+ error_text e) e.

Definition check {A} (doing : string) (r : A + goerror) : M A :=
  match r with inl a => ret a | inr e => throw (while doing e) end.

(** The errors of a call, wrapped. *)
Definition within {A} (doing : string) (m : M A) : M A :=
  fun s => match m s with
           | Ret (s, inr e) => Ret (s, inr (while doing e))
           | o => o
           end.

Definition nil_dereference {A} : M A := fun _ => Panic "invalid memory address or nil pointer dereference".

(** A method of [conf.Logger]. *)
Definition log (l : level) (msg : string) (args : list string) : M unit :=
  fun s => match Logger (st_conf s) with
           | None => Panic "invalid memory address or nil pointer dereference"
           | Some lg =>
             Ret (mkState (st_world s) (st_conf s) (log_call lg (st_log s) (mkLine l msg args)), inl tt)
           end.

(** [buf.Bytes()] on a pointer that may be nil. *)
Definition buffer_Bytes (b : option bytes) : M bytes :=
  match b with
  | Some b => ret b
  | None => nil_dereference
  end.
End Monad.
Arguments M W K A : clear implicits.

Notation "'do!' x := m 'in' k" := (bind m (fun x => k))
  (at level 10, x pattern, m at level 100, k at level 200) : go_scope.
Notation "m ';!' k" := (bind m (fun _ => k)) (at level 60, right associativity) : go_scope.

(** ** tls.go *)
Section Setup.
Context `{TLSWorld W K, SetDefault, IPv6Text}.
Local Abbreviation M := (M W K).

Definition blockTypeEC : string := "EC PRIVATE KEY".
Definition blockTypeCert : string := "CERTIFICATE".

Definition fromFile (w : W) (name : string) : W * (option bytes + goerror) :=
  if decide (name = "") then (w, inl None)
  else
    let '(w, r) := os_ReadFile w name in
    match r with
    | inr err => (w, inr (while ("while reading file '" +:+ name +:+ "'") err))
    | inl b => (w, inl (Some b))
    end.

(** *** The network *)
Definition addr_ip (a : Addr) : IP :=
  match a with IPNet ip | IPAddr ip => ip | OtherAddr => [] end.

(** The loop over the addresses of an interface. *)
Fixpoint addrs_loop (addrs : list Addr) (results : list string) : list string :=
  match addrs with
  | [] => results
  | addr :: t =>
    let ip := addr_ip addr in
    if bool_decide (ip = []) || IsLoopback ip then addrs_loop t results
    else match To4 ip with
         | None => addrs_loop t results
         | Some ip => addrs_loop t (results ++ [IP_String ip])
         end
  end.

Fixpoint ifaces_loop (ifaces : list Interface) (w : W) (results : list string)
    : W * (list string + goerror) :=
  match ifaces with
  | [] => (w, inl results)
  | iface :: t =>
    if Z.land (if_Flags iface) FlagUp =? 0 then ifaces_loop t w results
    else if negb (Z.land (if_Flags iface) FlagLoopback =? 0) then ifaces_loop t w results
    else
      let '(w, r) := net_Addrs w iface in
      match r with
      | inr err => (w, inr err)
      | inl addrs => ifaces_loop t w (addrs_loop addrs results)
      end
  end.

Definition discoverNetworkAddresses (w : W) : W * (list string + goerror) :=
  let '(w, r) := net_Interfaces w in
  match r with
  | inr err => (w, inr err)
  | inl ifaces => ifaces_loop ifaces w []
  end.

Record netInfo := mkNetInfo { ni_IPAddresses : list string; ni_DNSNames : list string }.

Fixpoint lookup_loop (ips : list string) (w : W) (names : list string) : W * list string :=
  match ips with
  | [] => (w, names)
  | ip :: t => let '(w, records) := net_LookupAddr w ip in lookup_loop t w (names ++ records)
  end.

Definition discoverNetwork (w : W) : W * (netInfo + goerror) :=
  let '(w, r) := discoverNetworkAddresses w in
  match r with
  | inr err => (w, inr err)
  | inl ips => let '(w, names) := lookup_loop ips w [] in (w, inl (mkNetInfo ips names))
  end.

(** *** Self-signed certificates *)
Definition KeyUsageDigitalSignature : Z := 1.
Definition KeyUsageKeyEncipherment : Z := 4.
Definition KeyUsageCertSign : Z := 32.
Definition ExtKeyUsageServerAuth : Z := 1.
Definition ExtKeyUsageClientAuth : Z := 2.

Definition ca_template (org : string) (notBefore notAfter : Z) : Certificate :=
  mkCertificate 2319 [org] notBefore notAfter (Z.lor KeyUsageDigitalSignature KeyUsageCertSign)
    [ExtKeyUsageClientAuth; ExtKeyUsageServerAuth] true true [] [].

Definition selfCA : M unit :=
  do! conf := get_conf in
  do! notBefore := effect time_Now in
  do! now := effect time_Now in
  let ca := ca_template (ServerOrgName conf) notBefore (time_AddDate now 10 0 0) in
  match PEM conf !! CaPEM, PEM conf !! CaKeyPEM with
  | Some _, Some _ => ret tt
  | _, _ =>
    log Info "Generating CA Certificates...." [] ;!
    do! r := effect ecdsa_GenerateKey in
    do! privKey := check "while generating pubic/private key pair" r in
    do! r := effect (fun w => x509_CreateCertificate w ca ca privKey privKey) in
    do! b := check "while self signing CA certificate" r in
    update (fun c => with_PEM c CaPEM (Some (pem_Encode blockTypeCert b))) ;!
    do! b := check "while marshalling EC private key" (x509_MarshalECPrivateKey privKey) in
    update (fun c => with_PEM c CaKeyPEM (Some (pem_Encode blockTypeEC b)))
  end.

Definition server_template (org : string) (notBefore notAfter : Z) (names : list string) (ips : list IP)
    : Certificate :=
  mkCertificate 0xC0FFEE [org] notBefore notAfter (Z.lor KeyUsageKeyEncipherment KeyUsageDigitalSignature)
    [ExtKeyUsageClientAuth; ExtKeyUsageServerAuth] true false names ips.

Definition Hour : Z := 3600 * 10 ^ 9.

(** The addresses of the certificate: those that parse. *)
Definition cert_ips (ips : list string) : list IP := omap ParseIP ips.
Definition localhost_ip : IP := default [] (ParseIP "127.0.0.1").

Definition selfCert : M unit :=
  do! conf := get_conf in
  match PEM conf !! CertPEM, PEM conf !! KeyPEM with
  | Some _, Some _ => ret tt
  | _, _ =>
    do! r := effect discoverNetwork in
    do! network := check "while detecting ip and host names" r in
    do! now := effect time_Now in
    do! notBefore := effect time_Now in
    let names := "localhost" :: ni_DNSNames network in
    let ips := localhost_ip :: cert_ips (ni_IPAddresses network) in
    let cert := server_template (ServerOrgName conf) notBefore (now + 365 * (24 * Hour)) names ips in
    log Info "Generating Server Private Key and Certificate...."
      ["dns-names"; Join names ","; "cert-ips"; Join (IP_String <$> ips) ","] ;!
    do! r := effect ecdsa_GenerateKey in
    do! privKey := check "while generating pubic/private key pair" r in
    match PEM conf !! CaPEM, PEM conf !! CaKeyPEM with
    | None, None => throw (ErrString "unable to generate server certs without a signing CA")
    | _, _ =>
      do! caPEM := buffer_Bytes (PEM conf !! CaPEM) in
      do! caKeyPEM := buffer_Bytes (PEM conf !! CaKeyPEM) in
      do! keyPair := check "while reading generated PEMs" (tls_X509KeyPair caPEM caKeyPEM) in
      match Chain keyPair with
      | [] => throw (ErrString "no certificates found in CA PEM")
      | ca :: _ =>
        do! caCert := check "while parsing CA Cert" (x509_ParseCertificate ca) in
        do! r := effect (fun w => x509_CreateCertificate w cert caCert privKey (PrivateKey keyPair)) in
        do! signed := check "while self signing server cert" r in
        update (fun c => with_PEM c CertPEM (Some (pem_Encode "CERTIFICATE" signed))) ;!
        do! b := check "while encoding EC Marshalling" (x509_MarshalECPrivateKey privKey) in
        update (fun c => with_PEM c KeyPEM (Some (pem_Encode blockTypeEC b)))
      end
    end
  end.

(** *** SetupTLS *)

(** [conf.X, err = fromFile(conf.XFile)]: the buffer is assigned either way. *)
Definition load (slot : pem_slot) : M unit :=
  do! conf := get_conf in
  do! r := effect (fun w => fromFile w (File conf slot)) in
  match r with
  | inl b => update (fun c => with_PEM c slot b)
  | inr err => update (fun c => with_PEM c slot None) ;! throw err
  end.

(** The files in the order in which they are loaded. *)
Definition pem_slots : list pem_slot :=
  [CaPEM; CaKeyPEM; KeyPEM; CertPEM; ClientAuthCaPEM; ClientAuthKeyPEM; ClientAuthCertPEM].

Fixpoint load_all (slots : list pem_slot) : M unit :=
  match slots with
  | [] => ret tt
  | s :: t => load s ;! load_all t
  end.

Definition is_nil {A} (o : option A) : bool := match o with None => true | Some _ => false end.

(** Assignments to fields of the two configurations behind their pointers. *)
Definition update_server (f : tls_Config K -> tls_Config K) : M unit :=
  do! conf := get_conf in
  match ServerTLS conf with
  | None => nil_dereference
  | Some t => update (fun c => with_TLS c (Some (f t)) (ClientTLS c))
  end.
Definition update_client (f : tls_Config K -> tls_Config K) : M unit :=
  do! conf := get_conf in
  match ClientTLS conf with
  | None => nil_dereference
  | Some t => update (fun c => with_TLS c (ServerTLS c) (Some (f t)))
  end.

Definition set_defaults : M unit :=
  do! conf := get_conf in
  update (fun c => with_TLS c
    (set_Default is_nil (ServerTLS c) (Some (default_server (ClientAuth conf) (min_version (MinVersion conf)))))
    (ClientTLS c)) ;!
  update (fun c => with_TLS c (ServerTLS c) (set_Default is_nil (ClientTLS c) (Some empty_config))).

Definition generate : M unit :=
  do! conf := get_conf in
  if AutoTLS conf then
    log Info "AutoTLS Enabled" [] ;!
    update (fun c => with_ServerOrgName c
      (set_Default (fun s => bool_decide (s = "")) (ServerOrgName c) "Self Signed Org")) ;!
    within "while generating self signed CA certs" selfCA ;!
    within "while generating self signed server certs" selfCert
  else ret tt.

Definition use_ca : M unit :=
  do! conf := get_conf in
  match PEM conf !! CaPEM with
  | None => ret tt
  | Some pem =>
    do! r := effect x509_SystemCertPool in
    do! rootPool :=
      match r with
      | inl p => ret p
      | inr err =>
        log Warn "while loading system CA Certs; using provided pool instead" ["err"; error_text err] ;! ret []
      end in
    let rootPool := rootPool ++ x509_PEMCerts pem in
    update_server (fun c => with_RootCAs c rootPool) ;!
    update_client (fun c => with_RootCAs c rootPool)
  end.

Definition use_server_cert : M unit :=
  do! conf := get_conf in
  match PEM conf !! KeyPEM, PEM conf !! CertPEM with
  | Some key, Some cert =>
    do! serverCert := check "while parsing server certificate and private key" (tls_X509KeyPair cert key) in
    update_server (fun c => with_Certificates c [serverCert]) ;!
    update_client (fun c => with_Certificates c [serverCert])
  | _, _ => ret tt
  end.

(** The CA that authenticates clients. *)
Definition client_ca (conf : TLSConfig K) : option bytes :=
  match PEM conf !! ClientAuthCaPEM with
  | Some pem => Some pem
  | None => PEM conf !! CaPEM
  end.

Definition client_auth : M unit :=
  do! conf := get_conf in
  if ClientAuth conf =? NoClientCert then ret tt
  else
    match client_ca conf with
    | None => throw (ErrString "client auth enabled, but no CA's provided")
    | Some pem =>
      update_server (fun c => with_ClientCAs c (x509_PEMCerts pem)) ;!
      match PEM conf !! ClientAuthKeyPEM, PEM conf !! ClientAuthCertPEM with
      | Some key, Some cert =>
        do! clientCert := check "while parsing client certificate and private key" (tls_X509KeyPair cert key) in
        update_client (fun c => with_Certificates c [clientCert])
      | _, _ => ret tt
      end
    end.

(** The body, on a configuration where not both TLS configs are given. *)
Definition setup : M unit :=
  set_defaults ;!
  load_all pem_slots ;!
  update (fun c => with_Logger c (set_Default is_nil (Logger c) (Some NoOpLogger))) ;!
  generate ;!
  use_ca ;!
  use_server_cert ;!
  client_auth ;!
  do! conf := get_conf in
  update_client (fun c => with_peer c (ClientAuthServerName conf) (InsecureSkipVerify conf)).

(** The world, the configuration of the caller, the log and the error. *)
Definition SetupTLS (w : W) (conf : option (TLSConfig K))
    : outcome (W * option (TLSConfig K) * list log_line * option goerror) :=
  match conf with
  | None => Ret (w, None, [], None)
  | Some c =>
    match ServerTLS c, ClientTLS c with
    | Some _, Some _ => Ret (w, Some c, [], None)
    | _, _ =>
      let! (s, r) := setup (mkState w c []) in
      Ret (st_world s, Some (st_conf s), st_log s, match r with inl _ => None | inr e => Some e end)
    end
  end.
End Setup.
