(* ===== verification/TlsLocal.v ===== *)
(** * TlsLocal: a small host on which tls.go can be run

    An instance of [TLSWorld] in which everything is computable: two private
    keys, certificates of two bytes (the key certified, the key that signed),
    a few files, one network interface.  It shows that the hypotheses of the
    theorems on tls.go can hold together. *)
From Stdlib Require Import ZArith Lia.
From stdpp Require Import base gmap strings list.
From S2P Require Import Prelude GoStrings Errors GoNet Log Tls.
Local Open Scope Z_scope.

Definition key_byte (k : bool) : byte := if k then Byte.x01 else Byte.x00.

(** The certificates of this host. *)
Definition local_der (k signer : bool) : bytes := [key_byte k; key_byte signer].

(** Every key and signer. *)
Definition local_pairs : list (bool * bool) := [(true, true); (true, false); (false, true); (false, false)].

(** The certificates whose PEM block is [p]. *)
Definition local_PEMCerts (p : bytes) : list bytes :=
  filter (fun der => pem_Encode "CERTIFICATE" der = p) ((fun '(k, s) => local_der k s) <$> local_pairs).

Definition local_X509KeyPair (cert key : bytes) : tls_Certificate bool + goerror :=
  let matching := filter (fun '(k, s) => pem_Encode "CERTIFICATE" (local_der k s) = cert /\
    pem_Encode "EC PRIVATE KEY" [key_byte k] = key) local_pairs in
  match matching with
  | (k, s) :: _ => inl (mkTLSCertificate [local_der k s] k)
  | [] => inr (ErrString "tls: private key does not match public key")
  end.

Definition local_ReadFile (w : nat) (name : string) : nat * (bytes + goerror) :=
  (w,
   if decide (name = "ca.pem") then inl (pem_Encode "CERTIFICATE" (local_der true true))
   else if decide (name = "ca.key") then inl (pem_Encode "EC PRIVATE KEY" [key_byte true])
   else if decide (name = "server.pem") then inl (pem_Encode "CERTIFICATE" (local_der false true))
   else if decide (name = "server.key") then inl (pem_Encode "EC PRIVATE KEY" [key_byte false])
   else inr (ErrString ("open " +:+ name +:+ ": no such file or directory"))).

Definition local_interfaces : list Interface := [mkInterface "lo" 5; mkInterface "eth0" 1; mkInterface "eth1" 0].

(** 127.0.0.1 on the loopback, 10.0.0.1 and an IPv6 address on eth0. *)
Definition local_addrs (i : Interface) : list Addr :=
  if decide (if_Name i = "lo") then [IPNet (v4_prefix ++ [Byte.x7f; Byte.x00; Byte.x00; Byte.x01])]
  else [IPNet (v4_prefix ++ [Byte.x0a; Byte.x00; Byte.x00; Byte.x01]); IPNet (replicate 16 Byte.x02); OtherAddr].

#[export] Instance local_world : TLSWorld nat bool := {|
  os_ReadFile := local_ReadFile;
  time_Now := fun w => (S w, Z.of_nat w);
  time_AddDate := fun t y m d => t + ((y * 12 + m) * 30 + d) * 86400 * 10 ^ 9;
  ecdsa_GenerateKey := fun w => (S w, inl (Nat.even w));
  x509_CreateCertificate := fun w _ _ k signer => (S w, inl (local_der k signer));
  x509_SystemCertPool := fun w => (w, inr (ErrString "no system roots"));
  x509_ParseCertificate := fun _ => inl (ca_template "" 0 0);
  x509_MarshalECPrivateKey := fun k => inl [key_byte k];
  x509_PEMCerts := local_PEMCerts;
  tls_X509KeyPair := local_X509KeyPair;
  net_Interfaces := fun w => (w, inl local_interfaces);
  net_Addrs := fun w i => (w, inl (local_addrs i));
  net_LookupAddr := fun w _ => (w, ["host.local."])
|}.

#[export] Instance local_default : SetDefault := {|
  set_Default := fun A is_zero v d => if is_zero v then d else v
|}.
#[export] Instance local_default_laws : SetDefaultLaws.
Proof. by constructor. Qed.

#[export] Instance local_ipv6 : IPv6Text := {| parse_IPv6 := fun _ => None; print_IPv6 := fun _ => "::" |}.

(** A configuration: files, AutoTLS, client authentication. *)
Definition local_conf (files : pem_slot -> string) (auto : bool) (clientAuth : Z) (given : gmap pem_slot bytes)
    : TLSConfig bool :=
  mkConf files auto 0 clientAuth false "" given (Some UserLogger) "" None None.

Definition no_files : pem_slot -> string := fun _ => "".
Definition all_files : pem_slot -> string := fun slot =>
  match slot with
  | CaPEM => "ca.pem" | CaKeyPEM => "ca.key" | CertPEM => "server.pem" | KeyPEM => "server.key" | _ => ""
  end.

(** The key that signed the leaf is the key of the CA. *)
Definition local_issued (leaf ca : bytes) (_ : Certificate) : Prop := leaf !! 1%nat = ca !! 0%nat.
