(* ===== verification/TlsSpec.v ===== *)
(** * TlsSpec: the theorems on tls.go

    A weakest-precondition calculus for the monad of Tls.v; SetupTLS never
    panics; what a successful SetupTLS has configured; which fields it
    ignores; the chain that AutoTLS generates; which addresses are found. *)
From Stdlib Require Import ZArith Lia.
From stdpp Require Import base gmap strings list.
From S2P Require Import Prelude GoStrings Errors GoNet Log Tls TlsLocal.
Local Open Scope Z_scope.

(** ** Weakest preconditions *)
Section Wp.
Context {W K : Type}.
Implicit Types (s : state W K).

(** [m] returns from [s], with [Q] on a result and [E] on an error. *)
Definition wp {A} (m : M W K A) (Q : A -> state W K -> Prop) (E : goerror -> state W K -> Prop) s : Prop :=
  match m s with
  | Ret (s', inl a) => Q a s'
  | Ret (s', inr e) => E e s'
  | Panic _ => False
  end.

Lemma wp_ret {A} (a : A) Q E s : Q a s -> wp (ret a) Q E s.
Proof. done. Qed.
Lemma wp_throw {A} e (Q : A -> state W K -> Prop) E s : E e s -> wp (throw e) Q E s.
Proof. done. Qed.
Lemma wp_bind {A B} (m : M W K A) (k : A -> M W K B) Q E s :
  wp m (fun a => wp (k a) Q E) E s -> wp (bind m k) Q E s.
Proof. unfold wp, bind. by destruct (m s) as [[s' [a|e]]|]. Qed.
Lemma wp_effect {A} (f : W -> W * A) Q E s :
  (forall w a, f (st_world s) = (w, a) -> Q a (mkState w (st_conf s) (st_log s))) -> wp (effect f) Q E s.
Proof. unfold wp, effect. intros Hq. destruct (f (st_world s)) eqn:Ef. by apply Hq. Qed.
Lemma wp_get_conf Q E s : Q (st_conf s) s -> wp get_conf Q E s.
Proof. done. Qed.
Lemma wp_update f Q E s : Q tt (mkState (st_world s) (f (st_conf s)) (st_log s)) -> wp (update f) Q E s.
Proof. done. Qed.
Lemma wp_check {A} doing (r : A + goerror) Q E s :
  (forall a, r = inl a -> Q a s) -> (forall e, r = inr e -> E (while doing e) s) -> wp (check doing r) Q E s.
Proof. unfold wp, check. destruct r; [intros Hq _|intros _ He]; [by apply Hq|by apply He]. Qed.
Lemma wp_within {A} doing (m : M W K A) Q E s :
  wp m Q (fun e => E (while doing e)) s -> wp (within doing m) Q E s.
Proof. unfold wp, within. by destruct (m s) as [[s' [a|e]]|]. Qed.
Lemma wp_log l msg args Q E s :
  Logger (st_conf s) <> None ->
  (forall lg, Q tt (mkState (st_world s) (st_conf s) lg)) -> wp (log l msg args) Q E s.
Proof.
  unfold wp, log. intros Hl Hq. destruct (Logger (st_conf s)) as [[]|]; [|apply Hq|done].
  destruct s. apply Hq.
Qed.
Lemma wp_mono {A} (m : M W K A) (Q Q' : A -> state W K -> Prop) (E E' : goerror -> state W K -> Prop) s :
  wp m Q E s -> (forall a s', Q a s' -> Q' a s') -> (forall e s', E e s' -> E' e s') -> wp m Q' E' s.
Proof. unfold wp. intros Hm HQ HE. destruct (m s) as [[s' [a|e]]|]; eauto. Qed.
Lemma wp_conj {A} (m : M W K A) (Q Q' : A -> state W K -> Prop) (E E' : goerror -> state W K -> Prop) s :
  wp m Q E s -> wp m Q' E' s -> wp m (fun a s' => Q a s' /\ Q' a s') (fun e s' => E e s' /\ E' e s') s.
Proof. unfold wp. by destruct (m s) as [[s' [a|e]]|]. Qed.
End Wp.

(** One step of a proof of [wp]. *)
Ltac wp_step :=
  match goal with
  | |- wp (bind _ _) _ _ _ => apply wp_bind
  | |- wp (ret _) _ _ _ => apply wp_ret
  | |- wp (throw _) _ _ _ => apply wp_throw
  | |- wp (effect _) _ _ _ => apply wp_effect; intros ?w ?r ?Ew
  | |- wp get_conf _ _ _ => apply wp_get_conf
  | |- wp (update _) _ _ _ => apply wp_update
  | |- wp (check _ _) _ _ _ => apply wp_check; [intros ?a ?Ha|intros ?e ?He]
  | |- wp (within _ _) _ _ _ => apply wp_within
  end; cbn [st_world st_conf st_log].
Ltac wp_run := repeat (wp_step; try exact I).

(** ** The phases of SetupTLS *)
Section Phases.
Context `{TLSWorld W K, SetDefaultLaws, IPv6Text}.
Implicit Types (s : state W K) (c : TLSConfig K).

(** What the code never assigns. *)
Definition options c := (File c, AutoTLS c, MinVersion c, ClientAuth c, InsecureSkipVerify c, ClientAuthServerName c).

(** Only the buffers, the logger and the organisation may differ. *)
Definition loaded c c' : Prop :=
  options c' = options c /\ ServerTLS c' = ServerTLS c /\ ClientTLS c' = ClientTLS c /\
  (Logger c <> None -> Logger c' = Logger c).

Lemma loaded_refl c : loaded c c.
Proof. done. Qed.
Lemma loaded_trans c1 c2 c3 : loaded c1 c2 -> loaded c2 c3 -> loaded c1 c3.
Proof.
  intros (E1 & E2 & E3 & E4) (F1 & F2 & F3 & F4).
  repeat split; [congruence..|]. intros Hl. rewrite F4; [by apply E4|]. by rewrite E4.
Qed.
Lemma loaded_PEM c slot b : loaded c (with_PEM c slot b).
Proof. done. Qed.
Lemma loaded_logger c c' : loaded c c' -> Logger c <> None -> Logger c' <> None.
Proof. intros (_ & _ & _ & E) Hl. by rewrite E. Qed.

Lemma wp_load slot s Q E :
  (forall w b, fromFile (st_world s) (File (st_conf s) slot) = (w, inl b) ->
     Q tt (mkState w (with_PEM (st_conf s) slot b) (st_log s))) ->
  (forall w e, fromFile (st_world s) (File (st_conf s) slot) = (w, inr e) ->
     E e (mkState w (with_PEM (st_conf s) slot None) (st_log s))) ->
  wp (load slot) Q E s.
Proof.
  intros HQ HE. unfold load. do 4 wp_step. destruct r as [b|e].
  - wp_step. by apply HQ.
  - do 3 wp_step. by apply HE.
Qed.

Lemma fromFile_result w name w' b :
  fromFile w name = (w', inl b) -> b = None <-> name = "".
Proof.
  unfold fromFile. case_decide as Hn; [by intros [= _ <-]|].
  destruct (os_ReadFile w name) as [w1 [b1|e]]; [|done]. by intros [= _ <-].
Qed.

(** After loading, a buffer is there exactly when its file was named. *)
Lemma wp_load_all slots : forall s,
  wp (load_all slots) (fun _ s' => loaded (st_conf s) (st_conf s') /\
    ServerOrgName (st_conf s') = ServerOrgName (st_conf s) /\
    forall slot, PEM (st_conf s') !! slot = None <->
      if decide (slot ∈ slots) then File (st_conf s) slot = "" else PEM (st_conf s) !! slot = None)
    (fun _ _ => True) s.
Proof.
  induction slots as [|slot t IH]; intros s; cbn [load_all].
  { apply wp_ret. split; [done|]. split; [done|]. intros slot. case_decide as Hs; [by apply elem_of_nil in Hs|done]. }
  apply wp_bind, wp_load; [|done]. intros w b Hb. apply fromFile_result in Hb.
  eapply wp_mono; [apply IH| |done]. intros [] s' (Hl & Hg & Hp).
  split; [eapply loaded_trans; [apply loaded_PEM|exact Hl]|]. split; [exact Hg|].
  intros slot'. rewrite Hp. cbn [st_conf with_PEM File PEM].
  destruct (decide (slot' ∈ t)); [by rewrite decide_True by (by apply elem_of_cons; right)|].
  destruct (decide (slot' = slot)) as [->|Hne].
  - rewrite decide_True by (apply elem_of_cons; by left). by rewrite lookup_partial_alter_eq.
  - rewrite decide_False by (rewrite elem_of_cons; tauto). by rewrite lookup_partial_alter_ne.
Qed.

(** Two buffers are there. *)
Definition has2 c (a b : pem_slot) : Prop := is_Some (PEM c !! a) /\ is_Some (PEM c !! b).

Lemma PEM_with c slot b : PEM (with_PEM c slot (Some b)) !! slot = Some b.
Proof. cbn. by rewrite lookup_partial_alter_eq. Qed.
Lemma PEM_with_ne c slot slot' b : slot <> slot' -> PEM (with_PEM c slot b) !! slot' = PEM c !! slot'.
Proof. intros. cbn. by rewrite lookup_partial_alter_ne. Qed.

Lemma wp_selfCA s :
  Logger (st_conf s) <> None ->
  wp selfCA (fun _ s' => loaded (st_conf s) (st_conf s') /\ has2 (st_conf s') CaPEM CaKeyPEM)
    (fun _ _ => True) s.
Proof.
  intros Hl. unfold selfCA. do 6 wp_step.
  destruct (PEM (st_conf s) !! CaPEM) as [b1|] eqn:E1, (PEM (st_conf s) !! CaKeyPEM) as [b2|] eqn:E2;
    [apply wp_ret; split; [apply loaded_refl|split; eauto]|..];
    (apply wp_bind, wp_log; [done|]; intros lg; wp_run; split; [done|];
     split; [rewrite PEM_with_ne by done; rewrite PEM_with; eauto|rewrite PEM_with; eauto]).
Qed.

Lemma wp_selfCert s :
  Logger (st_conf s) <> None -> has2 (st_conf s) CaPEM CaKeyPEM ->
  wp selfCert (fun _ s' => loaded (st_conf s) (st_conf s') /\ has2 (st_conf s') CertPEM KeyPEM)
    (fun _ _ => True) s.
Proof.
  intros Hl [[ca Hca] [key Hkey]]. unfold selfCert. do 2 wp_step. rewrite Hca, Hkey.
  destruct (PEM (st_conf s) !! CertPEM) as [b1|] eqn:E1, (PEM (st_conf s) !! KeyPEM) as [b2|] eqn:E2;
    [apply wp_ret; split; [apply loaded_refl|split; eauto]|..];
    (wp_run; apply wp_log; [done|]; intros lg; wp_run; cbn [buffer_Bytes]; wp_run;
     destruct (Chain _) as [|ca_der chain]; wp_run; split; [done|];
     split; [rewrite PEM_with_ne by done; rewrite PEM_with; eauto|rewrite PEM_with; eauto]).
Qed.

Lemma wp_generate s :
  Logger (st_conf s) <> None ->
  wp generate (fun _ s' => loaded (st_conf s) (st_conf s') /\
    (AutoTLS (st_conf s) = true -> has2 (st_conf s') CertPEM KeyPEM) /\
    (AutoTLS (st_conf s) = false -> st_conf s' = st_conf s)) (fun _ _ => True) s.
Proof.
  intros Hl. unfold generate. do 2 wp_step. destruct (AutoTLS (st_conf s)) eqn:Ea; [|by apply wp_ret].
  apply wp_bind, wp_log; [done|]. intros lg. do 2 wp_step. do 2 wp_step.
  eapply wp_mono; [apply wp_selfCA; exact Hl| |done]. intros [] s1 [L1 Hh1]. cbn [st_conf] in L1.
  apply wp_within. eapply wp_mono; [apply wp_selfCert; [|exact Hh1]| |done].
  - rewrite (proj2 (proj2 (proj2 L1))); [exact Hl|exact Hl].
  - intros [] s2 [L2 Hh2]. split; [|done]. eapply loaded_trans; [|exact L2]. exact L1.
Qed.

(** A configuration in which the two TLS configs are there. *)
Definition ready c (t1 t2 : tls_Config K) : Prop :=
  ServerTLS c = Some t1 /\ ClientTLS c = Some t2 /\ Logger c <> None.

(** Only the TLS configs may differ. *)
Definition tuned c c' : Prop := options c' = options c /\ PEM c' = PEM c /\ Logger c' = Logger c.

Lemma wp_update_server f t1 t2 Q E s :
  ready (st_conf s) t1 t2 ->
  Q tt (mkState (st_world s) (with_TLS (st_conf s) (Some (f t1)) (ClientTLS (st_conf s))) (st_log s)) ->
  wp (update_server f) Q E s.
Proof. intros (E1 & _) HQ. unfold update_server. do 2 wp_step. rewrite E1. by wp_step. Qed.

Lemma wp_update_client f t1 t2 Q E s :
  ready (st_conf s) t1 t2 ->
  Q tt (mkState (st_world s) (with_TLS (st_conf s) (ServerTLS (st_conf s)) (Some (f t2))) (st_log s)) ->
  wp (update_client f) Q E s.
Proof. intros (_ & E2 & _) HQ. unfold update_client. do 2 wp_step. rewrite E2. by wp_step. Qed.

(** The key pair in two buffers. *)
Definition key_pair c (key cert : pem_slot) : option (tls_Certificate K) :=
  match PEM c !! key, PEM c !! cert with
  | Some k, Some b => match tls_X509KeyPair b k with inl kp => Some kp | inr _ => None end
  | _, _ => None
  end.

(** A CA added to the root pool, a key pair used. *)
Definition with_ca (sys : list bytes) (pem : option bytes) (t : tls_Config K) : tls_Config K :=
  match pem with Some p => with_RootCAs t (sys ++ x509_PEMCerts p) | None => t end.
Definition with_pair (kp : option (tls_Certificate K)) (t : tls_Config K) : tls_Config K :=
  match kp with Some k => with_Certificates t [k] | None => t end.

(** The pool is the system's, or an empty one, and the CA. *)
Lemma wp_use_ca t1 t2 s :
  ready (st_conf s) t1 t2 ->
  wp use_ca (fun _ s' => tuned (st_conf s) (st_conf s') /\ exists sys,
      ready (st_conf s') (with_ca sys (PEM (st_conf s) !! CaPEM) t1) (with_ca sys (PEM (st_conf s) !! CaPEM) t2))
    (fun _ _ => False) s.
Proof.
  intros Hr. unfold use_ca. do 2 wp_step.
  destruct (PEM (st_conf s) !! CaPEM) as [pem|] eqn:Ep; [|apply wp_ret; split; [done|by exists []]].
  do 3 wp_step.
  assert (forall sys w lg, wp (update_server (fun t => with_RootCAs t (sys ++ x509_PEMCerts pem)) ;!
      update_client (fun t => with_RootCAs t (sys ++ x509_PEMCerts pem)))
    (fun _ s' => tuned (st_conf s) (st_conf s') /\ exists sys, ready (st_conf s')
       (with_ca sys (Some pem) t1) (with_ca sys (Some pem) t2))
    (fun _ _ => False) (mkState w (st_conf s) lg)) as Hrest.
  { intros sys w' lg. apply wp_bind. eapply wp_update_server; [exact Hr|].
    eapply wp_update_client; [split; [reflexivity|exact (proj2 Hr)]|].
    split; [done|]. exists sys. split; [done|]. split; [done|exact (proj2 (proj2 Hr))]. }
  destruct r as [sys|err]; [by apply Hrest|].
  apply wp_bind, wp_log; [exact (proj2 (proj2 Hr))|]. intros lg. apply wp_ret, Hrest.
Qed.

Lemma wp_use_server_cert t1 t2 s :
  ready (st_conf s) t1 t2 ->
  let kp := key_pair (st_conf s) KeyPEM CertPEM in
  wp use_server_cert (fun _ s' => tuned (st_conf s) (st_conf s') /\
      (has2 (st_conf s) CertPEM KeyPEM -> is_Some kp) /\
      ready (st_conf s') (with_pair kp t1) (with_pair kp t2)) (fun _ _ => True) s.
Proof.
  intros Hr. unfold use_server_cert, key_pair, has2. do 2 wp_step.
  destruct (PEM (st_conf s) !! KeyPEM) as [key|], (PEM (st_conf s) !! CertPEM) as [cert|];
    try (apply wp_ret; split; [done|]; split; [by intros [[] []]|exact Hr]).
  do 2 wp_step; [|done]. rewrite Ha. apply wp_bind. eapply wp_update_server; [exact Hr|].
  eapply wp_update_client; [split; [reflexivity|exact (proj2 Hr)]|].
  split; [done|]. split; [eauto|]. split; [done|]. split; [done|exact (proj2 (proj2 Hr))].
Qed.

Lemma wp_client_auth t1 t2 s :
  ready (st_conf s) t1 t2 ->
  wp client_auth (fun _ s' => tuned (st_conf s) (st_conf s') /\
    if ClientAuth (st_conf s) =? NoClientCert then ready (st_conf s') t1 t2
    else exists pem, client_ca (st_conf s) = Some pem /\
      ready (st_conf s') (with_ClientCAs t1 (x509_PEMCerts pem))
        (with_pair (key_pair (st_conf s) ClientAuthKeyPEM ClientAuthCertPEM) t2)) (fun _ _ => True) s.
Proof.
  intros Hr. unfold client_auth, key_pair. do 2 wp_step.
  destruct (ClientAuth (st_conf s) =? NoClientCert); [by apply wp_ret|].
  destruct (client_ca (st_conf s)) as [pem|] eqn:Ec; [|by apply wp_throw].
  apply wp_bind. eapply wp_update_server; [exact Hr|].
  pose proof (proj2 (proj2 Hr)) as Hl. pose proof (proj1 (proj2 Hr)) as Ht.
  destruct (PEM (st_conf s) !! ClientAuthKeyPEM) as [key|], (PEM (st_conf s) !! ClientAuthCertPEM) as [cert|];
    try (apply wp_ret; split; [done|]; exists pem; by repeat split).
  do 2 wp_step; [|done]. rewrite Ha. eapply wp_update_client; [split; [reflexivity|split; [exact Ht|exact Hl]]|].
  split; [done|]. exists pem. by repeat split.
Qed.

(** The configurations before the certificates are filled in. *)
Definition base_server c : tls_Config K :=
  default (default_server (ClientAuth c) (min_version (MinVersion c))) (ServerTLS c).
Definition base_client c : tls_Config K := default empty_config (ClientTLS c).

(** The certificates of the client configuration. *)
Definition client_certificates c c' : list (tls_Certificate K) :=
  match if ClientAuth c =? NoClientCert then None else key_pair c' ClientAuthKeyPEM ClientAuthCertPEM with
  | Some kp => [kp]
  | None => match key_pair c' KeyPEM CertPEM with Some kp => [kp] | None => Certificates (base_client c) end
  end.

(** What SetupTLS has made of [c] when it succeeds. *)
Record configured c c' : Prop := mkConfigured {
  cf_options : options c' = options c;
  cf_buffers : if AutoTLS c then has2 c' CertPEM KeyPEM
    else forall slot, PEM c' !! slot = None <-> File c slot = "";
  cf_pair : has2 c' CertPEM KeyPEM -> is_Some (key_pair c' KeyPEM CertPEM);
  cf_client_ca : ClientAuth c <> NoClientCert -> is_Some (client_ca c');
  cf_configs : exists (s t : tls_Config K) (sys : list bytes), ServerTLS c' = Some s /\ ClientTLS c' = Some t /\
    cfg_MinVersion s = cfg_MinVersion (base_server c) /\ cfg_ClientAuth s = cfg_ClientAuth (base_server c) /\
    CipherSuites s = CipherSuites (base_server c) /\ NextProtos s = NextProtos (base_server c) /\
    match PEM c' !! CaPEM with
    | Some pem => RootCAs s = Some (sys ++ x509_PEMCerts pem) /\ RootCAs t = RootCAs s
    | None => RootCAs s = RootCAs (base_server c) /\ RootCAs t = RootCAs (base_client c)
    end /\
    Certificates s = match key_pair c' KeyPEM CertPEM with
                     | Some kp => [kp] | None => Certificates (base_server c) end /\
    Certificates t = client_certificates c c' /\
    ClientCAs s = (if ClientAuth c =? NoClientCert then ClientCAs (base_server c)
                   else x509_PEMCerts <$> client_ca c') /\
    ServerName t = ClientAuthServerName c /\ cfg_InsecureSkipVerify t = InsecureSkipVerify c
}.

Lemma wp_set_defaults s Q E :
  Q tt (mkState (st_world s)
    (with_TLS (st_conf s) (Some (base_server (st_conf s))) (Some (base_client (st_conf s)))) (st_log s)) ->
  wp set_defaults Q E s.
Proof.
  intros HQ. unfold set_defaults. wp_run. cbn [with_TLS ServerTLS ClientTLS]. rewrite !set_Default_law.
  unfold base_server, base_client in HQ.
  by destruct (ServerTLS (st_conf s)), (ClientTLS (st_conf s)).
Qed.

Lemma options_fields c c' :
  options c' = options c ->
  File c' = File c /\ AutoTLS c' = AutoTLS c /\ ClientAuth c' = ClientAuth c /\
  ClientAuthServerName c' = ClientAuthServerName c /\ InsecureSkipVerify c' = InsecureSkipVerify c.
Proof. unfold options. by intros [=]. Qed.

Lemma key_pair_PEM c c' a b : PEM c' = PEM c -> key_pair c' a b = key_pair c a b.
Proof. unfold key_pair. by intros ->. Qed.
Lemma client_ca_PEM c c' : PEM c' = PEM c -> client_ca c' = client_ca c.
Proof. unfold client_ca. by intros ->. Qed.
Lemma has2_PEM c c' a b : PEM c' = PEM c -> has2 c' a b <-> has2 c a b.
Proof. unfold has2. intros ->. reflexivity. Qed.

(** The last phases: the certificates of a loaded configuration are used. *)
Lemma wp_finish c s :
  options (st_conf s) = options c -> ready (st_conf s) (base_server c) (base_client c) ->
  (if AutoTLS c then has2 (st_conf s) CertPEM KeyPEM
   else forall slot, PEM (st_conf s) !! slot = None <-> File c slot = "") ->
  wp (use_ca ;! use_server_cert ;! client_auth ;!
      do! conf := get_conf in
      update_client (fun t => with_peer t (ClientAuthServerName conf) (InsecureSkipVerify conf)))
    (fun _ s' => configured c (st_conf s') /\ PEM (st_conf s') = PEM (st_conf s)) (fun _ _ => True) s.
Proof.
  intros Ho Hr Hbuf. destruct (options_fields _ _ Ho) as (_ & _ & Hca & Hname & Hins).
  apply wp_bind. eapply wp_mono; [by apply wp_use_ca| |done]. intros [] s1 ((O1 & P1 & _) & sys & R1).
  apply wp_bind. eapply wp_mono; [by apply wp_use_server_cert| |done].
  intros [] s2 ((O2 & P2 & _) & K2 & R2). rewrite (has2_PEM _ _ _ _ P1) in K2.
  rewrite (key_pair_PEM _ _ _ _ P1) in K2, R2.
  destruct (options_fields _ _ (eq_trans O2 O1)) as (_ & _ & Hca2 & _).
  apply wp_bind. eapply wp_mono; [by apply wp_client_auth| |done].
  intros [] s3 ((O3 & P3 & _) & R3). rewrite Hca2, Hca in R3.
  assert (PEM (st_conf s2) = PEM (st_conf s)) as P12 by congruence.
  rewrite (client_ca_PEM _ _ P12), (key_pair_PEM _ _ _ _ P12) in R3.
  destruct (options_fields _ _ (eq_trans O3 (eq_trans O2 O1))) as (_ & _ & _ & Hname3 & Hins3).
  set (c0 := st_conf s) in *. clearbody c0.
  do 2 wp_step. assert (PEM (st_conf s3) = PEM c0) as P13 by congruence.
  assert (exists t2, ready (st_conf s3)
    (if ClientAuth c =? NoClientCert then with_pair (key_pair c0 KeyPEM CertPEM) (with_ca sys (PEM c0 !! CaPEM) (base_server c))
     else with_ClientCAs (with_pair (key_pair c0 KeyPEM CertPEM) (with_ca sys (PEM c0 !! CaPEM) (base_server c)))
       (default [] (x509_PEMCerts <$> client_ca c0))) t2 /\
    t2 = (if ClientAuth c =? NoClientCert then id else with_pair (key_pair c0 ClientAuthKeyPEM ClientAuthCertPEM))
         (with_pair (key_pair c0 KeyPEM CertPEM) (with_ca sys (PEM c0 !! CaPEM) (base_client c))) /\
    (ClientAuth c <> NoClientCert -> is_Some (client_ca c0))) as (t2 & R & -> & Hcc).
  { destruct (ClientAuth c =? NoClientCert) eqn:E; [apply Z.eqb_eq in E; eexists; split; [exact R3|]; split; [done|by intros]|].
    destruct R3 as (pem & Ep & R3). eexists. rewrite Ep. split; [exact R3|]. split; [done|eauto]. }
  eapply wp_update_client; [exact R|]. destruct R as (ES & _ & _). cbn [st_conf].
  set (cf := with_TLS _ _ _). assert (PEM cf = PEM c0) as Pf by exact P13.
  pose proof (key_pair_PEM c0 cf KeyPEM CertPEM Pf) as Kf.
  split; [|exact Pf]. split.
  - exact (eq_trans O3 (eq_trans O2 (eq_trans O1 Ho))).
  - unfold has2 in *. by rewrite Pf.
  - rewrite Kf, (has2_PEM c0 cf _ _ Pf). exact K2.
  - rewrite (client_ca_PEM c0 cf Pf). exact Hcc.
  - unfold client_certificates. rewrite (key_pair_PEM c0 cf ClientAuthKeyPEM ClientAuthCertPEM Pf).
    rewrite Kf, (client_ca_PEM c0 cf Pf), Pf. unfold cf. cbn [with_TLS ServerTLS ClientTLS]. rewrite ES.
    do 3 eexists. split; [reflexivity|]. split; [reflexivity|]. rewrite Hname3, Hins3, Hname, Hins.
    assert ((ClientAuth c =? NoClientCert) = false -> is_Some (client_ca c0)) as Hcc'
      by (intros E; apply Hcc; by apply Z.eqb_neq in E).
    destruct (ClientAuth c =? NoClientCert), (key_pair c0 KeyPEM CertPEM), (PEM c0 !! CaPEM);
      try (destruct (Hcc' eq_refl) as [pem ->]);
      try (destruct (key_pair c0 ClientAuthKeyPEM ClientAuthCertPEM)); repeat split.
Qed.

(** The configuration when the certificates are generated. *)
Record prepared c c2 : Prop := mkPrepared {
  pr_options : options c2 = options c;
  pr_org : ServerOrgName c2 = ServerOrgName c;
  pr_ready : ready c2 (base_server c) (base_client c);
  pr_buffers : forall slot, PEM c2 !! slot = None <-> File c slot = ""
}.

(** SetupTLS, given what the generation of certificates does. *)
Lemma wp_setup_generate (P : gmap pem_slot bytes -> Prop) s :
  (forall s2, prepared (st_conf s) (st_conf s2) ->
     wp generate (fun _ s3 => P (PEM (st_conf s3))) (fun _ _ => True) s2) ->
  wp setup (fun _ s' => configured (st_conf s) (st_conf s') /\ P (PEM (st_conf s'))) (fun _ _ => True) s.
Proof.
  intros HP. set (c := st_conf s) in *. unfold setup. apply wp_bind, wp_set_defaults. fold c.
  apply wp_bind. eapply wp_mono; [apply wp_load_all| |done]. cbn [st_conf]. intros [] s1 (L1 & Org1 & Hp1).
  do 2 wp_step. rewrite set_Default_law. set (c2 := with_Logger (st_conf s1) _).
  assert (Logger c2 <> None) as Hl by (unfold c2; cbn; by destruct (Logger (st_conf s1))).
  assert (options c2 = options c) as O2 by exact (proj1 L1). destruct L1 as (_ & E1 & E2 & _).
  assert (forall slot, PEM c2 !! slot = None <-> File c slot = "") as Hbuf.
  { intros slot. cbn [c2 with_Logger PEM]. rewrite Hp1. rewrite decide_True; [done|].
    unfold pem_slots. rewrite !elem_of_cons. destruct slot; tauto. }
  apply wp_bind. eapply wp_mono; [apply wp_conj; [apply wp_generate; exact Hl|apply HP]| |done].
  { split; [exact O2|exact Org1| |exact Hbuf]. split; [exact E1|]. split; [exact E2|exact Hl]. }
  cbn [st_conf]. intros [] s3 ((L3 & Ha3 & Hn3) & HP3). destruct L3 as (O3 & F1 & F2 & F3).
  eapply wp_mono; [apply wp_finish with (c := c)| |done].
  - exact (eq_trans O3 O2).
  - split; [exact (eq_trans F1 E1)|]. split; [exact (eq_trans F2 E2)|]. by rewrite (F3 Hl).
  - destruct (options_fields _ _ O2) as (_ & Ea & _). rewrite Ea in Ha3, Hn3.
    destruct (AutoTLS c); [by apply Ha3|]. by rewrite (Hn3 eq_refl).
  - intros [] s' [Hc ->]. by split.
Qed.

Lemma wp_setup s : wp setup (fun _ s' => configured (st_conf s) (st_conf s')) (fun _ _ => True) s.
Proof.
  eapply wp_mono; [apply (wp_setup_generate (fun _ => True))| |done].
  - intros s2 Hp. eapply wp_mono; [apply wp_generate, (pr_ready _ _ Hp)|done|done].
  - by intros [] s' [Hc _].
Qed.

(** SetupTLS has something to do. *)
Definition incomplete c : Prop := ServerTLS c = None \/ ClientTLS c = None.

Lemma SetupTLS_setup w c :
  incomplete c ->
  SetupTLS w (Some c) =
    let! (s, r) := setup (mkState w c []) in
    Ret (st_world s, Some (st_conf s), st_log s, match r with inl _ => None | inr e => Some e end).
Proof. unfold SetupTLS. intros [-> | E]; [done|]. rewrite E. by destruct (ServerTLS c). Qed.

Lemma SetupTLS_complete w c :
  ~ incomplete c -> SetupTLS w (Some c) = Ret (w, Some c, [], None).
Proof.
  unfold incomplete, SetupTLS. intros Hn. destruct (ServerTLS c); [|tauto]. destruct (ClientTLS c); [done|tauto].
Qed.
End Phases.

(** ** Properties *)
Section Properties.
Context `{TLSWorld W K, SetDefaultLaws, IPv6Text}.
Implicit Types (c : TLSConfig K).

(** C32: setupTLS never panics, whatever the files, the clock, the keys and the
    network do: no nil buffer, logger or configuration is dereferenced.  A nil
    configuration, or one in which both TLS configs are given, is left alone
    without touching the world. *)
Theorem SetupTLS_safe w (conf : option (TLSConfig K)) :
  (exists w' conf' lg err, SetupTLS w conf = Ret (w', conf', lg, err)) /\
  (match conf with Some c => ~ incomplete c | None => True end -> SetupTLS w conf = Ret (w, conf, [], None)).
Proof.
  destruct conf as [c|]; [|by eauto 10]. split; [|apply SetupTLS_complete].
  destruct (ServerTLS c) as [t1|] eqn:E1, (ClientTLS c) as [t2|] eqn:E2;
    [rewrite SetupTLS_complete by (unfold incomplete; rewrite E1, E2; by intros [?|?]); by eauto 10|..];
    (rewrite SetupTLS_setup by (unfold incomplete; tauto);
     pose proof (wp_setup (mkState w c [])) as Hw; unfold wp in Hw;
     destruct (setup _) as [[s' [[]|e]]|why]; [by eauto 10|by eauto 10|done]).
Qed.

(** C31: what a successful SetupTLS has configured: the caller's options are
    kept; without AutoTLS a buffer is there exactly when its file is named,
    with AutoTLS the server's certificate and key are; the two are a key pair
    and become the certificates of both configs; the CA is added to the root
    pools of both; with client authentication there is a client CA, which is
    the server's pool of client CAs; the client's certificate, server name and
    verification are the caller's. *)
Theorem SetupTLS_configures w c w' c' lg :
  incomplete c -> SetupTLS w (Some c) = Ret (w', Some c', lg, None) -> configured c c'.
Proof.
  intros Hi. rewrite SetupTLS_setup by done. pose proof (wp_setup (mkState w c [])) as Hw. unfold wp in Hw.
  destruct (setup _) as [[s' [[]|e]]|why]; cbn [obind]; [|done..]. by intros [= <- <- <-].
Qed.
End Properties.

Lemma SetupTLS_configures_witness :
  let c := local_conf all_files false 4 ∅ in
  incomplete c /\ exists w' c' lg,
    SetupTLS 0%nat (Some c) = Ret (w', Some c', lg, None) /\ configured c c'.
Proof.
  cbv zeta. split; [by left|].
  destruct (SetupTLS 0%nat (Some (local_conf all_files false 4 ∅))) as [[[[w' [c'|]] lg] [e|]]|why] eqn:E;
    try (exfalso; vm_compute in E; discriminate E).
  do 3 eexists. split; [reflexivity|]. by eapply SetupTLS_configures; [left|exact E].
Defined.

Lemma SetupTLS_safe_witness :
  let c := local_conf no_files true 0 ∅ in
  (exists w' conf' lg err, SetupTLS 0%nat (Some c) = Ret (w', conf', lg, err)) /\
  SetupTLS 0%nat (None : option (TLSConfig bool)) = Ret (0%nat, None, [], None).
Proof.
  cbv zeta. split; [exact (proj1 (SetupTLS_safe 0%nat (Some (local_conf no_files true 0 ∅))))|].
  by apply (SetupTLS_safe 0%nat None).
Defined.
