(* ===== verification/TlsChain.v ===== *)
(** * TlsChain: the theorems on the generated certificates and the buffers

    The addresses that are found all enter the certificate; the chain that
    AutoTLS generates; the PEM buffers of the caller do not matter. *)
From Stdlib Require Import ZArith Lia.
From stdpp Require Import base gmap strings list.
From S2P Require Import Prelude GoStrings Errors GoNet Log Tls TlsLocal TlsSpec.
Local Open Scope Z_scope.

(** ** The addresses of the host *)
Section Discover.
Context `{TLSWorld W K, IPv6Text}.

(** The interfaces that are looked at: up and no loopback. *)
Definition usable (i : Interface) : bool :=
  negb (Z.land (if_Flags i) FlagUp =? 0) && (Z.land (if_Flags i) FlagLoopback =? 0).

(** The IPv4 address of an address that is used. *)
Definition usable_ip (a : Addr) : option IP :=
  if bool_decide (addr_ip a = []) || IsLoopback (addr_ip a) then None else To4 (addr_ip a).

(** The addresses of some interfaces, one call after the other. *)
Fixpoint all_addrs (ifaces : list Interface) (w : W) : W * (list Addr + goerror) :=
  match ifaces with
  | [] => (w, inl [])
  | i :: t =>
    match net_Addrs w i with
    | (w, inr e) => (w, inr e)
    | (w, inl l) => match all_addrs t w with (w, inl l') => (w, inl (l ++ l')) | r => r end
    end
  end.

Lemma addrs_loop_spec l results : addrs_loop l results = results ++ (IP_String <$> omap usable_ip l).
Proof.
  revert results. induction l as [|a l IH]; intros results; cbn [addrs_loop omap list_omap].
  - by rewrite app_nil_r.
  - unfold usable_ip at 1. destruct (_ || _); [apply IH|]. destruct (To4 (addr_ip a)) as [ip|]; [|apply IH].
    rewrite IH, <-app_assoc. done.
Qed.

Lemma ifaces_loop_spec ifaces : forall w results,
  ifaces_loop ifaces w results =
    match all_addrs (filter (fun i => usable i = true) ifaces) w with
    | (w', inl l) => (w', inl (results ++ (IP_String <$> omap usable_ip l)))
    | (w', inr e) => (w', inr e)
    end.
Proof.
  induction ifaces as [|i t IH]; intros w results; cbn [ifaces_loop].
  - cbn. by rewrite app_nil_r.
  - unfold usable in *. rewrite filter_cons.
    destruct (Z.land (if_Flags i) FlagUp =? 0); cbn [negb andb]; [rewrite decide_False by done; apply IH|].
    destruct (Z.land (if_Flags i) FlagLoopback =? 0); cbn [negb]; [|rewrite decide_False by done; apply IH].
    rewrite decide_True by done. cbn [all_addrs]. destruct (net_Addrs w i) as [w1 [l|e]]; [|done].
    rewrite IH. destruct (all_addrs _ w1) as [w2 [l'|e]]; [|done].
    rewrite addrs_loop_spec, omap_app, fmap_app. by rewrite app_assoc.
Qed.

Lemma To4_length ip ip4 : To4 ip = Some ip4 -> length ip4 = 4%nat.
Proof.
  unfold To4. case_decide as H4; [by intros [= <-]|]. case_decide as H16; [|done].
  intros [= <-]. rewrite length_drop. lia.
Qed.

Lemma To4_idem ip ip4 : To4 ip = Some ip4 -> To4 ip4 = Some ip4.
Proof. intros E. unfold To4. rewrite decide_True; [done|by eapply To4_length]. Qed.

Lemma usable_ip_spec a ip : usable_ip a = Some ip -> length ip = 4%nat /\ IsLoopback ip = false.
Proof.
  unfold usable_ip. destruct (_ || _) eqn:E; [done|]. apply orb_false_iff in E as [_ E].
  intros E4. split; [by eapply To4_length|]. unfold IsLoopback in *. rewrite (To4_idem _ _ E4).
  rewrite E4 in E. pose proof (To4_length _ _ E4) as Hlen. by destruct ip.
Qed.

Lemma cert_ips_String ips :
  Forall (fun ip => length ip = 4%nat) ips -> cert_ips (IP_String <$> ips) = app v4_prefix <$> ips.
Proof.
  induction 1 as [|ip ips Hip _ IH]; [done|]. unfold cert_ips in *. cbn [fmap list_fmap omap list_omap].
  rewrite ParseIP_String by done. by rewrite IH.
Qed.

(** C34: when the interfaces can be listed, the addresses found are exactly the IPv4 addresses, loopback excluded,
    of the interfaces that are up and no loopback, in order, in dotted
    decimal; the first failing call ends the search; and every address found
    reads back, so each of them is in the certificate. *)
Theorem discovered_addresses w w1 ifaces :
  net_Interfaces w = (w1, inl ifaces) ->
  match all_addrs (filter (fun i => usable i = true) ifaces) w1 with
  | (w2, inl l) =>
    let ips := omap usable_ip l in
    discoverNetworkAddresses w = (w2, inl (IP_String <$> ips)) /\
    Forall (fun ip => length ip = 4%nat /\ IsLoopback ip = false) ips /\
    cert_ips (IP_String <$> ips) = app v4_prefix <$> ips
  | (w2, inr e) => discoverNetworkAddresses w = (w2, inr e)
  end.
Proof.
  intros Ei. unfold discoverNetworkAddresses. rewrite Ei, ifaces_loop_spec.
  destruct (all_addrs _ w1) as [w2 [l|e]]; [|done]. cbn [app].
  assert (Forall (fun ip => length ip = 4%nat /\ IsLoopback ip = false) (omap usable_ip l)) as Hall.
  { apply Forall_forall. intros ip Hip. apply list_elem_of_omap in Hip as (a & _ & E). by apply usable_ip_spec in E. }
  split; [done|]. split; [done|]. apply cert_ips_String. eapply Forall_impl; [exact Hall|]. by intros ip [? _].
Qed.
End Discover.

(** ** The generated chain *)

(** The documented behaviour of crypto/x509 and crypto/tls on certificates just
    created; [issued leaf ca contents]: the certificate [leaf] with the given
    contents verifies against [ca]. *)
Class CertificateLaws `{TLSWorld W K} (issued : bytes -> bytes -> Certificate -> Prop) := {
  created_pem : forall w t parent k signer w' der,
    x509_CreateCertificate w t parent k signer = (w', inl der) ->
    x509_PEMCerts (pem_Encode "CERTIFICATE" der) = [der];
  created_pair : forall w t parent k signer w' der kb,
    x509_CreateCertificate w t parent k signer = (w', inl der) ->
    x509_MarshalECPrivateKey k = inl kb ->
    tls_X509KeyPair (pem_Encode "CERTIFICATE" der) (pem_Encode "EC PRIVATE KEY" kb) =
      inl (mkTLSCertificate [der] k);
  created_issued : forall w1 t1 k1 w1' ca w2 t2 p2 k2 w2' leaf,
    x509_CreateCertificate w1 t1 t1 k1 k1 = (w1', inl ca) ->
    BasicConstraintsValid t1 = true -> IsCA t1 = true -> Z.land (KeyUsage t1) KeyUsageCertSign <> 0 ->
    x509_ParseCertificate ca = inl p2 ->
    x509_CreateCertificate w2 t2 p2 k2 k1 = (w2', inl leaf) -> issued leaf ca t2
}.

Section Chain.
Context `{TLSWorld W K, SetDefaultLaws, IPv6Text}.
Implicit Types (c : TLSConfig K).

(** A certificate and its key, as PEM buffers. *)
Definition buffers_of (m : gmap pem_slot bytes) (cert key : pem_slot) (der : bytes) (k : K) : Prop :=
  m !! cert = Some (pem_Encode "CERTIFICATE" der) /\
  exists kb, x509_MarshalECPrivateKey k = inl kb /\ m !! key = Some (pem_Encode "EC PRIVATE KEY" kb).

(** The contents of a certificate that may sign others. *)
Definition signing (t : Certificate) : Prop :=
  BasicConstraintsValid t = true /\ IsCA t = true /\ Z.land (KeyUsage t) KeyUsageCertSign <> 0.

(** The certificate was created with these contents, for this key. *)
Definition created (t parent : Certificate) (k signer : K) (der : bytes) : Prop :=
  exists w w', x509_CreateCertificate w t parent k signer = (w', inl der).

Lemma wp_selfCA_generates (s : state W K) :
  Logger (st_conf s) <> None -> (PEM (st_conf s) !! CaPEM = None \/ PEM (st_conf s) !! CaKeyPEM = None) ->
  wp selfCA (fun _ s' => loaded (st_conf s) (st_conf s') /\ ServerOrgName (st_conf s') = ServerOrgName (st_conf s) /\
      (forall slot, slot <> CaPEM -> slot <> CaKeyPEM -> PEM (st_conf s') !! slot = PEM (st_conf s) !! slot) /\
      exists t der k, signing t /\ created t t k k der /\ buffers_of (PEM (st_conf s')) CaPEM CaKeyPEM der k)
    (fun _ _ => True) s.
Proof.
  intros Hl Hn. unfold selfCA. do 6 wp_step. set (ca := ca_template _ _ _).
  assert (forall A (m1 m2 : A), match PEM (st_conf s) !! CaPEM, PEM (st_conf s) !! CaKeyPEM with
    | Some _, Some _ => m1 | _, _ => m2 end = m2) as Hm
    by (intros; destruct Hn as [-> | ->]; [done|by destruct (PEM (st_conf s) !! CaPEM)]).
  rewrite Hm. clear Hm. apply wp_bind, wp_log; [done|]. intros lg. wp_run.
  split; [done|]. split; [done|]. split; [intros; by rewrite !PEM_with_ne by done|].
  subst. exists ca, a0, a. split; [done|]. split; [by do 2 eexists|].
  split; [by rewrite PEM_with_ne, PEM_with by done|]. exists a1. by rewrite PEM_with.
Qed.

Lemma wp_selfCert_generates (s : state W K) ca_der ca_key :
  Logger (st_conf s) <> None -> (PEM (st_conf s) !! CertPEM = None \/ PEM (st_conf s) !! KeyPEM = None) ->
  buffers_of (PEM (st_conf s)) CaPEM CaKeyPEM ca_der ca_key ->
  (forall kb, x509_MarshalECPrivateKey ca_key = inl kb ->
     tls_X509KeyPair (pem_Encode "CERTIFICATE" ca_der) (pem_Encode "EC PRIVATE KEY" kb) =
       inl (mkTLSCertificate [ca_der] ca_key)) ->
  wp selfCert (fun _ s' => PEM (st_conf s') !! CaPEM = PEM (st_conf s) !! CaPEM /\
      exists parent nb na network w1 w2 leaf k,
        x509_ParseCertificate ca_der = inl parent /\ discoverNetwork w1 = (w2, inl network) /\
        created (server_template (ServerOrgName (st_conf s)) nb na ("localhost" :: ni_DNSNames network)
          (localhost_ip :: cert_ips (ni_IPAddresses network))) parent k ca_key leaf /\
        buffers_of (PEM (st_conf s')) CertPEM KeyPEM leaf k)
    (fun _ _ => True) s.
Proof.
  intros Hl Hn (Hca & kb & Hkb & Hkey) Hpair. unfold selfCert. do 2 wp_step. rewrite Hca, Hkey.
  set (rest := bind (effect discoverNetwork) _).
  assert (match PEM (st_conf s) !! CertPEM, PEM (st_conf s) !! KeyPEM with
    | Some _, Some _ => ret tt | _, _ => rest end = rest) as ->
    by (destruct Hn as [-> | ->]; [done|by destruct (PEM (st_conf s) !! CertPEM)]).
  unfold rest. clear rest. wp_run. apply wp_log; [done|]. intros lg. wp_run. cbn [buffer_Bytes]. wp_run.
  all: rewrite (Hpair kb Hkb) in *; simplify_eq; cbn [Chain PrivateKey]; wp_run; subst.
  split; [by rewrite !PEM_with_ne by done|].
  do 8 eexists. split; [done|]. split; [exact Ew|]. split; [by do 2 eexists|].
  split; [by rewrite PEM_with_ne, PEM_with by done|]. eexists. split; [done|]. by rewrite PEM_with.
Qed.

(** The organisation of the generated certificates. *)
Definition organisation c : string := if decide (ServerOrgName c = "") then "Self Signed Org" else ServerOrgName c.

(** The buffers hold a CA and a server certificate that it signed, with the
    names and addresses of the host. *)
Definition chain_in (issued : bytes -> bytes -> Certificate -> Prop) c (m : gmap pem_slot bytes) : Prop :=
  exists ca leaf key nb na network w1 w2,
    let contents := server_template (organisation c) nb na ("localhost" :: ni_DNSNames network)
      (localhost_ip :: cert_ips (ni_IPAddresses network)) in
    m !! CaPEM = Some (pem_Encode "CERTIFICATE" ca) /\ x509_PEMCerts (pem_Encode "CERTIFICATE" ca) = [ca] /\
    buffers_of m CertPEM KeyPEM leaf key /\
    (forall kb, x509_MarshalECPrivateKey key = inl kb ->
       tls_X509KeyPair (pem_Encode "CERTIFICATE" leaf) (pem_Encode "EC PRIVATE KEY" kb) =
         inl (mkTLSCertificate [leaf] key)) /\
    discoverNetwork w1 = (w2, inl network) /\ issued leaf ca contents.

Lemma wp_generate_chain issued `{!CertificateLaws issued} c s :
  AutoTLS c = true -> File c CaPEM = "" \/ File c CaKeyPEM = "" -> File c CertPEM = "" \/ File c KeyPEM = "" ->
  prepared c (st_conf s) ->
  wp generate (fun _ s' => chain_in issued c (PEM (st_conf s'))) (fun _ _ => True) s.
Proof.
  intros Ha Hca Hcert [Ho Horg (_ & _ & Hl) Hbuf]. unfold generate. do 2 wp_step.
  destruct (options_fields _ _ Ho) as (_ & -> & _). rewrite Ha.
  apply wp_bind, wp_log; [done|]. intros lg. do 2 wp_step. rewrite set_Default_law, Horg.
  set (org := if bool_decide _ then _ else _).
  assert (org = organisation c) as Eorg by (unfold org, organisation; case_bool_decide; case_decide; done).
  clearbody org. subst org. do 2 wp_step.
  eapply wp_mono; [apply wp_selfCA_generates; [exact Hl|cbn [st_conf with_ServerOrgName PEM]; rewrite !Hbuf; exact Hca]| |done].
  cbn [st_conf]. intros [] s1 (L1 & Org1 & Hother & t & ca & cak & (Hs1 & Hs2 & Hs3) & (w0 & w0' & Hcreate) & Hpems).
  wp_step. eapply wp_mono; [apply wp_selfCert_generates with (ca_der := ca) (ca_key := cak)| |done].
  - by apply (loaded_logger _ _ L1).
  - rewrite !Hother by done. cbn [with_ServerOrgName PEM]. rewrite !Hbuf. exact Hcert.
  - exact Hpems.
  - intros kb. by eapply created_pair.
  - intros [] s2 (Eca & parent & nb & na & network & w1 & w2 & leaf & k & Hparse & Hdisc & (w3 & w3' & Hc2) & Hleaf).
    exists ca, leaf, k, nb, na, network, w1, w2. cbv zeta.
    rewrite Eca. split; [exact (proj1 Hpems)|]. split; [by eapply created_pem|]. split; [exact Hleaf|].
    split; [intros kb; by eapply created_pair|]. split; [exact Hdisc|].
    replace (organisation c) with (ServerOrgName (st_conf s1)) by (rewrite Org1; done).
    by eapply created_issued.
Qed.
End Chain.

(** ** The buffers of the caller *)
Section Buffers.
Context `{TLSWorld W K, SetDefaultLaws, IPv6Text}.
Implicit Types (c : TLSConfig K) (p : gmap pem_slot bytes).

(** The same configuration with other PEM buffers. *)
Definition with_PEMs c p : TLSConfig K :=
  mkConf (File c) (AutoTLS c) (MinVersion c) (ClientAuth c) (InsecureSkipVerify c) (ClientAuthServerName c)
    p (Logger c) (ServerOrgName c) (ServerTLS c) (ClientTLS c).

Lemma with_PEMs_same c : with_PEMs c (PEM c) = c.
Proof. by destruct c. Qed.

Lemma load_buffers slot w c lg p :
  match load slot (mkState w c lg), load slot (mkState w (with_PEMs c p) lg) with
  | Ret (mkState w1 c1 lg1, inl _), Ret (mkState w2 c2 lg2, inl _) =>
    w2 = w1 /\ lg2 = lg1 /\ exists b, c1 = with_PEM c slot b /\ c2 = with_PEMs c1 (partial_alter (fun _ => b) slot p)
  | Ret (mkState w1 _ lg1, inr e1), Ret (mkState w2 _ lg2, inr e2) => w2 = w1 /\ lg2 = lg1 /\ e2 = e1
  | _, _ => False
  end.
Proof.
  unfold load, bind, get_conf, effect, update, throw. cbn [st_world st_conf st_log with_PEMs File].
  destruct (fromFile w (File c slot)) as [w1 [b|e]]; cbn; eauto.
Qed.

Lemma load_all_buffers slots : forall w c lg p,
  match load_all slots (mkState w c lg), load_all slots (mkState w (with_PEMs c p) lg) with
  | Ret (mkState w1 c1 lg1, inl _), Ret (mkState w2 c2 lg2, inl _) =>
    w2 = w1 /\ lg2 = lg1 /\ exists p', c2 = with_PEMs c1 p' /\
      forall slot, p' !! slot = PEM c1 !! slot \/
        (~ (slot ∈ slots) /\ p' !! slot = p !! slot /\ PEM c1 !! slot = PEM c !! slot)
  | Ret (mkState w1 _ lg1, inr e1), Ret (mkState w2 _ lg2, inr e2) => w2 = w1 /\ lg2 = lg1 /\ e2 = e1
  | _, _ => False
  end.
Proof.
  induction slots as [|slot t IH]; intros w c lg p; cbn [load_all].
  - unfold ret. split; [done|]. split; [done|]. exists p. split; [done|]. intros slot. right.
    split; [apply not_elem_of_nil|done].
  - pose proof (load_buffers slot w c lg p) as Hl. unfold bind.
    destruct (load slot (mkState w c lg)) as [[[w1 c1 lg1] [[]|e1]]|];
      destruct (load slot (mkState w (with_PEMs c p) lg)) as [[[w2 c2 lg2] [[]|e2]]|]; try done.
    destruct Hl as (-> & -> & b & -> & ->). set (p2 := partial_alter (fun _ => b) slot p).
    specialize (IH w1 (with_PEM c slot b) lg1 p2).
    destruct (load_all t (mkState w1 (with_PEM c slot b) lg1)) as [[[w3 c3 lg3] [[]|e3]]|];
      destruct (load_all t (mkState w1 (with_PEMs (with_PEM c slot b) p2) lg1)) as [[[w4 c4 lg4] [[]|e4]]|]; try done.
    destruct IH as (-> & -> & p' & -> & Hp'). split; [done|]. split; [done|]. exists p'. split; [done|].
    intros slot'. destruct (Hp' slot') as [E|(Hn & E1 & E2)]; [by left|].
    destruct (decide (slot' = slot)) as [->|Hne].
    + left. rewrite E1, E2. unfold p2. cbn. by rewrite !lookup_partial_alter_eq.
    + right. rewrite elem_of_cons. split; [tauto|]. split.
      * rewrite E1. by apply lookup_partial_alter_ne.
      * rewrite E2. by apply PEM_with_ne.
Qed.

Lemma load_files_buffers w c lg p :
  match load_all pem_slots (mkState w c lg), load_all pem_slots (mkState w (with_PEMs c p) lg) with
  | Ret (s1, inl _), Ret (s2, inl _) => s2 = s1
  | Ret (mkState w1 _ lg1, inr e1), Ret (mkState w2 _ lg2, inr e2) => w2 = w1 /\ lg2 = lg1 /\ e2 = e1
  | _, _ => False
  end.
Proof.
  pose proof (load_all_buffers pem_slots w c lg p) as Hl.
  destruct (load_all pem_slots (mkState w c lg)) as [[[w1 c1 lg1] [[]|e1]]|];
    destruct (load_all pem_slots (mkState w (with_PEMs c p) lg)) as [[[w2 c2 lg2] [[]|e2]]|]; try done.
  destruct Hl as (-> & -> & p' & -> & Hp'). f_equal.
  replace p' with (PEM c1); [by rewrite with_PEMs_same|]. apply map_eq. intros slot.
  destruct (Hp' slot) as [E|[Hn _]]; [done|]. exfalso. apply Hn.
  unfold pem_slots. rewrite !elem_of_cons. destruct slot; tauto.
Qed.

Lemma set_defaults_run w c lg :
  (set_defaults : M W K unit) (mkState w c lg) =
    Ret (mkState w (with_TLS c (Some (base_server c)) (Some (base_client c))) lg, inl tt).
Proof.
  unfold set_defaults, bind, get_conf, update. cbn [st_world st_conf st_log with_TLS ServerTLS ClientTLS].
  rewrite !set_Default_law. unfold base_server, base_client. by destruct (ServerTLS c), (ClientTLS c).
Qed.
End Buffers.

(** ** Properties *)
Section Properties.
Context `{TLSWorld W K, SetDefaultLaws, IPv6Text}.
Implicit Types (c : TLSConfig K).

(** The PEM buffers a caller provides are never used: with any other
    buffers SetupTLS does the same to the world, logs the same and returns the
    same error, and when it succeeds the configuration is the same. *)
Theorem SetupTLS_ignores_buffers w c p :
  incomplete c ->
  exists w' c1 c2 lg err,
    SetupTLS w (Some c) = Ret (w', Some c1, lg, err) /\
    SetupTLS w (Some (with_PEMs c p)) = Ret (w', Some c2, lg, err) /\
    (err = None -> c2 = c1).
Proof.
  intros Hi. rewrite !SetupTLS_setup by done.
  pose proof (wp_setup (mkState w c [])) as Hsafe. unfold wp in Hsafe.
  unfold setup, bind in Hsafe |- *. rewrite set_defaults_run in Hsafe. rewrite !set_defaults_run.
  pose proof (load_files_buffers w (with_TLS c (Some (base_server c)) (Some (base_client c))) [] p) as Hl.
  change (with_PEMs (with_TLS c _ _) p)
    with (with_TLS (with_PEMs c p) (Some (base_server (with_PEMs c p))) (Some (base_client (with_PEMs c p)))) in Hl.
  destruct (load_all pem_slots (mkState w (with_TLS c _ _) [])) as [[[w1 c1 lg1] [[]|e1]]|];
    destruct (load_all pem_slots (mkState w (with_TLS (with_PEMs c p) _ _) [])) as [[[w2 c2 lg2] [[]|e2]]|];
    try done; cbn [obind st_world st_conf st_log].
  - injection Hl as -> -> ->. set (rest := match update _ _ with Ret _ => _ | Panic _ => _ end) in *.
    destruct rest as [[[w3 c3 lg3] r]|]; [|done]. cbn. by eauto 10.
  - destruct Hl as (-> & -> & ->). exists w1, c1, c2, lg1, (Some e1). by split; [|split].
Qed.

(** C33: the chain that AutoTLS generates when the CA or the server certificate
    is not given whole: a successful SetupTLS leaves a CA in the root pools of
    both configs and gives the server a certificate that verifies against it,
    for localhost, 127.0.0.1 and every name and address of the host, with its
    key; the client trusts the server.  A CA file given without its key is not
    used. *)
Theorem auto_tls_chain issued `{!CertificateLaws issued} w c w' c' lg :
  incomplete c -> AutoTLS c = true ->
  File c CaPEM = "" \/ File c CaKeyPEM = "" -> File c CertPEM = "" \/ File c KeyPEM = "" ->
  SetupTLS w (Some c) = Ret (w', Some c', lg, None) ->
  exists s t sys ca leaf key nb na network w1 w2,
    ServerTLS c' = Some s /\ ClientTLS c' = Some t /\
    RootCAs s = Some (sys ++ [ca]) /\ RootCAs t = Some (sys ++ [ca]) /\
    Certificates s = [mkTLSCertificate [leaf] key] /\ discoverNetwork w1 = (w2, inl network) /\
    issued leaf ca (server_template (organisation c) nb na ("localhost" :: ni_DNSNames network)
      (localhost_ip :: cert_ips (ni_IPAddresses network))).
Proof.
  intros Hi Ha Hca Hcert. rewrite SetupTLS_setup by done.
  pose proof (wp_setup_generate (chain_in issued c) (mkState w c [])
    (fun s2 Hp => wp_generate_chain issued c s2 Ha Hca Hcert Hp)) as Hw. unfold wp in Hw.
  destruct (setup _) as [[s' [[]|e]]|why]; cbn [obind]; [|done..]. intros [= <- <- <-].
  destruct Hw as [[_ _ _ _ (s & t & sys & Es & Et & _ & _ & _ & _ & Hroot & Hcerts & _)] Hchain].
  destruct Hchain as (ca & leaf & key & nb & na & network & w1 & w2 & Hm & Hpem & (Hc1 & kb & Hkb & Hc2) & Hpair & Hd & Hiss).
  exists s, t, sys, ca, leaf, key, nb, na, network, w1, w2.
  rewrite Hm, Hpem in Hroot. destruct Hroot as [Hr1 Hr2].
  split; [exact Es|]. split; [exact Et|]. split; [exact Hr1|]. split; [by rewrite Hr2|]. split.
  - rewrite Hcerts. unfold key_pair. by rewrite Hc2, Hc1, (Hpair kb Hkb).
  - by split.
Qed.
End Properties.

(** ** Witnesses *)
#[export] Instance local_laws : CertificateLaws local_issued.
Proof.
  split; cbn [x509_CreateCertificate x509_MarshalECPrivateKey x509_PEMCerts tls_X509KeyPair local_world].
  - intros w t parent [] [] w' der [= _ <-]; vm_compute; reflexivity.
  - intros w t parent [] [] w' der kb [= _ <-] [= <-]; vm_compute; reflexivity.
  - by intros w1 t1 k1 w1' ca w2 t2 p2 k2 w2' leaf [= _ <-] _ _ _ _ [= _ <-].
Qed.

Lemma discovered_addresses_witness :
  net_Interfaces 0%nat = (0%nat, inl local_interfaces) /\
  discoverNetworkAddresses 0%nat = (0%nat, inl ["10.0.0.1"]).
Proof.
  split; [reflexivity|].
  refine (eq_trans (proj1 (discovered_addresses 0%nat 0%nat local_interfaces _)) _); reflexivity.
Defined.

Lemma SetupTLS_ignores_buffers_witness :
  let c := local_conf no_files false 0 ∅ in
  let p := <[CaPEM := pem_Encode "CERTIFICATE" (local_der true true)]> ∅ in
  incomplete c /\ exists w' c1 c2 lg err,
    SetupTLS 0%nat (Some c) = Ret (w', Some c1, lg, err) /\
    SetupTLS 0%nat (Some (with_PEMs c p)) = Ret (w', Some c2, lg, err) /\ (err = None -> c2 = c1).
Proof. cbv zeta. split; [by left|]. apply SetupTLS_ignores_buffers. by left. Defined.

Lemma auto_tls_chain_witness :
  let c := local_conf no_files true 0 ∅ in
  incomplete c /\ AutoTLS c = true /\ exists w' c' s ca leaf key,
    ServerTLS c' = Some s /\ Certificates s = [mkTLSCertificate [leaf] key] /\
    SetupTLS 0%nat (Some c) = Ret (w', Some c', match SetupTLS 0%nat (Some c) with Ret (_, _, lg, _) => lg | _ => [] end, None) /\
    local_issued leaf ca (server_template "Self Signed Org" 0 0 [] []).
Proof.
  cbv zeta. split; [by left|]. split; [reflexivity|].
  destruct (SetupTLS 0%nat (Some (local_conf no_files true 0 ∅))) as [[[[w' [c'|]] lg] [e|]]|why] eqn:E;
    try (exfalso; vm_compute in E; discriminate E).
  destruct (auto_tls_chain local_issued 0%nat (local_conf no_files true 0 ∅) _ _ _ (or_introl (eq_refl None)) eq_refl (or_introl eq_refl) (or_introl eq_refl) E)
    as (s & t & sys & ca & leaf & key & nb & na & network & w1 & w2 & Es & Et & _ & _ & Hc & _ & Hi).
  exists w', c', s, ca, leaf, key. by repeat split.
Defined.
