(* ===== verification/GoTime.v ===== *)
(** * GoTime: time.ParseDuration

    The parser of durations such as ["1h15m30.5s"], in nanoseconds, with its
    overflow checks on unsigned 64-bit integers and its float64 fractions. *)
From Stdlib Require Import ZArith Lia.
From stdpp Require Import base strings list pretty.
From S2P Require Import Prelude GoStrings GoFloat.
Local Open Scope Z_scope.

Definition digit (b : byte) : Z := byte_Z b - 48.

(** [leadingInt]: the leading digits, unless they exceed 2^63. *)
Fixpoint leading_int (bs : bytes) (x : Z) : option (Z * bytes) :=
  match bs with
  | b :: t =>
    if is_digit b then
      if 2 ^ 63 / 10 <? x then None
      else
        let x := x * 10 + digit b in
        if 2 ^ 63 <? x then None else leading_int t x
    else Some (x, bs)
  | [] => Some (x, [])
  end.

(** [leadingFraction]: the digits after the point as far as they fit, their
    scale, the rest. *)
Fixpoint leading_fraction (bs : bytes) (x : Z) (scale : float64) (overflow : bool) : Z * float64 * bytes :=
  match bs with
  | b :: t =>
    if is_digit b then
      if overflow || ((2 ^ 63 - 1) / 10 <? x) then leading_fraction t x scale true
      else
        let y := x * 10 + digit b in
        if 2 ^ 63 <? y then leading_fraction t x scale true
        else leading_fraction t y (fmul scale (float_of_Z 10)) false
    else (x, scale, bs)
  | [] => (x, scale, [])
  end.

Definition is_point (b : byte) : bool := byte_Z b =? 46.

(** The unit: what comes before the next digit or point. *)
Fixpoint leading_unit (bs : bytes) : bytes * bytes :=
  match bs with
  | b :: t => if is_point b || is_digit b then ([], bs) else let '(u, rest) := leading_unit t in (b :: u, rest)
  | [] => ([], [])
  end.

Definition micro_sign : string := to_string [Byte.xc2; Byte.xb5; Byte.x73].
Definition greek_mu : string := to_string [Byte.xce; Byte.xbc; Byte.x73].

Definition unitMap (u : string) : option Z :=
  if decide (u = "ns") then Some 1
  else if decide (u = "us" \/ u = micro_sign \/ u = greek_mu) then Some (10 ^ 3)
  else if decide (u = "ms") then Some (10 ^ 6)
  else if decide (u = "s") then Some (10 ^ 9)
  else if decide (u = "m") then Some (60 * 10 ^ 9)
  else if decide (u = "h") then Some (3600 * 10 ^ 9)
  else None.

(** One number with its unit, in nanoseconds. *)
Definition parse_term (bs : bytes) : option (Z * bytes) :=
  match bs with
  | [] => None
  | b :: _ =>
    if negb (is_point b || is_digit b) then None
    else
      match leading_int bs 0 with
      | None => None
      | Some (v, rest) =>
        let pre := negb (length rest =? length bs)%nat in
        let '(f, scale, rest', post) :=
          match rest with
          | p :: t =>
            if is_point p then
              let '(f, scale, r) := leading_fraction t 0 (float_of_Z 1) false in
              (f, scale, r, negb (length r =? length t)%nat)
            else (0, float_of_Z 1, rest, false)
          | [] => (0, float_of_Z 1, rest, false)
          end in
        if negb pre && negb post then None
        else
          let '(u, rest'') := leading_unit rest' in
          match unitMap (to_string u) with
          | None => None
          | Some unit =>
            if 2 ^ 63 / unit <? v then None
            else
              let v := v * unit in
              let v := if 0 <? f
                       then v + default 0 (trunc (fmul (float_of_Z f) (fdiv (float_of_Z unit) scale))) else v in
              if 2 ^ 63 <? v then None else Some (v, rest'')
          end
      end
  end.

Fixpoint parse_terms (fuel : nat) (bs : bytes) (d : Z) : option Z :=
  match bs with
  | [] => Some d
  | _ =>
    match fuel with
    | O => None
    | S fuel =>
      match parse_term bs with
      | None => None
      | Some (v, rest) => let d := d + v in if 2 ^ 63 <? d then None else parse_terms fuel rest d
      end
    end
  end.

(** [time.ParseDuration]: nanoseconds, or an error.  Every term consumes at
    least one byte, so the length is enough fuel. *)
Definition ParseDuration (s : string) : option Z :=
  let '(neg, bs) := split_sign (of_string s) in
  if decide (bs = of_string "0") then Some 0
  else
    match bs with
    | [] => None
    | _ =>
      match parse_terms (length bs) bs 0 with
      | None => None
      | Some d => if neg then Some (- d) else if 2 ^ 63 - 1 <? d then None else Some d
      end
    end.

Example duration_ex :
  ParseDuration <$> ["10s"; "1h15m30.5s"; "1.5us"; "-2m"; ".5s"; "+5s"; "0"; "10"; ""; "s"; "1x"; "9223372036854775808ns"] =
    [Some (10 * 10 ^ 9); Some (4530 * 10 ^ 9 + 5 * 10 ^ 8); Some 1500; Some (- (120 * 10 ^ 9)); Some (5 * 10 ^ 8);
     Some (5 * 10 ^ 9); Some 0; None; None; None; None; None].
Proof. vm_compute. reflexivity. Qed.

(** ** Lemmas: reading an integer back *)
Lemma of_string_cons c s : of_string (String c s) = Ascii.byte_of_ascii c :: of_string s.
Proof. reflexivity. Qed.

Lemma pretty_N_char_digit m : (m < 10)%N ->
  is_digit (Ascii.byte_of_ascii (pretty_N_char m)) = true /\
  digit (Ascii.byte_of_ascii (pretty_N_char m)) = Z.of_N m.
Proof.
  intros Hm.
  assert (m = 0 \/ m = 1 \/ m = 2 \/ m = 3 \/ m = 4 \/ m = 5 \/ m = 6 \/ m = 7 \/ m = 8 \/ m = 9)%N as Hcase by lia.
  repeat destruct Hcase as [->|Hcase]; [..|subst]; by vm_compute.
Qed.

Lemma leading_int_pretty : forall x s,
  (0 < x)%N -> Z.of_N x <= 2 ^ 63 ->
  leading_int (of_string (pretty_N_go x s)) 0 = leading_int (of_string s) (Z.of_N x).
Proof.
  intros x. induction (N.lt_wf_0 x) as [x _ IH]. intros s Hx Hmax.
  rewrite pretty_N_go_step by done.
  assert (forall y, 0 <= y -> y * 10 + Z.of_N (x mod 10) <= 2 ^ 63 -> forall t,
    leading_int (Ascii.byte_of_ascii (pretty_N_char (x mod 10)) :: t) y =
    leading_int t (y * 10 + Z.of_N (x mod 10))) as Hstep.
  { intros y Hy Hyx t. pose proof (N.mod_lt x 10 ltac:(done)) as Hm.
    destruct (pretty_N_char_digit _ Hm) as [E1 E2].
    cbn [leading_int]. rewrite E1, E2.
    pose proof (N2Z.is_nonneg (x mod 10)) as Hm0. clear E1 E2 Hm. revert Hm0 Hyx.
    generalize (Z.of_N (x mod 10)). intros m Hm0 Hyx.
    replace (2 ^ 63 / 10 <? y) with false
      by (symmetry; apply Z.ltb_ge; apply Z.div_le_lower_bound; lia).
    cbv zeta. by replace (2 ^ 63 <? y * 10 + m) with false by lia. }
  assert (Z.of_N x = Z.of_N (x / 10) * 10 + Z.of_N (x mod 10)) as Hdm.
  { pose proof (N.div_mod x 10 ltac:(done)) as E. rewrite E at 1. rewrite N2Z.inj_add, N2Z.inj_mul. lia. }
  assert (Z.of_N (x / 10) * 10 + Z.of_N (x mod 10) <= 2 ^ 63) as Hmax' by (by rewrite <-Hdm).
  pose proof (N2Z.is_nonneg (x / 10)) as Hq. pose proof (N2Z.is_nonneg (x mod 10)) as Hm.
  destruct (decide (x / 10 = 0)%N) as [E|E].
  - rewrite E in Hdm, Hmax' |- *. rewrite pretty_N_go_0, of_string_cons, Hstep by done. by rewrite Hdm.
  - rewrite IH.
    + rewrite of_string_cons, Hstep by done. by rewrite Hdm.
    + by apply N.div_lt.
    + by apply N.neq_0_lt_0.
    + revert Hmax' Hq Hm. generalize (Z.of_N (x / 10)) (Z.of_N (x mod 10)). lia.
Qed.

Lemma pretty_N_go_app : forall x s t, pretty_N_go x (s +:+ t) = pretty_N_go x s +:+ t.
Proof.
  intros x. induction (N.lt_wf_0 x) as [x _ IH]. intros s t. destruct (decide (x = 0%N)) as [->|Hx].
  - by rewrite !pretty_N_go_0.
  - rewrite !(pretty_N_go_step x) by lia. rewrite <-IH by (apply N.div_lt; lia). done.
Qed.

Lemma Itoa_go n : 0 < n -> forall s, Itoa n +:+ s = pretty_N_go (Z.to_N n) s.
Proof.
  intros Hn s. destruct n as [|p|p]; [lia| |lia]. cbn [Z.to_N].
  change (Itoa (Z.pos p)) with (if decide (N.pos p = 0%N) then "0" else pretty_N_go (N.pos p) "").
  rewrite decide_False by done. by rewrite <-pretty_N_go_app.
Qed.

Lemma leading_int_Itoa n s :
  0 < n <= 2 ^ 63 -> leading_int (of_string (Itoa n +:+ s)) 0 = leading_int (of_string s) n.
Proof.
  intros Hn. rewrite Itoa_go by lia. rewrite leading_int_pretty by lia. by rewrite Z2N.id by lia.
Qed.

(** A printed number is at least one digit, in front of what follows. *)
Lemma pretty_digits : forall x s, (0 < x)%N ->
  exists b t, of_string (pretty_N_go x s) = b :: t ++ of_string s /\ is_digit b = true.
Proof.
  intros x. induction (N.lt_wf_0 x) as [x _ IH]. intros s Hx. rewrite pretty_N_go_step by done.
  destruct (decide (x / 10 = 0)%N) as [E|E].
  - rewrite E, pretty_N_go_0, of_string_cons. exists (Ascii.byte_of_ascii (pretty_N_char (x mod 10))), [].
    split; [done|]. apply pretty_N_char_digit. by apply N.mod_lt.
  - destruct (IH (x / 10)%N ltac:(by apply N.div_lt) (String (pretty_N_char (x mod 10)) s) ltac:(by apply N.neq_0_lt_0))
      as (b & t & -> & Hb).
    exists b, (t ++ [Ascii.byte_of_ascii (pretty_N_char (x mod 10))]). split; [|done].
    by rewrite of_string_cons, <-app_assoc.
Qed.

Lemma Itoa_digits n s : 0 <= n ->
  exists b t, of_string (Itoa n +:+ s) = b :: t ++ of_string s /\ is_digit b = true.
Proof.
  intros Hn. destruct (decide (n = 0)) as [->|Hne]; [by exists Byte.x30, []|].
  rewrite Itoa_go by lia. apply pretty_digits. lia.
Qed.

(** Too many digits. *)
Lemma leading_int_big : forall x s,
  2 ^ 63 < Z.of_N x -> leading_int (of_string (pretty_N_go x s)) 0 = None.
Proof.
  intros x. induction (N.lt_wf_0 x) as [x _ IH]. intros s Hmax.
  rewrite pretty_N_go_step by lia. set (c := pretty_N_char (x mod 10)%N).
  assert (Z.of_N x < (Z.of_N (x / 10) + 1) * 10) as Hdm.
  { pose proof (N.div_mod x 10 ltac:(done)) as E. pose proof (N.mod_lt x 10 ltac:(done)). lia. }
  destruct (Z.lt_ge_cases (2 ^ 63) (Z.of_N (x / 10))) as [Hq|Hq]; [apply IH; [apply N.div_lt; lia|done]|].
  assert (0 < x / 10)%N as Hpos by lia.
  rewrite leading_int_pretty by done. rewrite of_string_cons. cbn [leading_int].
  destruct (pretty_N_char_digit (x mod 10)) as [E1 E2]; [by apply N.mod_lt|]. unfold c. rewrite E1, E2.
  destruct (2 ^ 63 / 10 <? Z.of_N (x / 10)); [done|].
  assert (Z.of_N (x / 10) * 10 + Z.of_N (x mod 10) = Z.of_N x) as ->
    by (pose proof (N.div_mod x 10 ltac:(done)) as E; rewrite E at 3; rewrite N2Z.inj_add, N2Z.inj_mul; lia).
  cbv zeta. by replace (2 ^ 63 <? Z.of_N x) with true by lia.
Qed.

(** A term of whole seconds. *)
Lemma parse_term_seconds b t n :
  is_digit b = true -> leading_int (b :: t ++ [Byte.x73]) 0 = (if n <=? 2 ^ 63 then Some (n, [Byte.x73]) else None) ->
  parse_term (b :: t ++ [Byte.x73]) = if n <=? 9223372036 then Some (n * 10 ^ 9, []) else None.
Proof.
  intros Hb Hint. unfold parse_term. rewrite Hb, orb_true_r, Hint. cbn [negb].
  destruct (n <=? 2 ^ 63) eqn:Eq; [|by replace (n <=? 9223372036) with false by lia].
  replace (length [Byte.x73] =? length (b :: t ++ [Byte.x73]))%nat with false
    by (symmetry; apply Nat.eqb_neq; cbn; rewrite length_app; cbn; lia).
  cbn iota zeta. change (is_point Byte.x73) with false. cbn iota zeta. cbn [negb andb].
  change (leading_unit [Byte.x73]) with ([Byte.x73], @nil byte). cbn iota zeta.
  change (unitMap (to_string [Byte.x73])) with (Some (10 ^ 9)). cbn iota zeta.
  change (2 ^ 63 / 10 ^ 9) with 9223372036. change (0 <? 0) with false. cbn iota.
  destruct (n <=? 9223372036) eqn:Em.
  - replace (9223372036 <? n) with false by lia. by replace (2 ^ 63 <? n * 10 ^ 9) with false by lia.
  - by replace (9223372036 <? n) with true by lia.
Qed.

(** Whole seconds are read back, up to the largest that fit. *)
Lemma ParseDuration_seconds n :
  0 <= n -> ParseDuration (Itoa n +:+ "s") = if n <=? 9223372036 then Some (n * 10 ^ 9) else None.
Proof.
  intros Hn. destruct (decide (n = 0)) as [->|Hn0]; [by vm_compute|].
  destruct (Itoa_digits n "s" Hn) as (b & t & E & Hb). unfold ParseDuration.
  assert (split_sign (of_string (Itoa n +:+ "s")) = (false, b :: t ++ of_string "s")) as ->.
  { rewrite E. unfold is_digit in Hb. cbn [split_sign]. by replace (byte_Z b =? 43) with false by lia;
      replace (byte_Z b =? 45) with false by lia. }
  rewrite decide_False.
  2: { intros Eb. apply (f_equal length) in Eb. cbn in Eb. rewrite length_app in Eb. cbn in Eb. lia. }
  cbn [length parse_terms]. change (of_string "s") with [Byte.x73] in *. rewrite (parse_term_seconds b t n Hb).
  - destruct (n <=? 9223372036) eqn:Em; [|done]. rewrite Z.add_0_l. cbv zeta.
    replace (2 ^ 63 <? n * 10 ^ 9) with false by lia.
    destruct (length (t ++ [Byte.x73])); cbn [parse_terms]; by replace (2 ^ 63 - 1 <? n * 10 ^ 9) with false by lia.
  - rewrite <-E. destruct (n <=? 2 ^ 63) eqn:Eq; [by rewrite leading_int_Itoa by lia|].
    rewrite Itoa_go by lia. apply leading_int_big. lia.
Qed.
