(* ===== verification/GoFlag.v ===== *)
(** * GoFlag: the flag package

    [FlagSet.Parse] of a set made with [flag.ExitOnError], over the flags that
    a command defines: boolean flags and flags with a value. *)
From Stdlib Require Import ZArith Lia.
From stdpp Require Import base strings list.
From S2P Require Import Prelude GoStrings.
Local Open Scope Z_scope.

(** [strconv.ParseBool] *)
Definition ParseBool (s : string) : option bool :=
  if decide (s ∈ ["1"; "t"; "T"; "true"; "TRUE"; "True"]) then Some true
  else if decide (s ∈ ["0"; "f"; "F"; "false"; "FALSE"; "False"]) then Some false
  else None.

(** A flag: its name and the field of the configuration [C] it sets. *)
Inductive flag (C : Type) :=
| StringVar (name : string) (set : C -> string -> C)
| BoolVar (name : string) (set : C -> bool -> C).
Arguments StringVar {C}. Arguments BoolVar {C}.

Definition flag_name {C} (f : flag C) : string :=
  match f with StringVar n _ | BoolVar n _ => n end.

(** An argument as [flag] reads it. *)
Inductive flag_arg := NoFlag | EndOfFlags | BadFlag | Flag (name : string) (value : option string).

(** The name up to the first [=], and the value after it. *)
Fixpoint split_value (bs : bytes) : bytes * option bytes :=
  match bs with
  | [] => ([], None)
  | b :: t => if byte_Z b =? 61 then ([], Some t) else let '(n, v) := split_value t in (b :: n, v)
  end.

Definition read_name (bs : bytes) : flag_arg :=
  match bs with
  | [] => BadFlag
  | b :: t =>
    if (byte_Z b =? 45) || (byte_Z b =? 61) then BadFlag
    else let '(n, v) := split_value t in Flag (to_string (b :: n)) (to_string <$> v)
  end.

Definition read_flag (s : string) : flag_arg :=
  match of_string s with
  | d :: c :: rest =>
    if byte_Z d =? 45 then
      if byte_Z c =? 45 then match rest with [] => EndOfFlags | _ => read_name rest end
      else read_name (c :: rest)
    else NoFlag
  | _ => NoFlag
  end.

(** The configuration and the arguments that are left, or the exit status: 0
    after a request for help, 2 after an error. *)
Fixpoint Parse {C} (flags : list (flag C)) (args : list string) (c : C) : (C * list string) + Z :=
  match args with
  | [] => inl (c, [])
  | s :: t =>
    match read_flag s with
    | NoFlag => inl (c, args)
    | EndOfFlags => inl (c, t)
    | BadFlag => inr 2
    | Flag name value =>
      match filter (fun f => flag_name f = name) flags with
      | BoolVar _ set :: _ =>
        match ParseBool (default "true" value) with
        | Some b => Parse flags t (set c b)
        | None => inr 2
        end
      | StringVar _ set :: _ =>
        match value, t with
        | Some v, _ => Parse flags t (set c v)
        | None, v :: t => Parse flags t (set c v)
        | None, [] => inr 2
        end
      | [] => if decide (name = "help" \/ name = "h") then inr 0 else inr 2
      end
    end
  end.
