(* ===== verification/DuhCmd.v ===== *)
(** * DuhCmd: cmd/duh/main.go

    The command [duh]: the documents of a YAML file, separated by lines of
    three dashes, are sent to a service one after the other.  The process is a
    monad of the world, the output and an exit status.  The values that yaml.v3
    builds and their JSON are third-party data: the class [Yaml]. *)
From Stdlib Require Import ZArith Lia.
From stdpp Require Import base gmap strings list.
From S2P Require Import Prelude GoStrings GoTime GoFlag Messages Errors GoIO Scanner MediaType Http Codec StreamReader Client DemoClient.
Local Open Scope Z_scope.

(** ** The environment *)

(** A value in [map[string]interface{}]: a string, or anything else. *)
Inductive any (V : Type) := AString (s : string) | AOther (v : V).
Arguments AString {V}. Arguments AOther {V}.

Class Yaml (V : Type) := {
  yaml_Unmarshal : bytes -> gmap string (any V) + goerror;
  json_Marshal : any V -> bytes + goerror;
  json_MarshalIndent : gmap string (any V) -> bytes + goerror;
  json_Unmarshal : bytes -> Messages.Reply + goerror    (* into the generated struct Reply *)
}.

(** [http.Client.Do] on a request whose context expires after a duration. *)
Class Network (W B : Type) := {
  client_Do : W -> Z -> Request source -> W * (Response B + goerror)
}.

(** A request whose context has expired is not sent. *)
Class NetworkLaws (W B : Type) `{Network W B} := {
  expired_Do : forall w d r, d <= 0 -> exists e, client_Do w d r = (w, inr e)
}.

(** ** The process *)
Inductive arg (V : Type) := ArgInt (n : Z) | ArgString (s : string) | ArgAny (v : any V).
Arguments ArgInt {V}. Arguments ArgString {V}. Arguments ArgAny {V}.

(** Standard output; a format and its operands printed to standard error; a
    line of the default logger; what the flag package prints about usage. *)
Inductive output (V : Type) :=
| Stdout (b : bytes)
| Stderr (format : string) (args : list (arg V))
| Logged (s : string)
| Usage.
Arguments Stdout {V}. Arguments Stderr {V}. Arguments Logged {V}. Arguments Usage {V}.

Record process_state (W V : Type) := mkProcess { p_world : W; p_output : list (output V) }.
Arguments mkProcess {W V}. Arguments p_world {W V}. Arguments p_output {W V}.

(** [inr code]: [os.Exit(code)]. *)
Definition P (W V A : Type) : Type := process_state W V -> process_state W V * (A + Z).

Section Monad.
Context {W V : Type}.
Definition ret {A} (a : A) : P W V A := fun s => (s, inl a).
Definition bind {A C} (m : P W V A) (k : A -> P W V C) : P W V C :=
  fun s => match m s with (s, inl a) => k a s | (s, inr code) => (s, inr code) end.
Definition os_Exit {A} (code : Z) : P W V A := fun s => (s, inr code).
Definition print (o : output V) : P W V unit :=
  fun s => (mkProcess (p_world s) (p_output s ++ [o]), inl tt).
Definition effect {A} (f : W -> W * A) : P W V A :=
  fun s => let '(w, a) := f (p_world s) in (mkProcess w (p_output s), inl a).
End Monad.

Notation "'do!' x := m 'in' k" := (bind m (fun x => k))
  (at level 10, x pattern, m at level 100, k at level 200) : go_scope.
Notation "m ';!' k" := (bind m (fun _ => k)) (at level 60, right associativity) : go_scope.

(** ** The flags *)
Record config := mkConfig { FileName : string; Address : string; Timeout : string; Verbose : bool }.

Definition default_config : config := mkConfig "" "localhost:8080" "10s" false.

Definition set_FileName (c : config) (n : string) : config := mkConfig n (Address c) (Timeout c) (Verbose c).

(** The flags of [main]. *)
Definition duh_flags : list (flag config) :=
  [StringVar "address" (fun c v => mkConfig (FileName c) v (Timeout c) (Verbose c));
   StringVar "timeout" (fun c v => mkConfig (FileName c) (Address c) v (Verbose c));
   BoolVar "verbose" (fun c b => mkConfig (FileName c) (Address c) (Timeout c) b)].

Definition parse_flags (args : list string) : (config * list string) + Z := Parse duh_flags args default_config.

Definition parseTimeout (s : string) : Z := default 0 (ParseDuration s).

(** ** The command *)
Section Command.
Context `{FmtFallback, BufferGrowth, URLParser}.
Context {W V B : Type} `{Yaml V, Network W B, StreamBody B}.
Local Abbreviation P := (P W V).

Definition checkErr (err : option goerror) (format : string) (a : list (arg V)) : P unit :=
  match err with
  | None => ret tt
  | Some e => print (Stderr (format +:+ ": " +:+ error_text e +:+ newline) a) ;! os_Exit 1
  end.

Definition fail {A} (format : string) (a : list (arg V)) : P A :=
  print (Stderr (format +:+ newline) a) ;! os_Exit 1.

(** A result whose error is checked. *)
Definition checked {A} (r : A + goerror) (format : string) (a : list (arg V)) : P A :=
  match r with
  | inl x => ret x
  | inr e => checkErr (Some e) format a ;! os_Exit 1
  end.

(** The error of a response that is not 200.  [io.ReadAll]: its error is
    ignored. *)
Definition response_error (r : Request source) (resp : Response B) : goerror :=
  let '(_, (b, _)) := io_Copy [] (Resp_Body resp) in
  match json_Unmarshal b with
  | inr _ => NewInfraError r resp b
  | inl reply => NewReplyError r resp reply
  end.

(** [timeout]: when the context expires. *)
Definition sendRequest (timeout : Z) (c : config) (api : string) (req : any V) : P (option goerror) :=
  match json_Marshal req with
  | inr err => ret (Some (NewClientError "while marshaling request payload: %w" (Some err) None))
  | inl payload =>
    match NewPostRequest ("http://" +:+ Address c +:+ api) payload with
    | inr err => ret (Some (NewClientError "" (Some err) None))
    | inl r =>
      let r := set_header r "Content-Type" ContentTypeJSON in
      do! resp := effect (fun w => client_Do w timeout r) in
      match resp with
      | inr err => ret (Some (NewClientError "" (Some err) (request_details r)))
      | inl resp =>
        if negb (StatusCode resp =? CodeOK) then ret (Some (response_error r resp))
        else if Verbose c then
          let '(_, (b, err)) := io_Copy [] (Resp_Body resp) in
          print (Stdout b) ;! checkErr err "while reading response body" [] ;! ret None
        else ret None
      end
    end
  end.

Definition process (c : config) (doc : bytes) (idx : Z) : P unit :=
  if decide (TrimSpace (to_string doc) = "") then ret tt
  else
    do! obj := checked (yaml_Unmarshal doc) "while parsing YAML at '%d'" [ArgInt idx] in
    (if Verbose c then
       do! jsonData := checked (json_MarshalIndent obj) "error converting YAML to JSON at '%d'" [ArgInt idx] in
       print (Stdout (jsonData ++ of_string newline))
     else ret tt) ;!
    match obj !! "api" with
    | None => fail "expected 'api' field at '%d', but found none" [ArgInt idx]
    | Some (AOther v) =>
      fail "expected 'api' field to be of type string at '%d', but is '%v'" [ArgInt idx; ArgAny (AOther v)]
    | Some (AString api) =>
      match obj !! "resource" with
      | None => fail "expected 'resource' field at '%d', but found none" [ArgInt idx]
      | Some resource =>
        do! err := sendRequest (parseTimeout (Timeout c)) c api resource in
        checkErr err "during sendRequest()" [] ;!
        print (Stdout (of_string (newline +:+ "[" +:+ Itoa idx +:+ "] OK" +:+ newline)))
      end
    end.

(** A line of the file: the state is the index of the document, its lines so
    far and the process. *)
Definition main_line (c : config) (st : Z * bytes * process_state W V) (line : bytes)
    : (Z * bytes * process_state W V) + (process_state W V * Z) :=
  let '(idx, buf, s) := st in
  if decide (to_string line = "---") then
    match process c buf idx s with
    | (s, inl _) => inl (idx + 1, [], s)
    | (s, inr code) => inr (s, code)
    end
  else inl (idx, buf ++ line ++ of_string newline, s).

Definition exit_status (r : process_state W V * (unit + Z)) : process_state W V * Z :=
  match r with (s, inl _) => (s, 0) | (s, inr code) => (s, code) end.

Context {R : Type} `{FiniteReader R} (os_Open : string -> R + goerror).

(** [main] once the flags are read: the process when it ends and its exit
    status ([None] never happens). *)
Definition main_file (c : config) (s : process_state W V) : option (process_state W V * Z) :=
  match os_Open (FileName c) with
  | inr err => Some (exit_status (checkErr (Some err) "Error opening file" [] s))
  | inl file =>
    match for_scan (main_line c) (S (io_pending file)) file NewScanner (0, [], s) with
    | None => None
    | Some (inr e) => Some e
    | Some (inl (idx, buf, s, err)) =>
      Some (exit_status
        ((process c buf idx ;!
          checkErr err "while scanning '%s'" [ArgString (FileName c)] ;!
          print (Stdout (of_string newline))) s))
    end
  end.

Definition main (args : list string) (s : process_state W V) : option (process_state W V * Z) :=
  match parse_flags args with
  | inr code => Some (exit_status ((print Usage ;! os_Exit code) s))
  | inl (c, []) =>
    Some (exit_status ((print (Logged "path to yaml file is required") ;! print Usage ;! os_Exit 1) s))
  | inl (c, name :: _) => main_file (set_FileName c name) s
  end.

(** ** The specification *)

(** The documents of a file: its lines up to a line of three dashes, the last
    one up to the end. *)
Fixpoint documents (buf : bytes) (lines : list bytes) : list bytes :=
  match lines with
  | [] => [buf]
  | l :: t => if decide (to_string l = "---") then buf :: documents [] t
              else documents (buf ++ l ++ of_string newline) t
  end.

(** The documents are processed in order, each with its index. *)
Fixpoint process_all (c : config) (idx : Z) (docs : list bytes) : P unit :=
  match docs with
  | [] => ret tt
  | d :: t => process c d idx ;! process_all c (idx + 1) t
  end.
End Command.
