(* ===== verification/DuhSpec.v ===== *)
(** * DuhSpec: the theorems on the duh command

    What a run does is processing the documents of the file in order; what
    processing a document does; the timeout flag. *)
From Stdlib Require Import ZArith Lia.
From stdpp Require Import base gmap strings list.
From S2P Require Import Prelude GoStrings GoTime GoFlag Messages Errors GoIO Scanner MediaType Http Codec.
From S2P Require Import StreamReader TimedBody Client DemoClient DuhCmd.
From S2P Require Import ReferenceCodec.
Local Open Scope Z_scope.

Section Documents.
Context `{FmtFallback, BufferGrowth, URLParser}.
Context {W V B : Type} `{Yaml V, Network W B, StreamBody B}.
Implicit Types (c : config) (s : process_state W V).

(** The loop over the lines, then the last document, is the loop over the
    documents. *)
Lemma main_line_documents c (k : P W V unit) : forall ls idx buf s,
  match for_lines (main_line c) ls (idx, buf, s) with
  | inl (idx', buf', s') => exit_status ((process c buf' idx' ;! k) s')
  | inr e => e
  end = exit_status ((process_all c idx (documents buf ls) ;! k) s).
Proof.
  induction ls as [|l t IH]; intros idx buf s; cbn [for_lines documents process_all].
  - unfold bind. destruct (process c buf idx s) as [s' [[]|code]]; done.
  - cbn [main_line]. destruct (decide (to_string l = "---")).
    + cbn [process_all]. unfold bind at 1. destruct (process c buf idx s) as [s' [[]|code]] eqn:E.
      * rewrite IH. unfold bind. by rewrite E.
      * cbn. unfold bind. by rewrite E.
    + apply IH.
Qed.

Context {R : Type} `{ReaderSpec R} (os_Open : string -> R + goerror).

Lemma main_file_documents (P : R -> Prop) c s file ts err :
  eager P -> P file -> os_Open (FileName c) = inl file -> cut_at (raw_lines (rd_bytes file)) ts err (rd_end file) ->
  main_file os_Open c s =
    Some (exit_status ((process_all c 0 (documents [] ts) ;!
      checkErr err "while scanning '%s'" [ArgString (FileName c)] ;! print (Stdout (of_string newline))) s)).
Proof.
  intros HP Hf Ho Hcut. unfold main_file. rewrite Ho.
  pose proof (lines_of_spec P file ts err HP Hf Hcut) as Hl. unfold lines_of in Hl.
  rewrite (for_scan_all _ _ _ _ _ _ _ Hl).
  rewrite <-(main_line_documents c _ ts 0 [] s). destruct (for_lines (main_line c) ts (0, [], s)) as [[[idx buf] s']|e]; done.
Qed.
End Documents.

(** The documents and their separators make up the lines. *)
Fixpoint with_separators (docs : list bytes) : bytes :=
  match docs with
  | [] => []
  | [d] => d
  | d :: t => d ++ of_string ("---" +:+ newline) ++ with_separators t
  end.

Lemma documents_not_nil buf ls : documents buf ls <> [].
Proof. revert buf. induction ls as [|l t IH]; intros buf; cbn; [done|]. case_decide; [done|apply IH]. Qed.

Lemma documents_text ls : forall buf,
  with_separators (documents buf ls) = buf ++ concat ((fun l => l ++ of_string newline) <$> ls).
Proof.
  induction ls as [|l t IH]; intros buf; cbn [documents fmap list_fmap concat]; [by rewrite app_nil_r|].
  case_decide as E.
  - cbn [with_separators]. destruct (documents [] t) as [|d ds] eqn:Ed; [by destruct (documents_not_nil [] t)|].
    rewrite <-Ed, IH. rewrite <-(of_string_to_string l), E. by rewrite of_string_app, <-app_assoc.
  - by rewrite IH, <-!app_assoc.
Qed.

Section Properties.
Context `{FmtFallback, BufferGrowth, URLParser}.
Context {W V B : Type} `{Yaml V, Network W B, StreamBody B}.
Context {R : Type} `{ReaderSpec R} (os_Open : string -> R + goerror).
Implicit Types (c : config) (s : process_state W V).

(** C38: a run of duh: the lines of the file are the documents with their
    separators; the run is the processing of every document in order, each
    with its index, up to the first that fails, then the newline and status 0.
    A line of more than 64 KiB ends the scan: the lines before it are still
    processed, the last document cut off there, and only then the error is
    reported with status 1. *)
Theorem duh_processes_documents (P : R -> Prop) args c name rest s file ts err :
  parse_flags args = inl (c, name :: rest) -> os_Open name = inl file ->
  eager P -> P file -> cut_at (raw_lines (rd_bytes file)) ts err (rd_end file) ->
  with_separators (documents [] ts) = concat ((fun l => l ++ of_string newline) <$> ts) /\
  main os_Open args s =
    Some (exit_status ((process_all (set_FileName c name) 0 (documents [] ts) ;!
      checkErr err "while scanning '%s'" [ArgString name] ;! print (Stdout (of_string newline))) s)).
Proof.
  intros Hf Ho HP Hp Hcut. split; [apply documents_text|]. unfold main. rewrite Hf.
  by apply (main_file_documents os_Open P (set_FileName c name) s file).
Qed.

(** The request of a document. *)
Definition doc_request c (doc : bytes) : option (Request source) :=
  match yaml_Unmarshal doc with
  | inr _ => None
  | inl obj =>
    match obj !! "api", obj !! "resource" with
    | Some (AString api), Some resource =>
      match json_Marshal resource with
      | inr _ => None
      | inl payload =>
        match NewPostRequest ("http://" +:+ Address c +:+ api) payload with
        | inr _ => None
        | inl r => Some (set_header r "Content-Type" ContentTypeJSON)
        end
      end
    | _, _ => None
    end
  end.

Definition blank (doc : bytes) : Prop := TrimSpace (to_string doc) = "".

(** The documents from index [idx] on, sent one after the other to a service
    that answers each with 200: the world, and the indices reported. *)
Inductive all_sent c : Z -> list bytes -> W -> W -> list Z -> Prop :=
| sent_none idx w : all_sent c idx [] w w []
| sent_blank idx d docs w w' ids :
    blank d -> all_sent c (idx + 1) docs w w' ids -> all_sent c idx (d :: docs) w w' ids
| sent_doc idx d docs r w resp w1 w' ids :
    ~ blank d -> doc_request c d = Some r -> client_Do w (parseTimeout (Timeout c)) r = (w1, inl resp) ->
    StatusCode resp = CodeOK -> all_sent c (idx + 1) docs w1 w' ids -> all_sent c idx (d :: docs) w w' (idx :: ids).

Definition ok_line (idx : Z) : output V := Stdout (of_string (newline +:+ "[" +:+ Itoa idx +:+ "] OK" +:+ newline)).

Lemma bind_ok {A C} (m : P W V A) (k : A -> P W V C) s s1 a : m s = (s1, inl a) -> bind m k s = k a s1.
Proof. unfold bind. by intros ->. Qed.

Lemma process_sent c doc idx r w resp w1 out :
  Verbose c = false -> ~ blank doc -> doc_request c doc = Some r ->
  client_Do w (parseTimeout (Timeout c)) r = (w1, inl resp) -> StatusCode resp = CodeOK ->
  process c doc idx (mkProcess w out) = (mkProcess w1 (out ++ [ok_line idx]), inl tt).
Proof.
  intros Hv Hb Hr Hdo Hst. unfold process. rewrite decide_False by done. unfold doc_request in Hr.
  destruct (yaml_Unmarshal doc) as [obj|]; [|done]. rewrite Hv. unfold checked.
  rewrite (bind_ok (ret obj) _ _ _ obj eq_refl), (bind_ok (ret tt) _ _ _ tt eq_refl).
  destruct (obj !! "api") as [[api|]|]; [|done..]. destruct (obj !! "resource") as [resource|]; [|done].
  rewrite (bind_ok (sendRequest _ c api resource) _ _ (mkProcess w1 out) None); [reflexivity|]. unfold sendRequest.
  destruct (json_Marshal resource) as [payload|]; [|done]. destruct (NewPostRequest _ payload) as [r0|]; [|done].
  injection Hr as <-. unfold bind, effect. cbn [p_world]. rewrite Hdo, Hst, Hv. reflexivity.
Qed.

Lemma process_all_sent c idx docs w w' ids :
  Verbose c = false -> all_sent c idx docs w w' ids -> forall out,
  process_all c idx docs (mkProcess w out) = (mkProcess w' (out ++ (ok_line <$> ids)), inl tt).
Proof.
  intros Hv. induction 1 as [idx w|idx d docs w w' ids Hb _ IH|idx d docs r w resp w1 w' ids Hb Hr Hdo Hst _ IH]; intros out;
    cbn [process_all].
  - by rewrite app_nil_r.
  - unfold bind, process. rewrite decide_True by done. apply IH.
  - rewrite (bind_ok (process c d idx) _ _ _ _ (process_sent c d idx r w resp w1 out Hv Hb Hr Hdo Hst)).
    rewrite IH, <-app_assoc. done.
Qed.

(** C39: a file whose documents are all well formed and answered with 200, on
    a command line without -verbose: duh posts the resource of every document that is not blank to the path of its
    api, in order, reports each with its index and exits with status 0. *)
Theorem duh_sends_documents (P : R -> Prop) args c name rest w out file ts w' ids :
  parse_flags args = inl (c, name :: rest) -> Verbose c = false -> os_Open name = inl file ->
  eager P -> P file -> cut_at (raw_lines (rd_bytes file)) ts None (rd_end file) ->
  all_sent (set_FileName c name) 0 (documents [] ts) w w' ids ->
  main os_Open args (mkProcess w out) =
    Some (mkProcess w' (out ++ (ok_line <$> ids) ++ [Stdout (of_string newline)]), 0).
Proof.
  intros Hf Hv Ho HP Hp Hcut Hs. unfold main. rewrite Hf.
  rewrite (main_file_documents os_Open P (set_FileName c name) _ file ts None HP Hp Ho Hcut). f_equal.
  unfold exit_status, bind at 1. rewrite (process_all_sent (set_FileName c name) _ _ _ _ _ Hv Hs).
  unfold bind, checkErr, ret, print. cbn. by rewrite app_assoc.
Qed.

(** ** The timeout *)

(** A computation that leaves the world alone. *)
Definition offline {A} (m : P W V A) : Prop := forall s, p_world (fst (m s)) = p_world s.

Lemma offline_bind {A C} (m : P W V A) (k : A -> P W V C) :
  offline m -> (forall a, offline (k a)) -> offline (bind m k).
Proof.
  intros Hm Hk s. unfold bind. specialize (Hm s). destruct (m s) as [s' [a|code]]; cbn in *; [|done].
  by rewrite Hk.
Qed.

Lemma offline_print o : offline (print o).
Proof. done. Qed.
Lemma offline_ret {A} (a : A) : offline (ret a).
Proof. done. Qed.
Lemma offline_exit {A} code : offline (os_Exit (A := A) code).
Proof. done. Qed.
Hint Resolve offline_print offline_ret offline_exit : core.

Lemma offline_checkErr e f a : offline (checkErr e f a).
Proof. destruct e; [|done]. by apply offline_bind. Qed.
Lemma offline_fail {A} f a : offline (fail (A := A) f a).
Proof. by apply offline_bind. Qed.
Lemma offline_checked {A} (r : A + goerror) f a : offline (checked r f a).
Proof. destruct r; [done|]. apply offline_bind; [apply offline_checkErr|done]. Qed.

Context `{!NetworkLaws W B}.

Lemma offline_sendRequest timeout c api req : timeout <= 0 -> offline (sendRequest timeout c api req).
Proof.
  intros Ht. unfold sendRequest. destruct (json_Marshal req); [|done]. destruct (NewPostRequest _ _) as [r|]; [|done].
  intros s. unfold bind, effect. destruct (expired_Do (p_world s) timeout (set_header r "Content-Type" ContentTypeJSON) Ht)
    as [e ->]. done.
Qed.

Lemma offline_process c doc idx : parseTimeout (Timeout c) <= 0 -> offline (process c doc idx).
Proof.
  intros Ht. unfold process. destruct (decide _); [done|].
  apply offline_bind; [apply offline_checked|]. intros obj. apply offline_bind.
  { destruct (Verbose c); [|done]. apply offline_bind; [apply offline_checked|done]. }
  intros []. destruct (obj !! "api") as [[api|v]|]; [|apply offline_fail..].
  destruct (obj !! "resource") as [resource|]; [|apply offline_fail].
  apply offline_bind; [by apply offline_sendRequest|]. intros err.
  apply offline_bind; [apply offline_checkErr|done].
Qed.

Lemma offline_process_all c docs : forall idx, parseTimeout (Timeout c) <= 0 -> offline (process_all c idx docs).
Proof.
  induction docs as [|d t IH]; intros idx Ht; cbn [process_all]; [done|].
  apply offline_bind; [by apply offline_process|]. intros []. by apply IH.
Qed.

(** C40: with a timeout that is not positive, as any text that is no duration,
    duh sends nothing at all, whatever the file: the network is as before. *)
Theorem duh_expired_timeout (P : R -> Prop) args c name rest s file ts err s' code :
  parse_flags args = inl (c, name :: rest) -> os_Open name = inl file ->
  eager P -> P file -> cut_at (raw_lines (rd_bytes file)) ts err (rd_end file) ->
  ParseDuration (Timeout c) = None \/ parseTimeout (Timeout c) <= 0 ->
  main os_Open args s = Some (s', code) -> p_world s' = p_world s.
Proof.
  intros Hf Ho HP Hp Hcut Hto Hm. assert (parseTimeout (Timeout c) <= 0) as Ht
    by (destruct Hto as [E|E]; [unfold parseTimeout; rewrite E; done|done]).
  unfold main in Hm. rewrite Hf in Hm.
  rewrite (main_file_documents os_Open P (set_FileName c name) s file ts err HP Hp Ho Hcut) in Hm.
  injection Hm as Hm. unfold exit_status in Hm. set (m := bind _ _) in Hm.
  assert (offline m) as Hoff.
  { apply offline_bind; [by apply offline_process_all|]. intros []. apply offline_bind; [apply offline_checkErr|done]. }
  specialize (Hoff s). destruct (m s) as [s1 [[]|code1]]; injection Hm as <- _; exact Hoff.
Qed.
End Properties.

(** A timeout of whole seconds is taken as such, up to the largest number
    whose nanoseconds fit in an int64; a larger one counts as no timeout at
    all, 0. *)
Theorem parseTimeout_seconds n :
  0 <= n -> parseTimeout (Itoa n +:+ "s") = if n <=? 9223372036 then n * 10 ^ 9 else 0.
Proof. intros Hn. unfold parseTimeout. rewrite ParseDuration_seconds by done. by destruct (n <=? _). Qed.

(** ** Witnesses: a file system of one file, a service that answers 200 *)
#[local] Instance toy_urls : URLParser :=
  {| url_Parse s := inl (s, to_string (drop 7 (of_string s))) |}.

(** The api is the first line from its sixth byte, the resource the second. *)
#[local] Instance toy_yaml : Yaml unit := {|
  yaml_Unmarshal := fun b =>
    match raw_lines b with
    | [api; resource] =>
      inl (<["api" := AString (to_string (drop 5 api))]> (<["resource" := AString (to_string resource)]> ∅))
    | _ => inr (ErrString "yaml: no")
    end;
  json_Marshal := fun v => match v with AString s => inl (of_string s) | AOther _ => inr (ErrString "json: no") end;
  json_MarshalIndent := fun _ => inl [];
  json_Unmarshal := fun _ => inr (ErrString "json: no")
|}.

(** The world is the list of the paths that were called. *)
#[local] Instance toy_network : Network (list string) (Body source) := {|
  client_Do := fun w timeout r =>
    if timeout <=? 0 then (w, inr (ErrSentinel DeadlineExceeded))
    else (w ++ [URL_Path r], inl (mkResponse 200 "200 OK" ∅ (mkBody [] false)))
|}.

#[local] Instance toy_network_laws : NetworkLaws (list string) (Body source).
Proof.
  split. intros w d r Hd. exists (ErrSentinel DeadlineExceeded). cbn [client_Do toy_network].
  by replace (d <=? 0) with true by lia.
Qed.

Definition toy_line (s : string) : bytes := of_string (s +:+ newline).
Definition toy_file : source :=
  [Chunk (toy_line "api: /v1/a"); Chunk (toy_line "one"); Chunk (toy_line "---");
   Chunk (toy_line "---"); Chunk (toy_line "api: /v1/b" ++ toy_line "two")].
Definition toy_Open (name : string) : source + goerror :=
  if decide (name = "f.yaml") then inl toy_file else inr (ErrString "no such file").

Definition toy_lines : list bytes :=
  of_string <$> ["api: /v1/a"; "one"; "---"; "---"; "api: /v1/b"; "two"].

Lemma toy_cut : cut_at (raw_lines (rd_bytes toy_file)) toy_lines None (rd_end toy_file).
Proof.
  assert (raw_lines (rd_bytes toy_file) = toy_lines) as -> by (vm_compute; reflexivity).
  assert (toy_lines = dropCR <$> toy_lines) as E by (vm_compute; reflexivity). rewrite E at 2.
  apply (cut_at_short _ (ErrSentinel EOF)). repeat (apply Forall_cons; split; [reflexivity|]). constructor.
Qed.

Lemma toy_nonempty : Forall chunk_nonempty toy_file.
Proof. repeat constructor; done. Qed.

Lemma duh_processes_documents_witness :
  documents [] toy_lines = [toy_line "api: /v1/a" ++ toy_line "one"; []; toy_line "api: /v1/b" ++ toy_line "two"] /\
  main toy_Open ["-timeout"; "5s"; "f.yaml"] (mkProcess [] []) =
    Some (exit_status ((process_all (mkConfig "f.yaml" "localhost:8080" "5s" false) 0 (documents [] toy_lines) ;!
      ret tt ;! print (Stdout (of_string newline))) (mkProcess [] []))).
Proof.
  split; [vm_compute; reflexivity|].
  apply (duh_processes_documents toy_Open (Forall chunk_nonempty) ["-timeout"; "5s"; "f.yaml"]
    (mkConfig "" "localhost:8080" "5s" false) "f.yaml" [] _ toy_file toy_lines None);
    [reflexivity|reflexivity|apply source_eager|apply toy_nonempty|apply toy_cut].
Defined.

Lemma duh_sends_documents_witness :
  main toy_Open ["f.yaml"] (mkProcess [] []) =
    Some (mkProcess ["localhost:8080/v1/a"; "localhost:8080/v1/b"]
      [ok_line 0; ok_line 2; Stdout (of_string newline)], 0).
Proof.
  refine (duh_sends_documents toy_Open (Forall chunk_nonempty) ["f.yaml"] default_config "f.yaml" [] [] [] toy_file toy_lines _
    [0; 2] _ _ _ _ _ _ _); [reflexivity|reflexivity|reflexivity|apply source_eager|apply toy_nonempty|apply toy_cut|].
  change (documents [] toy_lines) with [toy_line "api: /v1/a" ++ toy_line "one"; []; toy_line "api: /v1/b" ++ toy_line "two"].
  eapply sent_doc; [vm_compute; discriminate|vm_compute; reflexivity|vm_compute; reflexivity|reflexivity|].
  eapply sent_blank; [vm_compute; reflexivity|].
  eapply sent_doc; [vm_compute; discriminate|vm_compute; reflexivity|vm_compute; reflexivity|reflexivity|constructor].
Defined.

Lemma duh_expired_timeout_witness :
  ParseDuration "10" = None /\
  exists s', main toy_Open ["--timeout=10"; "f.yaml"] (mkProcess [] []) = Some (s', 1) /\ p_world s' = [].
Proof.
  split; [vm_compute; reflexivity|].
  destruct (main toy_Open ["--timeout=10"; "f.yaml"] (mkProcess [] [])) as [[s' code]|] eqn:E;
    [|exfalso; vm_compute in E; discriminate E].
  exists s'. split.
  - f_equal. f_equal. vm_compute in E. by injection E.
  - refine (duh_expired_timeout toy_Open (Forall chunk_nonempty) ["--timeout=10"; "f.yaml"]
      (mkConfig "" "localhost:8080" "10" false) "f.yaml" [] _ toy_file toy_lines None s' code _ _ _ _ _ _ E);
      [reflexivity|reflexivity|apply source_eager|apply toy_nonempty|apply toy_cut|left; vm_compute; reflexivity].
Defined.

Lemma parseTimeout_seconds_witness : 0 <= 10 /\ parseTimeout "10s" = 10 ^ 10.
Proof. split; [lia|]. exact (parseTimeout_seconds 10 ltac:(lia)). Defined.
