(* ===== verification/DemoMain.v ===== *)
(** * DemoMain: cmd/demo/main.go

    The command that serves the demo: a goroutine listens, the main goroutine
    waits for a signal and shuts the server down.  The two and the environment
    (the network, the signals, the shutdown) are a step relation; a call of
    [os.Exit] ends both. *)
From Stdlib Require Import ZArith Lia.
From stdpp Require Import base gmap strings list relations.
From S2P Require Import Prelude GoStrings GoFlag Messages Errors.
Local Open Scope Z_scope.

(** ** The flags *)
Record config := mkConfig { Address : string; Verbose : bool }.

Definition default_config : config := mkConfig "localhost:8080" false.

Definition demo_flags : list (flag config) :=
  [StringVar "address" (fun c v => mkConfig v (Verbose c)); BoolVar "verbose" (fun c b => mkConfig (Address c) b)].

(** ** The process *)

(** The default logger, standard error (the format and its operand). *)
Inductive output := Logged (s : string) | Stderr (format : string) (operand : option goerror).

(** The goroutine that listens: before, in and after
    [server.ListenAndServe]; in [fail], between the message and [os.Exit];
    at its end. *)
Inductive listening := LStart | LServing | LReturned (err : goerror) | LFailing | LEnded.

(** The main goroutine: at [<-stop], before and in [server.Shutdown], in
    [checkErr] between the message and [os.Exit], at its end. *)
Inductive stopping := MWait | MStopping | MShutdown | MFailing | MDone.

Record process := mkProcess {
  d_listener : listening;
  d_main : stopping;
  d_output : list output;
  d_exit : option Z             (* the exit status of the process *)
}.

(** [server.Shutdown] has been called. *)
Definition shut_down (m : stopping) : bool :=
  match m with MWait | MStopping => false | MShutdown | MFailing | MDone => true end.

Definition is_ErrServerClosed (e : goerror) : option unit :=
  match e with ErrSentinel ErrServerClosed => Some tt | _ => None end.

(** [err != nil && !errors.Is(err, http.ErrServerClosed)], [err] non-nil. *)
Definition listen_failed (err : goerror) : bool :=
  match errors_As is_ErrServerClosed err with Some _ => false | None => true end.

(** What [checkErr] and [fail] write before [os.Exit(1)]. *)
Definition checkErr (err : goerror) (format : string) : output :=
  Stderr (format +:+ ": " +:+ error_text err +:+ newline) None.
Definition fail (format : string) (operand : goerror) : output :=
  Stderr (format +:+ newline) (Some operand).

Definition listening_line (c : config) : output := Logged ("Listening on " +:+ Address c +:+ "...." +:+ newline).
Definition stopping_line : output := Logged ("Shutting down the service..." +:+ newline).
Definition complete_line : output := Logged ("Service shutdown complete" +:+ newline).

(** One action of the listening goroutine.  ListenAndServe always returns an
    error: [ErrServerClosed] once the server is shut down, another one when
    the network fails. *)
Inductive listen_step (c : config) (m : stopping) : listening -> listening -> list output -> option Z -> Prop :=
| listen_log : listen_step c m LStart LServing [listening_line c] None
| listen_network err : listen_failed err = true -> listen_step c m LServing (LReturned err) [] None
| listen_closed : shut_down m = true -> listen_step c m LServing (LReturned (ErrSentinel ErrServerClosed)) [] None
| listen_judge err : listen_failed err = true ->
    listen_step c m (LReturned err) LFailing [fail "ListenAndServe(): %v" err] None
| listen_end err : listen_failed err = false -> listen_step c m (LReturned err) LEnded [] None
| listen_exit : listen_step c m LFailing LFailing [] (Some 1).

(** One action of the main goroutine. *)
Inductive main_step : stopping -> stopping -> list output -> option Z -> Prop :=
| main_signal : main_step MWait MStopping [stopping_line] None
| main_shutdown : main_step MStopping MShutdown [] None
| main_failed err : main_step MShutdown MFailing [checkErr err "during service shutdown"] None
| main_complete : main_step MShutdown MDone [complete_line] None
| main_exit : main_step MFailing MFailing [] (Some 1)
| main_return : main_step MDone MDone [] (Some 0).

Inductive step (c : config) (p : process) : process -> Prop :=
| step_listener l out e :
    d_exit p = None -> listen_step c (d_main p) (d_listener p) l out e ->
    step c p (mkProcess l (d_main p) (d_output p ++ out) e)
| step_main m out e :
    d_exit p = None -> main_step (d_main p) m out e ->
    step c p (mkProcess (d_listener p) m (d_output p ++ out) e).

(** After the flags; a command line that is refused, or asks for help, ends
    with the status of [flag.ExitOnError]. *)
Definition main (args : list string) : (config * process) + Z :=
  match Parse demo_flags args default_config with
  | inl (c, _) => inl (c, mkProcess LStart MWait [] None)
  | inr code => inr code
  end.

(** ** The exit status *)

(** A failure of the listener, or of the shutdown. *)
Definition listen_message (o : output) : Prop :=
  exists err, listen_failed err = true /\ o = fail "ListenAndServe(): %v" err.
Definition shutdown_message (o : output) : Prop :=
  exists err, o = checkErr err "during service shutdown".

Definition failure (o : output) : Prop := listen_message o \/ shutdown_message o.

Definition is_logged (o : output) : Prop := match o with Logged _ => True | Stderr _ _ => False end.

(** What is on the outputs agrees with the places the goroutines have
    reached. *)
Record consistent (p : process) : Prop := {
  k_output : Forall (fun o => is_logged o \/ failure o) (d_output p);
  k_listener : d_listener p = LFailing <-> Exists listen_message (d_output p);
  k_failing : d_main p = MFailing <-> Exists shutdown_message (d_output p);
  k_main : d_main p <> MWait -> stopping_line ∈ d_output p;
  k_done : d_main p = MDone -> complete_line ∈ d_output p;
  k_exit : match d_exit p with
           | None => True
           | Some code => code = 0 /\ d_main p = MDone \/ code = 1 /\ (d_listener p = LFailing \/ d_main p = MFailing)
           end
}.

Lemma listen_message_spec o : listen_message o ->
  exists err, o = Stderr ("ListenAndServe(): %v" +:+ newline) (Some err).
Proof. intros (err & _ & ->). by exists err. Qed.

Lemma shutdown_message_spec o : shutdown_message o -> exists s, o = Stderr s None.
Proof. intros (err & ->). by eexists. Qed.

(** What the listening goroutine writes. *)
Lemma listen_writes c m l l' out e : listen_step c m l l' out e ->
  Forall (fun o => is_logged o \/ failure o) out /\
  (l' = LFailing <-> l = LFailing \/ Exists listen_message out) /\ ~ Exists shutdown_message out /\
  (e = None \/ e = Some 1 /\ l' = LFailing).
Proof.
  intros [ |err Hf|Hm|err Hf|err Hf| ]; rewrite ?Forall_cons, ?Exists_cons, ?Forall_nil, ?Exists_nil; cbn.
  - split; [tauto|]. split; [|split; [intros [(s & [=])%shutdown_message_spec|[]]|by left]].
    split; [done|]. intros [?|[(err & [=])%listen_message_spec|[]]]. done.
  - split; [done|]. split; [split; [done|by intros [?|[]]]|]. split; [tauto|by left].
  - split; [done|]. split; [split; [done|by intros [?|[]]]|]. split; [tauto|by left].
  - assert (listen_message (fail "ListenAndServe(): %v" err)) as Hl by by exists err.
    split; [split; [right; by left|done]|]. split; [tauto|]. split; [|by left].
    intros [(s & [=])%shutdown_message_spec|[]].
  - split; [done|]. split; [split; [done|by intros [?|[]]]|]. split; [tauto|by left].
  - split; [done|]. split; [tauto|]. split; [tauto|by right].
Qed.

(** What the main goroutine writes. *)
Lemma main_writes m m' out e : main_step m m' out e ->
  Forall (fun o => is_logged o \/ failure o) out /\
  (m' = MFailing <-> m = MFailing \/ Exists shutdown_message out) /\ ~ Exists listen_message out /\
  (m' <> MWait -> m <> MWait \/ stopping_line ∈ out) /\ (m' = MDone -> m = MDone \/ complete_line ∈ out) /\
  (e = None \/ e = Some 1 /\ m' = MFailing \/ e = Some 0 /\ m' = MDone).
Proof.
  intros [ | |err| | | ]; rewrite ?Forall_cons, ?Exists_cons, ?Forall_nil, ?Exists_nil, ?list_elem_of_singleton; cbn.
  3: assert (shutdown_message (checkErr err "during service shutdown")) as Hs by by exists err.
  3: assert (~ listen_message (checkErr err "during service shutdown")) as Hl
       by (intros (e' & [=])%listen_message_spec).
  1,4: assert (forall x, ~ shutdown_message (Logged x)) as Hs by (intros x (s & [=])%shutdown_message_spec).
  1,2: assert (forall x, ~ listen_message (Logged x)) as Hl by (intros x (s & [=])%listen_message_spec).
  all: unfold failure, stopping_line, complete_line; naive_solver.
Qed.

Lemma step_consistent c p p' : consistent p -> step c p p' -> consistent p'.
Proof.
  intros [Ho Hl Hf Hm Hd _] [l out e Ee Hs|m out e Ee Hs].
  - apply listen_writes in Hs as (Wo & Wl & Ws & We).
    split; cbn; rewrite ?Forall_app, ?Exists_app, ?elem_of_app; try tauto.
    destruct We as [->|(-> & ->)]; [done|by right; split; [|left]].
  - apply main_writes in Hs as (Wo & Wf & Wl & Wm & Wd & We).
    split; cbn; rewrite ?Forall_app, ?Exists_app, ?elem_of_app; try tauto.
    destruct We as [->|[(-> & ->)|(-> & ->)]]; [done|by right; split; [|right]|by left].
Qed.

Lemma reachable_consistent args c p0 p : main args = inl (c, p0) -> rtc (step c) p0 p -> consistent p.
Proof.
  unfold main. intros E. destruct (Parse _ _ _) as [[c' rest]|]; [|done]. injection E as -> <-. revert p.
  apply rtc_ind_r; [|intros p q _ Hs Hc; by eapply step_consistent].
  split; cbn; rewrite ?Exists_nil; done.
Qed.

(** Whatever the network, the signals and the shutdown do: status 0 comes
    only after a signal and a shutdown without error; status 1 comes with a
    message on standard error, of the listener or of the shutdown; nothing
    else is written there.  That ListenAndServe ends because of the shutdown
    is no failure. *)
Theorem demo_exit args c p0 p :
  main args = inl (c, p0) -> rtc (step c) p0 p ->
  Forall (fun o => is_logged o \/ failure o) (d_output p) /\
  match d_exit p with
  | None => True
  | Some code =>
    code = 0 /\ stopping_line ∈ d_output p /\ complete_line ∈ d_output p /\ ~ Exists shutdown_message (d_output p) \/
    code = 1 /\ Exists failure (d_output p)
  end.
Proof.
  intros Em Hr. destruct (reachable_consistent _ _ _ _ Em Hr) as [Ho Hl Hf Hm Hd He]. split; [done|].
  destruct (d_exit p) as [code|]; [|done]. destruct He as [(-> & Ed)|(-> & He)].
  - left. split; [done|]. split; [apply Hm; congruence|]. split; [by apply Hd|]. rewrite <- Hf. congruence.
  - right. split; [done|]. destruct He as [He|He]; [apply Hl in He|apply Hf in He];
      (eapply Exists_impl; [exact He|intros o]); [by left|by right].
Qed.

(** [fail] and the main goroutine race: the message of a listener that failed
    does not exclude status 0. *)
Lemma demo_race err : listen_failed err = true ->
  exists p, rtc (step default_config) (mkProcess LStart MWait [] None) p /\
    d_exit p = Some 0 /\ Exists listen_message (d_output p).
Proof.
  intros Hf. eexists. split; [|split].
  - do 3 (eapply rtc_l; [by eapply step_listener; [|constructor]|]).
    do 2 (eapply rtc_l; [by eapply step_main; [|constructor]|]).
    eapply rtc_l; [by eapply step_main; [|apply main_complete]|].
    eapply rtc_l; [by eapply step_main; [|apply main_return]|]. apply rtc_refl.
  - reflexivity.
  - apply Exists_exists. exists (fail "ListenAndServe(): %v" err). split; [|by exists err].
    cbn. set_solver.
Qed.

Lemma demo_exit_witness :
  let p := mkProcess LEnded MDone
    [Logged ("Listening on :80...." +:+ newline); stopping_line; complete_line] (Some 0) in
  main ["-address"; ":80"] = inl (mkConfig ":80" false, mkProcess LStart MWait [] None) /\
  rtc (step (mkConfig ":80" false)) (mkProcess LStart MWait [] None) p /\
  complete_line ∈ d_output p.
Proof.
  intros p. assert (rtc (step (mkConfig ":80" false)) (mkProcess LStart MWait [] None) p) as Hr.
  { eapply rtc_l; [by eapply step_listener; [|constructor]|].
    do 2 (eapply rtc_l; [by eapply step_main; [|constructor]|]).
    eapply rtc_l; [by eapply step_listener; [|apply listen_closed]|].
    eapply rtc_l; [by eapply step_listener; [|apply listen_end]|].
    eapply rtc_l; [by eapply step_main; [|apply main_complete]|].
    eapply rtc_l; [by eapply step_main; [|apply main_return]|]. apply rtc_refl. }
  split; [reflexivity|]. split; [done|].
  destruct (demo_exit ["-address"; ":80"] _ _ _ eq_refl Hr) as (_ & [(_ & _ & Hc & _)|([=] & _)]). exact Hc.
Defined.
